(** * libcaer: event translators of the eDVS and DV-Explorer drivers

    A shallow embedding of [edvsEventTranslator] (src/edvs.c) and
    [dvExplorerEventTranslator] (src/dv_explorer.c): the byte-stream
    decoders that rebuild timestamps, fill per-type event packets and
    commit packet containers to the data exchange; and of the device
    functions of src/edvs.c around the decoder (configuration, biases,
    start and stop of the data transfers).

    Conventions of the embedding:
    - C integers are [Z]; conversions ([U8T], [I32T], ...) and the
      wrap-around of fixed-width arithmetic are written out;
    - a device state is a record threaded through the decoder;
    - everything the decoder does to the outside (log calls, serial
      writes, containers handed to the data exchange, containers freed)
      is collected, in order, in a list of [out];
    - results of [malloc]/[realloc] and of [dataExchangePut] are inputs
      of the decoder: the state carries the outcomes still to come. *)

From Stdlib Require Import ZArith List Bool Lia String Ascii DecimalString.
Import ListNotations.
Local Open Scope Z_scope.

(** ** Fixed-width integers *)

Module Ints.

Definition unsigned (w z : Z) : Z := z mod 2 ^ w.
Definition signed (w z : Z) : Z := (z + 2 ^ (w - 1)) mod 2 ^ w - 2 ^ (w - 1).

Definition U8T := unsigned 8.
Definition U16T := unsigned 16.
Definition U64T := unsigned 64.
Definition I16T := signed 16.
Definition I32T := signed 32.
Definition I64T := signed 64.

Definition INT32_MAX : Z := 2147483647.
Definition INT64_MIN : Z := - 9223372036854775808.
Definition INT64_MAX : Z := 9223372036854775807.

End Ints.
Import Ints.

(** ** Events, packets and containers (libcaer/events) *)

Module Events.

Inductive special_event_type :=
| TIMESTAMP_WRAP
| TIMESTAMP_RESET
| EXTERNAL_INPUT_RISING_EDGE
| EXTERNAL_INPUT_FALLING_EDGE
| EXTERNAL_INPUT_PULSE
| EXTERNAL_GENERATOR_RISING_EDGE
| EXTERNAL_GENERATOR_FALLING_EDGE.

Record caer_polarity_event := {
  polTimestamp : Z;
  polPolarity : bool;
  polY : Z;
  polX : Z
}.

Record caer_special_event := {
  spcTimestamp : Z;
  spcType : special_event_type
}.

(** A field of an IMU sample.  The source stores floats: the 16-bit
    reading divided by the scale selected by the last scale configuration,
    or a temperature computed from the reading; they are kept as the
    integers they are computed from, [Zeroed] being the 0 of [memset]. *)
Inductive quantity :=
| Zeroed
| Accel (raw scale : Z)
| Gyro (raw scale : Z)
| Temp (raw : Z).

Record caer_imu6_event := {
  imuTimestamp : Z;
  imuAccelX : quantity; imuAccelY : quantity; imuAccelZ : quantity;
  imuGyroX : quantity; imuGyroY : quantity; imuGyroZ : quantity;
  imuTemp : quantity
}.

Definition zeroIMU6 : caer_imu6_event :=
  {| imuTimestamp := 0; imuAccelX := Zeroed; imuAccelY := Zeroed;
     imuAccelZ := Zeroed; imuGyroX := Zeroed; imuGyroY := Zeroed;
     imuGyroZ := Zeroed; imuTemp := Zeroed |}.

Definition setTimestamp v (e : caer_imu6_event) :=
  {| imuTimestamp := v; imuAccelX := imuAccelX e; imuAccelY := imuAccelY e;
     imuAccelZ := imuAccelZ e; imuGyroX := imuGyroX e; imuGyroY := imuGyroY e;
     imuGyroZ := imuGyroZ e; imuTemp := imuTemp e |}.
Definition setAccelX v (e : caer_imu6_event) :=
  {| imuTimestamp := imuTimestamp e; imuAccelX := v; imuAccelY := imuAccelY e;
     imuAccelZ := imuAccelZ e; imuGyroX := imuGyroX e; imuGyroY := imuGyroY e;
     imuGyroZ := imuGyroZ e; imuTemp := imuTemp e |}.
Definition setAccelY v (e : caer_imu6_event) :=
  {| imuTimestamp := imuTimestamp e; imuAccelX := imuAccelX e; imuAccelY := v;
     imuAccelZ := imuAccelZ e; imuGyroX := imuGyroX e; imuGyroY := imuGyroY e;
     imuGyroZ := imuGyroZ e; imuTemp := imuTemp e |}.
Definition setAccelZ v (e : caer_imu6_event) :=
  {| imuTimestamp := imuTimestamp e; imuAccelX := imuAccelX e;
     imuAccelY := imuAccelY e; imuAccelZ := v; imuGyroX := imuGyroX e;
     imuGyroY := imuGyroY e; imuGyroZ := imuGyroZ e; imuTemp := imuTemp e |}.
Definition setGyroX v (e : caer_imu6_event) :=
  {| imuTimestamp := imuTimestamp e; imuAccelX := imuAccelX e;
     imuAccelY := imuAccelY e; imuAccelZ := imuAccelZ e; imuGyroX := v;
     imuGyroY := imuGyroY e; imuGyroZ := imuGyroZ e; imuTemp := imuTemp e |}.
Definition setGyroY v (e : caer_imu6_event) :=
  {| imuTimestamp := imuTimestamp e; imuAccelX := imuAccelX e;
     imuAccelY := imuAccelY e; imuAccelZ := imuAccelZ e; imuGyroX := imuGyroX e;
     imuGyroY := v; imuGyroZ := imuGyroZ e; imuTemp := imuTemp e |}.
Definition setGyroZ v (e : caer_imu6_event) :=
  {| imuTimestamp := imuTimestamp e; imuAccelX := imuAccelX e;
     imuAccelY := imuAccelY e; imuAccelZ := imuAccelZ e; imuGyroX := imuGyroX e;
     imuGyroY := imuGyroY e; imuGyroZ := v; imuTemp := imuTemp e |}.
Definition setTemp v (e : caer_imu6_event) :=
  {| imuTimestamp := imuTimestamp e; imuAccelX := imuAccelX e;
     imuAccelY := imuAccelY e; imuAccelZ := imuAccelZ e; imuGyroX := imuGyroX e;
     imuGyroY := imuGyroY e; imuGyroZ := imuGyroZ e; imuTemp := v |}.

(** An event packet: the header fields the decoders read or raise
    (capacity, overflow epoch and the number of events, which a consumer
    goes by) and the events written so far, in slot order.  The number of
    events is raised when an event is validated (the count of valid
    events moves with it); it is kept as a plain integer. *)
Record packet (E : Type) := {
  eventCapacity : Z;
  eventTSOverflow : Z;
  eventNumber : Z;
  events : list E
}.
Arguments eventCapacity {E} _.
Arguments eventTSOverflow {E} _.
Arguments eventNumber {E} _.
Arguments events {E} _.

(** An event set in the next free slot of the packet and validated
    there ([caer*EventPacketGetEvent], the setters and
    [caer*EventValidate] on the fresh slot): the event is written and
    counted. *)
Definition appendEvent {E} (p : packet E) (e : E) : packet E :=
  {| eventCapacity := eventCapacity p;
     eventTSOverflow := eventTSOverflow p;
     eventNumber := eventNumber p + 1;
     events := events p ++ [e] |}.

(** One more event counted in the header of the packet, no slot
    touched. *)
Definition countEvent {E} (p : packet E) : packet E :=
  {| eventCapacity := eventCapacity p;
     eventTSOverflow := eventTSOverflow p;
     eventNumber := eventNumber p + 1;
     events := events p |}.

(** An event copied into the next free slot of the packet ([memcpy] to
    the slot that [caer*EventPacketGetEvent] gives), the header left as
    it is. *)
Definition copyEvent {E} (p : packet E) (e : E) : packet E :=
  {| eventCapacity := eventCapacity p;
     eventTSOverflow := eventTSOverflow p;
     eventNumber := eventNumber p;
     events := events p ++ [e] |}.

(** A packet container: one slot per event type. *)
Record container := {
  polaritySlot : option (packet caer_polarity_event);
  specialSlot : option (packet caer_special_event);
  imu6Slot : option (packet caer_imu6_event)
}.

Definition emptyContainer : container :=
  {| polaritySlot := None; specialSlot := None; imu6Slot := None |}.

Definition setPolarity (c : container) p : container :=
  {| polaritySlot := p; specialSlot := specialSlot c; imu6Slot := imu6Slot c |}.
Definition setSpecial (c : container) p : container :=
  {| polaritySlot := polaritySlot c; specialSlot := p; imu6Slot := imu6Slot c |}.
Definition setIMU6 (c : container) p : container :=
  {| polaritySlot := polaritySlot c; specialSlot := specialSlot c; imu6Slot := p |}.

Definition slotEvents {E} (s : option (packet E)) : list E :=
  match s with Some p => events p | None => [] end.

(** The number of events the header of a packet reports, 0 when the
    packet is not there. *)
Definition slotNumber {E} (s : option (packet E)) : Z :=
  match s with Some p => eventNumber p | None => 0 end.

(** The number of events a container reports: the sum over the headers
    of its packets. *)
Definition eventsNumber (c : container) : Z :=
  slotNumber (polaritySlot c) + slotNumber (specialSlot c)
  + slotNumber (imu6Slot c).

(** How many more events the header of a packet counts than were
    written to it. *)
Definition surplus {E} (p : option (packet E)) : Z :=
  slotNumber p - Z.of_nat (List.length (slotEvents p)).

(** The header of the packet counts exactly the events written to
    it. *)
Definition counted {E} (p : option (packet E)) : Prop :=
  slotNumber p = Z.of_nat (List.length (slotEvents p)).

(** Number of events a container holds, over all its packets. *)
Definition eventCount (c : container) : nat :=
  (List.length (slotEvents (polaritySlot c))
   + List.length (slotEvents (specialSlot c))
   + List.length (slotEvents (imu6Slot c)))%nat.

Definition slotNonEmpty {E} (s : option (packet E)) : bool :=
  match s with
  | Some p => match events p with [] => false | _ => true end
  | None => false
  end.

(** The container holds at least one non-empty packet. *)
Definition nonEmpty (c : container) : bool :=
  slotNonEmpty (polaritySlot c) || slotNonEmpty (specialSlot c)
  || slotNonEmpty (imu6Slot c).

(** The container of a timestamp reset: it holds exactly one event, a
    special event of type [TIMESTAMP_RESET]. *)
Definition isResetContainer (c : container) : bool :=
  match slotEvents (polaritySlot c), slotEvents (specialSlot c),
        slotEvents (imu6Slot c) with
  | [], [e], [] =>
      match spcType e with TIMESTAMP_RESET => true | _ => false end
  | _, _, _ => false
  end.

(** The events of a packet fit its capacity, which is positive. *)
Definition roomy {E} (p : option (packet E)) : Prop :=
  match p with
  | Some pk =>
      0 < eventCapacity pk /\ Z.of_nat (List.length (events pk)) <= eventCapacity pk
  | None => True
  end.

(** There is room in the packet for one more event. *)
Definition spacious {E} (p : option (packet E)) : Prop :=
  match p with
  | Some pk => Z.of_nat (List.length (events pk)) < eventCapacity pk
  | None => True
  end.

(** Every packet of the container holds its events within its
    capacity. *)
Definition fits (c : container) : Prop :=
  roomy (polaritySlot c) /\ roomy (specialSlot c) /\ roomy (imu6Slot c).

(** The events of a packet fit its capacity, which is at least [n]. *)
Definition roomFor {E} (n : Z) (p : option (packet E)) : Prop :=
  match p with
  | Some pk =>
      n <= eventCapacity pk /\ Z.of_nat (List.length (events pk)) <= eventCapacity pk
  | None => True
  end.

End Events.
Import Events.

(** ** What a decoder does to the outside *)

Inductive caer_log_level :=
| CAER_LOG_EMERGENCY | CAER_LOG_ALERT | CAER_LOG_CRITICAL | CAER_LOG_ERROR
| CAER_LOG_WARNING | CAER_LOG_NOTICE | CAER_LOG_INFO | CAER_LOG_DEBUG.

(** One thing done to the outside: a log call, with its level and the
    format string of the call (the arguments are left out, and where the
    source builds the format with a PRI macro of inttypes.h the macro is
    written by its name); a command written to the serial port; the
    asynchronous read of the multiplexer configuration that refreshes the
    master/slave status; a container put on the data exchange, with
    whether the exchange took it; a container put on the forced path; a
    container freed. *)
Inductive out :=
| Log (level : caer_log_level) (format : string)
| SerialWrite (cmd : string)
| SpiConfigReceiveAsync
| ExchangePut (c : container) (accepted : bool)
| ExchangePutForce (c : container)
| ContainerFree (c : container).

(** The containers handed to the data exchange and taken by it, in
    order: what a consumer of a running stream gets to see. *)
Fixpoint delivered (o : list out) : list container :=
  match o with
  | [] => []
  | ExchangePut c true :: o' => c :: delivered o'
  | ExchangePutForce c :: o' => c :: delivered o'
  | _ :: o' => delivered o'
  end.

(** The containers handed to the data exchange, taken by it or not. *)
Fixpoint handed (o : list out) : list container :=
  match o with
  | [] => []
  | ExchangePut c _ :: o' => c :: handed o'
  | ExchangePutForce c :: o' => c :: handed o'
  | _ :: o' => handed o'
  end.

(** What the hand-over of a commit does to the outside. *)
Definition handOverOuts (c : container) (emptyContainerCommit accepted : bool)
  : list out :=
  if emptyContainerCommit then [ContainerFree c]
  else
    ExchangePut c accepted ::
    (if accepted then []
     else [Log CAER_LOG_NOTICE
             "Dropped EventPacket Container because ring-buffer full!";
           ContainerFree c]).

Definition isLog (level : caer_log_level) (x : out) : bool :=
  match x with
  | Log l _ =>
      match l, level with
      | CAER_LOG_EMERGENCY, CAER_LOG_EMERGENCY | CAER_LOG_ALERT, CAER_LOG_ALERT
      | CAER_LOG_CRITICAL, CAER_LOG_CRITICAL | CAER_LOG_ERROR, CAER_LOG_ERROR
      | CAER_LOG_WARNING, CAER_LOG_WARNING | CAER_LOG_NOTICE, CAER_LOG_NOTICE
      | CAER_LOG_INFO, CAER_LOG_INFO | CAER_LOG_DEBUG, CAER_LOG_DEBUG => true
      | _, _ => false
      end
  | _ => false
  end.

Definition isAnyLog (x : out) : bool :=
  match x with Log _ _ => true | _ => false end.

(** How one step of a decoding loop ends: the loop goes on with the
    next token, the translator returns, or control never leaves a
    loop of the step. *)
Inductive flow := Continue | Returned | Diverges.

(** ** Memory and packets: allocation *)

Module Memory.

(** The outcome of the next request and the outcomes left; once the
    list is used up every request succeeds. *)
Definition request (env : list bool) : bool * list bool :=
  match env with
  | [] => (true, [])
  | ok :: env' => (ok, env')
  end.

(** Modelled from the spec: [caerEventPacketContainerAllocate]
    (libcaer/events, not under src/): a fresh container with every
    slot absent, or NULL when the allocation fails. *)
Definition caerEventPacketContainerAllocate (env : list bool)
  : option container * list bool :=
  let (ok, env') := request env in
  ((if ok then Some emptyContainer else None), env').

(** Modelled from the spec: [caer*EventPacketAllocate] (libcaer/events,
    not under src/): a fresh, empty packet of the given capacity that
    carries the given overflow epoch as its time base, or NULL when
    the allocation fails. *)
Definition caerEventPacketAllocate {E} (capacity tsOverflow : Z)
  (env : list bool) : option (packet E) * list bool :=
  let (ok, env') := request env in
  ((if ok
    then Some {| eventCapacity := capacity; eventTSOverflow := tsOverflow;
                 eventNumber := 0; events := [] |}
    else None), env').

(** Modelled from the spec: [caerEventPacketGrow] (libcaer/events, not
    under src/): the packet reallocated to the new capacity with its
    events kept; it fails only when the allocation fails. *)
Definition caerEventPacketGrow {E} (p : packet E) (newCapacity : Z)
  (env : list bool) : option (packet E) * list bool :=
  let (ok, env') := request env in
  ((if ok
    then Some {| eventCapacity := newCapacity;
                 eventTSOverflow := eventTSOverflow p;
                 eventNumber := eventNumber p;
                 events := events p |}
    else None), env').

End Memory.
Import Memory.

(** ** Full timestamps (libcaer/events/common.h) *)

(** Modelled from the spec: [TS_OVERFLOW_SHIFT] (libcaer/events/common.h,
    not under src/).  The overflow epoch counts the times the 31-bit
    range of the reconstructed 32-bit signed timestamp was exhausted and
    forms the high bits of the wider logical timestamp. *)
Definition TS_OVERFLOW_SHIFT : Z := 31.

(** [generateFullTimestamp] (edvs.c, line 687). *)
Definition generateFullTimestamp (tsOverflow timestamp : Z) : Z :=
  I64T (Z.lor (U64T (Z.shiftl (U64T tsOverflow) TS_OVERFLOW_SHIFT))
              (U64T timestamp)).

(** The re-arming loop of the commit deadline (edvs.c, lines 927-931):
    [while (full > deadline) deadline += interval;] run for at most
    [fuel] iterations; [None] when the loop is still running then. *)
Fixpoint rearmLoop (fuel : nat) (full deadline interval : Z) : option Z :=
  if full >? deadline then
    match fuel with
    | O => None
    | S fuel' => rearmLoop fuel' full (I64T (deadline + I32T interval)) interval
    end
  else Some deadline.

(** The loop with the fuel it can need: every iteration of a loop that
    ends adds at least one to the deadline, so [full - deadline]
    iterations are enough; [None] stands for a loop that never ends
    (see [rearm_total] and [rearm_zero_interval_diverges]). *)
Definition rearm (full deadline interval : Z) : option Z :=
  rearmLoop (Z.to_nat (full - deadline)) full deadline interval.

(** ** The eDVS serial decoder (src/edvs.c) *)

Module Edvs.

(** Constants of edvs.h, which is not under src/. *)
Class edvs_h := {
  EDVS_ARRAY_SIZE_X : Z;
  EDVS_ARRAY_SIZE_Y : Z;
  EDVS_POLARITY_DEFAULT_SIZE : Z;
  EDVS_SPECIAL_DEFAULT_SIZE : Z
}.

Definition TS_WRAP_ADD : Z := 0x10000.
Definition HIGH_BIT_MASK : Z := 0x80.
Definition LOW_BITS_MASK : Z := 0x7F.

Record timestamps_state := {
  wrapOverflow : Z;
  wrapAdd : Z;
  lastShort : Z;
  last : Z;
  current : Z
}.

(** The fields of [struct edvs_state] the translator uses, and the
    outcomes of the allocations and of the [dataExchangePut] calls still
    to come.  Packet positions count events of in-memory packets and are
    kept as plain integers. *)
Record edvs_state := {
  serialThreadRun : bool;
  dvsTSReset : bool;
  maxPacketContainerPacketSize : Z;
  maxPacketContainerInterval : Z;
  timestamps : timestamps_state;
  currentPacketContainerCommitTimestamp : Z;
  currentPacketContainer : option container;
  currentPolarityPacket : option (packet caer_polarity_event);
  currentPolarityPacketPosition : Z;
  currentSpecialPacket : option (packet caer_special_event);
  currentSpecialPacketPosition : Z;
  allocations : list bool;
  exchangePuts : list bool
}.

Definition set_dvsTSReset v s :=
  {| serialThreadRun := serialThreadRun s; dvsTSReset := v;
     maxPacketContainerPacketSize := maxPacketContainerPacketSize s;
     maxPacketContainerInterval := maxPacketContainerInterval s;
     timestamps := timestamps s;
     currentPacketContainerCommitTimestamp := currentPacketContainerCommitTimestamp s;
     currentPacketContainer := currentPacketContainer s;
     currentPolarityPacket := currentPolarityPacket s;
     currentPolarityPacketPosition := currentPolarityPacketPosition s;
     currentSpecialPacket := currentSpecialPacket s;
     currentSpecialPacketPosition := currentSpecialPacketPosition s;
     allocations := allocations s; exchangePuts := exchangePuts s |}.

Definition set_timestamps v s :=
  {| serialThreadRun := serialThreadRun s; dvsTSReset := dvsTSReset s;
     maxPacketContainerPacketSize := maxPacketContainerPacketSize s;
     maxPacketContainerInterval := maxPacketContainerInterval s;
     timestamps := v;
     currentPacketContainerCommitTimestamp := currentPacketContainerCommitTimestamp s;
     currentPacketContainer := currentPacketContainer s;
     currentPolarityPacket := currentPolarityPacket s;
     currentPolarityPacketPosition := currentPolarityPacketPosition s;
     currentSpecialPacket := currentSpecialPacket s;
     currentSpecialPacketPosition := currentSpecialPacketPosition s;
     allocations := allocations s; exchangePuts := exchangePuts s |}.

Definition set_commitTimestamp v s :=
  {| serialThreadRun := serialThreadRun s; dvsTSReset := dvsTSReset s;
     maxPacketContainerPacketSize := maxPacketContainerPacketSize s;
     maxPacketContainerInterval := maxPacketContainerInterval s;
     timestamps := timestamps s;
     currentPacketContainerCommitTimestamp := v;
     currentPacketContainer := currentPacketContainer s;
     currentPolarityPacket := currentPolarityPacket s;
     currentPolarityPacketPosition := currentPolarityPacketPosition s;
     currentSpecialPacket := currentSpecialPacket s;
     currentSpecialPacketPosition := currentSpecialPacketPosition s;
     allocations := allocations s; exchangePuts := exchangePuts s |}.

Definition set_container v s :=
  {| serialThreadRun := serialThreadRun s; dvsTSReset := dvsTSReset s;
     maxPacketContainerPacketSize := maxPacketContainerPacketSize s;
     maxPacketContainerInterval := maxPacketContainerInterval s;
     timestamps := timestamps s;
     currentPacketContainerCommitTimestamp := currentPacketContainerCommitTimestamp s;
     currentPacketContainer := v;
     currentPolarityPacket := currentPolarityPacket s;
     currentPolarityPacketPosition := currentPolarityPacketPosition s;
     currentSpecialPacket := currentSpecialPacket s;
     currentSpecialPacketPosition := currentSpecialPacketPosition s;
     allocations := allocations s; exchangePuts := exchangePuts s |}.

(** The polarity packet and its position, assigned together. *)
Definition set_polarity p pos s :=
  {| serialThreadRun := serialThreadRun s; dvsTSReset := dvsTSReset s;
     maxPacketContainerPacketSize := maxPacketContainerPacketSize s;
     maxPacketContainerInterval := maxPacketContainerInterval s;
     timestamps := timestamps s;
     currentPacketContainerCommitTimestamp := currentPacketContainerCommitTimestamp s;
     currentPacketContainer := currentPacketContainer s;
     currentPolarityPacket := p;
     currentPolarityPacketPosition := pos;
     currentSpecialPacket := currentSpecialPacket s;
     currentSpecialPacketPosition := currentSpecialPacketPosition s;
     allocations := allocations s; exchangePuts := exchangePuts s |}.

(** The special packet and its position, assigned together. *)
Definition set_special p pos s :=
  {| serialThreadRun := serialThreadRun s; dvsTSReset := dvsTSReset s;
     maxPacketContainerPacketSize := maxPacketContainerPacketSize s;
     maxPacketContainerInterval := maxPacketContainerInterval s;
     timestamps := timestamps s;
     currentPacketContainerCommitTimestamp := currentPacketContainerCommitTimestamp s;
     currentPacketContainer := currentPacketContainer s;
     currentPolarityPacket := currentPolarityPacket s;
     currentPolarityPacketPosition := currentPolarityPacketPosition s;
     currentSpecialPacket := p;
     currentSpecialPacketPosition := pos;
     allocations := allocations s; exchangePuts := exchangePuts s |}.

Definition set_allocations v s :=
  {| serialThreadRun := serialThreadRun s; dvsTSReset := dvsTSReset s;
     maxPacketContainerPacketSize := maxPacketContainerPacketSize s;
     maxPacketContainerInterval := maxPacketContainerInterval s;
     timestamps := timestamps s;
     currentPacketContainerCommitTimestamp := currentPacketContainerCommitTimestamp s;
     currentPacketContainer := currentPacketContainer s;
     currentPolarityPacket := currentPolarityPacket s;
     currentPolarityPacketPosition := currentPolarityPacketPosition s;
     currentSpecialPacket := currentSpecialPacket s;
     currentSpecialPacketPosition := currentSpecialPacketPosition s;
     allocations := v; exchangePuts := exchangePuts s |}.

Definition set_exchangePuts v s :=
  {| serialThreadRun := serialThreadRun s; dvsTSReset := dvsTSReset s;
     maxPacketContainerPacketSize := maxPacketContainerPacketSize s;
     maxPacketContainerInterval := maxPacketContainerInterval s;
     timestamps := timestamps s;
     currentPacketContainerCommitTimestamp := currentPacketContainerCommitTimestamp s;
     currentPacketContainer := currentPacketContainer s;
     currentPolarityPacket := currentPolarityPacket s;
     currentPolarityPacketPosition := currentPolarityPacketPosition s;
     currentSpecialPacket := currentSpecialPacket s;
     currentSpecialPacketPosition := currentSpecialPacketPosition s;
     allocations := allocations s; exchangePuts := v |}.

(** The state a step ends in, what the step did to the outside, and how
    the step ends. *)
Record result := {
  state : edvs_state;
  outs : list out;
  ends : flow
}.

Definition continue (s : edvs_state) : result :=
  {| state := s; outs := []; ends := Continue |}.

Definition returnWith (s : edvs_state) (o : list out) : result :=
  {| state := s; outs := o; ends := Returned |}.

(** Sequencing of two parts of a step: the second part runs when the
    first one falls through. *)
Definition andThen (r : result) (k : edvs_state -> result) : result :=
  match ends r with
  | Continue =>
      let r' := k (state r) in
      {| state := state r'; outs := outs r ++ outs r'; ends := ends r' |}
  | _ => r
  end.

(** [initContainerCommitTimestamp] (edvs.c, line 691). *)
Definition initContainerCommitTimestamp (s : edvs_state) : edvs_state :=
  if currentPacketContainerCommitTimestamp s =? -1 then
    set_commitTimestamp
      (I32T (current (timestamps s) + I32T (maxPacketContainerInterval s) - 1)) s
  else s.

(** Allocation of the container (edvs.c, lines 727-733). *)
Definition allocateContainer (s : edvs_state) : result :=
  match currentPacketContainer s with
  | Some _ => continue s
  | None =>
      let (c, env) := caerEventPacketContainerAllocate (allocations s) in
      let s := set_allocations env s in
      match c with
      | None =>
          returnWith s
            [Log CAER_LOG_CRITICAL "Failed to allocate event packet container."]
      | Some c => continue (set_container (Some c) s)
      end
  end.

(** Allocation or growth of the polarity packet (edvs.c, lines 735-755). *)
Definition allocatePolarity `{edvs_h} (s : edvs_state) : result :=
  match currentPolarityPacket s with
  | None =>
      let (p, env) :=
        caerEventPacketAllocate EDVS_POLARITY_DEFAULT_SIZE
          (wrapOverflow (timestamps s)) (allocations s) in
      let s := set_allocations env s in
      match p with
      | None =>
          returnWith s
            [Log CAER_LOG_CRITICAL "Failed to allocate polarity event packet."]
      | Some p => continue (set_polarity (Some p) (currentPolarityPacketPosition s) s)
      end
  | Some p =>
      if currentPolarityPacketPosition s >=? eventCapacity p then
        let (g, env) :=
          caerEventPacketGrow p (currentPolarityPacketPosition s * 2)
            (allocations s) in
        let s := set_allocations env s in
        match g with
        | None =>
            returnWith s
              [Log CAER_LOG_CRITICAL "Failed to grow polarity event packet."]
        | Some g => continue (set_polarity (Some g) (currentPolarityPacketPosition s) s)
        end
      else continue s
  end.

(** Allocation or growth of the special packet (edvs.c, lines 757-777). *)
Definition allocateSpecial `{edvs_h} (s : edvs_state) : result :=
  match currentSpecialPacket s with
  | None =>
      let (p, env) :=
        caerEventPacketAllocate EDVS_SPECIAL_DEFAULT_SIZE
          (wrapOverflow (timestamps s)) (allocations s) in
      let s := set_allocations env s in
      match p with
      | None =>
          returnWith s
            [Log CAER_LOG_CRITICAL "Failed to allocate special event packet."]
      | Some p => continue (set_special (Some p) (currentSpecialPacketPosition s) s)
      end
  | Some p =>
      if currentSpecialPacketPosition s >=? eventCapacity p then
        let (g, env) :=
          caerEventPacketGrow p (currentSpecialPacketPosition s * 2)
            (allocations s) in
        let s := set_allocations env s in
        match g with
        | None =>
            returnWith s
              [Log CAER_LOG_CRITICAL "Failed to grow special event packet."]
        | Some g => continue (set_special (Some g) (currentSpecialPacketPosition s) s)
        end
      else continue s
  end.

(** The event written at the packet's position; the packets are
    allocated by the time an event is written. *)
Definition write {E} (p : option (packet E)) (e : E) : option (packet E) :=
  match p with
  | Some p => Some (appendEvent p e)
  | None => None
  end.

Definition cmdTSReset : string := "!ET0" ++ String (ascii_of_nat 10) "".

Definition shortTSOf (ts1Byte ts2Byte : Z) : Z :=
  U16T (Z.lor (Z.shiftl ts1Byte 8) ts2Byte).

(** [checkMonotonicTimestamp] (edvs.c, line 32). *)
Definition checkMonotonicTimestamp (s : edvs_state) : list out :=
  if current (timestamps s) <? last (timestamps s) then
    [Log CAER_LOG_ALERT
       "Timestamps: non monotonic timestamp detected: lastTimestamp=%PRIi32, currentTimestamp=%PRIi32, difference=%PRIi32."]
  else [].

(** The polarity event of a token (edvs.c, lines 855-878). *)
Definition decodePolarity `{edvs_h} (s : edvs_state) (yByte xByte : Z)
  : edvs_state * list out :=
  let x := U8T (Z.land xByte LOW_BITS_MASK) in
  let y := U8T (Z.land yByte LOW_BITS_MASK) in
  let polarity := negb (Z.land xByte HIGH_BIT_MASK =? 0) in
  if (x <? EDVS_ARRAY_SIZE_X) && (y <? EDVS_ARRAY_SIZE_Y) then
    let e := {| polTimestamp := current (timestamps s); polPolarity := polarity;
                polY := y; polX := x |} in
    (set_polarity (write (currentPolarityPacket s) e)
       (currentPolarityPacketPosition s + 1) s, [])
  else
    (s,
     (if x >=? EDVS_ARRAY_SIZE_X
      then [Log CAER_LOG_ALERT "X address out of range (0-%d): %PRIu16."] else [])
     ++
     (if y >=? EDVS_ARRAY_SIZE_Y
      then [Log CAER_LOG_ALERT "Y address out of range (0-%d): %PRIu16."] else [])).

(** Timestamp handling and event decoding of one token (edvs.c, lines
    779-880).  The two booleans are [tsReset] and [tsBigWrap]. *)
Definition decode `{edvs_h} (s : edvs_state) (yByte xByte ts1Byte ts2Byte : Z)
  : edvs_state * list out * bool * bool :=
  let shortTS := shortTSOf ts1Byte ts2Byte in
  if dvsTSReset s then
    let s := set_dvsTSReset false s in
    let s := set_timestamps
               {| wrapOverflow := 0; wrapAdd := 0; lastShort := 0; last := 0;
                  current := 0 |} s in
    let s := set_commitTimestamp (-1) s in
    let s := initContainerCommitTimestamp s in
    (s, [SerialWrite cmdTSReset], true, false)
  else
    let ts := timestamps s in
    let tsWrap := shortTS <? lastShort ts in
    if tsWrap && (wrapAdd ts =? INT32_MAX - (TS_WRAP_ADD - 1)) then
      let s := set_timestamps
                 {| wrapOverflow := I32T (wrapOverflow ts + 1); wrapAdd := 0;
                    lastShort := 0; last := 0; current := 0 |} s in
      let e := {| spcTimestamp := INT32_MAX; spcType := TIMESTAMP_WRAP |} in
      let s := set_special (write (currentSpecialPacket s) e)
                 (currentSpecialPacketPosition s + 1) s in
      (s, [], false, true)
    else
      let wrapAdd' := if tsWrap then I32T (wrapAdd ts + TS_WRAP_ADD) else wrapAdd ts in
      let lastShort' := if tsWrap then 0 else shortTS in
      let s := set_timestamps
                 {| wrapOverflow := wrapOverflow ts; wrapAdd := wrapAdd';
                    lastShort := lastShort'; last := current ts;
                    current := I32T (wrapAdd' + shortTS) |} s in
      let s := initContainerCommitTimestamp s in
      let o1 := checkMonotonicTimestamp s in
      let (s, o2) := decodePolarity s yByte xByte in
      (s, o1 ++ o2, false, false).

(** The container of the state; it is allocated by the time the commit
    is reached. *)
Definition theContainer (s : edvs_state) : container :=
  match currentPacketContainer s with
  | Some c => c
  | None => emptyContainer
  end.

(** The non-empty packets are moved into the container (edvs.c, lines
    905-921). *)
Definition movePackets (s : edvs_state) : edvs_state :=
  let s :=
    if currentPolarityPacketPosition s >? 0 then
      set_polarity None 0
        (set_container (Some (setPolarity (theContainer s) (currentPolarityPacket s))) s)
    else s in
  if currentSpecialPacketPosition s >? 0 then
    set_special None 0
      (set_container (Some (setSpecial (theContainer s) (currentSpecialPacket s))) s)
  else s.

(** The container of the timestamp reset (edvs.c, lines 958-988). *)
Definition tsResetContainer (tsOverflow : Z) : container :=
  setSpecial emptyContainer
    (Some {| eventCapacity := 1; eventTSOverflow := tsOverflow; eventNumber := 1;
             events := [{| spcTimestamp := INT32_MAX; spcType := TIMESTAMP_RESET |}] |}).

Definition commitReset (s : edvs_state) : result :=
  let (c, env) := caerEventPacketContainerAllocate (allocations s) in
  let s := set_allocations env s in
  match c with
  | None =>
      returnWith s
        [Log CAER_LOG_CRITICAL "Failed to allocate tsReset event packet container."]
  | Some c =>
      let (p, env) :=
        @caerEventPacketAllocate caer_special_event 1
          (wrapOverflow (timestamps s)) (allocations s) in
      let s := set_allocations env s in
      match p with
      | None =>
          returnWith s
            [Log CAER_LOG_CRITICAL "Failed to allocate tsReset special event packet."]
      | Some p =>
          let e := {| spcTimestamp := INT32_MAX; spcType := TIMESTAMP_RESET |} in
          {| state := s;
             outs := [ExchangePutForce (setSpecial c (Some (appendEvent p e)))];
             ends := Continue |}
      end
  end.

(** The current container is freed when no packet was moved into it,
    and handed to the data exchange otherwise (edvs.c, lines 934-950). *)
Definition handOver (s : edvs_state) (emptyContainerCommit : bool) : result :=
  let c := theContainer s in
  if emptyContainerCommit then
    {| state := set_container None s; outs := [ContainerFree c]; ends := Continue |}
  else
    let (ok, env) := request (exchangePuts s) in
    {| state := set_container None (set_exchangePuts env s);
       outs :=
         ExchangePut c ok ::
         (if ok then []
          else [Log CAER_LOG_NOTICE
                  "Dropped EventPacket Container because ring-buffer full!";
                ContainerFree c]);
       ends := Continue |}.

(** The commit of the packet container (edvs.c, lines 882-989). *)
Definition commit (s : edvs_state) (tsReset tsBigWrap : bool) : result :=
  let commitSize := I32T (maxPacketContainerPacketSize s) in
  let containerSizeCommit :=
    (commitSize >? 0)
    && ((currentPolarityPacketPosition s >=? commitSize)
        || (currentSpecialPacketPosition s >=? commitSize)) in
  let full :=
    generateFullTimestamp (wrapOverflow (timestamps s)) (current (timestamps s)) in
  let containerTimeCommit := full >? currentPacketContainerCommitTimestamp s in
  if tsReset || tsBigWrap || containerSizeCommit || containerTimeCommit then
    let emptyContainerCommit :=
      negb (currentPolarityPacketPosition s >? 0)
      && negb (currentSpecialPacketPosition s >? 0) in
    let s := movePackets s in
    let rearmed :=
      if containerTimeCommit then
        rearm full (currentPacketContainerCommitTimestamp s)
          (maxPacketContainerInterval s)
      else Some (currentPacketContainerCommitTimestamp s) in
    match rearmed with
    | None => {| state := s; outs := []; ends := Diverges |}
    | Some deadline =>
        let s := set_commitTimestamp deadline s in
        andThen (handOver s emptyContainerCommit)
          (fun s => if tsReset then commitReset s else continue s)
    end
  else continue s.

(** The packets a token needs are allocated or grown (edvs.c, lines
    726-777). *)
Definition prepare `{edvs_h} (s : edvs_state) : result :=
  andThen (allocateContainer s) (fun s =>
  andThen (allocatePolarity s) allocateSpecial).

(** The token is decoded and the container committed when due (edvs.c,
    lines 779-989). *)
Definition process `{edvs_h} (s : edvs_state) (yByte xByte ts1Byte ts2Byte : Z)
  : result :=
  let '(s, o, tsReset, tsBigWrap) := decode s yByte xByte ts1Byte ts2Byte in
  andThen {| state := s; outs := o; ends := Continue |}
    (fun s => commit s tsReset tsBigWrap).

(** One iteration of the decoding loop on a token of four bytes whose
    first byte has the high bit set (edvs.c, lines 726-991). *)
Definition edvsToken `{edvs_h} (s : edvs_state) (yByte xByte ts1Byte ts2Byte : Z)
  : result :=
  andThen (prepare s) (fun s => process s yByte xByte ts1Byte ts2Byte).

(** The decoding loop (edvs.c, lines 710-992) over the bytes left. *)
Fixpoint decodeLoop `{edvs_h} (buffer : list Z) (s : edvs_state) : result :=
  match buffer with
  | [] => continue s
  | yByte :: rest =>
      if negb (Z.land yByte HIGH_BIT_MASK =? HIGH_BIT_MASK) then
        andThen
          {| state := s;
             outs := [Log CAER_LOG_NOTICE
                        "Data not aligned, skipping to next data byte (%zu of %zu)."];
             ends := Continue |}
          (decodeLoop rest)
      else
        match rest with
        | xByte :: ts1Byte :: ts2Byte :: rest' =>
            andThen (edvsToken s yByte xByte ts1Byte ts2Byte) (decodeLoop rest')
        | _ => returnWith s []
        end
  end.

(** [edvsEventTranslator] (edvs.c, line 698). *)
Definition edvsEventTranslator `{edvs_h} (s : edvs_state) (buffer : list Z)
  : result :=
  if negb (serialThreadRun s) then returnWith s []
  else decodeLoop buffer s.

(** The state [edvsOpen] and [edvsDataStart] leave when every
    allocation succeeds (edvs.c, lines 88-90 and 590-650). *)
Definition startState `{edvs_h} : edvs_state :=
  {| serialThreadRun := true; dvsTSReset := false;
     maxPacketContainerPacketSize := 4096;
     maxPacketContainerInterval := 10000;
     timestamps := {| wrapOverflow := 0; wrapAdd := 0; lastShort := 0;
                      last := 0; current := 0 |};
     currentPacketContainerCommitTimestamp := -1;
     currentPacketContainer := Some emptyContainer;
     currentPolarityPacket :=
       Some {| eventCapacity := EDVS_POLARITY_DEFAULT_SIZE;
               eventTSOverflow := 0; eventNumber := 0;
               events := [] |};
     currentPolarityPacketPosition := 0;
     currentSpecialPacket :=
       Some {| eventCapacity := EDVS_SPECIAL_DEFAULT_SIZE;
               eventTSOverflow := 0; eventNumber := 0;
               events := [] |};
     currentSpecialPacketPosition := 0;
     allocations := []; exchangePuts := [] |}.

(** *** Vocabulary of the properties *)

(** The packets in progress hold as many events as their positions
    say, and nothing was moved yet into the container in progress. *)
Definition consistent (s : edvs_state) : Prop :=
  (currentPacketContainer s = None
   \/ currentPacketContainer s = Some emptyContainer)
  /\ currentPolarityPacketPosition s
     = Z.of_nat (List.length (slotEvents (currentPolarityPacket s)))
  /\ currentSpecialPacketPosition s
     = Z.of_nat (List.length (slotEvents (currentSpecialPacket s))).

(** The coarse offset is a multiple of the wrap increment that leaves
    room for a narrow field below [INT32_MAX], and the last field and the
    current timestamp are in their ranges. *)
Definition wrapOK (ts : timestamps_state) : Prop :=
  0 <= wrapAdd ts <= INT32_MAX - (TS_WRAP_ADD - 1)
  /\ wrapAdd ts mod TS_WRAP_ADD = 0
  /\ 0 <= lastShort ts < TS_WRAP_ADD
  /\ 0 <= current ts <= INT32_MAX.

(** The token is a timestamp wrap. *)
Definition tsWrapOf (s : edvs_state) (ts1Byte ts2Byte : Z) : bool :=
  shortTSOf ts1Byte ts2Byte <? lastShort (timestamps s).

(** The token is classified as a big wrap. *)
Definition bigWrapOf (s : edvs_state) (ts1Byte ts2Byte : Z) : bool :=
  tsWrapOf s ts1Byte ts2Byte
  && (wrapAdd (timestamps s) =? INT32_MAX - (TS_WRAP_ADD - 1)).

(** The full timestamp of the state and its time trigger. *)
Definition fullTimestamp (s : edvs_state) : Z :=
  generateFullTimestamp (wrapOverflow (timestamps s)) (current (timestamps s)).

Definition containerTimeCommit (s : edvs_state) : bool :=
  fullTimestamp s >? currentPacketContainerCommitTimestamp s.

(** Events are pending in the packets in progress. *)
Definition pending (s : edvs_state) : bool :=
  (currentPolarityPacketPosition s >? 0) || (currentSpecialPacketPosition s >? 0).

(** A well-formed token: four bytes, the first one with the high bit. *)
Definition token (t : list Z) : Prop :=
  exists yByte xByte ts1Byte ts2Byte,
    t = [yByte; xByte; ts1Byte; ts2Byte]
    /\ Z.land yByte HIGH_BIT_MASK = HIGH_BIT_MASK.

(** A partial token: fewer than four bytes, the first one with the high
    bit. *)
Definition partialToken (t : list Z) : Prop :=
  exists yByte rest,
    t = yByte :: rest
    /\ Z.land yByte HIGH_BIT_MASK = HIGH_BIT_MASK
    /\ (List.length rest < 3)%nat.

(** The effect of the allocations at the head of a step: everything
    but the packets, the container and the allocation outcomes is as
    before, the events written are kept, and what was allocated stays
    allocated. *)
Definition sameButPackets (s s' : edvs_state) : Prop :=
  serialThreadRun s' = serialThreadRun s
  /\ dvsTSReset s' = dvsTSReset s
  /\ maxPacketContainerPacketSize s' = maxPacketContainerPacketSize s
  /\ maxPacketContainerInterval s' = maxPacketContainerInterval s
  /\ timestamps s' = timestamps s
  /\ currentPacketContainerCommitTimestamp s' = currentPacketContainerCommitTimestamp s
  /\ currentPolarityPacketPosition s' = currentPolarityPacketPosition s
  /\ currentSpecialPacketPosition s' = currentSpecialPacketPosition s
  /\ exchangePuts s' = exchangePuts s
  /\ slotEvents (currentPolarityPacket s') = slotEvents (currentPolarityPacket s)
  /\ slotEvents (currentSpecialPacket s') = slotEvents (currentSpecialPacket s)
  /\ (currentPacketContainer s' = currentPacketContainer s
      \/ (currentPacketContainer s = None
          /\ currentPacketContainer s' = Some emptyContainer))
  /\ (currentPolarityPacket s <> None -> currentPolarityPacket s' <> None)
  /\ (currentSpecialPacket s <> None -> currentSpecialPacket s' <> None)
  /\ (allocations s = [] -> allocations s' = []).

(** A part of a step that only allocates: it falls through silently or
    returns with one critical log, and it falls through when the
    allocations succeed. *)
Definition allocates (f : edvs_state -> result) : Prop :=
  forall s,
    sameButPackets s (state (f s))
    /\ ends (f s) <> Diverges
    /\ (ends (f s) = Continue -> outs (f s) = [])
    /\ (ends (f s) = Returned ->
        exists m, outs (f s) = [Log CAER_LOG_CRITICAL m])
    /\ (allocations s = [] -> ends (f s) = Continue).

(** The container and the two packets are allocated. *)
Definition ready (s : edvs_state) : Prop :=
  currentPacketContainer s <> None
  /\ currentPolarityPacket s <> None
  /\ currentSpecialPacket s <> None.

(** A part of a step that leaves the timestamps and the configuration
    alone. *)
Definition keepsClock (s s' : edvs_state) : Prop :=
  timestamps s' = timestamps s
  /\ dvsTSReset s' = dvsTSReset s
  /\ serialThreadRun s' = serialThreadRun s
  /\ maxPacketContainerPacketSize s' = maxPacketContainerPacketSize s
  /\ maxPacketContainerInterval s' = maxPacketContainerInterval s.

(** A commit trigger fires: a timestamp reset, a big wrap, the size
    trigger or the time trigger (edvs.c, line 900). *)
Definition commitDue (s : edvs_state) (tsReset tsBigWrap : bool) : bool :=
  tsReset || tsBigWrap
  || ((I32T (maxPacketContainerPacketSize s) >? 0)
      && ((currentPolarityPacketPosition s >=? I32T (maxPacketContainerPacketSize s))
          || (currentSpecialPacketPosition s >=? I32T (maxPacketContainerPacketSize s))))
  || containerTimeCommit s.

(** The commit deadline after the re-arming of a commit: re-armed
    when the time trigger fired, [None] when the loop does not end. *)
Definition rearmed (s : edvs_state) : option Z :=
  if containerTimeCommit s then
    rearm (fullTimestamp s) (currentPacketContainerCommitTimestamp s)
      (maxPacketContainerInterval s)
  else Some (currentPacketContainerCommitTimestamp s).

(** The timestamps a token that is neither a reset nor a big wrap
    leaves. *)
Definition updated (ts : timestamps_state) (shortTS : Z) : timestamps_state :=
  let tsWrap := shortTS <? lastShort ts in
  let wrapAdd' := if tsWrap then I32T (wrapAdd ts + TS_WRAP_ADD) else wrapAdd ts in
  {| wrapOverflow := wrapOverflow ts; wrapAdd := wrapAdd';
     lastShort := if tsWrap then 0 else shortTS; last := current ts;
     current := I32T (wrapAdd' + shortTS) |}.

(** The container a commit fills from a state whose container is still
    empty. *)
Definition committed (s : edvs_state) : container :=
  {| polaritySlot :=
       if currentPolarityPacketPosition s >? 0 then currentPolarityPacket s else None;
     specialSlot :=
       if currentSpecialPacketPosition s >? 0 then currentSpecialPacket s else None;
     imu6Slot := None |}.

(** The overflow epoch and the current timestamp are within the
    non-negative range of [int32_t]. *)
Definition clockInRange (ts : timestamps_state) : Prop :=
  0 <= wrapOverflow ts <= INT32_MAX /\ 0 <= current ts <= INT32_MAX.

(** A sentinel of a timestamp discontinuity stamped with [INT32_MAX]. *)
Definition stampedSentinel (e : caer_special_event) : Prop :=
  spcTimestamp e = INT32_MAX
  /\ (spcType e = TIMESTAMP_WRAP \/ spcType e = TIMESTAMP_RESET).

(** The special events in progress are stamped sentinels. *)
Definition sentinels (s : edvs_state) : Prop :=
  Forall stampedSentinel (slotEvents (currentSpecialPacket s)).

(** The special events of a container are stamped sentinels. *)
Definition specialsStamped (c : container) : Prop :=
  Forall stampedSentinel (slotEvents (specialSlot c)).

(** The pixel address of a token is outside of the array. *)
Definition outOfRange `{edvs_h} (yByte xByte : Z) : Prop :=
  EDVS_ARRAY_SIZE_X <= U8T (Z.land xByte LOW_BITS_MASK)
  \/ EDVS_ARRAY_SIZE_Y <= U8T (Z.land yByte LOW_BITS_MASK).

(** What a commit that ends leaves of a state: the clock and the
    configuration as they were, the packets that held events gone, the
    empty ones kept, the positions at zero. *)
Definition afterCommit (s s' : edvs_state) : Prop :=
  keepsClock s s'
  /\ consistent s'
  /\ currentPolarityPacketPosition s' = 0
  /\ currentSpecialPacketPosition s' = 0
  /\ currentPolarityPacket s'
     = (if currentPolarityPacketPosition s >? 0 then None
        else currentPolarityPacket s)
  /\ currentSpecialPacket s'
     = (if currentSpecialPacketPosition s >? 0 then None
        else currentSpecialPacket s).

(** The pixel address of an event is within the array. *)
Definition inArray `{edvs_h} (e : caer_polarity_event) : Prop :=
  0 <= polX e < EDVS_ARRAY_SIZE_X /\ 0 <= polY e < EDVS_ARRAY_SIZE_Y.

(** The timestamps a timestamp reset leaves, and the ones a big wrap
    leaves. *)
Definition clockAtZero (tsOverflow : Z) : timestamps_state :=
  {| wrapOverflow := tsOverflow; wrapAdd := 0; lastShort := 0; last := 0;
     current := 0 |}.

(** The alert of [checkMonotonicTimestamp]. *)
Definition isNonMonotonicAlert (x : out) : bool :=
  match x with
  | Log CAER_LOG_ALERT m => prefix "Timestamps: non monotonic" m
  | _ => false
  end.

(** The timestamps of the events do not decrease along the packet. *)
Fixpoint ascending (l : list caer_polarity_event) : Prop :=
  match l with
  | [] => True
  | e :: rest =>
      Forall (fun e' => polTimestamp e <= polTimestamp e') rest /\ ascending rest
  end.

(** The notice logged for a byte that cannot start a token. *)
Definition notAligned : out :=
  Log CAER_LOG_NOTICE "Data not aligned, skipping to next data byte (%zu of %zu).".

(** A byte that cannot start a token, on its own: the decoding loop
    skips it (edvs.c, lines 714-719). *)
Definition stray (t : list Z) : Prop :=
  exists b, t = [b] /\ Z.land b HIGH_BIT_MASK <> HIGH_BIT_MASK.

End Edvs.

(** ** The eDVS device functions (src/edvs.c) *)

Module EdvsDevice.
Import Edvs.

(** Constants of libcaer's device headers and of edvs.h, and the
    functions of libcaer.h and data_exchange.h the device functions call,
    none of which is under src/.  The data exchange is a type of its own;
    its functions return the exchange they leave.  The callbacks given to
    [dataExchangeSetNotify] are part of the function here, and
    [dataExchangeConfigGet] gives the parameter it stores when it
    returns true. *)
Class edvs_config_h := {
  CAER_HOST_CONFIG_SERIAL : Z;
  CAER_HOST_CONFIG_SERIAL_READ_SIZE : Z;
  CAER_HOST_CONFIG_DATAEXCHANGE : Z;
  CAER_HOST_CONFIG_PACKETS : Z;
  CAER_HOST_CONFIG_PACKETS_MAX_CONTAINER_PACKET_SIZE : Z;
  CAER_HOST_CONFIG_PACKETS_MAX_CONTAINER_INTERVAL : Z;
  CAER_HOST_CONFIG_LOG : Z;
  CAER_HOST_CONFIG_LOG_LEVEL : Z;
  EDVS_CONFIG_DVS : Z;
  EDVS_CONFIG_DVS_RUN : Z;
  EDVS_CONFIG_DVS_TIMESTAMP_RESET : Z;
  EDVS_CONFIG_BIAS : Z;
  EDVS_CONFIG_BIAS_CAS : Z;
  EDVS_CONFIG_BIAS_INJGND : Z;
  EDVS_CONFIG_BIAS_PUX : Z;
  EDVS_CONFIG_BIAS_PUY : Z;
  EDVS_CONFIG_BIAS_REQPD : Z;
  EDVS_CONFIG_BIAS_REQ : Z;
  EDVS_CONFIG_BIAS_FOLL : Z;
  EDVS_CONFIG_BIAS_PR : Z;
  EDVS_CONFIG_BIAS_REFR : Z;
  EDVS_CONFIG_BIAS_DIFF : Z;
  EDVS_CONFIG_BIAS_DIFFON : Z;
  EDVS_CONFIG_BIAS_DIFFOFF : Z;
  BIAS_NUMBER : Z;
  BIAS_LENGTH : Z;
  caerIntegerToByteArray : Z -> Z -> list Z;
  caerByteArrayToInteger : list Z -> Z -> Z;
  data_exchange : Type;
  dataExchangeConfigSet : data_exchange -> Z -> Z -> data_exchange * bool;
  dataExchangeConfigGet : data_exchange -> Z -> option Z;
  dataExchangeSetNotify : data_exchange -> data_exchange;
  dataExchangeBufferInit : data_exchange -> data_exchange * bool;
  dataExchangeStartProducers : data_exchange -> data_exchange * bool;
  dataExchangeStopProducers : data_exchange -> data_exchange * bool;
  dataExchangeBufferEmpty : data_exchange -> data_exchange;
  dataExchangeDestroy : data_exchange -> data_exchange
}.

Definition U32T := unsigned 32.

(** The state of a device handle: the fields the translator uses
    ([decoder]), the other fields of [struct edvs_state] the device
    functions use, and the outcomes still to come of the serial writes
    of these functions and of [thrd_create] and [thrd_join].  The biases
    are the rows of [biases[BIAS_NUMBER][BIAS_LENGTH]] by their index;
    an index outside the array is not modelled. *)
Record edvs_device `{edvs_config_h} := {
  decoder : edvs_state;
  serialReadSize : Z;
  deviceLogLevel : Z;
  dvsRunning : bool;
  biases : Z -> list Z;
  dataExchange : data_exchange;
  serialWrites : list bool;
  threads : list bool
}.

Section WithHeaders.
Context `{edvs_h} `{edvs_config_h}.

Definition set_decoder v (d : edvs_device) :=
  {| decoder := v; serialReadSize := serialReadSize d;
     deviceLogLevel := deviceLogLevel d; dvsRunning := dvsRunning d;
     biases := biases d; dataExchange := dataExchange d;
     serialWrites := serialWrites d; threads := threads d |}.

Definition set_serialReadSize v (d : edvs_device) :=
  {| decoder := decoder d; serialReadSize := v;
     deviceLogLevel := deviceLogLevel d; dvsRunning := dvsRunning d;
     biases := biases d; dataExchange := dataExchange d;
     serialWrites := serialWrites d; threads := threads d |}.

Definition set_deviceLogLevel v (d : edvs_device) :=
  {| decoder := decoder d; serialReadSize := serialReadSize d;
     deviceLogLevel := v; dvsRunning := dvsRunning d;
     biases := biases d; dataExchange := dataExchange d;
     serialWrites := serialWrites d; threads := threads d |}.

Definition set_dvsRunning v (d : edvs_device) :=
  {| decoder := decoder d; serialReadSize := serialReadSize d;
     deviceLogLevel := deviceLogLevel d; dvsRunning := v;
     biases := biases d; dataExchange := dataExchange d;
     serialWrites := serialWrites d; threads := threads d |}.

Definition set_biases v (d : edvs_device) :=
  {| decoder := decoder d; serialReadSize := serialReadSize d;
     deviceLogLevel := deviceLogLevel d; dvsRunning := dvsRunning d;
     biases := v; dataExchange := dataExchange d;
     serialWrites := serialWrites d; threads := threads d |}.

Definition set_dataExchange v (d : edvs_device) :=
  {| decoder := decoder d; serialReadSize := serialReadSize d;
     deviceLogLevel := deviceLogLevel d; dvsRunning := dvsRunning d;
     biases := biases d; dataExchange := v;
     serialWrites := serialWrites d; threads := threads d |}.

Definition set_serialWrites v (d : edvs_device) :=
  {| decoder := decoder d; serialReadSize := serialReadSize d;
     deviceLogLevel := deviceLogLevel d; dvsRunning := dvsRunning d;
     biases := biases d; dataExchange := dataExchange d;
     serialWrites := v; threads := threads d |}.

Definition set_threads v (d : edvs_device) :=
  {| decoder := decoder d; serialReadSize := serialReadSize d;
     deviceLogLevel := deviceLogLevel d; dvsRunning := dvsRunning d;
     biases := biases d; dataExchange := dataExchange d;
     serialWrites := serialWrites d; threads := v |}.

Definition set_serialThreadRun v (s : edvs_state) : edvs_state :=
  {| serialThreadRun := v; dvsTSReset := dvsTSReset s;
     maxPacketContainerPacketSize := maxPacketContainerPacketSize s;
     maxPacketContainerInterval := maxPacketContainerInterval s;
     timestamps := timestamps s;
     currentPacketContainerCommitTimestamp := currentPacketContainerCommitTimestamp s;
     currentPacketContainer := currentPacketContainer s;
     currentPolarityPacket := currentPolarityPacket s;
     currentPolarityPacketPosition := currentPolarityPacketPosition s;
     currentSpecialPacket := currentSpecialPacket s;
     currentSpecialPacketPosition := currentSpecialPacketPosition s;
     allocations := allocations s; exchangePuts := exchangePuts s |}.

Definition set_maxPacketContainerPacketSize v (s : edvs_state) : edvs_state :=
  {| serialThreadRun := serialThreadRun s; dvsTSReset := dvsTSReset s;
     maxPacketContainerPacketSize := v;
     maxPacketContainerInterval := maxPacketContainerInterval s;
     timestamps := timestamps s;
     currentPacketContainerCommitTimestamp := currentPacketContainerCommitTimestamp s;
     currentPacketContainer := currentPacketContainer s;
     currentPolarityPacket := currentPolarityPacket s;
     currentPolarityPacketPosition := currentPolarityPacketPosition s;
     currentSpecialPacket := currentSpecialPacket s;
     currentSpecialPacketPosition := currentSpecialPacketPosition s;
     allocations := allocations s; exchangePuts := exchangePuts s |}.

Definition set_maxPacketContainerInterval v (s : edvs_state) : edvs_state :=
  {| serialThreadRun := serialThreadRun s; dvsTSReset := dvsTSReset s;
     maxPacketContainerPacketSize := maxPacketContainerPacketSize s;
     maxPacketContainerInterval := v;
     timestamps := timestamps s;
     currentPacketContainerCommitTimestamp := currentPacketContainerCommitTimestamp s;
     currentPacketContainer := currentPacketContainer s;
     currentPolarityPacket := currentPolarityPacket s;
     currentPolarityPacketPosition := currentPolarityPacketPosition s;
     currentSpecialPacket := currentSpecialPacket s;
     currentSpecialPacketPosition := currentSpecialPacketPosition s;
     allocations := allocations s; exchangePuts := exchangePuts s |}.

(** What a device function leaves: the state, what it did to the
    outside, and the value it returns. *)
Definition outcome (A : Type) : Type := edvs_device * list out * A.

(** [serialPortWrite] (edvs.c, line 19): true when the whole command
    was written. *)
Definition serialPortWrite (d : edvs_device) (cmd : string) : outcome bool :=
  let (ok, env) := request (serialWrites d) in
  (set_serialWrites env d, [SerialWrite cmd], ok).

Definition newline : string := String (ascii_of_nat 10) "".

(** A [size_t] or [uint32_t] printed by [%zu] or [PRIu32]. *)
Definition decimal (n : Z) : string :=
  NilEmpty.string_of_uint (N.to_uint (Z.to_N n)).

(** The command [snprintf] builds from [!B%zu=%PRIu32\n] (edvs.c, line
    1009); it is far shorter than the 128 bytes of the buffer. *)
Definition cmdSetBias (i value : Z) : string :=
  "!B" ++ decimal i ++ "=" ++ decimal value ++ newline.

Definition cmdFlushBiases : string := "!BF" ++ newline.
Definition cmdStartDVS : string := "E+" ++ newline.
Definition cmdStopDVS : string := "E-" ++ newline.

(** The loop of [edvsSendBiases] (edvs.c, lines 1008-1014) over [n]
    biases from index [i] on: the second component of the value says
    whether every write succeeded. *)
Fixpoint sendBiasLoop (n : nat) (i : Z) (d : edvs_device) : outcome bool :=
  match n with
  | O => (d, [], true)
  | S n' =>
      let '(d1, o1, ok) :=
        serialPortWrite d
          (cmdSetBias i (caerByteArrayToInteger (biases d i) BIAS_LENGTH)) in
      if ok then
        let '(d2, o2, ok2) := sendBiasLoop n' (i + 1) d1 in (d2, o1 ++ o2, ok2)
      else (d1, o1, false)
  end.

(** [edvsSendBiases] (edvs.c, line 995); [size_t] is of 64 bits. *)
Definition edvsSendBiases (d : edvs_device) (biasID : Z) : outcome bool :=
  let startBias := U64T biasID in
  let stopBias := U64T (startBias + 1) in
  let startBias := if biasID =? -1 then 0 else startBias in
  let stopBias := if biasID =? -1 then U64T BIAS_NUMBER else stopBias in
  let '(d1, o1, ok) := sendBiasLoop (Z.to_nat (stopBias - startBias)) startBias d in
  if ok then
    let '(d2, o2, ok2) := serialPortWrite d1 cmdFlushBiases in (d2, o1 ++ o2, ok2)
  else (d1, o1, false).

(** The case labels of the bias parameters (edvs.c, lines 377-388). *)
Definition biasParameters : list Z :=
  [EDVS_CONFIG_BIAS_CAS; EDVS_CONFIG_BIAS_INJGND; EDVS_CONFIG_BIAS_PUX;
   EDVS_CONFIG_BIAS_PUY; EDVS_CONFIG_BIAS_REQPD; EDVS_CONFIG_BIAS_REQ;
   EDVS_CONFIG_BIAS_FOLL; EDVS_CONFIG_BIAS_PR; EDVS_CONFIG_BIAS_REFR;
   EDVS_CONFIG_BIAS_DIFF; EDVS_CONFIG_BIAS_DIFFON; EDVS_CONFIG_BIAS_DIFFOFF].

Definition isBiasParameter (paramAddr : Z) : bool :=
  existsb (Z.eqb paramAddr) biasParameters.

(** The default biases of [edvsSendDefaultConfig] (edvs.c, lines
    276-287), in the order they are stored. *)
Definition defaultBiases : list (Z * Z) :=
  [(EDVS_CONFIG_BIAS_CAS, 1992); (EDVS_CONFIG_BIAS_INJGND, 1108364);
   (EDVS_CONFIG_BIAS_REQPD, 16777215); (EDVS_CONFIG_BIAS_PUX, 8159221);
   (EDVS_CONFIG_BIAS_DIFFOFF, 132); (EDVS_CONFIG_BIAS_REQ, 309590);
   (EDVS_CONFIG_BIAS_REFR, 969); (EDVS_CONFIG_BIAS_PUY, 16777215);
   (EDVS_CONFIG_BIAS_DIFFON, 209996); (EDVS_CONFIG_BIAS_DIFF, 13125);
   (EDVS_CONFIG_BIAS_FOLL, 271); (EDVS_CONFIG_BIAS_PR, 217)].

(** The bias of the given index is stored. *)
Definition storeBias (d : edvs_device) (bias : Z * Z) : edvs_device :=
  set_biases
    (fun i => if i =? fst bias
              then caerIntegerToByteArray (snd bias) BIAS_LENGTH
              else biases d i) d.

(** [edvsSendDefaultConfig] (edvs.c, line 271). *)
Definition edvsSendDefaultConfig (d : edvs_device) : outcome bool :=
  edvsSendBiases (fold_left storeBias defaultBiases d) (-1).

(** [edvsConfigSet] (edvs.c, line 293).  A [switch] is the chain of
    the comparisons with its case labels, in their order. *)
Definition edvsConfigSet (d : edvs_device) (modAddr paramAddr param : Z)
  : outcome bool :=
  if modAddr =? CAER_HOST_CONFIG_SERIAL then
    if paramAddr =? CAER_HOST_CONFIG_SERIAL_READ_SIZE then
      (set_serialReadSize param d, [], true)
    else (d, [], false)
  else if modAddr =? CAER_HOST_CONFIG_DATAEXCHANGE then
    let (x, ok) := dataExchangeConfigSet (dataExchange d) paramAddr param in
    (set_dataExchange x d, [], ok)
  else if modAddr =? CAER_HOST_CONFIG_PACKETS then
    if paramAddr =? CAER_HOST_CONFIG_PACKETS_MAX_CONTAINER_PACKET_SIZE then
      (set_decoder (set_maxPacketContainerPacketSize param (decoder d)) d, [], true)
    else if paramAddr =? CAER_HOST_CONFIG_PACKETS_MAX_CONTAINER_INTERVAL then
      (set_decoder (set_maxPacketContainerInterval param (decoder d)) d, [], true)
    else (d, [], false)
  else if modAddr =? CAER_HOST_CONFIG_LOG then
    if paramAddr =? CAER_HOST_CONFIG_LOG_LEVEL then
      (set_deviceLogLevel (U8T param) d, [], true)
    else (d, [], false)
  else if modAddr =? EDVS_CONFIG_DVS then
    if paramAddr =? EDVS_CONFIG_DVS_RUN then
      if negb (param =? 0) && negb (dvsRunning d) then
        let '(d1, o, ok) := serialPortWrite d cmdStartDVS in
        if ok then (set_dvsRunning true d1, o, true) else (d1, o, false)
      else if (param =? 0) && dvsRunning d then
        let '(d1, o, ok) := serialPortWrite d cmdStopDVS in
        if ok then (set_dvsRunning false d1, o, true) else (d1, o, false)
      else (d, [], true)
    else if paramAddr =? EDVS_CONFIG_DVS_TIMESTAMP_RESET then
      if negb (param =? 0) then
        (set_decoder (set_dvsTSReset true (decoder d)) d, [], true)
      else (d, [], true)
    else (d, [], false)
  else if modAddr =? EDVS_CONFIG_BIAS then
    if isBiasParameter paramAddr then
      edvsSendBiases (storeBias d (paramAddr, param)) paramAddr
    else (d, [], false)
  else (d, [], false).

(** [edvsConfigGet] (edvs.c, line 407): the parameter stored when it
    returns true, [None] when it returns false. *)
Definition edvsConfigGet (d : edvs_device) (modAddr paramAddr : Z) : option Z :=
  if modAddr =? CAER_HOST_CONFIG_SERIAL then
    if paramAddr =? CAER_HOST_CONFIG_SERIAL_READ_SIZE then
      Some (U32T (serialReadSize d))
    else None
  else if modAddr =? CAER_HOST_CONFIG_DATAEXCHANGE then
    dataExchangeConfigGet (dataExchange d) paramAddr
  else if modAddr =? CAER_HOST_CONFIG_PACKETS then
    if paramAddr =? CAER_HOST_CONFIG_PACKETS_MAX_CONTAINER_PACKET_SIZE then
      Some (U32T (maxPacketContainerPacketSize (decoder d)))
    else if paramAddr =? CAER_HOST_CONFIG_PACKETS_MAX_CONTAINER_INTERVAL then
      Some (U32T (maxPacketContainerInterval (decoder d)))
    else None
  else if modAddr =? CAER_HOST_CONFIG_LOG then
    if paramAddr =? CAER_HOST_CONFIG_LOG_LEVEL then Some (deviceLogLevel d)
    else None
  else if modAddr =? EDVS_CONFIG_DVS then
    if paramAddr =? EDVS_CONFIG_DVS_RUN then
      Some (if dvsRunning d then 1 else 0)
    else if paramAddr =? EDVS_CONFIG_DVS_TIMESTAMP_RESET then Some 0
    else None
  else if modAddr =? EDVS_CONFIG_BIAS then
    if isBiasParameter paramAddr then
      Some (caerByteArrayToInteger (biases d paramAddr) BIAS_LENGTH)
    else None
  else None.

(** [freeAllDataMemory] (edvs.c, line 41). *)
Definition freeAllDataMemory (d : edvs_device) : edvs_device * list out :=
  let d := set_dataExchange (dataExchangeDestroy (dataExchange d)) d in
  let s := decoder d in
  let s :=
    match currentPolarityPacket s with
    | Some _ =>
        let s := set_polarity None (currentPolarityPacketPosition s) s in
        match currentPacketContainer s with
        | Some c => set_container (Some (setPolarity c None)) s
        | None => s
        end
    | None => s
    end in
  let s :=
    match currentSpecialPacket s with
    | Some _ =>
        let s := set_special None (currentSpecialPacketPosition s) s in
        match currentPacketContainer s with
        | Some c => set_container (Some (setSpecial c None)) s
        | None => s
        end
    | None => s
    end in
  match currentPacketContainer s with
  | Some c => (set_decoder (set_container None s) d, [ContainerFree c])
  | None => (set_decoder s d, [])
  end.

(** [serialThreadStart] (edvs.c, line 504): the thread created sets the
    run flag, which the function waits for. *)
Definition serialThreadStart (d : edvs_device) : edvs_device * bool :=
  let (ok, env) := request (threads d) in
  let d := set_threads env d in
  if ok then (set_decoder (set_serialThreadRun true (decoder d)) d, true)
  else (d, false).

(** [serialThreadStop] (edvs.c, line 518). *)
Definition serialThreadStop (d : edvs_device) : edvs_device * list out :=
  let d := set_decoder (set_serialThreadRun false (decoder d)) d in
  let (ok, env) := request (threads d) in
  (set_threads env d,
   if ok then []
   else [Log CAER_LOG_CRITICAL "Failed to join serial thread. Error: %d."]).

(** [edvsDataStart] (edvs.c, line 590). *)
Definition edvsDataStart (d : edvs_device) : outcome bool :=
  let d := set_dataExchange (dataExchangeSetNotify (dataExchange d)) d in
  let d := set_decoder (set_commitTimestamp (-1) (decoder d)) d in
  let (x, ok) := dataExchangeBufferInit (dataExchange d) in
  let d := set_dataExchange x d in
  if negb ok then
    (d, [Log CAER_LOG_CRITICAL "Failed to initialize data exchange buffer."], false)
  else
    let (c, env) := caerEventPacketContainerAllocate (allocations (decoder d)) in
    let d := set_decoder (set_container c (set_allocations env (decoder d))) d in
    match c with
    | None =>
        let (d, o) := freeAllDataMemory d in
        (d, o ++ [Log CAER_LOG_CRITICAL "Failed to allocate event packet container."],
         false)
    | Some _ =>
        let (p, env) :=
          caerEventPacketAllocate EDVS_POLARITY_DEFAULT_SIZE 0
            (allocations (decoder d)) in
        let d :=
          set_decoder
            (set_polarity p (currentPolarityPacketPosition (decoder d))
               (set_allocations env (decoder d))) d in
        match p with
        | None =>
            let (d, o) := freeAllDataMemory d in
            (d, o ++ [Log CAER_LOG_CRITICAL "Failed to allocate polarity event packet."],
             false)
        | Some _ =>
            let (p, env) :=
              caerEventPacketAllocate EDVS_SPECIAL_DEFAULT_SIZE 0
                (allocations (decoder d)) in
            let d :=
              set_decoder
                (set_special p (currentSpecialPacketPosition (decoder d))
                   (set_allocations env (decoder d))) d in
            match p with
            | None =>
                let (d, o) := freeAllDataMemory d in
                (d,
                 o ++ [Log CAER_LOG_CRITICAL "Failed to allocate special event packet."],
                 false)
            | Some _ =>
                let (d, started) := serialThreadStart d in
                if negb started then
                  let (d, o) := freeAllDataMemory d in
                  (d,
                   o ++ [Log CAER_LOG_CRITICAL "Failed to start serial data transfers."],
                   false)
                else
                  let (x, producers) := dataExchangeStartProducers (dataExchange d) in
                  let d := set_dataExchange x d in
                  if producers then
                    let '(d, o, _) := edvsConfigSet d EDVS_CONFIG_DVS EDVS_CONFIG_DVS_RUN 1 in
                    (d, o, true)
                  else (d, [], true)
            end
        end
    end.

(** [edvsDataStop] (edvs.c, line 652). *)
Definition edvsDataStop (d : edvs_device) : outcome bool :=
  let (x, producers) := dataExchangeStopProducers (dataExchange d) in
  let d := set_dataExchange x d in
  let '(d, o1) :=
    if producers then
      let '(d, o, _) := edvsConfigSet d EDVS_CONFIG_DVS EDVS_CONFIG_DVS_RUN 0 in (d, o)
    else (d, []) in
  let (d, o2) := serialThreadStop d in
  let d := set_dataExchange (dataExchangeBufferEmpty (dataExchange d)) d in
  let (d, o3) := freeAllDataMemory d in
  let s := decoder d in
  let s := set_polarity (currentPolarityPacket s) 0 s in
  let s := set_special (currentSpecialPacket s) 0 s in
  (set_decoder s d, o1 ++ o2 ++ o3, true).

(** *** Vocabulary of the properties *)

(** The case labels of the switches of [edvsConfigSet] and
    [edvsConfigGet]: the modules, and the parameters of a module (the
    parameters of the data exchange are its own). *)
Definition modules : list Z :=
  [CAER_HOST_CONFIG_SERIAL; CAER_HOST_CONFIG_DATAEXCHANGE;
   CAER_HOST_CONFIG_PACKETS; CAER_HOST_CONFIG_LOG; EDVS_CONFIG_DVS;
   EDVS_CONFIG_BIAS].

Definition packetParameters : list Z :=
  [CAER_HOST_CONFIG_PACKETS_MAX_CONTAINER_PACKET_SIZE;
   CAER_HOST_CONFIG_PACKETS_MAX_CONTAINER_INTERVAL].

Definition dvsParameters : list Z :=
  [EDVS_CONFIG_DVS_RUN; EDVS_CONFIG_DVS_TIMESTAMP_RESET].

Definition parameters (modAddr : Z) : list Z :=
  if modAddr =? CAER_HOST_CONFIG_SERIAL then [CAER_HOST_CONFIG_SERIAL_READ_SIZE]
  else if modAddr =? CAER_HOST_CONFIG_DATAEXCHANGE then []
  else if modAddr =? CAER_HOST_CONFIG_PACKETS then packetParameters
  else if modAddr =? CAER_HOST_CONFIG_LOG then [CAER_HOST_CONFIG_LOG_LEVEL]
  else if modAddr =? EDVS_CONFIG_DVS then dvsParameters
  else if modAddr =? EDVS_CONFIG_BIAS then biasParameters
  else [].

(** The case labels of each switch differ from one another, as C
    demands. *)
Definition labelsDistinct : Prop :=
  NoDup modules /\ NoDup packetParameters /\ NoDup dvsParameters
  /\ NoDup biasParameters.

(** The host parameters the driver keeps itself: the read size, the two
    commit thresholds and the log level. *)
Definition hostParameter (modAddr paramAddr : Z) : Prop :=
  (modAddr = CAER_HOST_CONFIG_SERIAL
   /\ paramAddr = CAER_HOST_CONFIG_SERIAL_READ_SIZE)
  \/ (modAddr = CAER_HOST_CONFIG_PACKETS /\ In paramAddr packetParameters)
  \/ (modAddr = CAER_HOST_CONFIG_LOG /\ paramAddr = CAER_HOST_CONFIG_LOG_LEVEL).

(** The commands tried when the commands given are written one after
    the other until a write fails: up to and including the first one
    whose write fails. *)
Fixpoint attempted (cmds : list string) (env : list bool) : list string :=
  match cmds with
  | [] => []
  | cmd :: cmds' =>
      let (ok, env') := request env in
      cmd :: (if ok then attempted cmds' env' else [])
  end.

(** Every one of the next [n] writes succeeds. *)
Definition allWritten (n : nat) (env : list bool) : bool :=
  forallb (fun ok => ok) (firstn n env).

(** The command that sets the bias of the given index to the value
    stored for it. *)
Definition biasCommand (d : edvs_device) (i : Z) : string :=
  cmdSetBias i (caerByteArrayToInteger (biases d i) BIAS_LENGTH).

(** The indices [edvsSendBiases] goes through: every bias for -1, the
    one given otherwise. *)
Definition biasIndices (biasID : Z) : list Z :=
  if biasID =? -1 then map Z.of_nat (seq 0 (Z.to_nat BIAS_NUMBER))
  else [biasID].

(** The device functions leave everything but the outcomes of the
    serial writes still to come. *)
Definition sameButWrites (d d' : edvs_device) : Prop :=
  decoder d' = decoder d /\ serialReadSize d' = serialReadSize d
  /\ deviceLogLevel d' = deviceLogLevel d /\ dvsRunning d' = dvsRunning d
  /\ biases d' = biases d /\ dataExchange d' = dataExchange d
  /\ threads d' = threads d.

(** No container and no packet is allocated. *)
Definition unallocated (s : edvs_state) : Prop :=
  currentPacketContainer s = None /\ currentPolarityPacket s = None
  /\ currentSpecialPacket s = None.

End WithHeaders.

End EdvsDevice.

(** ** The DV-Explorer USB decoder (src/dv_explorer.c) *)

Module DvExplorer.

(** Constants of dv_explorer.h, which is not under src/. *)
Class dv_explorer_h := {
  DV_EXPLORER_POLARITY_DEFAULT_SIZE : Z;
  DV_EXPLORER_SPECIAL_DEFAULT_SIZE : Z;
  DV_EXPLORER_IMU_DEFAULT_SIZE : Z;
  IMU_TYPE_TEMP : Z;
  IMU_TYPE_GYRO : Z;
  IMU_TYPE_ACCEL : Z;
  IMU_TOTAL_COUNT : Z
}.

Definition TS_WRAP_ADD : Z := 0x8000.

(** [struct timestamps_state_new_logic] (timestamps.h, not under src/),
    with the fields of the spec's TimestampState. *)
Record timestamps_state_new_logic := {
  wrapOverflow : Z;
  wrapAdd : Z;
  lastRaw : Z;
  last : Z;
  current : Z
}.

(** The log calls of a helper: severity and format. *)
Definition logs := list (caer_log_level * string).

Definition logged (l : logs) : list out :=
  map (fun x => Log (fst x) (snd x)) l.

(** The timestamp helpers of timestamps.h, which is not under src/: the
    translator is written over any implementation of them.  Each helper
    returns the timestamps it leaves and what it logged;
    [handleTimestampWrapNewLogic] also returns whether the wrap was a
    big wrap. *)
Class timestamps_h := {
  handleTimestampUpdateNewLogic :
    timestamps_state_new_logic -> Z -> timestamps_state_new_logic * logs;
  handleTimestampResetNewLogic :
    timestamps_state_new_logic -> timestamps_state_new_logic * logs;
  handleTimestampWrapNewLogic :
    timestamps_state_new_logic -> Z -> Z ->
    timestamps_state_new_logic * logs * bool
}.

(** [struct container_generation] (container_generation.h, not under
    src/): the container being filled, the commit deadline and the two
    commit thresholds. *)
Record container_generation := {
  currentPacketContainer : option container;
  currentPacketContainerCommitTimestamp : Z;
  maxPacketContainerPacketSize : Z;
  maxPacketContainerInterval : Z
}.

Definition set_cgContainer v (g : container_generation) :=
  {| currentPacketContainer := v;
     currentPacketContainerCommitTimestamp := currentPacketContainerCommitTimestamp g;
     maxPacketContainerPacketSize := maxPacketContainerPacketSize g;
     maxPacketContainerInterval := maxPacketContainerInterval g |}.

Definition set_cgCommitTimestamp v (g : container_generation) :=
  {| currentPacketContainer := currentPacketContainer g;
     currentPacketContainerCommitTimestamp := v;
     maxPacketContainerPacketSize := maxPacketContainerPacketSize g;
     maxPacketContainerInterval := maxPacketContainerInterval g |}.

Record dvs_state := {
  sizeX : Z;
  sizeY : Z;
  invertXY : bool;
  lastX : Z;
  lastY : Z
}.

(** The IMU part of the state; [currentEvent] is the private sample
    and [currentEventValid] its valid mark, which the C code keeps in the
    sample itself. *)
Record imu_state := {
  ignoreEvents : bool;
  flipX : bool; flipY : bool; flipZ : bool;
  type : Z;
  count : Z;
  tmpData : Z;
  accelScale : Z;
  gyroScale : Z;
  currentEvent : caer_imu6_event;
  currentEventValid : bool
}.

Definition set_ignoreEvents v (m : imu_state) :=
  {| ignoreEvents := v; flipX := flipX m; flipY := flipY m; flipZ := flipZ m;
     type := type m; count := count m; tmpData := tmpData m;
     accelScale := accelScale m; gyroScale := gyroScale m;
     currentEvent := currentEvent m;
     currentEventValid := currentEventValid m |}.

Definition set_type v (m : imu_state) :=
  {| ignoreEvents := ignoreEvents m; flipX := flipX m; flipY := flipY m;
     flipZ := flipZ m; type := v; count := count m; tmpData := tmpData m;
     accelScale := accelScale m; gyroScale := gyroScale m;
     currentEvent := currentEvent m;
     currentEventValid := currentEventValid m |}.

Definition set_count v (m : imu_state) :=
  {| ignoreEvents := ignoreEvents m; flipX := flipX m; flipY := flipY m;
     flipZ := flipZ m; type := type m; count := v; tmpData := tmpData m;
     accelScale := accelScale m; gyroScale := gyroScale m;
     currentEvent := currentEvent m;
     currentEventValid := currentEventValid m |}.

Definition set_tmpData v (m : imu_state) :=
  {| ignoreEvents := ignoreEvents m; flipX := flipX m; flipY := flipY m;
     flipZ := flipZ m; type := type m; count := count m; tmpData := v;
     accelScale := accelScale m; gyroScale := gyroScale m;
     currentEvent := currentEvent m;
     currentEventValid := currentEventValid m |}.

Definition set_scales a g (m : imu_state) :=
  {| ignoreEvents := ignoreEvents m; flipX := flipX m; flipY := flipY m;
     flipZ := flipZ m; type := type m; count := count m; tmpData := tmpData m;
     accelScale := a; gyroScale := g; currentEvent := currentEvent m;
     currentEventValid := currentEventValid m |}.

Definition set_currentEvent v (m : imu_state) :=
  {| ignoreEvents := ignoreEvents m; flipX := flipX m; flipY := flipY m;
     flipZ := flipZ m; type := type m; count := count m; tmpData := tmpData m;
     accelScale := accelScale m; gyroScale := gyroScale m; currentEvent := v;
     currentEventValid := currentEventValid m |}.

Definition set_currentEventValid v (m : imu_state) :=
  {| ignoreEvents := ignoreEvents m; flipX := flipX m; flipY := flipY m;
     flipZ := flipZ m; type := type m; count := count m; tmpData := tmpData m;
     accelScale := accelScale m; gyroScale := gyroScale m;
     currentEvent := currentEvent m; currentEventValid := v |}.

Record current_packets := {
  polarity : option (packet caer_polarity_event);
  polarityPosition : Z;
  special : option (packet caer_special_event);
  specialPosition : Z;
  imu6 : option (packet caer_imu6_event);
  imu6Position : Z
}.

Definition set_pkPolarity p pos (k : current_packets) :=
  {| polarity := p; polarityPosition := pos;
     special := special k; specialPosition := specialPosition k;
     imu6 := imu6 k; imu6Position := imu6Position k |}.

Definition set_pkSpecial p pos (k : current_packets) :=
  {| polarity := polarity k; polarityPosition := polarityPosition k;
     special := p; specialPosition := pos;
     imu6 := imu6 k; imu6Position := imu6Position k |}.

Definition set_pkIMU6 p pos (k : current_packets) :=
  {| polarity := polarity k; polarityPosition := polarityPosition k;
     special := special k; specialPosition := specialPosition k;
     imu6 := p; imu6Position := pos |}.

(** The fields of [struct dv_explorer_state] the translator uses, and
    the outcomes of the allocations and of the [dataExchangePut] calls
    still to come. *)
Record dv_state := {
  dataTransfersRun : bool;
  timestamps : timestamps_state_new_logic;
  container : container_generation;
  currentPackets : current_packets;
  dvs : dvs_state;
  imu : imu_state;
  allocations : list bool;
  exchangePuts : list bool
}.

Definition set_timestamps v s :=
  {| dataTransfersRun := dataTransfersRun s; timestamps := v;
     container := container s; currentPackets := currentPackets s;
     dvs := dvs s; imu := imu s;
     allocations := allocations s; exchangePuts := exchangePuts s |}.

Definition set_container v s :=
  {| dataTransfersRun := dataTransfersRun s; timestamps := timestamps s;
     container := v; currentPackets := currentPackets s;
     dvs := dvs s; imu := imu s;
     allocations := allocations s; exchangePuts := exchangePuts s |}.

Definition set_currentPackets v s :=
  {| dataTransfersRun := dataTransfersRun s; timestamps := timestamps s;
     container := container s; currentPackets := v;
     dvs := dvs s; imu := imu s;
     allocations := allocations s; exchangePuts := exchangePuts s |}.

Definition set_dvs v s :=
  {| dataTransfersRun := dataTransfersRun s; timestamps := timestamps s;
     container := container s; currentPackets := currentPackets s;
     dvs := v; imu := imu s;
     allocations := allocations s; exchangePuts := exchangePuts s |}.

Definition set_imu v s :=
  {| dataTransfersRun := dataTransfersRun s; timestamps := timestamps s;
     container := container s; currentPackets := currentPackets s;
     dvs := dvs s; imu := v;
     allocations := allocations s; exchangePuts := exchangePuts s |}.

Definition set_allocations v s :=
  {| dataTransfersRun := dataTransfersRun s; timestamps := timestamps s;
     container := container s; currentPackets := currentPackets s;
     dvs := dvs s; imu := imu s;
     allocations := v; exchangePuts := exchangePuts s |}.

Definition set_exchangePuts v s :=
  {| dataTransfersRun := dataTransfersRun s; timestamps := timestamps s;
     container := container s; currentPackets := currentPackets s;
     dvs := dvs s; imu := imu s;
     allocations := allocations s; exchangePuts := v |}.

Record result := {
  state : dv_state;
  outs : list out;
  ends : flow
}.

Definition continue (s : dv_state) : result :=
  {| state := s; outs := []; ends := Continue |}.

Definition continueWith (s : dv_state) (o : list out) : result :=
  {| state := s; outs := o; ends := Continue |}.

Definition returnWith (s : dv_state) (o : list out) : result :=
  {| state := s; outs := o; ends := Returned |}.

Definition andThen (r : result) (k : dv_state -> result) : result :=
  match ends r with
  | Continue =>
      let r' := k (state r) in
      {| state := state r'; outs := outs r ++ outs r'; ends := ends r' |}
  | _ => r
  end.

(** *** Container generation (container_generation.h) *)

(** Modelled from the spec: [containerGenerationAllocate]
    (container_generation.h, not under src/).  A container is created
    lazily on the first token after the previous one was handed off;
    the result tells whether a container is there. *)
Definition containerGenerationAllocate (g : container_generation)
  (env : list bool) : container_generation * bool * list bool :=
  match currentPacketContainer g with
  | Some _ => (g, true, env)
  | None =>
      let (c, env') := caerEventPacketContainerAllocate env in
      match c with
      | Some c => (set_cgContainer (Some c) g, true, env')
      | None => (g, false, env')
      end
  end.

(** Modelled from the spec: [containerGenerationCommitTimestampReset]
    (container_generation.h, not under src/): the commit deadline is
    set to uninitialized, as edvs.c does with -1 at lines 603 and 801. *)
Definition containerGenerationCommitTimestampReset (g : container_generation)
  : container_generation :=
  set_cgCommitTimestamp (-1) g.

(** Modelled from the spec: [containerGenerationCommitTimestampInit]
    (container_generation.h, not under src/): an uninitialized commit
    deadline is set one interval past the current timestamp, as
    [initContainerCommitTimestamp] of edvs.c does. *)
Definition containerGenerationCommitTimestampInit (g : container_generation)
  (tsCurrent : Z) : container_generation :=
  if currentPacketContainerCommitTimestamp g =? -1 then
    set_cgCommitTimestamp
      (I32T (tsCurrent + I32T (maxPacketContainerInterval g) - 1)) g
  else g.

(** Modelled from the spec: [containerGenerationGetMaxPacketSize]
    (container_generation.h, not under src/): the configured maximum
    number of events of a packet, 0 disabling the size trigger. *)
Definition containerGenerationGetMaxPacketSize (g : container_generation) : Z :=
  I32T (maxPacketContainerPacketSize g).

(** Modelled from the spec: [containerGenerationIsCommitTimestampElapsed]
    (container_generation.h, not under src/): the time trigger, the
    reconstructed logical timestamp has advanced past the commit
    deadline. *)
Definition containerGenerationIsCommitTimestampElapsed
  (g : container_generation) (tsOverflow tsCurrent : Z) : bool :=
  generateFullTimestamp tsOverflow tsCurrent
  >? currentPacketContainerCommitTimestamp g.

(** The container being filled; it is allocated by the time packets
    are moved into it. *)
Definition cgContainer (g : container_generation) : Events.container :=
  match currentPacketContainer g with
  | Some c => c
  | None => emptyContainer
  end.

(** Modelled from the spec: the container of a timestamp reset, which
    holds the Special(TIMESTAMP_RESET) event alone.  The spec leaves the
    timestamp of the event open: it is the argument [t]. *)
Definition tsResetContainer (t tsOverflow : Z) : Events.container :=
  setSpecial emptyContainer
    (Some {| eventCapacity := 1; eventTSOverflow := tsOverflow; eventNumber := 1;
             events := [{| spcTimestamp := t; spcType := TIMESTAMP_RESET |}] |}).

(** Modelled from the spec: the end of [containerGenerationExecute]
    (container_generation.h, not under src/) after a timestamp reset: a
    container with only the Special(TIMESTAMP_RESET) event goes through
    the forced path of the exchange, unless one of its two allocations
    fails.  The timestamp of that event is not given by the spec and is
    taken as [INT32_MAX], the value edvs.c uses. *)
Definition executeReset (tsOverflow : Z) (allocs : list bool)
  : list out * list bool :=
  let (ok1, allocs1) := request allocs in
  if ok1 then
    let (ok2, allocs2) := request allocs1 in
    if ok2 then
      ([ExchangePutForce (tsResetContainer INT32_MAX tsOverflow)], allocs2)
    else
      ([Log CAER_LOG_CRITICAL "Failed to allocate tsReset special event packet."],
       allocs2)
  else
    ([Log CAER_LOG_CRITICAL "Failed to allocate tsReset event packet container."],
     allocs1).

(** Modelled from the spec: [containerGenerationExecute]
    (container_generation.h, not under src/), the commit of section 4.3:
    the deadline that has passed is re-armed by adding the interval as
    many times as needed; a container with no non-empty packet is
    discarded, another one is put on the exchange and dropped with a log
    when the queue is full; the slot of the container is cleared; after
    a reset, the reset container follows.  [None] when the re-arming
    loop never ends. *)
Definition containerGenerationExecute (g : container_generation)
  (emptyContainerCommit tsReset : bool) (tsOverflow tsCurrent : Z)
  (allocs puts : list bool)
  : option (container_generation * list out * list bool * list bool) :=
  let full := generateFullTimestamp tsOverflow tsCurrent in
  let rearmed :=
    if full >? currentPacketContainerCommitTimestamp g then
      rearm full (currentPacketContainerCommitTimestamp g)
        (maxPacketContainerInterval g)
    else Some (currentPacketContainerCommitTimestamp g) in
  match rearmed with
  | None => None
  | Some deadline =>
      let c := cgContainer g in
      let g := set_cgContainer None (set_cgCommitTimestamp deadline g) in
      let (ok, puts') := request puts in
      let o1 := handOverOuts c emptyContainerCommit ok in
      let puts := if emptyContainerCommit then puts else puts' in
      if tsReset then
        let (o2, allocs) := executeReset tsOverflow allocs in
        Some (g, o1 ++ o2, allocs, puts)
      else Some (g, o1, allocs, puts)
  end.

(** Modelled from the spec: [containerGenerationSetPacket]
    (container_generation.h, not under src/) on each of the three slots:
    the packet is moved into the container. *)
Definition cgSetPolarity (g : container_generation) p :=
  set_cgContainer (Some (setPolarity (cgContainer g) p)) g.
Definition cgSetSpecial (g : container_generation) p :=
  set_cgContainer (Some (setSpecial (cgContainer g) p)) g.
Definition cgSetIMU6 (g : container_generation) p :=
  set_cgContainer (Some (setIMU6 (cgContainer g) p)) g.

(** *** The translator *)

(** [ensureSpaceForEvents] (dv_explorer.c, line 969): the packet, whether
    there is room for the events, what was logged and the allocation
    outcomes left. *)
Definition ensureSpaceForEvents {E} (p : option (packet E))
  (position numEvents : Z) (env : list bool)
  : option (packet E) * bool * list out * list bool :=
  match p with
  | None => (None, false, [], env)
  | Some pk =>
      if position + numEvents <=? eventCapacity pk then (Some pk, true, [], env)
      else
        let (g, env') := caerEventPacketGrow pk (eventCapacity pk * 2) env in
        match g with
        | None =>
            (Some pk, false,
             [Log CAER_LOG_CRITICAL "Failed to grow event packet of type %d."],
             env')
        | Some g => (Some g, true, [], env')
        end
  end.

Definition write {E} (p : option (packet E)) (e : E) : option (packet E) :=
  match p with
  | Some p => Some (appendEvent p e)
  | None => None
  end.

(** Allocation of the container and of the three packets (dv_explorer.c,
    lines 1007-1038). *)
Definition allocateContainer (s : dv_state) : result :=
  let '(g, ok, env) := containerGenerationAllocate (container s) (allocations s) in
  let s := set_allocations env (set_container g s) in
  if ok then continue s
  else returnWith s
         [Log CAER_LOG_CRITICAL "Failed to allocate event packet container."].

Definition allocateSpecial `{dv_explorer_h} (s : dv_state) : result :=
  match special (currentPackets s) with
  | Some _ => continue s
  | None =>
      let (p, env) :=
        caerEventPacketAllocate DV_EXPLORER_SPECIAL_DEFAULT_SIZE
          (wrapOverflow (timestamps s)) (allocations s) in
      let s := set_allocations env s in
      match p with
      | None =>
          returnWith s
            [Log CAER_LOG_CRITICAL "Failed to allocate special event packet."]
      | Some p =>
          continue
            (set_currentPackets
               (set_pkSpecial (Some p) (specialPosition (currentPackets s))
                  (currentPackets s)) s)
      end
  end.

Definition allocatePolarity `{dv_explorer_h} (s : dv_state) : result :=
  match polarity (currentPackets s) with
  | Some _ => continue s
  | None =>
      let (p, env) :=
        caerEventPacketAllocate DV_EXPLORER_POLARITY_DEFAULT_SIZE
          (wrapOverflow (timestamps s)) (allocations s) in
      let s := set_allocations env s in
      match p with
      | None =>
          returnWith s
            [Log CAER_LOG_CRITICAL "Failed to allocate polarity event packet."]
      | Some p =>
          continue
            (set_currentPackets
               (set_pkPolarity (Some p) (polarityPosition (currentPackets s))
                  (currentPackets s)) s)
      end
  end.

Definition allocateIMU6 `{dv_explorer_h} (s : dv_state) : result :=
  match imu6 (currentPackets s) with
  | Some _ => continue s
  | None =>
      let (p, env) :=
        caerEventPacketAllocate DV_EXPLORER_IMU_DEFAULT_SIZE
          (wrapOverflow (timestamps s)) (allocations s) in
      let s := set_allocations env s in
      match p with
      | None =>
          returnWith s
            [Log CAER_LOG_CRITICAL "Failed to allocate IMU6 event packet."]
      | Some p =>
          continue
            (set_currentPackets
               (set_pkIMU6 (Some p) (imu6Position (currentPackets s))
                  (currentPackets s)) s)
      end
  end.

(** A special event of the given type and timestamp put into the special
    packet when there is room for it (the block repeated at dv_explorer.c,
    lines 1086-1094, 1102-1110, 1118-1126, 1185-1193, 1201-1209 and
    1456-1464). *)
Definition putSpecial (s : dv_state) (t : Z) (ty : special_event_type)
  : dv_state * list out :=
  let k := currentPackets s in
  let '(p, ok, o, env) :=
    ensureSpaceForEvents (special k) (specialPosition k) 1 (allocations s) in
  let s := set_allocations env s in
  if ok then
    let e := {| spcTimestamp := t; spcType := ty |} in
    (set_currentPackets (set_pkSpecial (write p e) (specialPosition k + 1) k) s, o)
  else
    (set_currentPackets (set_pkSpecial p (specialPosition k) k) s, o).

(** Modelled from the spec: [caerIMU6EventValidate] of
    libcaer/events/imu6.h, which is not under src/ and of which the
    specification says nothing; it is taken as libcaer has it.  An event
    that is not yet marked valid is marked, and the number of events in
    the header of the packet is raised by one; for an event that is
    marked already a critical message is logged and nothing is counted.
    The result is the mark, the packet and what was logged. *)
Definition caerIMU6EventValidate (valid : bool)
  (p : option (packet caer_imu6_event))
  : bool * option (packet caer_imu6_event) * list out :=
  if valid then
    (true, p,
     [Log CAER_LOG_CRITICAL "Called caerIMU6EventValidate() on already valid event."])
  else (true, option_map countEvent p, []).

(** The private sample copied into the next free slot of the IMU packet
    (dv_explorer.c, lines 1167-1169). *)
Definition copied {E} (p : option (packet E)) (e : E) : option (packet E) :=
  option_map (fun p => copyEvent p e) p.

(** IMU End (dv_explorer.c, lines 1143-1180): the private sample is
    stamped and validated against the IMU packet (line 1153) before room
    is made for it (line 1165); the copy is what advances the position. *)
Definition imuEnd `{dv_explorer_h} (s : dv_state) : dv_state * list out :=
  if ignoreEvents (imu s) then (s, [])
  else
    let o0 := [Log CAER_LOG_DEBUG "IMU End event received."] in
    if count (imu s) =? IMU_TOTAL_COUNT then
      let e := setTimestamp (current (timestamps s)) (currentEvent (imu s)) in
      let '(valid, counted, ov) :=
        caerIMU6EventValidate (currentEventValid (imu s))
          (imu6 (currentPackets s)) in
      let s := set_imu (set_currentEventValid valid (set_currentEvent e (imu s))) s in
      let k := currentPackets s in
      let '(p, ok, o, env) :=
        ensureSpaceForEvents counted (imu6Position k) 1 (allocations s) in
      let s := set_allocations env s in
      if ok then
        (set_currentPackets (set_pkIMU6 (copied p e) (imu6Position k + 1) k) s,
         o0 ++ ov ++ o)
      else (set_currentPackets (set_pkIMU6 p (imu6Position k) k) s, o0 ++ ov ++ o)
    else
      (s, o0 ++ [Log CAER_LOG_INFO
                   "IMU End: failed to validate IMU sample count (%PRIu8), discarding samples."]).

Definition flipped (flip : bool) (v : Z) : Z := if flip then I16T (- v) else v.

(** The field of the private sample that an IMU data byte fills, by
    the position counter (the [switch] of dv_explorer.c, lines
    1305-1399). *)
Definition imuField `{dv_explorer_h} (m : imu_state) (misc8Data : Z)
  : imu_state * list out :=
  let word := I16T (Z.lor (Z.shiftl (tmpData m) 8) misc8Data) in
  let ev := currentEvent m in
  match count m with
  | 0 | 2 | 4 | 6 | 8 | 10 | 12 => (set_tmpData misc8Data m, [])
  | 1 =>
      (set_currentEvent
         (setAccelX (Accel (flipped (flipX m) word) (accelScale m)) ev) m, [])
  | 3 =>
      (set_currentEvent
         (setAccelY (Accel (flipped (flipY m) word) (accelScale m)) ev) m, [])
  | 5 =>
      let m := set_currentEvent
                 (setAccelZ (Accel (flipped (flipZ m) word) (accelScale m)) ev)
                 m in
      (if Z.land (type m) IMU_TYPE_TEMP =? 0 then
         if negb (Z.land (type m) IMU_TYPE_GYRO =? 0)
         then set_count (U8T (count m + 2)) m
         else set_count (U8T (count m + 8)) m
       else m, [])
  | 7 =>
      let m := set_currentEvent (setTemp (Temp word) ev) m in
      (if Z.land (type m) IMU_TYPE_GYRO =? 0
       then set_count (U8T (count m + 6)) m
       else m, [])
  | 9 =>
      (set_currentEvent
         (setGyroX (Gyro (flipped (flipX m) word) (gyroScale m)) ev) m, [])
  | 11 =>
      (set_currentEvent
         (setGyroY (Gyro (flipped (flipY m) word) (gyroScale m)) ev) m, [])
  | 13 =>
      (set_currentEvent
         (setGyroZ (Gyro (flipped (flipZ m) word) (gyroScale m)) ev) m, [])
  | _ => (m, [Log CAER_LOG_ERROR "Got invalid IMU update sequence."])
  end.

(** IMU data event (dv_explorer.c, lines 1298-1403). *)
Definition imuData `{dv_explorer_h} (s : dv_state) (misc8Data : Z)
  : dv_state * list out :=
  if ignoreEvents (imu s) then (s, [])
  else
    let (m, o) := imuField (imu s) misc8Data in
    (set_imu (set_count (U8T (count m + 1)) m) s,
     Log CAER_LOG_DEBUG "IMU Data event (%PRIu8) received." :: o).

(** IMU scale configuration event (dv_explorer.c, lines 1405-1441). *)
Definition imuScaleConfig `{dv_explorer_h} (s : dv_state) (data : Z)
  : dv_state * list out :=
  let m := imu s in
  if ignoreEvents m then (s, [])
  else
    let o0 := [Log CAER_LOG_DEBUG "IMU Scale Config event (%PRIu16) received."] in
    let m := set_scales (Z.land (U16T (Z.shiftr data 2)) 0x03) (Z.land data 0x03) m in
    let m := set_type (Z.land (Z.shiftr data 5) 0x07) m in
    if negb (Z.land (type m) IMU_TYPE_ACCEL =? 0) then
      (set_imu (set_count 0 m) s, o0)
    else if negb (Z.land (type m) IMU_TYPE_TEMP =? 0) then
      (set_imu (set_count 6 m) s, o0)
    else if negb (Z.land (type m) IMU_TYPE_GYRO =? 0) then
      (set_imu (set_count 8 m) s, o0)
    else
      (set_imu (set_count 14 m) s,
       o0 ++ [Log CAER_LOG_ERROR "IMU Scale Config: no IMU sensors enabled."]).

(** The events of an 8-pixel group (dv_explorer.c, lines 1248-1271):
    the loop over [i], with its mask, from [i] on. *)
Fixpoint pixelGroup (n : nat) (i mask : Z) (data : Z) (pol : bool) (d : dvs_state)
  (t : Z) (p : option (packet caer_polarity_event)) (position : Z)
  : option (packet caer_polarity_event) * Z :=
  match n with
  | O => (p, position)
  | S n' =>
      if Z.land data mask =? 0 then
        pixelGroup n' (i + 1) (Z.shiftr mask 1) data pol d t p position
      else
        let e :=
          if invertXY d then
            {| polTimestamp := t; polPolarity := pol;
               polY := U16T (lastX d + i); polX := U16T (lastY d) |}
          else
            {| polTimestamp := t; polPolarity := pol;
               polY := U16T (lastY d); polX := U16T (lastX d + i) |} in
        pixelGroup n' (i + 1) (Z.shiftr mask 1) data pol d t (write p e)
          (position + 1)
  end.

(** 8-pixel group event (dv_explorer.c, lines 1241-1275). *)
Definition polarityGroup (s : dv_state) (code data : Z) : dv_state * list out :=
  let k := currentPackets s in
  let '(p, ok, o, env) :=
    ensureSpaceForEvents (polarity k) (polarityPosition k) 8 (allocations s) in
  let s := set_allocations env s in
  if ok then
    let pol := negb (Z.land code 0x01 =? 0) in
    let (p, position) :=
      pixelGroup 8 0 0x0080 data pol (dvs s) (current (timestamps s)) p
        (polarityPosition k) in
    (set_currentPackets (set_pkPolarity p position k) s, o)
  else (set_currentPackets (set_pkPolarity p (polarityPosition k) k) s, o).

(** Y column address (dv_explorer.c, lines 1221-1239). *)
Definition columnAddress (s : dv_state) (data : Z) : dv_state * list out :=
  let columnAddr := Z.land data 0x03FF in
  let startOfFrame := negb (Z.land data 0x0800 =? 0) in
  let o0 :=
    if startOfFrame
    then [Log CAER_LOG_DEBUG "Start of Frame column marker detected."] else [] in
  let d := dvs s in
  if columnAddr >=? sizeY d then
    (s, o0 ++ [Log CAER_LOG_ALERT
                 "DVS: Y address out of range (0-%d): %PRIu16, due to USB communication issue."])
  else
    (set_dvs {| sizeX := sizeX d; sizeY := sizeY d; invertXY := invertXY d;
                lastX := lastX d; lastY := columnAddr |} s, o0).

(** SGROUP and MGROUP events (dv_explorer.c, lines 1277-1290). *)
Definition groupAddress (s : dv_state) (data : Z) : dv_state * list out :=
  if Z.land data 0x0FC0 =? 0 then
    let rowAddress := U16T (Z.land data 0x003F * 8) in
    let d := dvs s in
    (set_dvs {| sizeX := sizeX d; sizeY := sizeY d; invertXY := invertXY d;
                lastX := rowAddress; lastY := lastY d |} s, [])
  else (s, [Log CAER_LOG_ALERT "Got MGROUP event."]).

(** IMU Start (dv_explorer.c, lines 1131-1141); the [memset] of the
    private sample also clears its valid mark. *)
Definition imuStart (s : dv_state) : dv_state * list out :=
  let m := imu s in
  (set_imu
     (set_currentEventValid false
        (set_currentEvent zeroIMU6
           (set_type 0 (set_count 0 (set_ignoreEvents false m))))) s,
   [Log CAER_LOG_DEBUG "IMU6 Start event received."]).

(** Timestamp reset (dv_explorer.c, lines 1063-1081). *)
Definition timestampReset `{timestamps_h} (s : dv_state) : dv_state * list out :=
  let (ts, o) := handleTimestampResetNewLogic (timestamps s) in
  let s := set_timestamps ts s in
  let g := containerGenerationCommitTimestampReset (container s) in
  let g := containerGenerationCommitTimestampInit g (current (timestamps s)) in
  (set_container g s, logged o ++ [SpiConfigReceiveAsync]).

(** Special events (dv_explorer.c, lines 1057-1219); the boolean is
    [tsReset]. *)
Definition specialToken `{dv_explorer_h} `{timestamps_h} (s : dv_state) (data : Z)
  : dv_state * list out * bool :=
  let t := current (timestamps s) in
  let plain (r : dv_state * list out) := (fst r, snd r, false) in
  let logged (msg : string) (r : dv_state * list out) :=
    (fst r, Log CAER_LOG_DEBUG msg :: snd r, false) in
  match data with
  | 0 => (s, [Log CAER_LOG_ERROR "Caught special reserved event!"], false)
  | 1 => let (s, o) := timestampReset s in (s, o, true)
  | 2 => logged "External input (falling edge) event received."%string
           (putSpecial s t EXTERNAL_INPUT_FALLING_EDGE)
  | 3 => logged "External input (rising edge) event received."%string
           (putSpecial s t EXTERNAL_INPUT_RISING_EDGE)
  | 4 => logged "External input (pulse) event received."%string
           (putSpecial s t EXTERNAL_INPUT_PULSE)
  | 5 => plain (imuStart s)
  | 7 => plain (imuEnd s)
  | 16 => logged "External generator (falling edge) event received."%string
            (putSpecial s t EXTERNAL_GENERATOR_FALLING_EDGE)
  | 17 => logged "External generator (rising edge) event received."%string
            (putSpecial s t EXTERNAL_GENERATOR_RISING_EDGE)
  | _ => (s, [Log CAER_LOG_ERROR "Caught special event that can't be handled: %d."],
          false)
  end.

(** Misc 8bit data (dv_explorer.c, lines 1292-1449). *)
Definition misc8Token `{dv_explorer_h} (s : dv_state) (data : Z)
  : dv_state * list out :=
  let misc8Code := U8T (Z.shiftr (Z.land data 0x0F00) 8) in
  let misc8Data := U8T (Z.land data 0x00FF) in
  match misc8Code with
  | 0 => imuData s misc8Data
  | 3 => imuScaleConfig s data
  | _ => (s, [Log CAER_LOG_ERROR "Caught Misc8 event that can't be handled."])
  end.

(** Timestamp wrap (dv_explorer.c, lines 1451-1471); the boolean is
    [tsBigWrap]. *)
Definition timestampWrap `{timestamps_h} (s : dv_state) (data : Z)
  : dv_state * list out * bool :=
  let '(ts, o, tsBigWrap) :=
    handleTimestampWrapNewLogic (timestamps s) data TS_WRAP_ADD in
  let s := set_timestamps ts s in
  if tsBigWrap then
    let (s, o') := putSpecial s INT32_MAX TIMESTAMP_WRAP in
    (s, logged o ++ o', true)
  else
    (set_container
       (containerGenerationCommitTimestampInit (container s)
          (current (timestamps s))) s, logged o, false).

(** Decoding of one 16-bit word (dv_explorer.c, lines 1040-1477); the
    two booleans are [tsReset] and [tsBigWrap]. *)
Definition decode `{dv_explorer_h} `{timestamps_h} (s : dv_state) (event : Z)
  : dv_state * list out * bool * bool :=
  if negb (Z.land event 0x8000 =? 0) then
    let (ts, o) := handleTimestampUpdateNewLogic (timestamps s) event in
    let s := set_timestamps ts s in
    (set_container
       (containerGenerationCommitTimestampInit (container s)
          (current (timestamps s))) s, logged o, false, false)
  else
    let code := U8T (Z.shiftr (Z.land event 0x7000) 12) in
    let data := Z.land event 0x0FFF in
    let plain (r : dv_state * list out) := (fst r, snd r, false, false) in
    match code with
    | 0 => let '(s, o, tsReset) := specialToken s data in (s, o, tsReset, false)
    | 1 => plain (columnAddress s data)
    | 2 | 3 => plain (polarityGroup s code data)
    | 4 => plain (groupAddress s data)
    | 5 => plain (misc8Token s data)
    | 7 => let '(s, o, tsBigWrap) := timestampWrap s data in (s, o, false, tsBigWrap)
    | _ => (s, [Log CAER_LOG_ERROR "Caught event that can't be handled."],
            false, false)
    end.

(** The non-empty packets are moved into the container (dv_explorer.c,
    lines 1498-1523). *)
Definition movePackets (s : dv_state) : dv_state :=
  let s :=
    let k := currentPackets s in
    if polarityPosition k >? 0 then
      set_currentPackets (set_pkPolarity None 0 k)
        (set_container (cgSetPolarity (container s) (polarity k)) s)
    else s in
  let s :=
    let k := currentPackets s in
    if specialPosition k >? 0 then
      set_currentPackets (set_pkSpecial None 0 k)
        (set_container (cgSetSpecial (container s) (special k)) s)
    else s in
  let k := currentPackets s in
  if imu6Position k >? 0 then
    set_currentPackets (set_pkIMU6 None 0 k)
      (set_container (cgSetIMU6 (container s) (imu6 k)) s)
  else s.

(** The commit of the packet container (dv_explorer.c, lines 1479-1539). *)
Definition commit (s : dv_state) (tsReset tsBigWrap : bool) : result :=
  let k := currentPackets s in
  let commitSize := containerGenerationGetMaxPacketSize (container s) in
  let containerSizeCommit :=
    (commitSize >? 0)
    && ((polarityPosition k >=? commitSize)
        || (specialPosition k >=? commitSize)
        || (imu6Position k >=? commitSize)) in
  let containerTimeCommit :=
    containerGenerationIsCommitTimestampElapsed (container s)
      (wrapOverflow (timestamps s)) (current (timestamps s)) in
  if tsReset || tsBigWrap || containerSizeCommit || containerTimeCommit then
    let emptyContainerCommit :=
      negb (polarityPosition k >? 0) && negb (specialPosition k >? 0)
      && negb (imu6Position k >? 0) in
    let s := movePackets s in
    let s :=
      if tsReset || tsBigWrap then set_imu (set_ignoreEvents true (imu s)) s
      else s in
    match
      containerGenerationExecute (container s) emptyContainerCommit tsReset
        (wrapOverflow (timestamps s)) (current (timestamps s))
        (allocations s) (exchangePuts s)
    with
    | None => {| state := s; outs := []; ends := Diverges |}
    | Some (g, o, allocs, puts) =>
        continueWith
          (set_exchangePuts puts (set_allocations allocs (set_container g s))) o
    end
  else continue s.

(** The container and the packets a token needs are allocated
    (dv_explorer.c, lines 1007-1038). *)
Definition prepare `{dv_explorer_h} (s : dv_state) : result :=
  andThen (allocateContainer s) (fun s =>
  andThen (allocateSpecial s) (fun s =>
  andThen (allocatePolarity s) allocateIMU6)).

(** The word is decoded and the container committed when due
    (dv_explorer.c, lines 1040-1539). *)
Definition process `{dv_explorer_h} `{timestamps_h} (s : dv_state) (event : Z)
  : result :=
  let '(s, o, tsReset, tsBigWrap) := decode s event in
  andThen (continueWith s o) (fun s => commit s tsReset tsBigWrap).

(** One iteration of the decoding loop on a 16-bit word (dv_explorer.c,
    lines 1007-1539). *)
Definition dvExplorerToken `{dv_explorer_h} `{timestamps_h} (s : dv_state)
  (event : Z) : result :=
  andThen (prepare s) (fun s => process s event).

(** [le16toh] of the two bytes at the buffer position. *)
Definition le16 (b0 b1 : Z) : Z := Z.lor b0 (Z.shiftl b1 8).

(** The decoding loop (dv_explorer.c, lines 1006-1540) over the bytes
    left. *)
Fixpoint decodeLoop `{dv_explorer_h} `{timestamps_h} (buffer : list Z)
  (s : dv_state) : result :=
  match buffer with
  | b0 :: b1 :: rest => andThen (dvExplorerToken s (le16 b0 b1)) (decodeLoop rest)
  | _ => continue s
  end.

(** [dvExplorerEventTranslator] (dv_explorer.c, line 987). *)
Definition dvExplorerEventTranslator `{dv_explorer_h} `{timestamps_h}
  (s : dv_state) (buffer : list Z) : result :=
  if negb (dataTransfersRun s) then returnWith s []
  else
    let bufferSize := Z.of_nat (List.length buffer) in
    if negb (Z.land bufferSize 0x01 =? 0) then
      andThen
        (continueWith s
           [Log CAER_LOG_ALERT
              "%zu bytes received via USB, which is not a multiple of two."])
        (decodeLoop (firstn (Z.to_nat (bufferSize - 1)) buffer))
    else decodeLoop buffer s.

(** *** The timestamp helpers, from the spec *)

(** Modelled from the spec: [handleTimestampUpdateNewLogic]
    (timestamps.h, not under src/).  NORMAL: the field, the 15 bits
    embedded in the tagged word, continues within the current coarse
    offset, [current = wrapAdd + field]; a timestamp below the previous
    one is logged as a non-fatal alert. *)
Definition specTimestampUpdate (ts : timestamps_state_new_logic) (event : Z)
  : timestamps_state_new_logic * logs :=
  let field := Z.land event 0x7FFF in
  let ts' := {| wrapOverflow := wrapOverflow ts; wrapAdd := wrapAdd ts;
                lastRaw := field; last := current ts;
                current := I32T (wrapAdd ts + field) |} in
  (ts',
   if current ts' <? last ts'
   then [(CAER_LOG_ALERT, "Timestamps: non monotonic timestamp detected."%string)]
   else []).

(** Modelled from the spec: [handleTimestampResetNewLogic]
    (timestamps.h, not under src/).  RESET zeroes all of wrapAdd,
    overflowEpoch, lastRaw and current. *)
Definition specTimestampReset (ts : timestamps_state_new_logic)
  : timestamps_state_new_logic * logs :=
  ({| wrapOverflow := 0; wrapAdd := 0; lastRaw := 0; last := 0; current := 0 |},
   []).

(** Modelled from the spec: [handleTimestampWrapNewLogic] (timestamps.h,
    not under src/).  SMALL_WRAP: [wrapAdd += WRAP_INCREMENT] and lastRaw
    resets to 0.  BIG_WRAP, when wrapAdd would overflow its representable
    range: [overflowEpoch += 1], wrapAdd and lastRaw reset to 0.  The
    current timestamp is [wrapAdd + field] with the field that was reset.
    The spec gives the increment as the range of the narrow field: the
    data of the token does not enter. *)
Definition specTimestampWrap (ts : timestamps_state_new_logic)
  (data wrapIncrement : Z) : timestamps_state_new_logic * logs * bool :=
  if wrapAdd ts + wrapIncrement >? INT32_MAX then
    ({| wrapOverflow := I32T (wrapOverflow ts + 1); wrapAdd := 0; lastRaw := 0;
        last := 0; current := 0 |}, [], true)
  else
    ({| wrapOverflow := wrapOverflow ts; wrapAdd := wrapAdd ts + wrapIncrement;
        lastRaw := 0; last := current ts;
        current := wrapAdd ts + wrapIncrement |}, [], false).

Definition specTimestamps : timestamps_h :=
  {| handleTimestampUpdateNewLogic := specTimestampUpdate;
     handleTimestampResetNewLogic := specTimestampReset;
     handleTimestampWrapNewLogic := specTimestampWrap |}.

(** The state [dvExplorerDataStart] leaves when every allocation
    succeeds (dv_explorer.c, lines 809-867), for a device of the given
    geometry and the given commit thresholds. *)
Definition startState `{dv_explorer_h} (sizeX sizeY : Z) (invertXY : bool)
  (maxSize maxInterval : Z) : dv_state :=
  {| dataTransfersRun := true;
     timestamps := {| wrapOverflow := 0; wrapAdd := 0; lastRaw := 0; last := 0;
                      current := 0 |};
     container :=
       {| currentPacketContainer := Some emptyContainer;
          currentPacketContainerCommitTimestamp := -1;
          maxPacketContainerPacketSize := maxSize;
          maxPacketContainerInterval := maxInterval |};
     currentPackets :=
       {| polarity := Some {| eventCapacity := DV_EXPLORER_POLARITY_DEFAULT_SIZE;
                              eventTSOverflow := 0; eventNumber := 0;
                              events := [] |};
          polarityPosition := 0;
          special := Some {| eventCapacity := DV_EXPLORER_SPECIAL_DEFAULT_SIZE;
                             eventTSOverflow := 0; eventNumber := 0;
                             events := [] |};
          specialPosition := 0;
          imu6 := Some {| eventCapacity := DV_EXPLORER_IMU_DEFAULT_SIZE;
                          eventTSOverflow := 0; eventNumber := 0;
                          events := [] |};
          imu6Position := 0 |};
     dvs := {| sizeX := sizeX; sizeY := sizeY; invertXY := invertXY;
               lastX := 0; lastY := 0 |};
     imu := {| ignoreEvents := true; flipX := false; flipY := false;
               flipZ := false; type := 0; count := 0; tmpData := 0;
               accelScale := 0; gyroScale := 0; currentEvent := zeroIMU6;
               currentEventValid := false |};
     allocations := []; exchangePuts := [] |}.

(** *** Vocabulary of the properties *)

(** The packets in progress hold as many events as their positions
    say, and nothing was moved yet into the container in progress. *)
Definition consistent (s : dv_state) : Prop :=
  (currentPacketContainer (container s) = None
   \/ currentPacketContainer (container s) = Some emptyContainer)
  /\ polarityPosition (currentPackets s)
     = Z.of_nat (List.length (slotEvents (polarity (currentPackets s))))
  /\ specialPosition (currentPackets s)
     = Z.of_nat (List.length (slotEvents (special (currentPackets s))))
  /\ imu6Position (currentPackets s)
     = Z.of_nat (List.length (slotEvents (imu6 (currentPackets s)))).

(** The container and the three packets are allocated. *)
Definition ready (s : dv_state) : Prop :=
  currentPacketContainer (container s) <> None
  /\ polarity (currentPackets s) <> None
  /\ special (currentPackets s) <> None
  /\ imu6 (currentPackets s) <> None.

(** The effect of the allocations at the head of a step: everything
    but the packets, the container and the allocation outcomes is as
    before, the events written are kept, and what was allocated stays
    allocated. *)
Definition sameButPackets (s s' : dv_state) : Prop :=
  dataTransfersRun s' = dataTransfersRun s
  /\ timestamps s' = timestamps s
  /\ dvs s' = dvs s
  /\ imu s' = imu s
  /\ exchangePuts s' = exchangePuts s
  /\ currentPacketContainerCommitTimestamp (container s')
     = currentPacketContainerCommitTimestamp (container s)
  /\ maxPacketContainerPacketSize (container s')
     = maxPacketContainerPacketSize (container s)
  /\ maxPacketContainerInterval (container s')
     = maxPacketContainerInterval (container s)
  /\ polarityPosition (currentPackets s') = polarityPosition (currentPackets s)
  /\ specialPosition (currentPackets s') = specialPosition (currentPackets s)
  /\ imu6Position (currentPackets s') = imu6Position (currentPackets s)
  /\ slotEvents (polarity (currentPackets s'))
     = slotEvents (polarity (currentPackets s))
  /\ slotEvents (special (currentPackets s'))
     = slotEvents (special (currentPackets s))
  /\ slotEvents (imu6 (currentPackets s')) = slotEvents (imu6 (currentPackets s))
  /\ (currentPacketContainer (container s') = currentPacketContainer (container s)
      \/ (currentPacketContainer (container s) = None
          /\ currentPacketContainer (container s') = Some emptyContainer))
  /\ (polarity (currentPackets s) <> None -> polarity (currentPackets s') <> None)
  /\ (special (currentPackets s) <> None -> special (currentPackets s') <> None)
  /\ (imu6 (currentPackets s) <> None -> imu6 (currentPackets s') <> None)
  /\ (allocations s = [] -> allocations s' = []).

(** A part of a step that only allocates: it falls through silently or
    returns with one critical log, and it falls through when the
    allocations succeed. *)
Definition allocates (f : dv_state -> result) : Prop :=
  forall s,
    sameButPackets s (state (f s))
    /\ ends (f s) <> Diverges
    /\ (ends (f s) = Continue -> outs (f s) = [])
    /\ (ends (f s) = Returned ->
        exists m, outs (f s) = [Log CAER_LOG_CRITICAL m])
    /\ (allocations s = [] -> ends (f s) = Continue).

(** The 16-bit words of a buffer, as the decoding loop reads them. *)
Fixpoint wordsOf (buffer : list Z) : list Z :=
  match buffer with
  | b0 :: b1 :: rest => le16 b0 b1 :: wordsOf rest
  | _ => []
  end.

(** The code and the data of a word that is not a timestamp. *)
Definition codeOf (event : Z) : Z := U8T (Z.shiftr (Z.land event 0x7000) 12).
Definition dataOf (event : Z) : Z := Z.land event 0x0FFF.

Definition isTimestamp (event : Z) : bool := negb (Z.land event 0x8000 =? 0).

(** The word is the special event of the given data. *)
Definition isSpecial (data event : Z) : bool :=
  negb (isTimestamp event) && (codeOf event =? 0) && (dataOf event =? data).

Definition isIMUStart : Z -> bool := isSpecial 5.
Definition isIMUEnd : Z -> bool := isSpecial 7.
Definition isTimestampReset : Z -> bool := isSpecial 1.

(** A packet that was allocated stays allocated and is extended by the
    events added, its position following. *)
Definition extended {E} (p p' : option (packet E)) (position position' : Z)
  (added : list E) : Prop :=
  p <> None ->
  p' <> None
  /\ slotEvents p' = slotEvents p ++ added
  /\ position' = position + Z.of_nat (List.length added).

(** The effect of the handler of a word: it leaves alone the run flag,
    the data exchange, the container and the thresholds, hands nothing
    to the exchange, and extends the three packets by the events given. *)
Definition effect (s s' : dv_state) (o : list out)
  (pa : list caer_polarity_event) (sa : list caer_special_event)
  (ia : list caer_imu6_event) : Prop :=
  dataTransfersRun s' = dataTransfersRun s
  /\ exchangePuts s' = exchangePuts s
  /\ currentPacketContainer (container s') = currentPacketContainer (container s)
  /\ maxPacketContainerPacketSize (container s')
     = maxPacketContainerPacketSize (container s)
  /\ maxPacketContainerInterval (container s')
     = maxPacketContainerInterval (container s)
  /\ handed o = []
  /\ (allocations s = [] -> allocations s' = [])
  /\ extended (polarity (currentPackets s)) (polarity (currentPackets s'))
       (polarityPosition (currentPackets s)) (polarityPosition (currentPackets s'))
       pa
  /\ extended (special (currentPackets s)) (special (currentPackets s'))
       (specialPosition (currentPackets s)) (specialPosition (currentPackets s'))
       sa
  /\ extended (imu6 (currentPackets s)) (imu6 (currentPackets s'))
       (imu6Position (currentPackets s)) (imu6Position (currentPackets s')) ia.

(** What [ensureSpaceForEvents] logs when the packet cannot grow. *)
Definition growFailure : list out :=
  [Log CAER_LOG_CRITICAL "Failed to grow event packet of type %d."].

(** What [caerIMU6EventValidate] logs for a sample that is marked valid
    already. *)
Definition alreadyValid : list out :=
  [Log CAER_LOG_CRITICAL "Called caerIMU6EventValidate() on already valid event."].

(** What the validation of the private sample logs at an IMU end. *)
Definition validation (s : dv_state) : list out :=
  if currentEventValid (imu s) then alreadyValid else [].

(** The sentinel of a big wrap. *)
Definition wrapSentinel : caer_special_event :=
  {| spcTimestamp := INT32_MAX; spcType := TIMESTAMP_WRAP |}.

(** A special event of the translator: it is no timestamp reset, and
    it carries [INT32_MAX] when it is a timestamp wrap. *)
Definition stamped (e : caer_special_event) : Prop :=
  spcType e <> TIMESTAMP_RESET
  /\ (spcType e = TIMESTAMP_WRAP -> spcTimestamp e = INT32_MAX).

(** What the decoding of a word does: the effect on the packets, with
    what is known of the special events and of the IMU samples added, of
    the IMU state, and of the two flags [tsReset] and [tsBigWrap]. *)
Definition decoded `{dv_explorer_h} (s : dv_state) (event : Z) (s' : dv_state)
  (o : list out) (tsReset tsBigWrap : bool) : Prop :=
  exists pa sa ia,
    effect s s' o pa sa ia
    /\ Forall stamped sa
    /\ (ia = []
        \/ (isIMUEnd event = true /\ ignoreEvents (imu s) = false
            /\ count (imu s) = IMU_TOTAL_COUNT
            /\ ia = [setTimestamp (current (timestamps s)) (currentEvent (imu s))]))
    /\ (isIMUStart event = false -> ignoreEvents (imu s') = ignoreEvents (imu s))
    /\ (isIMUStart event = true -> ignoreEvents (imu s') = false)
    /\ (ignoreEvents (imu s) = true -> isIMUStart event = false ->
        imu s' = imu s /\ ia = [])
    /\ (tsBigWrap = true ->
        tsReset = false
        /\ (sa = [wrapSentinel] \/ (sa = [] /\ allocations s <> [])))
    /\ tsReset = isTimestampReset event
    /\ (tsReset = true -> tsBigWrap = false).

(** A commit trigger fires: a timestamp reset, a big wrap, the size
    trigger or the time trigger (dv_explorer.c, line 1493). *)
Definition commitDue (s : dv_state) (tsReset tsBigWrap : bool) : bool :=
  tsReset || tsBigWrap
  || ((containerGenerationGetMaxPacketSize (container s) >? 0)
      && ((polarityPosition (currentPackets s)
           >=? containerGenerationGetMaxPacketSize (container s))
          || (specialPosition (currentPackets s)
              >=? containerGenerationGetMaxPacketSize (container s))
          || (imu6Position (currentPackets s)
              >=? containerGenerationGetMaxPacketSize (container s))))
  || containerGenerationIsCommitTimestampElapsed (container s)
       (wrapOverflow (timestamps s)) (current (timestamps s)).

(** Events are pending in the packets in progress. *)
Definition pending (s : dv_state) : bool :=
  (polarityPosition (currentPackets s) >? 0)
  || (specialPosition (currentPackets s) >? 0)
  || (imu6Position (currentPackets s) >? 0).

(** The container a commit fills from a state whose container is still
    empty. *)
Definition committed (s : dv_state) : Events.container :=
  {| polaritySlot :=
       if polarityPosition (currentPackets s) >? 0
       then polarity (currentPackets s) else None;
     specialSlot :=
       if specialPosition (currentPackets s) >? 0
       then special (currentPackets s) else None;
     imu6Slot :=
       if imu6Position (currentPackets s) >? 0
       then imu6 (currentPackets s) else None |}.

(** The commit deadline after the re-arming of a commit, [None] when
    the loop does not end. *)
Definition rearmed (s : dv_state) : option Z :=
  if containerGenerationIsCommitTimestampElapsed (container s)
       (wrapOverflow (timestamps s)) (current (timestamps s))
  then
    rearm (generateFullTimestamp (wrapOverflow (timestamps s))
             (current (timestamps s)))
      (currentPacketContainerCommitTimestamp (container s))
      (maxPacketContainerInterval (container s))
  else Some (currentPacketContainerCommitTimestamp (container s)).

(** The decoding loop over the 16-bit words of a buffer. *)
Fixpoint wordLoop `{dv_explorer_h} `{timestamps_h} (words : list Z)
  (s : dv_state) : result :=
  match words with
  | [] => continue s
  | event :: words' => andThen (dvExplorerToken s event) (wordLoop words')
  end.

(** No IMU sample is in the packet in progress, and none in a
    container. *)
Definition imuEmpty (s : dv_state) : Prop :=
  slotEvents (imu6 (currentPackets s)) = [].

Definition noIMU (c : Events.container) : Prop := slotEvents (imu6Slot c) = [].

(** The IMU samples of the containers given. *)
Definition imuSamples (cs : list Events.container) : list caer_imu6_event :=
  List.concat (map (fun c => slotEvents (imu6Slot c)) cs).

(** The private sample as an IMU end copies it: stamped with the
    current timestamp. *)
Definition completedSample (s : dv_state) : caer_imu6_event :=
  setTimestamp (current (timestamps s)) (currentEvent (imu s)).

(** The word is an IMU end that comes while IMU events are not ignored
    and the position counter is at the expected total. *)
Definition completes `{dv_explorer_h} (s : dv_state) (event : Z) : Prop :=
  isIMUEnd event = true /\ ignoreEvents (imu s) = false
  /\ count (imu s) = IMU_TOTAL_COUNT.

(** The code of a word of misc 8-bit data. *)
Definition misc8CodeOf (event : Z) : Z :=
  U8T (Z.shiftr (Z.land (dataOf event) 0x0F00) 8).

(** The word carries misc 8-bit data of the given code. *)
Definition isMisc8 (code event : Z) : bool :=
  negb (isTimestamp event) && (codeOf event =? 5) && (misc8CodeOf event =? code).

(** The word carries a data byte of an IMU sample, or an IMU scale
    configuration. *)
Definition isIMUData : Z -> bool := isMisc8 0.
Definition isIMUScaleConfig : Z -> bool := isMisc8 3.

(** The sensors that the scale configuration word enables. *)
Definition configuredType (event : Z) : Z :=
  Z.land (Z.shiftr (dataOf event) 5) 0x07.

(** What an IMU end logs when the count is not the expected one. *)
Definition countMismatch : out :=
  Log CAER_LOG_INFO
    "IMU End: failed to validate IMU sample count (%PRIu8), discarding samples."%string.

(** What the translator logs on a buffer of odd size. *)
Definition oddSizeAlert : out :=
  Log CAER_LOG_ALERT
    "%zu bytes received via USB, which is not a multiple of two."%string.

(** The special events of a timestamp wrap among the events given carry
    [INT32_MAX]. *)
Definition wrapsStamped (l : list caer_special_event) : Prop :=
  Forall (fun e => spcType e = TIMESTAMP_WRAP -> spcTimestamp e = INT32_MAX) l.

(** The packet after [ensureSpaceForEvents] was asked for the room of
    [n] events at [position] and the events [added], no more than [n],
    were written: they follow the events the packet held; the capacity is
    as it was, when that was enough or nothing was written, and twice
    what it was otherwise. *)
Definition written {E} (p p' : option (packet E)) (position n : Z)
  (added : list E) : Prop :=
  match p, p' with
  | Some pk, Some pk' =>
      events pk' = events pk ++ added
      /\ eventTSOverflow pk' = eventTSOverflow pk
      /\ Z.of_nat (List.length added) <= n
      /\ ((eventCapacity pk' = eventCapacity pk
           /\ (added = [] \/ position + n <= eventCapacity pk))
          \/ (eventCapacity pk' = eventCapacity pk * 2
              /\ eventCapacity pk < position + n))
  | None, None => added = []
  | _, _ => False
  end.

(** An event of an 8-pixel group at the addresses of the state, stamped
    [t]: one coordinate is the column address, the other one the row
    address plus the place [i] of the pixel in the group. *)
Definition pixelOf (d : dvs_state) (t : Z) (e : caer_polarity_event) : Prop :=
  polTimestamp e = t
  /\ exists i,
       0 <= i < 8
       /\ (if invertXY d
           then polY e = U16T (lastX d + i) /\ polX e = U16T (lastY d)
           else polY e = U16T (lastY d) /\ polX e = U16T (lastX d + i)).

(** The addresses after a word: the geometry is as it was; the column
    address is as it was or was replaced by one of 10 bits below
    [sizeY]; the row address is as it was or was replaced by a multiple
    of 8 below 512. *)
Definition addressed (d d' : dvs_state) : Prop :=
  sizeX d' = sizeX d /\ sizeY d' = sizeY d /\ invertXY d' = invertXY d
  /\ (lastY d' = lastY d \/ (0 <= lastY d' < sizeY d /\ lastY d' < 1024))
  /\ (lastX d' = lastX d \/ exists g, 0 <= g < 64 /\ lastX d' = g * 8).

(** What a commit that ends leaves of a state: the timestamps, the
    addresses and the thresholds as they were, the packets that held
    events gone, the empty ones kept, the positions at zero. *)
Definition afterCommit (s s' : dv_state) : Prop :=
  consistent s'
  /\ timestamps s' = timestamps s
  /\ dvs s' = dvs s
  /\ maxPacketContainerPacketSize (container s')
     = maxPacketContainerPacketSize (container s)
  /\ maxPacketContainerInterval (container s')
     = maxPacketContainerInterval (container s)
  /\ currentPackets s'
     = (let k := currentPackets s in
        {| polarity := if polarityPosition k >? 0 then None else polarity k;
           polarityPosition := 0;
           special := if specialPosition k >? 0 then None else special k;
           specialPosition := 0;
           imu6 := if imu6Position k >? 0 then None else imu6 k;
           imu6Position := 0 |}).

(** What the decoding of a word does to the packets, the addresses
    and the size threshold: the events written to the three packets, of
    which the polarity events are pixels of a group at the addresses the
    word found, and the addresses it leaves, unchanged when it wrote a
    polarity event. *)
Definition wrote (s s' : dv_state) (pa : list caer_polarity_event)
  (sa : list caer_special_event) (ia : list caer_imu6_event) : Prop :=
  written (polarity (currentPackets s)) (polarity (currentPackets s'))
    (polarityPosition (currentPackets s)) 8 pa
  /\ written (special (currentPackets s)) (special (currentPackets s'))
       (specialPosition (currentPackets s)) 1 sa
  /\ written (imu6 (currentPackets s)) (imu6 (currentPackets s'))
       (imu6Position (currentPackets s)) 1 ia
  /\ Forall (pixelOf (dvs s) (current (timestamps s))) pa
  /\ addressed (dvs s) (dvs s')
  /\ (pa = [] \/ dvs s' = dvs s)
  /\ maxPacketContainerPacketSize (container s')
     = maxPacketContainerPacketSize (container s).

(** The coordinates of an event of a device whose axes are inverted or
    not: the coordinate taken from the column address is below [size],
    the one taken from the row address below 512. *)
Definition placed (inverted : bool) (size : Z) (e : caer_polarity_event) : Prop :=
  if inverted
  then 0 <= polX e < size /\ 0 <= polY e < 512
  else 0 <= polY e < size /\ 0 <= polX e < 512.

(** The addresses of the state are in their ranges: the column address
    is of 10 bits and below [sizeY], the row address a multiple of 8
    below 512. *)
Definition addressesInRange (d : dvs_state) : Prop :=
  0 <= lastY d < sizeY d /\ lastY d < 1024
  /\ exists g, 0 <= g < 64 /\ lastX d = g * 8.

(** IMU data bytes handled one after the other, as the words of code 5
    that carry them are (dv_explorer.c, lines 1298-1403), with what is
    logged. *)
Fixpoint imuBytes `{dv_explorer_h} (s : dv_state) (bytes : list Z)
  : dv_state * list out :=
  match bytes with
  | [] => (s, [])
  | b :: rest =>
      let (s1, o1) := imuData s b in
      let (s2, o2) := imuBytes s1 rest in
      (s2, o1 ++ o2)
  end.

(** The 16-bit reading of two IMU data bytes, the high byte first. *)
Definition reading (high low : Z) : Z := I16T (Z.lor (Z.shiftl high 8) low).

(** The sensor is enabled in the type of the IMU data to come. *)
Definition imuEnabled (ty sensor : Z) : bool := negb (Z.land ty sensor =? 0).

(** The IMU data bytes a sample still takes from the position [c] of
    the counter on: the rest of the accelerometer, the temperature and
    the gyroscope, as far as they are enabled in [ty]. *)
Definition imuBytesLeft `{dv_explorer_h} (ty c : Z) : Z :=
  if c <? 6 then
    (6 - c) + (if imuEnabled ty IMU_TYPE_TEMP then 2 else 0)
    + (if imuEnabled ty IMU_TYPE_GYRO then 6 else 0)
  else if c <? 8 then (8 - c) + (if imuEnabled ty IMU_TYPE_GYRO then 6 else 0)
  else 14 - c.

(** The position counter is at a byte of an enabled sensor, or at the
    end. *)
Definition imuCounting `{dv_explorer_h} (ty c : Z) : Prop :=
  0 <= c <= 14
  /\ (c < 6 -> imuEnabled ty IMU_TYPE_ACCEL = true)
  /\ (6 <= c < 8 -> imuEnabled ty IMU_TYPE_TEMP = true)
  /\ (8 <= c < 14 -> imuEnabled ty IMU_TYPE_GYRO = true).

(** The data bytes a sample takes when the sensors of [ty] are
    enabled: 6 for the accelerometer, 2 for the temperature and 6 for
    the gyroscope. *)
Definition imuBytesOf `{dv_explorer_h} (ty : Z) : Z :=
  (if imuEnabled ty IMU_TYPE_ACCEL then 6 else 0)
  + (if imuEnabled ty IMU_TYPE_TEMP then 2 else 0)
  + (if imuEnabled ty IMU_TYPE_GYRO then 6 else 0).

(** An IMU end would discard the sample, now and after up to [n] more
    data bytes: IMU events are ignored, or the position counter is at a
    byte of an enabled sensor and more than [n] bytes are still to
    come. *)
Definition imuShort `{dv_explorer_h} (n : Z) (m : imu_state) : Prop :=
  ignoreEvents m = true
  \/ (imuCounting (type m) (count m) /\ n < imuBytesLeft (type m) (count m)).

(** The event of the pixel at place [i] of an 8-pixel group
    (dv_explorer.c, lines 1256-1270). *)
Definition groupPixel (d : dvs_state) (t : Z) (pol : bool) (i : Z)
  : caer_polarity_event :=
  if invertXY d then
    {| polTimestamp := t; polPolarity := pol;
       polY := U16T (lastX d + i); polX := U16T (lastY d) |}
  else
    {| polTimestamp := t; polPolarity := pol;
       polY := U16T (lastY d); polX := U16T (lastX d + i) |}.

(** The places of a group whose pixel is present in the data of the
    word: place [i] is bit [7 - i]. *)
Definition groupPlaces (data : Z) : list Z :=
  filter (fun i => Z.testbit data (7 - i)) [0; 1; 2; 3; 4; 5; 6; 7].

End DvExplorer.

(** ** Concrete devices and states *)

Module Examples.

(** An eDVS of 128 by 128 pixels whose packets start small. *)
Definition smallEdvs : Edvs.edvs_h :=
  {| Edvs.EDVS_ARRAY_SIZE_X := 128; Edvs.EDVS_ARRAY_SIZE_Y := 128;
     Edvs.EDVS_POLARITY_DEFAULT_SIZE := 4; Edvs.EDVS_SPECIAL_DEFAULT_SIZE := 2 |}.

(** The state after start with the given timestamps. *)
Definition edvsAt (ts : Edvs.timestamps_state) : Edvs.edvs_state :=
  Edvs.set_commitTimestamp (Edvs.current ts + 9999)
    (Edvs.set_timestamps ts (@Edvs.startState smallEdvs)).

(** The narrow counter is about to wrap. *)
Definition edvsBeforeWrap : Edvs.edvs_state :=
  edvsAt {| Edvs.wrapOverflow := 0; Edvs.wrapAdd := 0; Edvs.lastShort := 0xFFF0;
            Edvs.last := 0xFFE0; Edvs.current := 0xFFF0 |}.

(** The coarse offset is at its maximum and the narrow counter about
    to wrap. *)
Definition edvsBeforeBigWrap : Edvs.edvs_state :=
  edvsAt {| Edvs.wrapOverflow := 0; Edvs.wrapAdd := 0x7FFF0000;
            Edvs.lastShort := 0xFFF0; Edvs.last := 0x7FFFFFE0;
            Edvs.current := 0x7FFFFFF0 |}.

(** One polarity event is pending and a timestamp reset was requested
    through the configuration. *)
Definition edvsResetPending : Edvs.edvs_state :=
  Edvs.set_dvsTSReset true
    (Edvs.set_polarity
       (Some {| eventCapacity := 4; eventTSOverflow := 0; eventNumber := 1;
                events := [{| polTimestamp := 100; polPolarity := true;
                              polY := 5; polX := 3 |}] |})
       1
       (edvsAt {| Edvs.wrapOverflow := 0; Edvs.wrapAdd := 0;
                  Edvs.lastShort := 100; Edvs.last := 100;
                  Edvs.current := 100 |})).

(** A DV-Explorer whose packets start small; the IMU constants are the
    ones of the device. *)
Definition smallDv : DvExplorer.dv_explorer_h :=
  {| DvExplorer.DV_EXPLORER_POLARITY_DEFAULT_SIZE := 8;
     DvExplorer.DV_EXPLORER_SPECIAL_DEFAULT_SIZE := 2;
     DvExplorer.DV_EXPLORER_IMU_DEFAULT_SIZE := 2;
     DvExplorer.IMU_TYPE_TEMP := 1; DvExplorer.IMU_TYPE_GYRO := 2;
     DvExplorer.IMU_TYPE_ACCEL := 4; DvExplorer.IMU_TOTAL_COUNT := 14 |}.

(** The state after start of a device of 480 by 640 pixels with
    inverted axes, with the given timestamps. *)
Definition dvAt (ts : DvExplorer.timestamps_state_new_logic)
  : DvExplorer.dv_state :=
  let s := @DvExplorer.startState smallDv 480 640 true 4096 10000 in
  DvExplorer.set_container
    (DvExplorer.set_cgCommitTimestamp (DvExplorer.current ts + 9999)
       (DvExplorer.container s))
    (DvExplorer.set_timestamps ts s).

(** The coarse offset is at its maximum. *)
Definition dvBeforeBigWrap : DvExplorer.dv_state :=
  dvAt {| DvExplorer.wrapOverflow := 0; DvExplorer.wrapAdd := 0x7FFF8000;
          DvExplorer.lastRaw := 0x7FF0; DvExplorer.last := 0x7FFFFFE0;
          DvExplorer.current := 0x7FFFFFF0 |}.

(** A buffer that carries an IMU start, two IMU data bytes, a timestamp
    reset, one more IMU data byte and an IMU end. *)
Definition resetMidSample : list Z :=
  [0x05; 0x00; 0x12; 0x50; 0x34; 0x50; 0x01; 0x00; 0x56; 0x50; 0x07; 0x00].

(** The state after start at timestamp 100. *)
Definition dvRunning : DvExplorer.dv_state :=
  dvAt {| DvExplorer.wrapOverflow := 0; DvExplorer.wrapAdd := 0;
          DvExplorer.lastRaw := 100; DvExplorer.last := 100;
          DvExplorer.current := 100 |}.

(** The commit deadline has passed and nothing is pending. *)
Definition edvsPastDeadline : Edvs.edvs_state :=
  Edvs.set_commitTimestamp 50
    (edvsAt {| Edvs.wrapOverflow := 0; Edvs.wrapAdd := 0; Edvs.lastShort := 100;
               Edvs.last := 100; Edvs.current := 100 |}).

Definition dvPastDeadline : DvExplorer.dv_state :=
  DvExplorer.set_container
    (DvExplorer.set_cgCommitTimestamp 50 (DvExplorer.container dvRunning))
    dvRunning.

(** Two tokens of the eDVS, and the same with a partial token after
    them. *)
Definition twoTokens : list Z := [0x85; 0x03; 0x00; 0x6E; 0x86; 0x84; 0x00; 0x78].
Definition twoTokensAndAHalf : list Z := twoTokens ++ [0x87; 0x05].

(** The commit deadline has passed by more than two intervals. *)
Definition edvsFarPastDeadline : Edvs.edvs_state :=
  Edvs.set_commitTimestamp 50
    (edvsAt {| Edvs.wrapOverflow := 0; Edvs.wrapAdd := 0; Edvs.lastShort := 25000;
               Edvs.last := 24000; Edvs.current := 25000 |}).

(** An SGROUP word of address 63, which sets the row address to 504,
    and an ON polarity group with its first pixel present. *)
Definition groupBeyondWidth : list Z := [0x3F; 0x40; 0x80; 0x30].

(** A column word of address 700. *)
Definition columnBeyondHeight : list Z := [0xBC; 0x12].

(** The polarity packet is full and the next allocation fails. *)
Definition edvsFullPacket : Edvs.edvs_state :=
  let e t := {| polTimestamp := t; polPolarity := true; polY := 5; polX := 3 |} in
  Edvs.set_allocations [false]
    (Edvs.set_polarity
       (Some {| eventCapacity := 4; eventTSOverflow := 0; eventNumber := 4;
                events := [e 70; e 80; e 90; e 100] |})
       4
       (edvsAt {| Edvs.wrapOverflow := 0; Edvs.wrapAdd := 0;
                  Edvs.lastShort := 100; Edvs.last := 100;
                  Edvs.current := 100 |})).

(** The polarity packet has no room for eight more events and the next
    allocation fails. *)
Definition dvFullPacket : DvExplorer.dv_state :=
  DvExplorer.set_allocations [false]
    (DvExplorer.set_currentPackets
       (DvExplorer.set_pkPolarity
          (Some {| eventCapacity := 8; eventTSOverflow := 0; eventNumber := 1;
                   events := [{| polTimestamp := 100; polPolarity := true;
                                 polY := 5; polX := 3 |}] |})
          1 (DvExplorer.currentPackets dvRunning))
       dvRunning).

(** The DV-Explorer after start at timestamp 100, with a maximum packet
    size of 1: every event is committed as soon as its word is
    decoded. *)
Definition dvSizeOne : DvExplorer.dv_state :=
  let g := DvExplorer.container dvRunning in
  DvExplorer.set_container
    {| DvExplorer.currentPacketContainer := DvExplorer.currentPacketContainer g;
       DvExplorer.currentPacketContainerCommitTimestamp :=
         DvExplorer.currentPacketContainerCommitTimestamp g;
       DvExplorer.maxPacketContainerPacketSize := 1;
       DvExplorer.maxPacketContainerInterval :=
         DvExplorer.maxPacketContainerInterval g |}
    dvRunning.

(** An IMU start, six IMU data bytes and two IMU ends. *)
Definition doubleEnd : list Z :=
  [0x05; 0x00; 0x01; 0x50; 0x02; 0x50; 0x03; 0x50; 0x04; 0x50; 0x05; 0x50;
   0x06; 0x50; 0x07; 0x00; 0x07; 0x00].

(** An IMU start, a scale configuration that enables the three sensors,
    the two data bytes of the first accelerometer axis, a scale
    configuration that enables no sensor and an IMU end. *)
Definition reconfiguredSample : list Z :=
  [0x05; 0x00; 0xE0; 0x53; 0x12; 0x50; 0x34; 0x50; 0x00; 0x53; 0x07; 0x00].

(** The same with a second scale configuration that enables the
    temperature only, followed by the two data bytes of the
    temperature. *)
Definition reconfiguredToTemperature : list Z :=
  [0x05; 0x00; 0xE0; 0x53; 0x12; 0x50; 0x34; 0x50; 0x20; 0x53; 0x01; 0x50;
   0x02; 0x50; 0x07; 0x00].

(** The same device after an IMU start: IMU events are not ignored. *)
Definition dvSampling : DvExplorer.dv_state :=
  fst (DvExplorer.imuStart dvSizeOne).

(** A scale configuration that enables the three sensors, the two data
    bytes of the first accelerometer axis and an IMU end. *)
Definition cutSample : list Z :=
  [0xE0; 0x53; 0x12; 0x50; 0x34; 0x50; 0x07; 0x00].




(** The DV-Explorer after start at timestamp 100, when the next
    allocation fails. *)
Definition dvAllocationFails : DvExplorer.dv_state :=
  DvExplorer.set_allocations [false] dvRunning.

(** Three IMU samples of the accelerometer: each an IMU start, six data
    bytes and an IMU end. *)
Definition threeSamples : list Z :=
  let sample :=
    [0x05; 0x00; 0x01; 0x50; 0x02; 0x50; 0x03; 0x50; 0x04; 0x50; 0x05; 0x50;
     0x06; 0x50; 0x07; 0x00] in
  sample ++ sample ++ sample.


(** The eDVS state after start at timestamp 100. *)
Definition edvsRunning : Edvs.edvs_state :=
  edvsAt {| Edvs.wrapOverflow := 0; Edvs.wrapAdd := 0; Edvs.lastShort := 100;
            Edvs.last := 100; Edvs.current := 100 |}.

(** One polarity event is pending and the commit deadline is at
    timestamp 105. *)
Definition edvsAtDeadline : Edvs.edvs_state :=
  Edvs.set_commitTimestamp 105
    (Edvs.set_polarity
       (Some {| eventCapacity := 4; eventTSOverflow := 0; eventNumber := 1;
                events := [{| polTimestamp := 100; polPolarity := true;
                              polY := 5; polX := 3 |}] |})
       1
       (edvsAt {| Edvs.wrapOverflow := 0; Edvs.wrapAdd := 0;
                  Edvs.lastShort := 100; Edvs.last := 100;
                  Edvs.current := 100 |})).

(** A configuration for the examples: the addresses, biases of three
    bytes written high byte first, and a data exchange without state that
    knows no parameter and never fails. *)
Definition smallConfig : EdvsDevice.edvs_config_h :=
  {| EdvsDevice.CAER_HOST_CONFIG_SERIAL := -1;
     EdvsDevice.CAER_HOST_CONFIG_SERIAL_READ_SIZE := 0;
     EdvsDevice.CAER_HOST_CONFIG_DATAEXCHANGE := -2;
     EdvsDevice.CAER_HOST_CONFIG_PACKETS := -3;
     EdvsDevice.CAER_HOST_CONFIG_PACKETS_MAX_CONTAINER_PACKET_SIZE := 0;
     EdvsDevice.CAER_HOST_CONFIG_PACKETS_MAX_CONTAINER_INTERVAL := 1;
     EdvsDevice.CAER_HOST_CONFIG_LOG := -4;
     EdvsDevice.CAER_HOST_CONFIG_LOG_LEVEL := 0;
     EdvsDevice.EDVS_CONFIG_DVS := 0;
     EdvsDevice.EDVS_CONFIG_DVS_RUN := 0;
     EdvsDevice.EDVS_CONFIG_DVS_TIMESTAMP_RESET := 1;
     EdvsDevice.EDVS_CONFIG_BIAS := 1;
     EdvsDevice.EDVS_CONFIG_BIAS_CAS := 0;
     EdvsDevice.EDVS_CONFIG_BIAS_INJGND := 1;
     EdvsDevice.EDVS_CONFIG_BIAS_PUX := 3;
     EdvsDevice.EDVS_CONFIG_BIAS_PUY := 7;
     EdvsDevice.EDVS_CONFIG_BIAS_REQPD := 2;
     EdvsDevice.EDVS_CONFIG_BIAS_REQ := 5;
     EdvsDevice.EDVS_CONFIG_BIAS_FOLL := 10;
     EdvsDevice.EDVS_CONFIG_BIAS_PR := 11;
     EdvsDevice.EDVS_CONFIG_BIAS_REFR := 6;
     EdvsDevice.EDVS_CONFIG_BIAS_DIFF := 9;
     EdvsDevice.EDVS_CONFIG_BIAS_DIFFON := 8;
     EdvsDevice.EDVS_CONFIG_BIAS_DIFFOFF := 4;
     EdvsDevice.BIAS_NUMBER := 12;
     EdvsDevice.BIAS_LENGTH := 3;
     EdvsDevice.caerIntegerToByteArray :=
       fun v _ => [U8T (Z.shiftr v 16); U8T (Z.shiftr v 8); U8T v];
     EdvsDevice.caerByteArrayToInteger :=
       fun bytes _ => fold_left (fun acc b => Z.lor (Z.shiftl acc 8) b) bytes 0;
     EdvsDevice.data_exchange := unit;
     EdvsDevice.dataExchangeConfigSet := fun x _ _ => (x, false);
     EdvsDevice.dataExchangeConfigGet := fun _ _ => None;
     EdvsDevice.dataExchangeSetNotify := fun x => x;
     EdvsDevice.dataExchangeBufferInit := fun x => (x, true);
     EdvsDevice.dataExchangeStartProducers := fun x => (x, true);
     EdvsDevice.dataExchangeStopProducers := fun x => (x, true);
     EdvsDevice.dataExchangeBufferEmpty := fun x => x;
     EdvsDevice.dataExchangeDestroy := fun x => x |}.

(** The device after [edvsOpen]: the memory of the handle is zeroed
    but for the thresholds, the read size and the log level. *)
Definition edvsOpened : @EdvsDevice.edvs_device smallConfig :=
  {| EdvsDevice.decoder :=
       {| Edvs.serialThreadRun := false; Edvs.dvsTSReset := false;
          Edvs.maxPacketContainerPacketSize := 4096;
          Edvs.maxPacketContainerInterval := 10000;
          Edvs.timestamps :=
            {| Edvs.wrapOverflow := 0; Edvs.wrapAdd := 0; Edvs.lastShort := 0;
               Edvs.last := 0; Edvs.current := 0 |};
          Edvs.currentPacketContainerCommitTimestamp := 0;
          Edvs.currentPacketContainer := None;
          Edvs.currentPolarityPacket := None;
          Edvs.currentPolarityPacketPosition := 0;
          Edvs.currentSpecialPacket := None;
          Edvs.currentSpecialPacketPosition := 0;
          Edvs.allocations := []; Edvs.exchangePuts := [] |};
     EdvsDevice.serialReadSize := 1024;
     EdvsDevice.deviceLogLevel := 5;
     EdvsDevice.dvsRunning := false;
     EdvsDevice.biases := fun _ => [0; 0; 0];
     EdvsDevice.dataExchange := (tt : @EdvsDevice.data_exchange smallConfig);
     EdvsDevice.serialWrites := [];
     EdvsDevice.threads := [] |}.


End Examples.

(** * Properties *)

(** ** Fixed-width integers and full timestamps *)

Module IntFacts.

Lemma signed_small w z :
  0 < w -> - 2 ^ (w - 1) <= z < 2 ^ (w - 1) -> signed w z = z.
Proof.
  intros Hw Hz. unfold signed.
  assert (E : 2 ^ w = 2 * 2 ^ (w - 1)).
  { replace w with (Z.succ (w - 1)) at 1 by lia.
    rewrite Z.pow_succ_r by lia. reflexivity. }
  rewrite Z.mod_small by lia. lia.
Qed.

Lemma I32T_small z : - 2147483648 <= z <= 2147483647 -> I32T z = z.
Proof. intros Hz. apply signed_small; simpl; lia. Qed.

Lemma I64T_small z :
  - 9223372036854775808 <= z <= 9223372036854775807 -> I64T z = z.
Proof. intros Hz. apply signed_small; simpl; lia. Qed.

Lemma I32T_range z : - 2147483648 <= I32T z <= 2147483647.
Proof.
  unfold I32T, signed.
  pose proof (Z.mod_pos_bound (z + 2 ^ (32 - 1)) (2 ^ 32) eq_refl) as Hm.
  change (2 ^ (32 - 1)) with 2147483648 in *.
  change (2 ^ 32) with 4294967296 in *. lia.
Qed.

Lemma U64T_small z : 0 <= z < 18446744073709551616 -> U64T z = z.
Proof. intros Hz. unfold U64T, unsigned. apply Z.mod_small. simpl. lia. Qed.

Lemma U16T_range z : 0 <= U16T z < 65536.
Proof. unfold U16T, unsigned. apply Z.mod_pos_bound. reflexivity. Qed.

Lemma U8T_range z : 0 <= U8T z < 256.
Proof. unfold U8T, unsigned. apply Z.mod_pos_bound. reflexivity. Qed.

(** A value shifted past the bits of another one is added to it by the
    bitwise or. *)
Lemma lor_shiftl_add a b n :
  0 <= n -> 0 <= b < 2 ^ n -> Z.lor (Z.shiftl a n) b = a * 2 ^ n + b.
Proof.
  intros Hn Hb.
  assert (Hland : Z.land (Z.shiftl a n) b = 0).
  { apply Z.bits_inj'. intros i Hi. rewrite Z.land_spec, Z.bits_0.
    destruct (Z.lt_ge_cases i n) as [Hlt | Hge].
    - rewrite Z.shiftl_spec_low by assumption. reflexivity.
    - destruct (Z.eq_dec b 0) as [-> | Hb0].
      + rewrite Z.bits_0. apply andb_false_r.
      + rewrite (Z.bits_above_log2 b i); [apply andb_false_r | lia |].
        apply Z.lt_le_trans with n; [| assumption].
        apply Z.log2_lt_pow2; lia. }
  rewrite <- Z.lxor_lor by assumption.
  rewrite <- Z.add_nocarry_lxor by assumption.
  rewrite Z.shiftl_mul_pow2 by assumption. reflexivity.
Qed.

(** The full timestamp of an epoch and a timestamp that are both within
    the non-negative range of [int32_t]. *)
Lemma generateFullTimestamp_value tsOverflow timestamp :
  0 <= tsOverflow <= INT32_MAX -> 0 <= timestamp <= INT32_MAX ->
  generateFullTimestamp tsOverflow timestamp = tsOverflow * 2 ^ 31 + timestamp.
Proof.
  unfold INT32_MAX, generateFullTimestamp, TS_OVERFLOW_SHIFT. intros Ho Ht.
  rewrite (U64T_small tsOverflow) by lia.
  rewrite (U64T_small timestamp) by lia.
  assert (Hs : Z.shiftl tsOverflow 31 = tsOverflow * 2147483648)
    by (rewrite Z.shiftl_mul_pow2 by lia; reflexivity).
  rewrite (U64T_small (Z.shiftl tsOverflow 31)) by (rewrite Hs; lia).
  rewrite lor_shiftl_add by (simpl; lia).
  change (2 ^ 31) with 2147483648.
  apply I64T_small. lia.
Qed.

End IntFacts.

(** ** The re-arming loop of the commit deadline *)

Module RearmFacts.
Import IntFacts.

(** With a positive interval and enough fuel the loop ends, on the first
    deadline [deadline + k * interval] that the full timestamp does not
    exceed. *)
Lemma rearmLoop_ends fuel : forall full deadline interval,
  0 < I32T interval ->
  full + I32T interval <= INT64_MAX ->
  INT64_MIN <= deadline ->
  (Z.to_nat (full - deadline) <= fuel)%nat ->
  exists k,
    0 <= k
    /\ rearmLoop fuel full deadline interval = Some (deadline + k * I32T interval)
    /\ full <= deadline + k * I32T interval
    /\ (k = 0 \/ deadline + (k - 1) * I32T interval < full)
    /\ (deadline < full -> 1 <= k).
Proof.
  unfold INT64_MAX, INT64_MIN.
  induction fuel as [| fuel IH]; intros full deadline interval Hi Hmax Hmin Hfuel.
  - assert (Hle : full <= deadline) by lia.
    exists 0. simpl. destruct (Z.gtb_spec full deadline); [lia |].
    repeat split; try lia. f_equal. lia.
  - simpl. destruct (Z.gtb_spec full deadline) as [Hgt | Hle].
    + rewrite I64T_small by lia.
      destruct (IH full (deadline + I32T interval) interval) as (k & Hk & E & Hfin & Hmin' & _);
        try lia.
      exists (k + 1). rewrite E.
      split; [lia |]. split; [f_equal; lia |]. split; [lia |].
      split; [| lia]. right.
      destruct Hmin' as [-> | Hlt]; [lia |].
      replace (k + 1 - 1) with k by lia. lia.
    + exists 0. repeat split; try lia. f_equal. lia.
Qed.

Lemma rearm_total full deadline interval :
  0 < I32T interval ->
  full + I32T interval <= INT64_MAX ->
  INT64_MIN <= deadline ->
  exists k,
    0 <= k
    /\ rearm full deadline interval = Some (deadline + k * I32T interval)
    /\ full <= deadline + k * I32T interval
    /\ (k = 0 \/ deadline + (k - 1) * I32T interval < full)
    /\ (deadline < full -> 1 <= k).
Proof.
  intros Hi Hmax Hmin. unfold rearm.
  apply rearmLoop_ends; auto.
Qed.

(** With an interval of zero a deadline that has passed is never
    re-armed: the loop of the source does not end, whatever the fuel. *)
Lemma rearm_zero_interval_diverges fuel : forall full deadline interval,
  I32T interval = 0 ->
  INT64_MIN <= deadline <= INT64_MAX ->
  deadline < full ->
  rearmLoop fuel full deadline interval = None.
Proof.
  unfold INT64_MAX, INT64_MIN.
  induction fuel as [| fuel IH]; intros full deadline interval Hi Hd Hlt; simpl;
    destruct (Z.gtb_spec full deadline); try lia; try reflexivity.
  rewrite Hi, Z.add_0_r, I64T_small by lia. apply IH; assumption.
Qed.

End RearmFacts.

(** ** Traces *)

Module OutFacts.

Lemma handed_app a b : handed (a ++ b) = handed a ++ handed b.
Proof. induction a as [| [] a IH]; simpl; rewrite ?IH; reflexivity. Qed.

Lemma delivered_app a b : delivered (a ++ b) = delivered a ++ delivered b.
Proof.
  induction a as [| [] a IH]; simpl; rewrite ?IH; try reflexivity.
  destruct accepted; reflexivity.
Qed.

Lemma handed_handOverOuts_pending c ok : handed (handOverOuts c false ok) = [c].
Proof. unfold handOverOuts. destruct ok; reflexivity. Qed.

End OutFacts.

(** ** The eDVS decoder: the allocations at the head of a step *)

Module EdvsFacts.
Import Edvs IntFacts RearmFacts OutFacts.

Section WithHeader.
Context `{edvs_h}.

Lemma sameButPackets_refl s : sameButPackets s s.
Proof. unfold sameButPackets. repeat split; auto. Qed.

Lemma sameButPackets_trans s1 s2 s3 :
  sameButPackets s1 s2 -> sameButPackets s2 s3 -> sameButPackets s1 s3.
Proof.
  unfold sameButPackets.
  intros (A1 & A2 & A3 & A4 & A5 & A6 & A7 & A8 & A9 & A10 & A11 & A12 & A13 & A14 & A15)
         (B1 & B2 & B3 & B4 & B5 & B6 & B7 & B8 & B9 & B10 & B11 & B12 & B13 & B14 & B15).
  repeat split; try congruence; auto.
  destruct A12 as [E | [E1 E2]], B12 as [F | [F1 F2]].
  - left. congruence.
  - right. split; congruence.
  - right. split; congruence.
  - congruence.
Qed.

Lemma allocateContainer_allocates : allocates allocateContainer.
Proof.
  intros s. unfold allocateContainer, caerEventPacketContainerAllocate, request,
    sameButPackets, continue, returnWith.
  destruct s as [run rst ms mi ts cts c p pp sp spp al ex]; simpl.
  destruct c; simpl.
  - repeat split; auto; try discriminate.
  - destruct al as [| [] al]; simpl; repeat split; auto; try discriminate; eauto.
Qed.

Lemma allocatePolarity_allocates : allocates allocatePolarity.
Proof.
  intros s. unfold allocatePolarity, caerEventPacketAllocate, caerEventPacketGrow, request,
    sameButPackets, continue, returnWith.
  destruct s as [run rst ms mi ts cts c p pp sp spp al ex]; simpl.
  destruct p as [p |]; simpl.
  - destruct (pp >=? eventCapacity p); simpl.
    + destruct al as [| [] al]; simpl; repeat split; auto; try discriminate; eauto.
    + repeat split; auto; try discriminate.
  - destruct al as [| [] al]; simpl; repeat split; auto; try discriminate; eauto.
Qed.

Lemma allocateSpecial_allocates : allocates allocateSpecial.
Proof.
  intros s. unfold allocateSpecial, caerEventPacketAllocate, caerEventPacketGrow, request,
    sameButPackets, continue, returnWith.
  destruct s as [run rst ms mi ts cts c p pp sp spp al ex]; simpl.
  destruct sp as [sp |]; simpl.
  - destruct (spp >=? eventCapacity sp); simpl.
    + destruct al as [| [] al]; simpl; repeat split; auto; try discriminate; eauto.
    + repeat split; auto; try discriminate.
  - destruct al as [| [] al]; simpl; repeat split; auto; try discriminate; eauto.
Qed.

Lemma andThen_allocates f g :
  allocates f -> allocates g -> allocates (fun s => andThen (f s) g).
Proof.
  intros Hf Hg s. destruct (Hf s) as (F1 & F2 & F3 & F4 & F5).
  destruct (Hg (state (f s))) as (G1 & G2 & G3 & G4 & G5).
  unfold andThen. destruct (ends (f s)) eqn:E; simpl.
  - rewrite F3 by reflexivity. simpl.
    split; [eapply sameButPackets_trans; eassumption |].
    split; [assumption |]. split; [assumption |]. split; [assumption |].
    intros Ha. apply G5. apply F1. assumption.
  - rewrite E.
    split; [assumption |]. split; [discriminate |]. split; [discriminate |].
    split; [auto |].
    intros Ha. apply F5 in Ha. discriminate.
  - congruence.
Qed.

Lemma prepare_allocates : allocates prepare.
Proof.
  unfold prepare.
  apply (andThen_allocates allocateContainer
           (fun s => andThen (allocatePolarity s) allocateSpecial)).
  - apply allocateContainer_allocates.
  - apply andThen_allocates.
    + apply allocatePolarity_allocates.
    + apply allocateSpecial_allocates.
Qed.

Lemma allocateContainer_ready s :
  ends (allocateContainer s) = Continue ->
  currentPacketContainer (state (allocateContainer s)) <> None.
Proof.
  unfold allocateContainer, caerEventPacketContainerAllocate, request.
  destruct (currentPacketContainer s) eqn:E; simpl.
  - intros _. congruence.
  - destruct (allocations s) as [| [] al]; simpl; congruence.
Qed.

Lemma allocatePolarity_ready s :
  ends (allocatePolarity s) = Continue ->
  currentPolarityPacket (state (allocatePolarity s)) <> None.
Proof.
  unfold allocatePolarity, caerEventPacketAllocate, caerEventPacketGrow, request.
  destruct (currentPolarityPacket s) as [p |] eqn:E; simpl.
  - destruct (currentPolarityPacketPosition s >=? eventCapacity p); simpl.
    + destruct (allocations s) as [| [] al]; simpl; congruence.
    + congruence.
  - destruct (allocations s) as [| [] al]; simpl; congruence.
Qed.

Lemma allocateSpecial_ready s :
  ends (allocateSpecial s) = Continue ->
  currentSpecialPacket (state (allocateSpecial s)) <> None.
Proof.
  unfold allocateSpecial, caerEventPacketAllocate, caerEventPacketGrow, request.
  destruct (currentSpecialPacket s) as [p |] eqn:E; simpl.
  - destruct (currentSpecialPacketPosition s >=? eventCapacity p); simpl.
    + destruct (allocations s) as [| [] al]; simpl; congruence.
    + congruence.
  - destruct (allocations s) as [| [] al]; simpl; congruence.
Qed.

Lemma prepare_ready s :
  ends (prepare s) = Continue -> ready (state (prepare s)).
Proof.
  unfold prepare, andThen, ready.
  destruct (ends (allocateContainer s)) eqn:E1; simpl; try (rewrite E1; discriminate).
  set (s1 := state (allocateContainer s)).
  destruct (ends (allocatePolarity s1)) eqn:E2; simpl; try (rewrite E2; discriminate).
  set (s2 := state (allocatePolarity s1)).
  intros E3.
  pose proof (allocateContainer_ready s E1) as R1. fold s1 in R1.
  pose proof (allocatePolarity_ready s1 E2) as R2. fold s2 in R2.
  pose proof (allocateSpecial_ready s2 E3) as R3.
  destruct (allocatePolarity_allocates s1) as (P & _). fold s2 in P.
  destruct (allocateSpecial_allocates s2) as (Q & _).
  unfold sameButPackets in P, Q.
  destruct P as (_ & _ & _ & _ & _ & _ & _ & _ & _ & _ & _ & P12 & _).
  destruct Q as (_ & _ & _ & _ & _ & _ & _ & _ & _ & _ & _ & Q12 & Q13 & _).
  repeat split; auto.
  destruct Q12 as [-> | [_ ->]]; [| discriminate].
  destruct P12 as [-> | [_ ->]]; [assumption | discriminate].
Qed.

(** *** The commit *)

Lemma state_andThen r k :
  state (andThen r k)
  = match ends r with Continue => state (k (state r)) | _ => state r end.
Proof. unfold andThen. destruct (ends r); reflexivity. Qed.

Lemma outs_andThen r k :
  outs (andThen r k)
  = match ends r with Continue => outs r ++ outs (k (state r)) | _ => outs r end.
Proof. unfold andThen. destruct (ends r); reflexivity. Qed.

Lemma ends_andThen r k :
  ends (andThen r k)
  = match ends r with Continue => ends (k (state r)) | e => e end.
Proof. unfold andThen. destruct (ends r) eqn:E; simpl; congruence. Qed.

Lemma movePackets_keepsClock s : keepsClock s (movePackets s).
Proof.
  unfold movePackets, keepsClock.
  destruct (currentPolarityPacketPosition s >? 0); simpl;
    destruct (currentSpecialPacketPosition s >? 0); simpl; repeat split.
Qed.

Lemma movePackets_deadline s :
  currentPacketContainerCommitTimestamp (movePackets s)
  = currentPacketContainerCommitTimestamp s.
Proof.
  unfold movePackets.
  destruct (currentPolarityPacketPosition s >? 0); simpl;
    destruct (currentSpecialPacketPosition s >? 0); reflexivity.
Qed.

Lemma handOver_keepsClock s e : keepsClock s (state (handOver s e)).
Proof.
  unfold handOver, keepsClock. destruct e; simpl.
  - repeat split.
  - destruct (request (exchangePuts s)); simpl. repeat split.
Qed.

Lemma handOver_deadline s e :
  currentPacketContainerCommitTimestamp (state (handOver s e))
  = currentPacketContainerCommitTimestamp s.
Proof.
  unfold handOver. destruct e; simpl; [reflexivity |].
  destruct (request (exchangePuts s)); reflexivity.
Qed.

Lemma handOver_ends s e : ends (handOver s e) = Continue.
Proof.
  unfold handOver. destruct e; simpl; [reflexivity |].
  destruct (request (exchangePuts s)); reflexivity.
Qed.

Lemma commitReset_keepsClock s : keepsClock s (state (commitReset s)).
Proof.
  unfold commitReset, caerEventPacketContainerAllocate, caerEventPacketAllocate,
    request, keepsClock.
  destruct (allocations s) as [| [] [| [] al]]; simpl; repeat split.
Qed.

Lemma commitReset_deadline s :
  currentPacketContainerCommitTimestamp (state (commitReset s))
  = currentPacketContainerCommitTimestamp s.
Proof.
  unfold commitReset, caerEventPacketContainerAllocate, caerEventPacketAllocate,
    request.
  destruct (allocations s) as [| [] [| [] al]]; reflexivity.
Qed.

Lemma commitReset_ends s : ends (commitReset s) <> Diverges.
Proof.
  unfold commitReset, caerEventPacketContainerAllocate, caerEventPacketAllocate,
    request.
  destruct (allocations s) as [| [] [| [] al]]; simpl; discriminate.
Qed.

Lemma keepsClock_trans s1 s2 s3 :
  keepsClock s1 s2 -> keepsClock s2 s3 -> keepsClock s1 s3.
Proof.
  unfold keepsClock. intros (A1 & A2 & A3 & A4 & A5) (B1 & B2 & B3 & B4 & B5).
  repeat split; congruence.
Qed.

Lemma keepsClock_refl s : keepsClock s s.
Proof. unfold keepsClock. repeat split. Qed.

Lemma commit_not_due s r w :
  commitDue s r w = false -> commit s r w = continue s.
Proof.
  unfold commitDue, containerTimeCommit, fullTimestamp, commit. intros E.
  rewrite <- !orb_assoc in *. rewrite E. reflexivity.
Qed.

Lemma commit_due s r w d :
  commitDue s r w = true -> rearmed s = Some d ->
  commit s r w =
  andThen (handOver (set_commitTimestamp d (movePackets s)) (negb (pending s)))
    (fun s => if r then commitReset s else continue s).
Proof.
  unfold commitDue, rearmed, containerTimeCommit, fullTimestamp, commit, pending.
  intros E R. rewrite <- !orb_assoc in *. rewrite E.
  rewrite movePackets_deadline.
  destruct (movePackets_keepsClock s) as (K1 & K2 & K3 & K4 & K5).
  rewrite K5.
  rewrite R. rewrite negb_orb. reflexivity.
Qed.

Lemma commit_hangs s r w :
  commitDue s r w = true -> rearmed s = None ->
  commit s r w = {| state := movePackets s; outs := []; ends := Diverges |}.
Proof.
  unfold commitDue, rearmed, containerTimeCommit, fullTimestamp, commit, pending.
  intros E R. rewrite <- !orb_assoc in *. rewrite E.
  rewrite movePackets_deadline.
  destruct (movePackets_keepsClock s) as (K1 & K2 & K3 & K4 & K5).
  rewrite K5.
  rewrite R. reflexivity.
Qed.

Lemma commit_keepsClock s r w : keepsClock s (state (commit s r w)).
Proof.
  destruct (commitDue s r w) eqn:E.
  - destruct (rearmed s) as [d |] eqn:R.
    + rewrite (commit_due s r w d E R). rewrite state_andThen, handOver_ends.
      set (s1 := set_commitTimestamp d (movePackets s)).
      assert (K1 : keepsClock s s1).
      { eapply keepsClock_trans; [apply movePackets_keepsClock |].
        unfold s1, keepsClock. repeat split. }
      assert (K2 : keepsClock s (state (handOver s1 (negb (pending s))))).
      { eapply keepsClock_trans; [exact K1 | apply handOver_keepsClock]. }
      destruct r; [| exact K2].
      eapply keepsClock_trans; [exact K2 | apply commitReset_keepsClock].
    + rewrite (commit_hangs s r w E R). apply movePackets_keepsClock.
  - rewrite (commit_not_due s r w E). apply keepsClock_refl.
Qed.

(** *** Decoding of a token *)

Lemma initContainerCommitTimestamp_keepsClock s :
  keepsClock s (initContainerCommitTimestamp s).
Proof.
  unfold initContainerCommitTimestamp, keepsClock.
  destruct (currentPacketContainerCommitTimestamp s =? -1); repeat split.
Qed.

Lemma decodePolarity_keepsClock s y x :
  keepsClock s (fst (decodePolarity s y x)).
Proof.
  unfold decodePolarity, keepsClock.
  destruct ((U8T (Z.land x LOW_BITS_MASK) <? EDVS_ARRAY_SIZE_X)
            && (U8T (Z.land y LOW_BITS_MASK) <? EDVS_ARRAY_SIZE_Y)); repeat split.
Qed.

Lemma decode_update s y x t1 t2 :
  dvsTSReset s = false -> bigWrapOf s t1 t2 = false ->
  exists s' o,
    decode s y x t1 t2 = (s', o, false, false)
    /\ timestamps s' = updated (timestamps s) (shortTSOf t1 t2).
Proof.
  unfold bigWrapOf, tsWrapOf, decode. intros R W. rewrite R, W.
  match goal with
  | |- context [decodePolarity ?a y x] =>
      pose proof (decodePolarity_keepsClock a y x) as K;
      destruct (decodePolarity a y x) as [s' o2]
  end.
  eexists. eexists. split; [reflexivity |].
  destruct K as (K & _). simpl in K. rewrite K.
  match goal with
  | |- context [initContainerCommitTimestamp ?a] =>
      destruct (initContainerCommitTimestamp_keepsClock a) as (K' & _); rewrite K'
  end.
  reflexivity.
Qed.

Lemma decode_big_wrap s y x t1 t2 :
  dvsTSReset s = false -> bigWrapOf s t1 t2 = true ->
  decode s y x t1 t2 =
  (set_special
     (write (currentSpecialPacket s)
        {| spcTimestamp := INT32_MAX; spcType := TIMESTAMP_WRAP |})
     (currentSpecialPacketPosition s + 1)
     (set_timestamps
        {| wrapOverflow := I32T (wrapOverflow (timestamps s) + 1); wrapAdd := 0;
           lastShort := 0; last := 0; current := 0 |} s),
   [], false, true).
Proof.
  unfold bigWrapOf, tsWrapOf, decode. intros R W. rewrite R, W. reflexivity.
Qed.

Lemma decode_reset s y x t1 t2 :
  dvsTSReset s = true ->
  decode s y x t1 t2 =
  (initContainerCommitTimestamp
     (set_commitTimestamp (-1)
        (set_timestamps
           {| wrapOverflow := 0; wrapAdd := 0; lastShort := 0; last := 0;
              current := 0 |} (set_dvsTSReset false s))),
   [SerialWrite cmdTSReset], true, false).
Proof. unfold decode. intros R. rewrite R. reflexivity. Qed.

Lemma process_keepsClock s y x t1 t2 s' o r w :
  decode s y x t1 t2 = (s', o, r, w) ->
  keepsClock s' (state (process s y x t1 t2)).
Proof.
  intros D. unfold process. rewrite D. rewrite state_andThen. simpl.
  apply commit_keepsClock.
Qed.

Lemma edvsToken_process s y x t1 t2 :
  ends (prepare s) = Continue ->
  edvsToken s y x t1 t2 =
  {| state := state (process (state (prepare s)) y x t1 t2);
     outs := outs (process (state (prepare s)) y x t1 t2);
     ends := ends (process (state (prepare s)) y x t1 t2) |}.
Proof.
  intros E. unfold edvsToken, andThen. rewrite E.
  destruct (prepare_allocates s) as (_ & _ & O & _). rewrite (O E). reflexivity.
Qed.

Lemma updated_wrapOK ts f :
  wrapOK ts -> 0 <= f < TS_WRAP_ADD ->
  ((f <? lastShort ts) && (wrapAdd ts =? INT32_MAX - (TS_WRAP_ADD - 1))) = false ->
  wrapOK (updated ts f)
  /\ (lastShort ts <= f ->
      current (updated ts f) = wrapAdd ts + f /\ lastShort (updated ts f) = f
      /\ wrapAdd (updated ts f) = wrapAdd ts)
  /\ (f < lastShort ts ->
      wrapAdd (updated ts f) = wrapAdd ts + TS_WRAP_ADD
      /\ lastShort (updated ts f) = 0
      /\ current (updated ts f) = wrapAdd (updated ts f) + f).
Proof.
  unfold wrapOK, updated, INT32_MAX, TS_WRAP_ADD. intros (A & M & L & C) F B.
  destruct (Z.ltb_spec f (lastShort ts)) as [Hlt | Hge]; simpl in *.
  - apply Z.eqb_neq in B.
    assert (Hw : wrapAdd ts + 65536 <= 2147418112).
    { pose proof (Z.div_mod (wrapAdd ts) 65536 ltac:(lia)) as D. rewrite M in D.
      assert (wrapAdd ts / 65536 < 32767) by lia. lia. }
    rewrite (I32T_small (wrapAdd ts + 65536)) by lia.
    rewrite I32T_small by lia.
    repeat split; try lia.
    rewrite <- Z.add_mod_idemp_l by lia. rewrite M. reflexivity.
  - rewrite I32T_small by lia. repeat split; try lia.
Qed.

(** *** Consistency of the packets in progress *)

Lemma prepare_consistent s : consistent s -> consistent (state (prepare s)).
Proof.
  destruct (prepare_allocates s) as (P & _). unfold sameButPackets in P.
  destruct P as (_ & _ & _ & _ & _ & _ & P7 & P8 & _ & P10 & P11 & P12 & _).
  unfold consistent. intros (C1 & C2 & C3).
  rewrite P7, P8, P10, P11. repeat split; auto.
  destruct P12 as [-> | [_ ->]]; auto.
Qed.

Lemma consistent_container s :
  consistent s -> ready s -> currentPacketContainer s = Some emptyContainer.
Proof.
  unfold consistent, ready. intros ([C | C] & _) (R & _); congruence.
Qed.

Lemma length_write {E} (p : option (packet E)) e :
  p <> None ->
  Z.of_nat (List.length (slotEvents (write p e)))
  = Z.of_nat (List.length (slotEvents p)) + 1.
Proof.
  destruct p as [p |]; [| congruence]. intros _. simpl.
  rewrite length_app. simpl. lia.
Qed.

Lemma slotEvents_write {E} (p : option (packet E)) e :
  p <> None -> slotEvents (write p e) = slotEvents p ++ [e].
Proof. destruct p as [p |]; [reflexivity | congruence]. Qed.

Lemma initContainerCommitTimestamp_packets s :
  currentPacketContainer (initContainerCommitTimestamp s) = currentPacketContainer s
  /\ currentPolarityPacket (initContainerCommitTimestamp s) = currentPolarityPacket s
  /\ currentPolarityPacketPosition (initContainerCommitTimestamp s)
     = currentPolarityPacketPosition s
  /\ currentSpecialPacket (initContainerCommitTimestamp s) = currentSpecialPacket s
  /\ currentSpecialPacketPosition (initContainerCommitTimestamp s)
     = currentSpecialPacketPosition s
  /\ allocations (initContainerCommitTimestamp s) = allocations s
  /\ exchangePuts (initContainerCommitTimestamp s) = exchangePuts s.
Proof.
  unfold initContainerCommitTimestamp.
  destruct (currentPacketContainerCommitTimestamp s =? -1); repeat split.
Qed.

(** What decoding leaves of the packets: the container and the
    environment are untouched, and the packets stay allocated and
    consistent. *)
Lemma decode_consistent s y x t1 t2 s' o r w :
  decode s y x t1 t2 = (s', o, r, w) ->
  ready s -> consistent s ->
  ready s' /\ consistent s'
  /\ allocations s' = allocations s /\ exchangePuts s' = exchangePuts s.
Proof.
  unfold decode, decodePolarity, ready, consistent.
  intros D (R1 & R2 & R3) (C1 & C2 & C3).
  destruct (dvsTSReset s).
  - injection D as <- _ _ _.
    destruct (initContainerCommitTimestamp_packets
                (set_commitTimestamp (-1)
                   (set_timestamps
                      {| wrapOverflow := 0; wrapAdd := 0; lastShort := 0;
                         last := 0; current := 0 |} (set_dvsTSReset false s))))
      as (I1 & I2 & I3 & I4 & I5 & I6 & I7).
    rewrite I1, I2, I3, I4, I5, I6, I7. simpl. repeat split; auto.
  - destruct ((shortTSOf t1 t2 <? lastShort (timestamps s))
              && (wrapAdd (timestamps s) =? INT32_MAX - (TS_WRAP_ADD - 1))).
    + injection D as <- _ _ _. simpl.
      rewrite length_write by assumption.
      repeat split; auto; try lia.
      destruct (currentSpecialPacket s); [discriminate | congruence].
    + match type of D with
      | context [initContainerCommitTimestamp ?a] =>
          destruct (initContainerCommitTimestamp_packets a)
            as (I1 & I2 & I3 & I4 & I5 & I6 & I7);
          set (s1 := initContainerCommitTimestamp a) in *
      end.
      simpl in I1, I2, I3, I4, I5, I6, I7.
      destruct ((U8T (Z.land x LOW_BITS_MASK) <? EDVS_ARRAY_SIZE_X)
                && (U8T (Z.land y LOW_BITS_MASK) <? EDVS_ARRAY_SIZE_Y)).
      * injection D as <- _ _ _. simpl.
        rewrite I1, I2, I3, I4, I5, I6, I7.
        rewrite length_write by assumption.
        repeat split; auto; try lia.
        destruct (currentPolarityPacket s); [discriminate | congruence].
      * injection D as <- _ _ _.
        rewrite I1, I2, I3, I4, I5, I6, I7. repeat split; auto.
Qed.

Lemma movePackets_committed s :
  currentPacketContainer s = Some emptyContainer ->
  currentPacketContainer (movePackets s) = Some (committed s)
  /\ currentPolarityPacketPosition (movePackets s)
     = (if currentPolarityPacketPosition s >? 0 then 0
        else currentPolarityPacketPosition s)
  /\ currentSpecialPacketPosition (movePackets s)
     = (if currentSpecialPacketPosition s >? 0 then 0
        else currentSpecialPacketPosition s)
  /\ currentPolarityPacket (movePackets s)
     = (if currentPolarityPacketPosition s >? 0 then None
        else currentPolarityPacket s)
  /\ currentSpecialPacket (movePackets s)
     = (if currentSpecialPacketPosition s >? 0 then None
        else currentSpecialPacket s)
  /\ allocations (movePackets s) = allocations s
  /\ exchangePuts (movePackets s) = exchangePuts s.
Proof.
  unfold movePackets, committed, theContainer. intros C.
  destruct (currentPolarityPacketPosition s >? 0) eqn:P; simpl;
    destruct (currentSpecialPacketPosition s >? 0) eqn:Q; simpl;
    rewrite ?C; repeat split.
Qed.

Lemma committed_events s :
  consistent s ->
  slotEvents (polaritySlot (committed s)) = slotEvents (currentPolarityPacket s)
  /\ slotEvents (specialSlot (committed s)) = slotEvents (currentSpecialPacket s)
  /\ imu6Slot (committed s) = None.
Proof.
  unfold consistent, committed. intros (_ & C2 & C3). simpl.
  split; [| split; [| reflexivity]].
  - destruct (Z.gtb_spec (currentPolarityPacketPosition s) 0); [reflexivity |].
    destruct (slotEvents (currentPolarityPacket s)); [reflexivity | simpl in *; lia].
  - destruct (Z.gtb_spec (currentSpecialPacketPosition s) 0); [reflexivity |].
    destruct (slotEvents (currentSpecialPacket s)); [reflexivity | simpl in *; lia].
Qed.

Lemma slotNonEmpty_length {E} (p : option (packet E)) :
  (0 < List.length (slotEvents p))%nat -> slotNonEmpty p = true.
Proof.
  destruct p as [p |]; simpl; [| lia]. destruct (events p); simpl; [lia | reflexivity].
Qed.

Lemma committed_nonEmpty s :
  consistent s -> pending s = true -> nonEmpty (committed s) = true.
Proof.
  unfold consistent, pending, committed, nonEmpty. intros (_ & C2 & C3) P. simpl.
  apply orb_true_iff in P. destruct P as [P | P]; rewrite P.
  - rewrite slotNonEmpty_length; [reflexivity |].
    apply Z.gtb_lt in P. lia.
  - rewrite (slotNonEmpty_length (currentSpecialPacket s)).
    + rewrite orb_true_r. reflexivity.
    + apply Z.gtb_lt in P. lia.
Qed.

(** *** What a commit hands over *)

Lemma handOver_outs s e :
  outs (handOver s e)
  = handOverOuts (theContainer s) e (fst (request (exchangePuts s))).
Proof.
  unfold handOver, handOverOuts. destruct e; [reflexivity |].
  destruct (request (exchangePuts s)); reflexivity.
Qed.

Lemma handOver_state s e :
  let s' := state (handOver s e) in
  currentPacketContainer s' = None
  /\ currentPolarityPacket s' = currentPolarityPacket s
  /\ currentPolarityPacketPosition s' = currentPolarityPacketPosition s
  /\ currentSpecialPacket s' = currentSpecialPacket s
  /\ currentSpecialPacketPosition s' = currentSpecialPacketPosition s
  /\ allocations s' = allocations s.
Proof.
  unfold handOver. destruct e; simpl; [repeat split |].
  destruct (request (exchangePuts s)); simpl. repeat split.
Qed.

Lemma commitReset_state s :
  let s' := state (commitReset s) in
  currentPacketContainer s' = currentPacketContainer s
  /\ currentPolarityPacket s' = currentPolarityPacket s
  /\ currentPolarityPacketPosition s' = currentPolarityPacketPosition s
  /\ currentSpecialPacket s' = currentSpecialPacket s
  /\ currentSpecialPacketPosition s' = currentSpecialPacketPosition s
  /\ (allocations s = [] -> allocations s' = []).
Proof.
  unfold commitReset, caerEventPacketContainerAllocate, caerEventPacketAllocate,
    request.
  destruct (allocations s) as [| [] [| [] al]]; simpl; repeat split;
    intros; congruence.
Qed.

(** The reset container is handed over through the forced path when
    its two allocations succeed, and nothing is handed over otherwise. *)
Lemma commitReset_outs s :
  (outs (commitReset s)
   = [ExchangePutForce (tsResetContainer (wrapOverflow (timestamps s)))]
   /\ ends (commitReset s) = Continue)
  \/ (handed (outs (commitReset s)) = [] /\ ends (commitReset s) = Returned
      /\ exists m, outs (commitReset s) = [Log CAER_LOG_CRITICAL m]).
Proof.
  unfold commitReset, caerEventPacketContainerAllocate, caerEventPacketAllocate,
    request, tsResetContainer.
  destruct (allocations s) as [| [] [| [] al]]; simpl; eauto 6.
Qed.

Lemma commitReset_succeeds s :
  allocations s = [] ->
  outs (commitReset s)
  = [ExchangePutForce (tsResetContainer (wrapOverflow (timestamps s)))]
  /\ ends (commitReset s) = Continue.
Proof.
  unfold commitReset, caerEventPacketContainerAllocate, caerEventPacketAllocate,
    request, tsResetContainer.
  intros ->. simpl. split; reflexivity.
Qed.

(** A commit that is due and whose re-arming ends, from a consistent
    state with its packets allocated. *)
Lemma commit_due_outs s r w d :
  consistent s -> ready s -> commitDue s r w = true -> rearmed s = Some d ->
  outs (commit s r w)
  = handOverOuts (committed s) (negb (pending s)) (fst (request (exchangePuts s)))
    ++ (if r
        then outs (commitReset
                     (state (handOver (set_commitTimestamp d (movePackets s))
                               (negb (pending s)))))
        else [])
  /\ ends (commit s r w)
     = (if r
        then ends (commitReset
                     (state (handOver (set_commitTimestamp d (movePackets s))
                               (negb (pending s)))))
        else Continue)
  /\ consistent (state (commit s r w))
  /\ currentPolarityPacketPosition (state (commit s r w)) = 0
  /\ currentSpecialPacketPosition (state (commit s r w)) = 0
  /\ currentPacketContainerCommitTimestamp (state (commit s r w)) = d.
Proof.
  intros C R E D.
  pose proof (consistent_container s C R) as Hc.
  destruct (movePackets_committed s Hc) as (M1 & M2 & M3 & M4 & M5 & M6 & M7).
  rewrite (commit_due s r w d E D).
  set (s1 := set_commitTimestamp d (movePackets s)).
  assert (T1 : theContainer s1 = committed s).
  { unfold s1, theContainer. simpl. rewrite M1. reflexivity. }
  assert (X1 : exchangePuts s1 = exchangePuts s) by (unfold s1; simpl; exact M7).
  rewrite outs_andThen, ends_andThen, state_andThen, handOver_ends, handOver_outs.
  rewrite T1, X1.
  destruct (handOver_state s1 (negb (pending s))) as (H1 & H2 & H3 & H4 & H5 & H6).
  set (s2 := state (handOver s1 (negb (pending s)))) in *.
  assert (P0 : currentPolarityPacketPosition s2 = 0
               /\ currentSpecialPacketPosition s2 = 0
               /\ slotEvents (currentPolarityPacket s2) = []
               /\ slotEvents (currentSpecialPacket s2) = []).
  { rewrite H2, H3, H4, H5. unfold s1. simpl. rewrite M2, M3, M4, M5.
    destruct C as (_ & C2 & C3).
    destruct (Z.gtb_spec (currentPolarityPacketPosition s) 0);
      destruct (Z.gtb_spec (currentSpecialPacketPosition s) 0); simpl;
      repeat split; try lia;
      try (destruct (slotEvents (currentPolarityPacket s)); [reflexivity | simpl in *; lia]);
      try (destruct (slotEvents (currentSpecialPacket s)); [reflexivity | simpl in *; lia]). }
  destruct P0 as (Q1 & Q2 & Q3 & Q4).
  assert (D2 : currentPacketContainerCommitTimestamp s2 = d).
  { unfold s2. rewrite handOver_deadline. reflexivity. }
  destruct r.
  - destruct (commitReset_state s2) as (K1 & K2 & K3 & K4 & K5 & K6).
    split; [reflexivity |]. split; [reflexivity |].
    split; [| rewrite K3, K5, commitReset_deadline; auto].
    unfold consistent. rewrite K1, K2, K3, K4, K5, H1, Q1, Q2, Q3, Q4.
    repeat split; auto.
  - simpl. split; [reflexivity |]. split; [reflexivity |].
    split; [| auto].
    unfold consistent. rewrite H1, Q1, Q2, Q3, Q4. repeat split; auto.
Qed.

Lemma commit_handed_nonEmpty s r w :
  consistent s -> ready s ->
  Forall (fun c => nonEmpty c = true) (handed (outs (commit s r w))).
Proof.
  intros C R. destruct (commitDue s r w) eqn:E.
  - destruct (rearmed s) as [d |] eqn:D.
    + destruct (commit_due_outs s r w d C R E D) as (O & _). rewrite O.
      assert (F1 : Forall (fun c => nonEmpty c = true)
                     (handed (handOverOuts (committed s) (negb (pending s))
                                (fst (request (exchangePuts s)))))).
      { unfold handOverOuts. destruct (pending s) eqn:P; simpl.
        - destruct (fst (request (exchangePuts s))); simpl;
            repeat constructor; apply committed_nonEmpty; assumption.
        - constructor. }
      rewrite handed_app. apply Forall_app. split; [exact F1 |].
      destruct r; [| constructor].
      match goal with
      | |- context [commitReset ?a] => destruct (commitReset_outs a) as [[O' _] | [O' _]]
      end; rewrite O'; repeat constructor.
    + rewrite (commit_hangs s r w E D). constructor.
  - rewrite (commit_not_due s r w E). constructor.
Qed.

Lemma commit_consistent s r w :
  consistent s -> ready s -> ends (commit s r w) <> Diverges ->
  consistent (state (commit s r w)).
Proof.
  intros C R N. destruct (commitDue s r w) eqn:E.
  - destruct (rearmed s) as [d |] eqn:D.
    + apply (commit_due_outs s r w d C R E D).
    + rewrite (commit_hangs s r w E D) in N. simpl in N. congruence.
  - rewrite (commit_not_due s r w E). exact C.
Qed.

(** *** Tokens and the decoding loop *)

Lemma decode_outs s y x t1 t2 s' o r w :
  decode s y x t1 t2 = (s', o, r, w) -> handed o = [].
Proof.
  unfold decode, decodePolarity, checkMonotonicTimestamp.
  destruct (dvsTSReset s).
  - intros D. injection D as _ <- _ _. reflexivity.
  - destruct ((shortTSOf t1 t2 <? lastShort (timestamps s))
              && (wrapAdd (timestamps s) =? INT32_MAX - (TS_WRAP_ADD - 1))).
    + intros D. injection D as _ <- _ _. reflexivity.
    + match goal with
      | |- context [initContainerCommitTimestamp ?a] =>
          set (s1 := initContainerCommitTimestamp a)
      end.
      destruct ((U8T (Z.land x LOW_BITS_MASK) <? EDVS_ARRAY_SIZE_X)
                && (U8T (Z.land y LOW_BITS_MASK) <? EDVS_ARRAY_SIZE_Y));
        intros D; injection D as _ <- _ _; rewrite handed_app;
        destruct (current (timestamps s1) <? last (timestamps s1)); simpl;
        try reflexivity.
      * destruct (U8T (Z.land x LOW_BITS_MASK) >=? EDVS_ARRAY_SIZE_X);
          destruct (U8T (Z.land y LOW_BITS_MASK) >=? EDVS_ARRAY_SIZE_Y); reflexivity.
      * destruct (U8T (Z.land x LOW_BITS_MASK) >=? EDVS_ARRAY_SIZE_X);
          destruct (U8T (Z.land y LOW_BITS_MASK) >=? EDVS_ARRAY_SIZE_Y); reflexivity.
Qed.

Lemma process_spec s y x t1 t2 s' o r w :
  decode s y x t1 t2 = (s', o, r, w) ->
  state (process s y x t1 t2) = state (commit s' r w)
  /\ outs (process s y x t1 t2) = o ++ outs (commit s' r w)
  /\ ends (process s y x t1 t2) = ends (commit s' r w).
Proof.
  intros D. unfold process. rewrite D.
  rewrite state_andThen, outs_andThen, ends_andThen. simpl. auto.
Qed.

Lemma edvsToken_handed_nonEmpty s y x t1 t2 :
  consistent s ->
  Forall (fun c => nonEmpty c = true) (handed (outs (edvsToken s y x t1 t2))).
Proof.
  intros C. destruct (prepare_allocates s) as (_ & N & O & Rt & _).
  destruct (ends (prepare s)) eqn:E.
  - rewrite (edvsToken_process s _ _ _ _ E). simpl.
    destruct (decode (state (prepare s)) y x t1 t2) as [[[s' o] r] w] eqn:D.
    destruct (process_spec _ _ _ _ _ _ _ _ _ D) as (_ & PO & _). rewrite PO.
    rewrite handed_app, (decode_outs _ _ _ _ _ _ _ _ _ D). simpl.
    destruct (decode_consistent _ _ _ _ _ _ _ _ _ D) as (R' & C' & _).
    + apply prepare_ready. exact E.
    + apply prepare_consistent. exact C.
    + apply commit_handed_nonEmpty; assumption.
  - unfold edvsToken, andThen. rewrite E.
    destruct (Rt eq_refl) as (m & ->). constructor.
  - congruence.
Qed.

Lemma edvsToken_consistent s y x t1 t2 :
  consistent s -> ends (edvsToken s y x t1 t2) <> Diverges ->
  consistent (state (edvsToken s y x t1 t2)).
Proof.
  intros C. destruct (ends (prepare s)) eqn:E.
  - rewrite (edvsToken_process s _ _ _ _ E). simpl.
    destruct (decode (state (prepare s)) y x t1 t2) as [[[s' o] r] w] eqn:D.
    destruct (process_spec _ _ _ _ _ _ _ _ _ D) as (PS & _ & PE). rewrite PS, PE.
    destruct (decode_consistent _ _ _ _ _ _ _ _ _ D) as (R' & C' & _).
    + apply prepare_ready. exact E.
    + apply prepare_consistent. exact C.
    + apply commit_consistent; assumption.
  - unfold edvsToken, andThen. rewrite E. intros _.
    apply prepare_consistent. exact C.
  - destruct (prepare_allocates s) as (_ & N & _). congruence.
Qed.

Lemma decodeLoop_handed_nonEmpty n : forall buffer s,
  (List.length buffer <= n)%nat -> consistent s ->
  Forall (fun c => nonEmpty c = true) (handed (outs (decodeLoop buffer s))).
Proof.
  induction n as [| n IH]; intros buffer s L C.
  - destruct buffer; [constructor | simpl in L; lia].
  - destruct buffer as [| y rest]; [constructor |].
    simpl in L. cbn [decodeLoop].
    destruct (negb (Z.land y HIGH_BIT_MASK =? HIGH_BIT_MASK)).
    + rewrite outs_andThen. simpl. apply IH; [lia | exact C].
    + destruct rest as [| x [| t1 [| t2 rest']]]; try constructor.
      rewrite outs_andThen.
      destruct (ends (edvsToken s y x t1 t2)) eqn:E;
        try (apply edvsToken_handed_nonEmpty; exact C).
      rewrite handed_app. apply Forall_app. split.
      * apply edvsToken_handed_nonEmpty; exact C.
      * apply IH; [simpl in L; lia |].
        apply edvsToken_consistent; [exact C | congruence].
Qed.

(** *** The commit deadline *)

Lemma fullTimestamp_value s :
  clockInRange (timestamps s) ->
  fullTimestamp s = wrapOverflow (timestamps s) * 2 ^ 31 + current (timestamps s).
Proof.
  intros (O & C). unfold fullTimestamp. apply generateFullTimestamp_value; assumption.
Qed.

(** With a positive interval the re-arming of a commit ends: the
    deadline is left alone when the time trigger did not fire, and
    otherwise moved by the least positive number of intervals that takes
    it to the full timestamp or beyond. *)
Lemma rearmed_total s :
  0 < I32T (maxPacketContainerInterval s) ->
  clockInRange (timestamps s) ->
  INT64_MIN <= currentPacketContainerCommitTimestamp s ->
  exists k,
    0 <= k
    /\ rearmed s
       = Some (currentPacketContainerCommitTimestamp s
               + k * I32T (maxPacketContainerInterval s))
    /\ fullTimestamp s
       <= currentPacketContainerCommitTimestamp s
          + k * I32T (maxPacketContainerInterval s)
    /\ (containerTimeCommit s = false -> k = 0)
    /\ (containerTimeCommit s = true ->
        1 <= k
        /\ currentPacketContainerCommitTimestamp s
           + (k - 1) * I32T (maxPacketContainerInterval s) < fullTimestamp s).
Proof.
  intros I R D. unfold rearmed.
  pose proof (fullTimestamp_value s R) as F.
  destruct R as (O & C). unfold INT32_MAX in O, C.
  pose proof (I32T_range (maxPacketContainerInterval s)) as IR.
  destruct (containerTimeCommit s) eqn:T.
  - unfold containerTimeCommit in T. apply Z.gtb_lt in T.
    destruct (rearm_total (fullTimestamp s) (currentPacketContainerCommitTimestamp s)
                (maxPacketContainerInterval s)) as (k & K0 & E & Fin & Min & Pos);
      try assumption.
    + rewrite F. unfold INT64_MAX. change (2 ^ 31) with 2147483648. lia.
    + exists k. repeat split; try assumption; try discriminate.
      * apply Pos. exact T.
      * destruct Min as [-> | Min]; [specialize (Pos T); lia | exact Min].
  - exists 0. unfold containerTimeCommit in T.
    destruct (Z.gtb_spec (fullTimestamp s) (currentPacketContainerCommitTimestamp s));
      [discriminate |].
    repeat split; try lia; try discriminate.
    f_equal. lia.
Qed.

Lemma commit_deadline s r w d :
  commitDue s r w = true -> rearmed s = Some d ->
  currentPacketContainerCommitTimestamp (state (commit s r w)) = d
  /\ ends (commit s r w) <> Diverges.
Proof.
  intros E D. rewrite (commit_due s r w d E D).
  rewrite state_andThen, ends_andThen, handOver_ends.
  destruct r.
  - rewrite commitReset_deadline, handOver_deadline. split; [reflexivity |].
    apply commitReset_ends.
  - simpl. rewrite handOver_deadline. split; [reflexivity | discriminate].
Qed.

(** *** Timestamp reset and big wrap *)

Lemma committed_same s s' :
  currentPolarityPacket s' = currentPolarityPacket s ->
  currentPolarityPacketPosition s' = currentPolarityPacketPosition s ->
  currentSpecialPacket s' = currentSpecialPacket s ->
  currentSpecialPacketPosition s' = currentSpecialPacketPosition s ->
  committed s' = committed s.
Proof. unfold committed. intros -> -> -> ->. reflexivity. Qed.

(** A token decoded while a timestamp reset is requested, when the
    allocations succeed: the events pending are committed first, in a
    container of their own, and the reset container follows on the
    forced path. *)
Lemma reset_token s y x t1 t2 :
  consistent s -> dvsTSReset s = true -> allocations s = [] ->
  0 < I32T (maxPacketContainerInterval s) ->
  exists c,
    slotEvents (polaritySlot c) = slotEvents (currentPolarityPacket s)
    /\ slotEvents (specialSlot c) = slotEvents (currentSpecialPacket s)
    /\ imu6Slot c = None
    /\ outs (edvsToken s y x t1 t2)
       = SerialWrite cmdTSReset
         :: handOverOuts c (negb (pending s)) (fst (request (exchangePuts s)))
         ++ [ExchangePutForce (tsResetContainer 0)]
    /\ ends (edvsToken s y x t1 t2) = Continue
    /\ consistent (state (edvsToken s y x t1 t2))
    /\ currentPolarityPacketPosition (state (edvsToken s y x t1 t2)) = 0
    /\ currentSpecialPacketPosition (state (edvsToken s y x t1 t2)) = 0
    /\ current (timestamps (state (edvsToken s y x t1 t2))) = 0.
Proof.
  intros C Rs A I.
  destruct (prepare_allocates s) as (P & _ & _ & _ & PC).
  specialize (PC A). pose proof (prepare_ready s PC) as R.
  pose proof (prepare_consistent s C) as C0.
  set (s0 := state (prepare s)) in *.
  destruct P as (_ & P2 & _ & P4 & _ & _ & P7 & P8 & P9 & P10 & P11 & _ & _ & _ & P15).
  specialize (P15 A).
  rewrite (edvsToken_process s _ _ _ _ PC). fold s0. cbn [state outs ends].
  assert (D : decode s0 y x t1 t2 =
    (initContainerCommitTimestamp
       (set_commitTimestamp (-1)
          (set_timestamps
             {| wrapOverflow := 0; wrapAdd := 0; lastShort := 0; last := 0;
                current := 0 |} (set_dvsTSReset false s0))),
     [SerialWrite cmdTSReset], true, false)).
  { apply decode_reset. congruence. }
  set (s1 := initContainerCommitTimestamp _) in D.
  destruct (process_spec _ _ _ _ _ _ _ _ _ D) as (PS & PO & PE).
  rewrite PS, PO, PE.
  destruct (decode_consistent _ _ _ _ _ _ _ _ _ D R C0) as (R1 & C1 & A1 & X1).
  assert (T1 : timestamps s1
               = {| wrapOverflow := 0; wrapAdd := 0; lastShort := 0; last := 0;
                    current := 0 |}).
  { unfold s1. destruct (initContainerCommitTimestamp_keepsClock
      (set_commitTimestamp (-1)
          (set_timestamps
             {| wrapOverflow := 0; wrapAdd := 0; lastShort := 0; last := 0;
                current := 0 |} (set_dvsTSReset false s0)))) as (K & _).
    rewrite K. reflexivity. }
  assert (I1 : maxPacketContainerInterval s1 = maxPacketContainerInterval s).
  { unfold s1. destruct (initContainerCommitTimestamp_keepsClock
      (set_commitTimestamp (-1)
          (set_timestamps
             {| wrapOverflow := 0; wrapAdd := 0; lastShort := 0; last := 0;
                current := 0 |} (set_dvsTSReset false s0)))) as (_ & _ & _ & _ & K).
    rewrite K. simpl. exact P4. }
  assert (D1 : currentPacketContainerCommitTimestamp s1
               = I32T (maxPacketContainerInterval s) - 1).
  { unfold s1, initContainerCommitTimestamp. simpl. rewrite P4.
    pose proof (I32T_range (maxPacketContainerInterval s)) as IR.
    rewrite I32T_small by lia. reflexivity. }
  assert (Pk : currentPolarityPacket s1 = currentPolarityPacket s0
               /\ currentPolarityPacketPosition s1 = currentPolarityPacketPosition s0
               /\ currentSpecialPacket s1 = currentSpecialPacket s0
               /\ currentSpecialPacketPosition s1 = currentSpecialPacketPosition s0).
  { unfold s1.
    destruct (initContainerCommitTimestamp_packets
      (set_commitTimestamp (-1)
          (set_timestamps
             {| wrapOverflow := 0; wrapAdd := 0; lastShort := 0; last := 0;
                current := 0 |} (set_dvsTSReset false s0))))
      as (_ & J2 & J3 & J4 & J5 & _).
    rewrite J2, J3, J4, J5. repeat split. }
  destruct Pk as (K1 & K2 & K3 & K4).
  assert (Due : commitDue s1 true false = true) by reflexivity.
  assert (Re : rearmed s1 = Some (I32T (maxPacketContainerInterval s) - 1)).
  { unfold rearmed, containerTimeCommit, fullTimestamp. rewrite T1, D1. simpl.
    change (generateFullTimestamp 0 0) with 0.
    destruct (Z.gtb_spec 0 (I32T (maxPacketContainerInterval s) - 1)); [lia | reflexivity]. }
  destruct (commit_due_outs s1 true false _ C1 R1 Due Re)
    as (O & E & Cf & Q1 & Q2 & _).
  destruct (commit_keepsClock s1 true false) as (KT & _).
  exists (committed s1).
  destruct (committed_events s1 C1) as (V1 & V2 & V3).
  assert (Pe : pending s1 = pending s).
  { unfold pending. rewrite K2, K4, P7, P8. reflexivity. }
  match type of O with
  | context [commitReset ?a] =>
      destruct (commitReset_succeeds a) as (RO & RE);
      [ destruct (handOver_state (set_commitTimestamp
                    (I32T (maxPacketContainerInterval s) - 1) (movePackets s1))
                    (negb (pending s1))) as (_ & _ & _ & _ & _ & HA);
        rewrite HA; simpl;
        destruct (movePackets_committed s1 (consistent_container s1 C1 R1))
          as (_ & _ & _ & _ & _ & MA & _);
        rewrite MA, A1; exact P15
      | idtac ];
      assert (TS : timestamps a = timestamps s1)
  end.
  { destruct (handOver_keepsClock (set_commitTimestamp
                (I32T (maxPacketContainerInterval s) - 1) (movePackets s1))
                (negb (pending s1))) as (U & _).
    rewrite U. simpl. apply movePackets_keepsClock. }
  rewrite TS, T1 in RO. simpl in RO.
  rewrite O, E, RO, RE, X1, P9, Pe, V1, V2, K1, K3, P10, P11, KT, T1.
  repeat split; auto; apply Cf.
Qed.

(** A token classified as a big wrap that is decoded: the epoch grows by
    one, the other timestamps are zeroed, the sentinel is appended to the
    special packet and the packets are committed on that token. *)
Lemma big_wrap_token s y x t1 t2 :
  consistent s -> dvsTSReset s = false -> bigWrapOf s t1 t2 = true ->
  ends (prepare s) = Continue ->
  0 <= wrapOverflow (timestamps s) < INT32_MAX ->
  0 < I32T (maxPacketContainerInterval s) ->
  INT64_MIN <= currentPacketContainerCommitTimestamp s ->
  exists c,
    timestamps (state (edvsToken s y x t1 t2))
    = {| wrapOverflow := wrapOverflow (timestamps s) + 1; wrapAdd := 0;
         lastShort := 0; last := 0; current := 0 |}
    /\ slotEvents (specialSlot c)
       = slotEvents (currentSpecialPacket s)
         ++ [{| spcTimestamp := INT32_MAX; spcType := TIMESTAMP_WRAP |}]
    /\ slotEvents (polaritySlot c) = slotEvents (currentPolarityPacket s)
    /\ outs (edvsToken s y x t1 t2)
       = handOverOuts c false (fst (request (exchangePuts s)))
    /\ ends (edvsToken s y x t1 t2) = Continue
    /\ currentPolarityPacketPosition (state (edvsToken s y x t1 t2)) = 0
    /\ currentSpecialPacketPosition (state (edvsToken s y x t1 t2)) = 0.
Proof.
  intros C Rs W PC O I Dl.
  destruct (prepare_allocates s) as (P & _).
  pose proof (prepare_ready s PC) as R.
  pose proof (prepare_consistent s C) as C0.
  set (s0 := state (prepare s)) in *.
  destruct P as (_ & P2 & _ & P4 & P5 & P6 & P7 & P8 & P9 & P10 & P11 & _).
  rewrite (edvsToken_process s _ _ _ _ PC). fold s0. cbn [state outs ends].
  assert (W0 : bigWrapOf s0 t1 t2 = true).
  { unfold bigWrapOf, tsWrapOf in *. rewrite P5. exact W. }
  pose proof (decode_big_wrap s0 y x t1 t2 ltac:(congruence) W0) as D.
  set (s1 := set_special _ _ _) in D.
  destruct (process_spec _ _ _ _ _ _ _ _ _ D) as (PS & PO & PE).
  rewrite PS, PO, PE. cbn [app].
  destruct (decode_consistent _ _ _ _ _ _ _ _ _ D R C0) as (R1 & C1 & A1 & X1).
  assert (T1 : timestamps s1
               = {| wrapOverflow := wrapOverflow (timestamps s) + 1; wrapAdd := 0;
                    lastShort := 0; last := 0; current := 0 |}).
  { unfold s1. simpl. rewrite P5. unfold INT32_MAX in O.
    rewrite I32T_small by lia. reflexivity. }
  assert (Pe : pending s1 = true).
  { unfold pending, s1. simpl. destruct C0 as (_ & _ & C3).
    apply orb_true_iff. right. apply Z.gtb_lt. lia. }
  assert (Due : commitDue s1 false true = true) by reflexivity.
  destruct (rearmed_total s1) as (k & _ & Re & _).
  { unfold s1. simpl. rewrite P4. exact I. }
  { rewrite T1. unfold clockInRange, INT32_MAX in *. simpl. lia. }
  { unfold s1. simpl. rewrite P6. exact Dl. }
  destruct (commit_due_outs s1 false true _ C1 R1 Due Re)
    as (Oc & E & _ & Q1 & Q2 & _).
  destruct (commit_keepsClock s1 false true) as (KT & _).
  destruct (committed_events s1 C1) as (V1 & V2 & _).
  exists (committed s1).
  rewrite KT, T1, V1, V2, Oc, E, Pe, X1, P9, app_nil_r.
  repeat split; auto.
  unfold s1. simpl. rewrite slotEvents_write by apply R. rewrite P11. reflexivity.
Qed.

(** *** The sentinels of timestamp discontinuities *)

Lemma decode_sentinels s y x t1 t2 s' o r w :
  decode s y x t1 t2 = (s', o, r, w) -> ready s -> sentinels s -> sentinels s'.
Proof.
  unfold decode, decodePolarity, ready, sentinels. intros D (_ & _ & R3) S.
  destruct (dvsTSReset s).
  - injection D as <- _ _ _.
    match goal with
    | |- context [initContainerCommitTimestamp ?a] =>
        destruct (initContainerCommitTimestamp_packets a) as (_ & _ & _ & I4 & _)
    end.
    rewrite I4. exact S.
  - destruct ((shortTSOf t1 t2 <? lastShort (timestamps s))
              && (wrapAdd (timestamps s) =? INT32_MAX - (TS_WRAP_ADD - 1))).
    + injection D as <- _ _ _. simpl. rewrite slotEvents_write by assumption.
      apply Forall_app. split; [exact S |].
      constructor; [| constructor]. split; [reflexivity | left; reflexivity].
    + match type of D with
      | context [initContainerCommitTimestamp ?a] =>
          destruct (initContainerCommitTimestamp_packets a) as (_ & _ & _ & I4 & _);
          set (s1 := initContainerCommitTimestamp a) in *
      end.
      simpl in I4.
      destruct ((U8T (Z.land x LOW_BITS_MASK) <? EDVS_ARRAY_SIZE_X)
                && (U8T (Z.land y LOW_BITS_MASK) <? EDVS_ARRAY_SIZE_Y));
        injection D as <- _ _ _; simpl; rewrite I4; exact S.
Qed.

Lemma commit_sentinels s r w :
  consistent s -> ready s -> sentinels s ->
  Forall specialsStamped (handed (outs (commit s r w)))
  /\ sentinels (state (commit s r w)).
Proof.
  intros C R S. destruct (commitDue s r w) eqn:E.
  - destruct (rearmed s) as [d |] eqn:D.
    + destruct (commit_due_outs s r w d C R E D) as (O & _ & Cf & _ & Q2 & _).
      rewrite O. split.
      * rewrite handed_app. apply Forall_app. split.
        -- destruct (committed_events s C) as (_ & V2 & _).
           assert (St : specialsStamped (committed s)).
           { unfold specialsStamped. rewrite V2. exact S. }
           unfold handOverOuts. destruct (negb (pending s)); simpl; [constructor |].
           destruct (fst (request (exchangePuts s))); simpl; repeat constructor; exact St.
        -- destruct r; [| constructor].
           match goal with
           | |- context [commitReset ?a] =>
               destruct (commitReset_outs a) as [[O' _] | [O' _]]
           end; rewrite O'; simpl; [| constructor].
           constructor; [| constructor]. constructor; [| constructor].
           split; [reflexivity | right; reflexivity].
      * unfold sentinels. destruct Cf as (_ & _ & C3). rewrite Q2 in C3.
        destruct (slotEvents (currentSpecialPacket (state (commit s r w))));
          [constructor | simpl in C3; lia].
    + rewrite (commit_hangs s r w E D). simpl. split; [constructor |].
      unfold sentinels.
      destruct (movePackets_committed s (consistent_container s C R))
        as (_ & _ & _ & _ & M5 & _).
      rewrite M5. destruct (currentSpecialPacketPosition s >? 0); [constructor | exact S].
  - rewrite (commit_not_due s r w E). split; [constructor | exact S].
Qed.

Lemma edvsToken_sentinels s y x t1 t2 :
  consistent s -> sentinels s ->
  Forall specialsStamped (handed (outs (edvsToken s y x t1 t2)))
  /\ sentinels (state (edvsToken s y x t1 t2)).
Proof.
  intros C S. destruct (prepare_allocates s) as (P & N & O & Rt & _).
  assert (S0 : sentinels (state (prepare s))).
  { unfold sentinels. destruct P as (_ & _ & _ & _ & _ & _ & _ & _ & _ & _ & P11 & _).
    rewrite P11. exact S. }
  destruct (ends (prepare s)) eqn:E.
  - rewrite (edvsToken_process s _ _ _ _ E). simpl.
    destruct (decode (state (prepare s)) y x t1 t2) as [[[s' o] r] w] eqn:D.
    destruct (process_spec _ _ _ _ _ _ _ _ _ D) as (PS & PO & _). rewrite PS, PO.
    rewrite handed_app, (decode_outs _ _ _ _ _ _ _ _ _ D). simpl.
    pose proof (prepare_ready s E) as R.
    destruct (decode_consistent _ _ _ _ _ _ _ _ _ D R (prepare_consistent s C))
      as (R' & C' & _).
    apply commit_sentinels; try assumption.
    eapply decode_sentinels; eassumption.
  - unfold edvsToken, andThen. rewrite E.
    destruct (Rt eq_refl) as (m & ->). split; [constructor | exact S0].
  - congruence.
Qed.

Lemma decodeLoop_sentinels n : forall buffer s,
  (List.length buffer <= n)%nat -> consistent s -> sentinels s ->
  Forall specialsStamped (handed (outs (decodeLoop buffer s))).
Proof.
  induction n as [| n IH]; intros buffer s L C S.
  - destruct buffer; [constructor | simpl in L; lia].
  - destruct buffer as [| y rest]; [constructor |].
    simpl in L. cbn [decodeLoop].
    destruct (negb (Z.land y HIGH_BIT_MASK =? HIGH_BIT_MASK)).
    + rewrite outs_andThen. simpl. apply IH; [lia | exact C | exact S].
    + destruct rest as [| x [| t1 [| t2 rest']]]; try constructor.
      rewrite outs_andThen.
      destruct (edvsToken_sentinels s y x t1 t2 C S) as (F & S').
      destruct (ends (edvsToken s y x t1 t2)) eqn:E; try exact F.
      rewrite handed_app. apply Forall_app. split; [exact F |].
      apply IH; [simpl in L; lia | | exact S'].
      apply edvsToken_consistent; [exact C | congruence].
Qed.

(** *** Addresses out of range, failed allocations, partial tokens *)

(** An address out of range: no event is written, the state is left as
    it is, and one alert is logged for each coordinate out of range. *)
Lemma decodePolarity_out_of_range s y x :
  outOfRange y x ->
  fst (decodePolarity s y x) = s
  /\ snd (decodePolarity s y x) <> []
  /\ forallb (isLog CAER_LOG_ALERT) (snd (decodePolarity s y x)) = true.
Proof.
  unfold outOfRange, decodePolarity. intros O.
  destruct (Z.ltb_spec (U8T (Z.land x LOW_BITS_MASK)) EDVS_ARRAY_SIZE_X) as [X | X];
    destruct (Z.ltb_spec (U8T (Z.land y LOW_BITS_MASK)) EDVS_ARRAY_SIZE_Y) as [Y | Y];
    simpl; try lia;
    destruct (Z.geb_spec (U8T (Z.land x LOW_BITS_MASK)) EDVS_ARRAY_SIZE_X);
    destruct (Z.geb_spec (U8T (Z.land y LOW_BITS_MASK)) EDVS_ARRAY_SIZE_Y);
    simpl; try lia; repeat split; discriminate.
Qed.

Lemma decodePolarity_in_range s y x :
  ~ outOfRange y x ->
  decodePolarity s y x
  = (set_polarity
       (write (currentPolarityPacket s)
          {| polTimestamp := current (timestamps s);
             polPolarity := negb (Z.land x HIGH_BIT_MASK =? 0);
             polY := U8T (Z.land y LOW_BITS_MASK);
             polX := U8T (Z.land x LOW_BITS_MASK) |})
       (currentPolarityPacketPosition s + 1) s, []).
Proof.
  unfold outOfRange, decodePolarity. intros O.
  destruct (Z.ltb_spec (U8T (Z.land x LOW_BITS_MASK)) EDVS_ARRAY_SIZE_X) as [X | X];
    destruct (Z.ltb_spec (U8T (Z.land y LOW_BITS_MASK)) EDVS_ARRAY_SIZE_Y) as [Y | Y];
    simpl; try reflexivity; exfalso; apply O; lia.
Qed.

(** A token with an address out of range that is neither a reset nor a
    big wrap: the timestamps advance, no polarity event is written, an
    alert is logged and the step goes on to the commit. *)
Lemma decode_out_of_range s y x t1 t2 :
  dvsTSReset s = false -> bigWrapOf s t1 t2 = false -> outOfRange y x ->
  exists s' o,
    decode s y x t1 t2 = (s', o, false, false)
    /\ currentPolarityPacket s' = currentPolarityPacket s
    /\ currentPolarityPacketPosition s' = currentPolarityPacketPosition s
    /\ currentSpecialPacket s' = currentSpecialPacket s
    /\ currentSpecialPacketPosition s' = currentSpecialPacketPosition s
    /\ existsb (isLog CAER_LOG_ALERT) o = true.
Proof.
  unfold bigWrapOf, tsWrapOf, decode. intros R W O. rewrite R, W.
  match goal with
  | |- context [decodePolarity ?a y x] =>
      destruct (decodePolarity_out_of_range a y x O) as (F & N & A);
      destruct (decodePolarity a y x) as [s' o2]
  end.
  simpl in F, N, A. subst s'.
  eexists. eexists. split; [reflexivity |].
  match goal with
  | |- context [initContainerCommitTimestamp ?a] =>
      destruct (initContainerCommitTimestamp_packets a) as (_ & I2 & I3 & I4 & I5 & _)
  end.
  rewrite I2, I3, I4, I5. simpl. repeat split.
  rewrite existsb_app. apply orb_true_iff. right.
  destruct o2 as [| l o2]; [congruence |]. simpl in *.
  apply andb_true_iff in A. destruct A as [-> _]. reflexivity.
Qed.

(** A step whose allocations fail ends the translator: the token and
    the rest of the chunk are not decoded. *)
Lemma decodeLoop_allocation_failure s y x t1 t2 rest :
  Z.land y HIGH_BIT_MASK = HIGH_BIT_MASK ->
  ends (prepare s) = Returned ->
  exists m,
    decodeLoop (y :: x :: t1 :: t2 :: rest) s
    = returnWith (state (prepare s)) [Log CAER_LOG_CRITICAL m]
    /\ sameButPackets s (state (prepare s)).
Proof.
  intros Hy E. destruct (prepare_allocates s) as (P & _ & _ & Rt & _).
  destruct (Rt E) as (m & O). exists m. split; [| exact P].
  cbn [decodeLoop]. rewrite Hy, Z.eqb_refl. cbn [negb].
  unfold edvsToken, andThen. rewrite E. rewrite E.
  destruct (prepare s) as [s' o e]. simpl in *. subst. reflexivity.
Qed.

(** The loop on a token followed by more bytes. *)
Lemma decodeLoop_token s y x t1 t2 rest :
  Z.land y HIGH_BIT_MASK = HIGH_BIT_MASK ->
  decodeLoop (y :: x :: t1 :: t2 :: rest) s
  = andThen (edvsToken s y x t1 t2) (decodeLoop rest).
Proof. intros Hy. cbn [decodeLoop]. rewrite Hy, Z.eqb_refl. reflexivity. Qed.

(** The loop on a partial token: it returns at once, silently. *)
Lemma decodeLoop_partial s t :
  partialToken t -> decodeLoop t s = returnWith s [].
Proof.
  intros (y & rest & -> & Hy & L). cbn [decodeLoop]. rewrite Hy, Z.eqb_refl.
  cbn [negb]. destruct rest as [| x [| t1 [| t2 rest]]]; try reflexivity.
  simpl in L. lia.
Qed.

(** A chunk that ends in a partial token is decoded as the chunk
    without it. *)
Lemma decodeLoop_trailing_partial tokens : forall s t,
  Forall token tokens -> partialToken t ->
  state (decodeLoop (List.concat tokens ++ t) s) = state (decodeLoop (List.concat tokens) s)
  /\ outs (decodeLoop (List.concat tokens ++ t) s) = outs (decodeLoop (List.concat tokens) s).
Proof.
  induction tokens as [| tk tokens IH]; intros s t F Pt.
  - simpl. rewrite (decodeLoop_partial s t Pt). split; reflexivity.
  - inversion F as [| ? ? (y & x & t1 & t2 & -> & Hy) F']; subst.
    cbn [List.concat app]. rewrite !decodeLoop_token by assumption.
    rewrite !state_andThen, !outs_andThen.
    destruct (ends (edvsToken s y x t1 t2)); try (split; reflexivity).
    destruct (IH (state (edvsToken s y x t1 t2)) t F' Pt) as (-> & ->).
    split; reflexivity.
Qed.

(** *** The translator on a whole buffer *)

Lemma decodeLoop_consistent n : forall buffer s,
  (List.length buffer <= n)%nat -> consistent s ->
  ends (decodeLoop buffer s) <> Diverges ->
  consistent (state (decodeLoop buffer s)).
Proof.
  induction n as [| n IH]; intros buffer s L C.
  - destruct buffer; [intros _; exact C | simpl in L; lia].
  - destruct buffer as [| y rest]; [intros _; exact C |].
    simpl in L. cbn [decodeLoop].
    destruct (negb (Z.land y HIGH_BIT_MASK =? HIGH_BIT_MASK)).
    + rewrite ends_andThen, state_andThen. cbn [ends state].
      apply IH; [lia | exact C].
    + destruct rest as [| x [| t1 [| t2 rest']]]; try (intros _; exact C).
      rewrite ends_andThen, state_andThen.
      destruct (ends (edvsToken s y x t1 t2)) eqn:E.
      * apply IH; [simpl in L; lia |].
        apply edvsToken_consistent; [exact C | congruence].
      * intros _. apply edvsToken_consistent; [exact C | congruence].
      * intros N. congruence.
Qed.

(** The translator keeps the packets consistent, from one buffer to
    the next. *)
Lemma translator_consistent s buffer :
  consistent s -> ends (edvsEventTranslator s buffer) <> Diverges ->
  consistent (state (edvsEventTranslator s buffer)).
Proof.
  intros C. unfold edvsEventTranslator.
  destruct (serialThreadRun s); cbn [negb].
  - apply (decodeLoop_consistent _ buffer s (le_n _) C).
  - intros _. exact C.
Qed.

Lemma translator_handed_nonEmpty s buffer :
  consistent s ->
  Forall (fun c => nonEmpty c = true)
    (handed (outs (edvsEventTranslator s buffer))).
Proof.
  intros C. unfold edvsEventTranslator.
  destruct (serialThreadRun s); cbn [negb].
  - apply (decodeLoop_handed_nonEmpty _ buffer s (le_n _) C).
  - constructor.
Qed.

Lemma committed_nothing s : pending s = false -> committed s = emptyContainer.
Proof.
  unfold pending, committed. intros P. apply orb_false_iff in P.
  destruct P as (-> & ->). reflexivity.
Qed.

(** A commit that is due while nothing is pending, and that no
    timestamp reset forces: the container is freed and nothing is handed
    to the exchange. *)
Lemma commit_nothing_pending s w :
  consistent s -> ready s -> commitDue s false w = true -> pending s = false ->
  0 < I32T (maxPacketContainerInterval s) -> clockInRange (timestamps s) ->
  INT64_MIN <= currentPacketContainerCommitTimestamp s ->
  outs (commit s false w) = [ContainerFree emptyContainer]
  /\ ends (commit s false w) = Continue.
Proof.
  intros C R Due P I Cl Dl.
  destruct (rearmed_total s I Cl Dl) as (k & _ & Rk & _).
  destruct (commit_due_outs s false w _ C R Due Rk) as (O & E & _).
  rewrite O, E, P, (committed_nothing s P). split; reflexivity.
Qed.

(** *** A packet that cannot grow *)


(** *** A buffer that ends in a partial token *)

(** The translator decodes the complete tokens and drops the partial
    one: the state and what was logged and handed over are those of the
    buffer without it. *)
Lemma translator_trailing_partial s tokens t :
  Forall token tokens -> partialToken t ->
  state (edvsEventTranslator s (List.concat tokens ++ t))
  = state (edvsEventTranslator s (List.concat tokens))
  /\ outs (edvsEventTranslator s (List.concat tokens ++ t))
     = outs (edvsEventTranslator s (List.concat tokens)).
Proof.
  intros Ft Pt. unfold edvsEventTranslator.
  destruct (serialThreadRun s); cbn [negb].
  - apply decodeLoop_trailing_partial; assumption.
  - split; reflexivity.
Qed.

(** *** The sentinels of a whole buffer *)

Lemma decodeLoop_keeps_sentinels n : forall buffer s,
  (List.length buffer <= n)%nat -> consistent s -> sentinels s ->
  ends (decodeLoop buffer s) <> Diverges ->
  sentinels (state (decodeLoop buffer s)).
Proof.
  induction n as [| n IH]; intros buffer s L C S.
  - destruct buffer; [intros _; exact S | simpl in L; lia].
  - destruct buffer as [| y rest]; [intros _; exact S |].
    simpl in L. cbn [decodeLoop].
    destruct (negb (Z.land y HIGH_BIT_MASK =? HIGH_BIT_MASK)).
    + rewrite ends_andThen, state_andThen. cbn [ends state].
      apply IH; [lia | exact C | exact S].
    + destruct rest as [| x [| t1 [| t2 rest']]]; try (intros _; exact S).
      rewrite ends_andThen, state_andThen.
      destruct (edvsToken_sentinels s y x t1 t2 C S) as (_ & S').
      destruct (ends (edvsToken s y x t1 t2)) eqn:E.
      * apply IH; [simpl in L; lia | | exact S'].
        apply edvsToken_consistent; [exact C | congruence].
      * intros _. exact S'.
      * intros N. congruence.
Qed.

(** Every special event of a container that the translator hands over,
    and every one it keeps in progress, is a sentinel stamped with
    [INT32_MAX]. *)
Lemma translator_sentinels s buffer :
  consistent s -> sentinels s ->
  Forall specialsStamped (handed (outs (edvsEventTranslator s buffer)))
  /\ (ends (edvsEventTranslator s buffer) <> Diverges ->
      sentinels (state (edvsEventTranslator s buffer))).
Proof.
  intros C S. unfold edvsEventTranslator.
  destruct (serialThreadRun s); cbn [negb].
  - split.
    + apply (decodeLoop_sentinels _ buffer s (le_n _) C S).
    + apply (decodeLoop_keeps_sentinels _ buffer s (le_n _) C S).
  - split; [constructor | intros _; exact S].
Qed.

End WithHeader.

End EdvsFacts.

(** ** The DV-Explorer decoder *)

Module DvFacts.
Import DvExplorer IntFacts RearmFacts OutFacts.

Section WithHeaders.
Context `{dv_explorer_h} `{timestamps_h}.

Ltac conjuncts := repeat match goal with |- _ /\ _ => split end.

(** *** The allocations at the head of a step *)

Lemma dv_state_andThen r k :
  state (andThen r k)
  = match ends r with Continue => state (k (state r)) | _ => state r end.
Proof. unfold andThen. destruct (ends r); reflexivity. Qed.

Lemma dv_outs_andThen r k :
  outs (andThen r k)
  = match ends r with Continue => outs r ++ outs (k (state r)) | _ => outs r end.
Proof. unfold andThen. destruct (ends r); reflexivity. Qed.

Lemma dv_ends_andThen r k :
  ends (andThen r k)
  = match ends r with Continue => ends (k (state r)) | e => e end.
Proof. unfold andThen. destruct (ends r) eqn:E; simpl; congruence. Qed.

Lemma dv_sameButPackets_refl s : sameButPackets s s.
Proof. unfold sameButPackets. repeat split; auto. Qed.

Lemma dv_sameButPackets_trans s1 s2 s3 :
  sameButPackets s1 s2 -> sameButPackets s2 s3 -> sameButPackets s1 s3.
Proof.
  unfold sameButPackets.
  intros (A1 & A2 & A3 & A4 & A5 & A6 & A7 & A8 & A9 & A10 & A11 & A12 & A13
          & A14 & A15 & A16 & A17 & A18 & A19)
         (B1 & B2 & B3 & B4 & B5 & B6 & B7 & B8 & B9 & B10 & B11 & B12 & B13
          & B14 & B15 & B16 & B17 & B18 & B19).
  repeat split; try congruence; auto.
  destruct A15 as [E | [E1 E2]], B15 as [F | [F1 F2]].
  - left. congruence.
  - right. split; congruence.
  - right. split; congruence.
  - congruence.
Qed.

Lemma dv_allocateContainer_allocates : allocates allocateContainer.
Proof.
  intros s. unfold allocateContainer, containerGenerationAllocate,
    caerEventPacketContainerAllocate, request, sameButPackets, continue, returnWith.
  destruct s as [run ts [c d ms mi] k dv im al ex]; simpl.
  destruct c; simpl.
  - repeat split; auto; try discriminate.
  - destruct al as [| [] al]; simpl; repeat split; auto; try discriminate; eauto.
Qed.

Lemma dv_allocateSpecial_allocates : allocates allocateSpecial.
Proof.
  intros s. unfold allocateSpecial, caerEventPacketAllocate, request,
    sameButPackets, continue, returnWith.
  destruct s as [run ts g [p pp sp spp im6 ip] dv im al ex]; simpl.
  destruct sp; simpl.
  - repeat split; auto; try discriminate.
  - destruct al as [| [] al]; simpl; repeat split; auto; try discriminate; eauto.
Qed.

Lemma dv_allocatePolarity_allocates : allocates allocatePolarity.
Proof.
  intros s. unfold allocatePolarity, caerEventPacketAllocate, request,
    sameButPackets, continue, returnWith.
  destruct s as [run ts g [p pp sp spp im6 ip] dv im al ex]; simpl.
  destruct p; simpl.
  - repeat split; auto; try discriminate.
  - destruct al as [| [] al]; simpl; repeat split; auto; try discriminate; eauto.
Qed.

Lemma allocateIMU6_allocates : allocates allocateIMU6.
Proof.
  intros s. unfold allocateIMU6, caerEventPacketAllocate, request,
    sameButPackets, continue, returnWith.
  destruct s as [run ts g [p pp sp spp im6 ip] dv im al ex]; simpl.
  destruct im6; simpl.
  - repeat split; auto; try discriminate.
  - destruct al as [| [] al]; simpl; repeat split; auto; try discriminate; eauto.
Qed.

Lemma dv_andThen_allocates f g :
  allocates f -> allocates g -> allocates (fun s => andThen (f s) g).
Proof.
  intros Hf Hg s. destruct (Hf s) as (F1 & F2 & F3 & F4 & F5).
  destruct (Hg (state (f s))) as (G1 & G2 & G3 & G4 & G5).
  unfold andThen. destruct (ends (f s)) eqn:E; simpl.
  - rewrite F3 by reflexivity. simpl.
    split; [eapply dv_sameButPackets_trans; eassumption |].
    split; [assumption |]. split; [assumption |]. split; [assumption |].
    intros Ha. apply G5. apply F1. assumption.
  - rewrite E.
    split; [assumption |]. split; [discriminate |]. split; [discriminate |].
    split; [auto |].
    intros Ha. apply F5 in Ha. discriminate.
  - congruence.
Qed.

Lemma dv_prepare_allocates : allocates prepare.
Proof.
  unfold prepare.
  apply (dv_andThen_allocates allocateContainer
           (fun s => andThen (allocateSpecial s)
                       (fun s => andThen (allocatePolarity s) allocateIMU6))).
  - apply dv_allocateContainer_allocates.
  - apply (dv_andThen_allocates allocateSpecial
             (fun s => andThen (allocatePolarity s) allocateIMU6)).
    + apply dv_allocateSpecial_allocates.
    + apply dv_andThen_allocates.
      * apply dv_allocatePolarity_allocates.
      * apply allocateIMU6_allocates.
Qed.

Lemma dv_allocateContainer_ready s :
  ends (allocateContainer s) = Continue ->
  currentPacketContainer (container (state (allocateContainer s))) <> None.
Proof.
  unfold allocateContainer, containerGenerationAllocate,
    caerEventPacketContainerAllocate, request.
  destruct (currentPacketContainer (container s)) eqn:E; simpl.
  - intros _. congruence.
  - destruct (allocations s) as [| [] al]; simpl; congruence.
Qed.

Lemma dv_allocateSpecial_ready s :
  ends (allocateSpecial s) = Continue ->
  special (currentPackets (state (allocateSpecial s))) <> None.
Proof.
  unfold allocateSpecial, caerEventPacketAllocate, request.
  destruct (special (currentPackets s)) eqn:E; simpl.
  - intros _. congruence.
  - destruct (allocations s) as [| [] al]; simpl; congruence.
Qed.

Lemma dv_allocatePolarity_ready s :
  ends (allocatePolarity s) = Continue ->
  polarity (currentPackets (state (allocatePolarity s))) <> None.
Proof.
  unfold allocatePolarity, caerEventPacketAllocate, request.
  destruct (polarity (currentPackets s)) eqn:E; simpl.
  - intros _. congruence.
  - destruct (allocations s) as [| [] al]; simpl; congruence.
Qed.

Lemma allocateIMU6_ready s :
  ends (allocateIMU6 s) = Continue ->
  imu6 (currentPackets (state (allocateIMU6 s))) <> None.
Proof.
  unfold allocateIMU6, caerEventPacketAllocate, request.
  destruct (imu6 (currentPackets s)) eqn:E; simpl.
  - intros _. congruence.
  - destruct (allocations s) as [| [] al]; simpl; congruence.
Qed.

Lemma dv_prepare_ready s :
  ends (prepare s) = Continue -> ready (state (prepare s)).
Proof.
  unfold prepare, andThen, ready.
  destruct (ends (allocateContainer s)) eqn:E1; simpl; try (rewrite E1; discriminate).
  set (s1 := state (allocateContainer s)).
  destruct (ends (allocateSpecial s1)) eqn:E2; simpl; try (rewrite E2; discriminate).
  set (s2 := state (allocateSpecial s1)).
  destruct (ends (allocatePolarity s2)) eqn:E3; simpl; try (rewrite E3; discriminate).
  set (s3 := state (allocatePolarity s2)).
  intros E4.
  pose proof (dv_allocateContainer_ready s E1) as R1. fold s1 in R1.
  pose proof (dv_allocateSpecial_ready s1 E2) as R2. fold s2 in R2.
  pose proof (dv_allocatePolarity_ready s2 E3) as R3. fold s3 in R3.
  pose proof (allocateIMU6_ready s3 E4) as R4.
  destruct (dv_allocateSpecial_allocates s1) as (P & _). fold s2 in P.
  destruct (dv_allocatePolarity_allocates s2) as (Q & _). fold s3 in Q.
  destruct (allocateIMU6_allocates s3) as (U & _).
  unfold sameButPackets in P, Q, U.
  destruct P as (_ & _ & _ & _ & _ & _ & _ & _ & _ & _ & _ & _ & _ & _ & P15 & _).
  destruct Q as (_ & _ & _ & _ & _ & _ & _ & _ & _ & _ & _ & _ & _ & _ & Q15 & _ & Q17 & _).
  destruct U as (_ & _ & _ & _ & _ & _ & _ & _ & _ & _ & _ & _ & _ & _ & U15 & U16 & U17 & _).
  repeat split; auto.
  destruct U15 as [-> | [_ ->]]; [| discriminate].
  destruct Q15 as [-> | [_ ->]]; [| discriminate].
  destruct P15 as [-> | [_ ->]]; [assumption | discriminate].
Qed.

Lemma dv_prepare_consistent s : consistent s -> consistent (state (prepare s)).
Proof.
  destruct (dv_prepare_allocates s) as (P & _). unfold sameButPackets in P.
  destruct P as (_ & _ & _ & _ & _ & _ & _ & _ & P9 & P10 & P11 & P12 & P13 & P14
                 & P15 & _).
  unfold consistent. intros (C1 & C2 & C3 & C4).
  rewrite P9, P10, P11, P12, P13, P14. repeat split; auto.
  destruct P15 as [-> | [_ ->]]; auto.
Qed.

Lemma dv_consistent_container s :
  consistent s -> ready s ->
  currentPacketContainer (container s) = Some emptyContainer.
Proof.
  unfold consistent, ready. intros ([C | C] & _) (R & _); congruence.
Qed.

Lemma dvExplorerToken_process s event :
  ends (prepare s) = Continue ->
  dvExplorerToken s event =
  {| state := state (process (state (prepare s)) event);
     outs := outs (process (state (prepare s)) event);
     ends := ends (process (state (prepare s)) event) |}.
Proof.
  intros E. unfold dvExplorerToken, andThen. rewrite E.
  destruct (dv_prepare_allocates s) as (_ & _ & O & _). rewrite (O E). reflexivity.
Qed.

(** *** Room for events *)

Lemma handed_logged l : handed (logged l) = [].
Proof. induction l as [| [lv msg] l IH]; simpl; auto. Qed.

Lemma dv_slotEvents_write {E} (p : option (packet E)) e :
  p <> None -> slotEvents (write p e) = slotEvents p ++ [e].
Proof. destruct p as [p |]; [reflexivity | congruence]. Qed.

Lemma write_allocated {E} (p : option (packet E)) e :
  p <> None -> write p e <> None.
Proof. destruct p; [discriminate | congruence]. Qed.

Lemma slotEvents_copied {E} (p : option (packet E)) e :
  p <> None -> slotEvents (copied p e) = slotEvents p ++ [e].
Proof. destruct p as [p |]; [reflexivity | congruence]. Qed.

Lemma copied_allocated {E} (p : option (packet E)) e :
  p <> None -> copied p e <> None.
Proof. destruct p; [discriminate | congruence]. Qed.

(** The validation of the private sample keeps the packet and its
    events; it logs one critical message when the sample is marked
    already, and nothing otherwise. *)
Lemma caerIMU6EventValidate_spec v p :
  p <> None ->
  exists p',
    caerIMU6EventValidate v p = (true, p', if v then alreadyValid else [])
    /\ p' <> None /\ slotEvents p' = slotEvents p.
Proof.
  destruct p as [p |]; [| congruence]. intros _.
  unfold caerIMU6EventValidate. destruct v.
  - exists (Some p). repeat split; auto; discriminate.
  - eexists. split; [reflexivity |]. split; [discriminate | reflexivity].
Qed.

(** [ensureSpaceForEvents] keeps the packet and its events; it logs
    one critical message when it fails, and nothing otherwise. *)
Lemma ensureSpaceForEvents_spec {E} (p : option (packet E)) position n env :
  p <> None ->
  exists p' (ok : bool) env',
    ensureSpaceForEvents p position n env
    = (p', ok, (if ok then @nil out else growFailure), env')
    /\ p' <> None /\ slotEvents p' = slotEvents p
    /\ (ok = false -> p' = p)
    /\ (env = [] -> ok = true /\ env' = []).
Proof.
  destruct p as [p |]; [| congruence]. intros _.
  unfold ensureSpaceForEvents, caerEventPacketGrow, request.
  destruct (position + n <=? eventCapacity p).
  - exists (Some p), true, env. repeat split; auto; discriminate.
  - destruct env as [| [] env]; simpl.
    + eexists. exists true, []. repeat split; auto; discriminate.
    + eexists. exists true, env. repeat split; auto; discriminate.
    + exists (Some p), false, env. repeat split; auto; discriminate.
Qed.

(** A special event put into the special packet: it is appended when
    there is room, and dropped with a critical log otherwise. *)
Lemma putSpecial_spec s t ty :
  special (currentPackets s) <> None ->
  exists k' env',
    fst (putSpecial s t ty) = set_currentPackets k' (set_allocations env' s)
    /\ polarity k' = polarity (currentPackets s)
    /\ polarityPosition k' = polarityPosition (currentPackets s)
    /\ imu6 k' = imu6 (currentPackets s)
    /\ imu6Position k' = imu6Position (currentPackets s)
    /\ special k' <> None
    /\ (allocations s = [] -> env' = [])
    /\ ((slotEvents (special k')
         = slotEvents (special (currentPackets s))
           ++ [{| spcTimestamp := t; spcType := ty |}]
         /\ specialPosition k' = specialPosition (currentPackets s) + 1
         /\ snd (putSpecial s t ty) = [])
        \/ (special k' = special (currentPackets s)
            /\ specialPosition k' = specialPosition (currentPackets s)
            /\ snd (putSpecial s t ty) = growFailure
            /\ allocations s <> [])).
Proof.
  intros Sp. unfold putSpecial.
  destruct (ensureSpaceForEvents_spec (special (currentPackets s))
              (specialPosition (currentPackets s)) 1 (allocations s) Sp)
    as (p' & ok & env' & E & N & Ev & F & A).
  rewrite E. destruct ok; simpl.
  - eexists. exists env'. split; [reflexivity |]. simpl.
    repeat split; auto.
    + apply write_allocated. exact N.
    + apply A.
    + left. rewrite dv_slotEvents_write by exact N. rewrite Ev. auto.
  - eexists. exists env'. split; [reflexivity |]. simpl.
    repeat split; auto.
    + apply A.
    + right. rewrite (F eq_refl). repeat split; auto.
      intros A0. destruct (A A0). discriminate.
Qed.

(** *** The effect of the handlers *)

Lemma extended_refl {E} (p : option (packet E)) position :
  extended p p position position [].
Proof.
  intros N. rewrite app_nil_r. simpl. repeat split; auto; lia.
Qed.

(** A handler that leaves the packets, the exchange and the container
    alone. *)
Lemma effect_frame s s' o :
  dataTransfersRun s' = dataTransfersRun s ->
  exchangePuts s' = exchangePuts s ->
  allocations s' = allocations s ->
  currentPackets s' = currentPackets s ->
  currentPacketContainer (container s') = currentPacketContainer (container s) ->
  maxPacketContainerPacketSize (container s')
  = maxPacketContainerPacketSize (container s) ->
  maxPacketContainerInterval (container s')
  = maxPacketContainerInterval (container s) ->
  handed o = [] ->
  effect s s' o [] [] [].
Proof.
  intros E1 E2 E3 E4 E5 E6 E7 E8. unfold effect. rewrite E4.
  conjuncts; auto; try (intros; congruence); apply extended_refl.
Qed.

Lemma effect_ready s s' o pa sa ia :
  effect s s' o pa sa ia -> ready s -> ready s' /\ (consistent s -> consistent s').
Proof.
  unfold effect, ready, consistent, extended.
  intros (_ & _ & E3 & _ & _ & _ & _ & Xp & Xs & Xi) (R1 & R2 & R3 & R4).
  destruct (Xp R2) as (P1 & P2 & P3).
  destruct (Xs R3) as (S1 & S2 & S3).
  destruct (Xi R4) as (I1 & I2 & I3).
  split; [repeat split; auto; congruence |].
  intros (C1 & C2 & C3 & C4).
  rewrite E3, P2, P3, S2, S3, I2, I3, !length_app. repeat split; auto; lia.
Qed.

Lemma putSpecial_effect s t ty :
  special (currentPackets s) <> None ->
  exists sa,
    effect s (fst (putSpecial s t ty)) (snd (putSpecial s t ty)) [] sa []
    /\ imu (fst (putSpecial s t ty)) = imu s
    /\ dvs (fst (putSpecial s t ty)) = dvs s
    /\ timestamps (fst (putSpecial s t ty)) = timestamps s
    /\ currentPacketContainerCommitTimestamp (container (fst (putSpecial s t ty)))
       = currentPacketContainerCommitTimestamp (container s)
    /\ ((sa = [{| spcTimestamp := t; spcType := ty |}]
         /\ snd (putSpecial s t ty) = [])
        \/ (sa = [] /\ snd (putSpecial s t ty) = growFailure
            /\ allocations s <> [])).
Proof.
  intros Sp.
  destruct (putSpecial_spec s t ty Sp)
    as (k' & env' & E & K1 & K2 & K3 & K4 & K5 & A & [(V1 & V2 & V3) | (V1 & V2 & V3 & V4)]).
  - exists [{| spcTimestamp := t; spcType := ty |}].
    rewrite E, V3. simpl. unfold effect. simpl.
    rewrite K1, K2, K3, K4.
    conjuncts; auto; try apply extended_refl.
    + intros _. rewrite V1, V2. simpl. auto.
  - exists []. rewrite E, V3. simpl. unfold effect. simpl.
    rewrite K1, K2, K3, K4, V1, V2.
    conjuncts; auto; try apply extended_refl.
Qed.

Lemma pixelGroup_extended n : forall i mask data pol d t p position,
  exists pa,
    extended p (fst (pixelGroup n i mask data pol d t p position)) position
      (snd (pixelGroup n i mask data pol d t p position)) pa
    /\ Forall (fun e => polTimestamp e = t) pa.
Proof.
  induction n as [| n IH]; intros i mask data pol d t p position.
  - exists []. simpl. split; [apply extended_refl | constructor].
  - cbn [pixelGroup]. destruct (Z.land data mask =? 0).
    + apply IH.
    + match goal with
      | |- context [write p ?e] => set (ev := e)
      end.
      destruct (IH (i + 1) (Z.shiftr mask 1) data pol d t (write p ev) (position + 1))
        as (pa & X & F).
      exists (ev :: pa). split.
      * intros N. destruct (X (write_allocated p ev N)) as (X1 & X2 & X3).
        rewrite X2, X3, dv_slotEvents_write by exact N.
        rewrite <- app_assoc. simpl. repeat split; auto. lia.
      * constructor; [| exact F]. unfold ev. destruct (invertXY d); reflexivity.
Qed.

Lemma polarityGroup_effect s code data :
  exists pa,
    effect s (fst (polarityGroup s code data)) (snd (polarityGroup s code data))
      pa [] []
    /\ imu (fst (polarityGroup s code data)) = imu s
    /\ dvs (fst (polarityGroup s code data)) = dvs s
    /\ timestamps (fst (polarityGroup s code data)) = timestamps s
    /\ currentPacketContainerCommitTimestamp
         (container (fst (polarityGroup s code data)))
       = currentPacketContainerCommitTimestamp (container s)
    /\ (snd (polarityGroup s code data) = []
        \/ (pa = [] /\ snd (polarityGroup s code data) = growFailure
            /\ allocations s <> [])).
Proof.
  unfold polarityGroup.
  destruct (polarity (currentPackets s)) as [p |] eqn:Ep.
  - destruct (ensureSpaceForEvents_spec (polarity (currentPackets s))
                (polarityPosition (currentPackets s)) 8 (allocations s))
      as (p' & ok & env' & E & N & Ev & F & A); [congruence |].
    rewrite Ep in E. rewrite E. destruct ok.
    + match goal with
      | |- context [pixelGroup ?n ?i ?m ?dt ?pl ?d ?t p' ?pos] =>
          destruct (pixelGroup_extended n i m dt pl d t p' pos) as (pa & X & _);
          destruct (pixelGroup n i m dt pl d t p' pos) as [p2 pos2]
      end.
      exists pa. simpl in *. unfold effect. simpl.
      conjuncts; auto; try apply extended_refl.
      * apply A.
      * intros _. destruct (X N) as (X1 & X2 & X3). rewrite X2, Ev.
        repeat split; auto.
    + exists []. simpl. unfold effect. simpl. rewrite (F eq_refl), Ep.
      conjuncts; auto; try apply extended_refl.
      * apply A.
      * right. repeat split; auto. intros A0. destruct (A A0). discriminate.
  - exists []. simpl. unfold effect. simpl.
    conjuncts; auto; try apply extended_refl.
    intros N. congruence.
Qed.

(** *** The dispatch of a word *)

Ltac by_positive p :=
  repeat (first [reflexivity | congruence
                | match goal with q : positive |- _ => destruct q end]).

Lemma decode_timestamp s event :
  isTimestamp event = true ->
  decode s event =
  (let (ts, o) := handleTimestampUpdateNewLogic (timestamps s) event in
   let s := set_timestamps ts s in
   (set_container
      (containerGenerationCommitTimestampInit (container s)
         (current (timestamps s))) s, logged o, false, false)).
Proof. unfold isTimestamp, decode. intros ->. reflexivity. Qed.

Lemma decode_special s event :
  isTimestamp event = false -> codeOf event = 0 ->
  decode s event =
  (let '(s, o, tsReset) := specialToken s (dataOf event) in (s, o, tsReset, false)).
Proof.
  unfold isTimestamp, decode. intros -> C.
  change (U8T (Z.shiftr (Z.land event 28672) 12)) with (codeOf event).
  rewrite C. reflexivity.
Qed.

Lemma decode_column s event :
  isTimestamp event = false -> codeOf event = 1 ->
  decode s event =
  (fst (columnAddress s (dataOf event)), snd (columnAddress s (dataOf event)),
   false, false).
Proof.
  unfold isTimestamp, decode. intros -> C.
  change (U8T (Z.shiftr (Z.land event 28672) 12)) with (codeOf event).
  rewrite C. reflexivity.
Qed.

Lemma decode_polarity s event :
  isTimestamp event = false -> codeOf event = 2 \/ codeOf event = 3 ->
  decode s event =
  (fst (polarityGroup s (codeOf event) (dataOf event)),
   snd (polarityGroup s (codeOf event) (dataOf event)), false, false).
Proof.
  unfold isTimestamp, decode. intros -> C.
  change (U8T (Z.shiftr (Z.land event 28672) 12)) with (codeOf event).
  destruct C as [C | C]; rewrite C; reflexivity.
Qed.

Lemma decode_group s event :
  isTimestamp event = false -> codeOf event = 4 ->
  decode s event =
  (fst (groupAddress s (dataOf event)), snd (groupAddress s (dataOf event)),
   false, false).
Proof.
  unfold isTimestamp, decode. intros -> C.
  change (U8T (Z.shiftr (Z.land event 28672) 12)) with (codeOf event).
  rewrite C. reflexivity.
Qed.

Lemma decode_misc8 s event :
  isTimestamp event = false -> codeOf event = 5 ->
  decode s event =
  (fst (misc8Token s (dataOf event)), snd (misc8Token s (dataOf event)),
   false, false).
Proof.
  unfold isTimestamp, decode. intros -> C.
  change (U8T (Z.shiftr (Z.land event 28672) 12)) with (codeOf event).
  rewrite C. reflexivity.
Qed.

Lemma decode_wrap s event :
  isTimestamp event = false -> codeOf event = 7 ->
  decode s event =
  (let '(s, o, tsBigWrap) := timestampWrap s (dataOf event) in
   (s, o, false, tsBigWrap)).
Proof.
  unfold isTimestamp, decode. intros -> C.
  change (U8T (Z.shiftr (Z.land event 28672) 12)) with (codeOf event).
  rewrite C. reflexivity.
Qed.

Lemma decode_other s event :
  isTimestamp event = false ->
  codeOf event <> 0 -> codeOf event <> 1 -> codeOf event <> 2 ->
  codeOf event <> 3 -> codeOf event <> 4 -> codeOf event <> 5 ->
  codeOf event <> 7 ->
  decode s event
  = (s, [Log CAER_LOG_ERROR "Caught event that can't be handled."], false, false).
Proof.
  unfold isTimestamp, decode. intros ->.
  change (U8T (Z.shiftr (Z.land event 28672) 12)) with (codeOf event).
  generalize (codeOf event). intros c C0 C1 C2 C3 C4 C5 C7.
  cbn [negb]. destruct c as [| p | p]; [congruence | | reflexivity].
  by_positive p.
Qed.

(** The special events by their data. *)
Lemma specialToken_external s data :
  data = 2 \/ data = 3 \/ data = 4 \/ data = 16 \/ data = 17 ->
  exists ty msg,
    ty <> TIMESTAMP_WRAP /\ ty <> TIMESTAMP_RESET
    /\ specialToken s data
       = (fst (putSpecial s (current (timestamps s)) ty),
          Log CAER_LOG_DEBUG msg :: snd (putSpecial s (current (timestamps s)) ty),
          false).
Proof.
  intros [-> | [-> | [-> | [-> | ->]]]]; eexists; eexists;
    (split; [| split; [| reflexivity]]); discriminate.
Qed.

Lemma specialToken_other s data :
  data <> 1 -> data <> 2 -> data <> 3 -> data <> 4 -> data <> 5 -> data <> 7 ->
  data <> 16 -> data <> 17 ->
  exists msg, specialToken s data = (s, [Log CAER_LOG_ERROR msg], false).
Proof.
  intros D1 D2 D3 D4 D5 D7 D16 D17. unfold specialToken.
  destruct data as [| p | p]; [eexists; reflexivity | | eexists; reflexivity].
  repeat (first [ congruence | (eexists; reflexivity)
                | match goal with q : positive |- _ => destruct q end]).
Qed.

Lemma misc8Token_cases s data :
  misc8Token s data = imuData s (U8T (Z.land data 0x00FF))
  \/ misc8Token s data = imuScaleConfig s data
  \/ misc8Token s data
     = (s, [Log CAER_LOG_ERROR "Caught Misc8 event that can't be handled."]).
Proof.
  unfold misc8Token. generalize (U8T (Z.shiftr (Z.land data 3840) 8)). intros c.
  destruct c as [| p | p]; auto.
  destruct p as [[p | p |] | p |]; auto.
Qed.

(** *** The IMU handlers and the address handlers *)

Lemma imuField_spec m d :
  ignoreEvents (fst (imuField m d)) = ignoreEvents m
  /\ handed (snd (imuField m d)) = [].
Proof.
  unfold imuField. destruct (count m) as [| p | p]; [split; reflexivity | | split; reflexivity].
  repeat (first [ (split; reflexivity)
                | match goal with
                  | |- context [if ?c then _ else _] => destruct c
                  end
                | match goal with q : positive |- _ => destruct q end]).
Qed.

(** A handler that only changes the IMU state. *)
Lemma effect_set_imu s m o : handed o = [] -> effect s (set_imu m s) o [] [] [].
Proof. intros Ho. apply effect_frame; auto. Qed.

Lemma effect_same s o : handed o = [] -> effect s s o [] [] [].
Proof. intros Ho. apply effect_frame; auto. Qed.

Lemma imuData_effect s d :
  effect s (fst (imuData s d)) (snd (imuData s d)) [] [] []
  /\ (ignoreEvents (imu s) = true -> imuData s d = (s, []))
  /\ dvs (fst (imuData s d)) = dvs s
  /\ timestamps (fst (imuData s d)) = timestamps s
  /\ container (fst (imuData s d)) = container s
  /\ ignoreEvents (imu (fst (imuData s d))) = ignoreEvents (imu s).
Proof.
  unfold imuData. destruct (ignoreEvents (imu s)) eqn:I.
  - simpl. rewrite I. split; [apply effect_same; reflexivity |]. repeat split; auto.
  - destruct (imuField_spec (imu s) d) as (F1 & F2).
    destruct (imuField (imu s) d) as [m o]. simpl in *.
    split; [apply effect_set_imu; exact F2 |].
    repeat split; auto; congruence.
Qed.

Lemma imuScaleConfig_effect s d :
  effect s (fst (imuScaleConfig s d)) (snd (imuScaleConfig s d)) [] [] []
  /\ (ignoreEvents (imu s) = true -> imuScaleConfig s d = (s, []))
  /\ dvs (fst (imuScaleConfig s d)) = dvs s
  /\ timestamps (fst (imuScaleConfig s d)) = timestamps s
  /\ container (fst (imuScaleConfig s d)) = container s
  /\ ignoreEvents (imu (fst (imuScaleConfig s d))) = ignoreEvents (imu s).
Proof.
  unfold imuScaleConfig. destruct (ignoreEvents (imu s)) eqn:I.
  - simpl. rewrite I. split; [apply effect_same; reflexivity |]. repeat split; auto.
  - repeat match goal with
           | |- context [if ?c then _ else _] => destruct c
           end; simpl; (split; [apply effect_set_imu; reflexivity |]);
      repeat split; auto; discriminate.
Qed.

Lemma imuStart_effect s :
  effect s (fst (imuStart s)) (snd (imuStart s)) [] [] []
  /\ dvs (fst (imuStart s)) = dvs s
  /\ timestamps (fst (imuStart s)) = timestamps s
  /\ container (fst (imuStart s)) = container s
  /\ ignoreEvents (imu (fst (imuStart s))) = false.
Proof.
  unfold imuStart. simpl. split; [apply effect_set_imu; reflexivity |].
  repeat split.
Qed.

(** The END marker: ignored while events are ignored; with the expected
    count, the private sample is stamped and copied when there is room
    for it; with another count, it is discarded and the count logged. *)
Lemma imuEnd_effect s :
  imu6 (currentPackets s) <> None ->
  exists ia,
    effect s (fst (imuEnd s)) (snd (imuEnd s)) [] [] ia
    /\ dvs (fst (imuEnd s)) = dvs s
    /\ timestamps (fst (imuEnd s)) = timestamps s
    /\ container (fst (imuEnd s)) = container s
    /\ ignoreEvents (imu (fst (imuEnd s))) = ignoreEvents (imu s)
    /\ ((ignoreEvents (imu s) = true /\ imuEnd s = (s, []) /\ ia = [])
        \/ (ignoreEvents (imu s) = false /\ count (imu s) <> IMU_TOTAL_COUNT
            /\ ia = []
            /\ imuEnd s
               = (s, [Log CAER_LOG_DEBUG "IMU End event received.";
                      Log CAER_LOG_INFO
                        "IMU End: failed to validate IMU sample count (%PRIu8), discarding samples."]))
        \/ (ignoreEvents (imu s) = false /\ count (imu s) = IMU_TOTAL_COUNT
            /\ ((ia = [setTimestamp (current (timestamps s)) (currentEvent (imu s))]
                 /\ snd (imuEnd s)
                    = Log CAER_LOG_DEBUG "IMU End event received." :: validation s)
                \/ (ia = []
                    /\ snd (imuEnd s)
                       = Log CAER_LOG_DEBUG "IMU End event received."
                         :: validation s ++ growFailure
                    /\ allocations s <> [])))).
Proof.
  intros N. unfold imuEnd. destruct (ignoreEvents (imu s)) eqn:I.
  - exists []. simpl. rewrite I. split; [apply effect_same; reflexivity |].
    repeat split; auto.
  - destruct (Z.eqb_spec (count (imu s)) IMU_TOTAL_COUNT) as [C | C].
    + destruct (caerIMU6EventValidate_spec (currentEventValid (imu s))
                  (imu6 (currentPackets s)) N) as (q & Eq & Nq & Evq).
      rewrite Eq. fold (validation s).
      assert (Hv : handed (validation s) = [])
        by (unfold validation; destruct (currentEventValid (imu s)); reflexivity).
      cbn [set_imu imu currentPackets allocations].
      destruct (ensureSpaceForEvents_spec q
                  (imu6Position (currentPackets s)) 1 (allocations s) Nq)
        as (p' & ok & env' & E & N' & Ev & F & A).
      rewrite E. destruct ok.
      * eexists. cbn [fst snd]. split.
        -- unfold effect. simpl.
           conjuncts; auto; try apply extended_refl;
             try (rewrite ?handed_app, Hv; reflexivity).
           ++ apply A.
           ++ intros _. rewrite slotEvents_copied by exact N'. rewrite Ev, Evq.
              split; [apply copied_allocated; exact N' |]. split; reflexivity.
        -- simpl. repeat split; auto. right. right. repeat split; auto.
           left. split; [reflexivity |]. rewrite app_nil_r. reflexivity.
      * exists []. cbn [fst snd]. split.
        -- unfold effect. simpl.
           conjuncts; auto; try apply extended_refl;
             try (rewrite ?handed_app, Hv; reflexivity).
           ++ apply A.
           ++ intros _. rewrite (F eq_refl). rewrite Evq, app_nil_r.
              split; [exact Nq |]. split; [reflexivity | simpl; lia].
        -- simpl. repeat split; auto. right. right. repeat split; auto.
           right. repeat split; auto. intros A0. destruct (A A0). discriminate.
    + exists []. simpl. split; [apply effect_same; reflexivity |].
      repeat split; auto. right. left. repeat split; auto.
Qed.

Lemma columnAddress_effect s d :
  effect s (fst (columnAddress s d)) (snd (columnAddress s d)) [] [] []
  /\ imu (fst (columnAddress s d)) = imu s
  /\ timestamps (fst (columnAddress s d)) = timestamps s
  /\ container (fst (columnAddress s d)) = container s.
Proof.
  unfold columnAddress.
  destruct (negb (Z.land d 2048 =? 0)); destruct (Z.land d 1023 >=? sizeY (dvs s));
    simpl; (split; [apply effect_frame; auto |]); repeat split.
Qed.

Lemma groupAddress_effect s d :
  effect s (fst (groupAddress s d)) (snd (groupAddress s d)) [] [] []
  /\ imu (fst (groupAddress s d)) = imu s
  /\ timestamps (fst (groupAddress s d)) = timestamps s
  /\ container (fst (groupAddress s d)) = container s.
Proof.
  unfold groupAddress. destruct (Z.land d 4032 =? 0);
    simpl; (split; [apply effect_frame; auto |]); repeat split.
Qed.

Lemma commitTimestampInit_frame g t :
  currentPacketContainer (containerGenerationCommitTimestampInit g t)
  = currentPacketContainer g
  /\ maxPacketContainerPacketSize (containerGenerationCommitTimestampInit g t)
     = maxPacketContainerPacketSize g
  /\ maxPacketContainerInterval (containerGenerationCommitTimestampInit g t)
     = maxPacketContainerInterval g.
Proof.
  unfold containerGenerationCommitTimestampInit.
  destruct (currentPacketContainerCommitTimestamp g =? -1); repeat split.
Qed.

(** *** What the decoding of a word does *)

Lemma isSpecial_true d event :
  isSpecial d event = true
  <-> isTimestamp event = false /\ codeOf event = 0 /\ dataOf event = d.
Proof.
  unfold isSpecial. rewrite !andb_true_iff, negb_true_iff, !Z.eqb_eq. tauto.
Qed.

Lemma isSpecial_false d event :
  isTimestamp event = true \/ codeOf event <> 0 \/ dataOf event <> d ->
  isSpecial d event = false.
Proof.
  intros Hc. destruct (isSpecial d event) eqn:E; [| reflexivity].
  apply isSpecial_true in E. destruct E as (E1 & E2 & E3).
  destruct Hc as [Hc | [Hc | Hc]]; congruence.
Qed.

Lemma effect_logged s s' l msg o pa sa ia :
  effect s s' o pa sa ia -> effect s s' (Log l msg :: o) pa sa ia.
Proof.
  unfold effect. intros (E1 & E2 & E3 & E4 & E5 & E6 & E7 & E8 & E9 & E10).
  conjuncts; auto.
Qed.

(** A word that adds no IMU sample and is no IMU start. *)
Lemma decoded_no_imu6 s event s' o pa sa :
  effect s s' o pa sa [] -> Forall stamped sa ->
  ignoreEvents (imu s') = ignoreEvents (imu s) ->
  (ignoreEvents (imu s) = true -> imu s' = imu s) ->
  isIMUStart event = false -> isTimestampReset event = false ->
  decoded s event s' o false false.
Proof.
  intros E F I1 I2 St Rs. exists pa, sa, [].
  split; [exact E |]. split; [exact F |]. split; [left; reflexivity |].
  split; [intros _; exact I1 |]. split; [congruence |].
  split; [intros Ig _; split; [apply I2; exact Ig | reflexivity] |].
  split; [discriminate |]. split; [congruence | discriminate].
Qed.

Lemma decoded_reset s event s' o :
  effect s s' o [] [] [] -> imu s' = imu s -> isTimestampReset event = true ->
  decoded s event s' o true false.
Proof.
  intros E I R. exists [], [], [].
  assert (St : isIMUStart event = false).
  { apply isSpecial_true in R. apply isSpecial_false. right. right.
    destruct R as (_ & _ & ->). discriminate. }
  split; [exact E |]. split; [constructor |]. split; [left; reflexivity |].
  split; [intros _; congruence |]. split; [congruence |].
  split; [intros _ _; split; [exact I | reflexivity] |].
  split; [discriminate |]. split; [congruence | reflexivity].
Qed.

Lemma decoded_start s event s' o :
  effect s s' o [] [] [] -> ignoreEvents (imu s') = false ->
  isIMUStart event = true ->
  decoded s event s' o false false.
Proof.
  intros E I St. exists [], [], [].
  assert (Rs : isTimestampReset event = false).
  { apply isSpecial_true in St. apply isSpecial_false. right. right.
    destruct St as (_ & _ & ->). discriminate. }
  split; [exact E |]. split; [constructor |]. split; [left; reflexivity |].
  split; [congruence |]. split; [intros _; exact I |].
  split; [congruence |]. split; [discriminate |].
  split; [congruence | discriminate].
Qed.

Lemma decoded_end s event s' o ia :
  effect s s' o [] [] ia -> isIMUEnd event = true ->
  ignoreEvents (imu s') = ignoreEvents (imu s) ->
  (ignoreEvents (imu s) = true -> imu s' = imu s /\ ia = []) ->
  (ia = []
   \/ (ignoreEvents (imu s) = false /\ count (imu s) = IMU_TOTAL_COUNT
       /\ ia = [setTimestamp (current (timestamps s)) (currentEvent (imu s))])) ->
  decoded s event s' o false false.
Proof.
  intros E En I Ig Ia. exists [], [], ia.
  assert (St : isIMUStart event = false).
  { apply isSpecial_true in En. apply isSpecial_false. right. right.
    destruct En as (_ & _ & ->). discriminate. }
  split; [exact E |]. split; [constructor |].
  split; [destruct Ia as [-> | (A & B & C)]; [left; reflexivity | right; auto] |].
  split; [intros _; exact I |]. split; [congruence |].
  split; [intros G _; apply Ig; exact G |].
  split; [discriminate |]. split; [| discriminate].
  symmetry. apply isSpecial_true in En. apply isSpecial_false. right. right.
  destruct En as (_ & _ & ->). discriminate.
Qed.

Lemma decoded_big_wrap s event s' o sa :
  effect s s' o [] sa [] -> imu s' = imu s ->
  isTimestamp event = false -> codeOf event = 7 ->
  sa = [wrapSentinel] \/ (sa = [] /\ allocations s <> []) ->
  decoded s event s' o false true.
Proof.
  intros E I T C Sa. exists [], sa, [].
  assert (St : isIMUStart event = false).
  { apply isSpecial_false. right. left. rewrite C. discriminate. }
  split; [exact E |].
  split; [destruct Sa as [-> | (-> & _)]; repeat constructor; simpl; congruence |].
  split; [left; reflexivity |].
  split; [intros _; congruence |]. split; [congruence |].
  split; [intros _ _; split; [exact I | reflexivity] |].
  split; [intros _; split; [reflexivity | exact Sa] |].
  split; [| discriminate].
  symmetry. apply isSpecial_false. right. left. rewrite C. discriminate.
Qed.

Lemma decode_decoded_timestamp s event s' o r w :
  isTimestamp event = true -> decode s event = (s', o, r, w) ->
  decoded s event s' o r w.
Proof.
  intros T D. rewrite (decode_timestamp s event T) in D.
  destruct (handleTimestampUpdateNewLogic (timestamps s) event) as [ts l].
  injection D as <- <- <- <-.
  destruct (commitTimestampInit_frame (container (set_timestamps ts s))
              (current (timestamps (set_timestamps ts s)))) as (F1 & F2 & F3).
  apply (decoded_no_imu6 _ _ _ _ [] []); auto.
  - apply effect_frame; auto. apply handed_logged.
  - apply isSpecial_false. auto.
  - apply isSpecial_false. auto.
Qed.

Lemma decode_decoded_special s event s' o r w :
  isTimestamp event = false -> codeOf event = 0 -> ready s ->
  decode s event = (s', o, r, w) ->
  decoded s event s' o r w.
Proof.
  intros T C (_ & _ & Rs & Ri) D. rewrite (decode_special s event T C) in D.
  assert (St : forall d, dataOf event <> d -> isSpecial d event = false).
  { intros d Hd. apply isSpecial_false. auto. }
  destruct (Z.eq_dec (dataOf event) 1) as [E1 | E1].
  - (* timestamp reset *)
    rewrite E1 in D. cbn [specialToken] in D. unfold timestampReset in D.
    destruct (handleTimestampResetNewLogic (timestamps s)) as [ts l].
    injection D as <- <- <- <-.
    match goal with
    | |- context [containerGenerationCommitTimestampInit ?g ?t] =>
        destruct (commitTimestampInit_frame g t) as (F1 & F2 & F3)
    end.
    apply decoded_reset; auto.
    + apply effect_frame; auto.
      rewrite handed_app, handed_logged. reflexivity.
    + apply isSpecial_true. auto.
  - destruct (Z.eq_dec (dataOf event) 5) as [E5 | E5].
    + (* IMU start *)
      rewrite E5 in D. cbn [specialToken fst snd] in D.
      injection D as <- <- <- <-.
      destruct (imuStart_effect s) as (E & _ & _ & _ & I).
      apply decoded_start; auto. apply isSpecial_true. auto.
    + destruct (Z.eq_dec (dataOf event) 7) as [E7 | E7].
      * (* IMU end *)
        rewrite E7 in D. cbn [specialToken fst snd] in D.
        injection D as <- <- <- <-.
        destruct (imuEnd_effect s Ri) as (ia & E & _ & _ & _ & I & Cases).
        apply (decoded_end _ _ _ _ ia); auto.
        -- apply isSpecial_true. auto.
        -- intros Ig.
           destruct Cases as [(_ & -> & ->) | [(I0 & _) | (I0 & _)]];
             [auto | congruence | congruence].
        -- destruct Cases as [(_ & _ & ->) | [(_ & _ & -> & _) | (I0 & C0 & [(-> & _) | (-> & _)])]];
             auto.
      * destruct (Z.eq_dec (dataOf event) 2) as [E2 | E2];
          [| destruct (Z.eq_dec (dataOf event) 3) as [E3 | E3];
             [| destruct (Z.eq_dec (dataOf event) 4) as [E4 | E4];
                [| destruct (Z.eq_dec (dataOf event) 16) as [E16 | E16];
                   [| destruct (Z.eq_dec (dataOf event) 17) as [E17 | E17]]]]].
        6: {
          destruct (specialToken_other s (dataOf event)) as (msg & Eq); auto.
          rewrite Eq in D. injection D as <- <- <- <-.
          apply (decoded_no_imu6 _ _ _ _ [] []);
            [apply effect_same; reflexivity | constructor | reflexivity
            | reflexivity | apply St; exact E5 | apply St; exact E1]. }
        all: destruct (specialToken_external s (dataOf event)) as (ty & msg & W & R & Eq);
          [tauto |]; rewrite Eq in D; injection D as <- <- <- <-;
          destruct (putSpecial_effect s (current (timestamps s)) ty Rs)
            as (sa & E & I & _ & _ & _ & Cases);
          apply (decoded_no_imu6 _ _ _ _ [] sa);
          [ apply effect_logged; exact E
          | destruct Cases as [(-> & _) | (-> & _)]; constructor;
            [split; simpl; congruence | constructor]
          | congruence
          | intros _; exact I
          | apply St; exact E5
          | apply St; exact E1 ].
Qed.

Lemma decode_decoded_wrap s event s' o r w :
  isTimestamp event = false -> codeOf event = 7 -> ready s ->
  decode s event = (s', o, r, w) ->
  decoded s event s' o r w.
Proof.
  intros T C (_ & _ & Rs & _) D. rewrite (decode_wrap s event T C) in D.
  unfold timestampWrap in D.
  destruct (handleTimestampWrapNewLogic (timestamps s) (dataOf event) TS_WRAP_ADD)
    as [[ts l] big].
  assert (St : isIMUStart event = false).
  { apply isSpecial_false. right. left. rewrite C. discriminate. }
  destruct big.
  - destruct (putSpecial_effect (set_timestamps ts s) INT32_MAX TIMESTAMP_WRAP Rs)
      as (sa & E & I & _ & _ & _ & Cases).
    destruct (putSpecial (set_timestamps ts s) INT32_MAX TIMESTAMP_WRAP) as [s1 o1].
    injection D as <- <- <- <-. cbn [fst snd] in *.
    apply (decoded_big_wrap _ _ _ _ sa); auto.
    + unfold effect in *.
      destruct E as (E1 & E2 & E3 & E4 & E5 & E6 & E7 & E8 & E9 & E10).
      conjuncts; auto.
      rewrite handed_app, handed_logged, E6. reflexivity.
    + destruct Cases as [(-> & _) | (-> & _ & A)]; [left; reflexivity | right; auto].
  - injection D as <- <- <- <-.
    match goal with
    | |- context [containerGenerationCommitTimestampInit ?g ?t] =>
        destruct (commitTimestampInit_frame g t) as (F1 & F2 & F3)
    end.
    apply (decoded_no_imu6 _ _ _ _ [] []); auto.
    + apply effect_frame; auto. apply handed_logged.
    + apply isSpecial_false. right. left. rewrite C. discriminate.
Qed.

Lemma decode_decoded_misc8 s event s' o r w :
  isTimestamp event = false -> codeOf event = 5 ->
  decode s event = (s', o, r, w) ->
  decoded s event s' o r w.
Proof.
  intros T C D. rewrite (decode_misc8 s event T C) in D.
  assert (St : isIMUStart event = false).
  { apply isSpecial_false. right. left. rewrite C. discriminate. }
  assert (Rt : isTimestampReset event = false).
  { apply isSpecial_false. right. left. rewrite C. discriminate. }
  injection D as <- <- <- <-.
  destruct (misc8Token_cases s (dataOf event)) as [-> | [-> | ->]].
  - destruct (imuData_effect s (U8T (Z.land (dataOf event) 255)))
      as (E & Ig & _ & _ & _ & I).
    apply (decoded_no_imu6 _ _ _ _ [] []); auto.
    intros G. rewrite (Ig G). reflexivity.
  - destruct (imuScaleConfig_effect s (dataOf event)) as (E & Ig & _ & _ & _ & I).
    apply (decoded_no_imu6 _ _ _ _ [] []); auto.
    intros G. rewrite (Ig G). reflexivity.
  - apply (decoded_no_imu6 _ _ _ _ [] []); auto.
    apply effect_same. reflexivity.
Qed.

(** Whatever the word, the decoding has the effect of [decoded]. *)
Lemma decode_decoded s event s' o r w :
  ready s -> decode s event = (s', o, r, w) -> decoded s event s' o r w.
Proof.
  intros R D. destruct (isTimestamp event) eqn:T.
  - apply decode_decoded_timestamp; assumption.
  - destruct (Z.eq_dec (codeOf event) 0) as [C0 | C0];
      [apply decode_decoded_special; assumption |].
    assert (St : isIMUStart event = false).
    { apply isSpecial_false. auto. }
    assert (Rt : isTimestampReset event = false).
    { apply isSpecial_false. auto. }
    destruct (Z.eq_dec (codeOf event) 1) as [C1 | C1].
    { rewrite (decode_column s event T C1) in D. injection D as <- <- <- <-.
      destruct (columnAddress_effect s (dataOf event)) as (E & I & _).
      apply (decoded_no_imu6 _ _ _ _ [] []); auto; congruence. }
    destruct (Z.eq_dec (codeOf event) 2) as [C2 | C2].
    { rewrite (decode_polarity s event T (or_introl C2)) in D.
      injection D as <- <- <- <-.
      destruct (polarityGroup_effect s (codeOf event) (dataOf event))
        as (pa & E & I & _).
      apply (decoded_no_imu6 _ _ _ _ pa []); auto; congruence. }
    destruct (Z.eq_dec (codeOf event) 3) as [C3 | C3].
    { rewrite (decode_polarity s event T (or_intror C3)) in D.
      injection D as <- <- <- <-.
      destruct (polarityGroup_effect s (codeOf event) (dataOf event))
        as (pa & E & I & _).
      apply (decoded_no_imu6 _ _ _ _ pa []); auto; congruence. }
    destruct (Z.eq_dec (codeOf event) 4) as [C4 | C4].
    { rewrite (decode_group s event T C4) in D. injection D as <- <- <- <-.
      destruct (groupAddress_effect s (dataOf event)) as (E & I & _).
      apply (decoded_no_imu6 _ _ _ _ [] []); auto; congruence. }
    destruct (Z.eq_dec (codeOf event) 5) as [C5 | C5];
      [apply decode_decoded_misc8; assumption |].
    destruct (Z.eq_dec (codeOf event) 7) as [C7 | C7];
      [apply decode_decoded_wrap; assumption |].
    rewrite (decode_other s event T C0 C1 C2 C3 C4 C5 C7) in D.
    injection D as <- <- <- <-.
    apply (decoded_no_imu6 _ _ _ _ [] []); auto.
    apply effect_same. reflexivity.
Qed.

(** Decoding keeps the packets allocated and consistent, and hands
    nothing to the exchange. *)
Lemma dv_decode_consistent s event s' o r w :
  decode s event = (s', o, r, w) -> ready s -> consistent s ->
  ready s' /\ consistent s' /\ handed o = []
  /\ exchangePuts s' = exchangePuts s
  /\ (allocations s = [] -> allocations s' = []).
Proof.
  intros D R C. destruct (decode_decoded s event s' o r w R D)
    as (pa & sa & ia & E & _).
  destruct (effect_ready _ _ _ _ _ _ E R) as (R' & C').
  destruct E as (_ & E2 & _ & _ & _ & E6 & E7 & _).
  auto.
Qed.

(** *** The commit *)

Lemma dv_commit_not_due s r w :
  commitDue s r w = false -> commit s r w = continue s.
Proof.
  unfold commitDue, commit. intros E.
  rewrite <- !orb_assoc in *. rewrite E. reflexivity.
Qed.

Lemma dv_movePackets_committed s :
  currentPacketContainer (container s) = Some emptyContainer ->
  currentPacketContainer (container (movePackets s)) = Some (committed s)
  /\ currentPacketContainerCommitTimestamp (container (movePackets s))
     = currentPacketContainerCommitTimestamp (container s)
  /\ maxPacketContainerInterval (container (movePackets s))
     = maxPacketContainerInterval (container s)
  /\ maxPacketContainerPacketSize (container (movePackets s))
     = maxPacketContainerPacketSize (container s)
  /\ currentPackets (movePackets s)
     = (let k := currentPackets s in
        {| polarity := if polarityPosition k >? 0 then None else polarity k;
           polarityPosition := if polarityPosition k >? 0 then 0 else polarityPosition k;
           special := if specialPosition k >? 0 then None else special k;
           specialPosition := if specialPosition k >? 0 then 0 else specialPosition k;
           imu6 := if imu6Position k >? 0 then None else imu6 k;
           imu6Position := if imu6Position k >? 0 then 0 else imu6Position k |})
  /\ timestamps (movePackets s) = timestamps s
  /\ imu (movePackets s) = imu s
  /\ dvs (movePackets s) = dvs s
  /\ dataTransfersRun (movePackets s) = dataTransfersRun s
  /\ allocations (movePackets s) = allocations s
  /\ exchangePuts (movePackets s) = exchangePuts s.
Proof.
  unfold movePackets, committed, cgSetPolarity, cgSetSpecial, cgSetIMU6, cgContainer.
  destruct s as [run ts [c d ms mi] [p pp sp spp im6 ip] dv im al ex]. simpl.
  intros ->.
  destruct (pp >? 0); simpl; destruct (spp >? 0); simpl; destruct (ip >? 0); simpl;
    repeat split.
Qed.

Lemma executeReset_spec ovf allocs :
  (executeReset ovf allocs
   = ([ExchangePutForce (tsResetContainer INT32_MAX ovf)], snd (executeReset ovf allocs))
   \/ exists m,
        fst (executeReset ovf allocs) = [Log CAER_LOG_CRITICAL m] /\ allocs <> [])
  /\ (allocs = [] ->
      executeReset ovf allocs
      = ([ExchangePutForce (tsResetContainer INT32_MAX ovf)], [])).
Proof.
  unfold executeReset, request.
  destruct allocs as [| [] [| [] al]]; simpl; split; eauto; try discriminate;
    right; eexists; split; eauto; discriminate.
Qed.

(** A commit that is due and whose re-arming ends, from a consistent
    state with its packets allocated. *)
Lemma dv_commit_due_outs s r w d :
  consistent s -> ready s -> commitDue s r w = true -> rearmed s = Some d ->
  outs (commit s r w)
  = handOverOuts (committed s) (negb (pending s)) (fst (request (exchangePuts s)))
    ++ (if r
        then fst (executeReset (wrapOverflow (timestamps s)) (allocations s))
        else [])
  /\ ends (commit s r w) = Continue
  /\ consistent (state (commit s r w))
  /\ polarityPosition (currentPackets (state (commit s r w))) = 0
  /\ specialPosition (currentPackets (state (commit s r w))) = 0
  /\ imu6Position (currentPackets (state (commit s r w))) = 0
  /\ currentPacketContainerCommitTimestamp (container (state (commit s r w))) = d
  /\ imu (state (commit s r w))
     = (if r || w then set_ignoreEvents true (imu s) else imu s)
  /\ timestamps (state (commit s r w)) = timestamps s
  /\ dvs (state (commit s r w)) = dvs s
  /\ (allocations s = [] -> allocations (state (commit s r w)) = []).
Proof.
  intros C R E D.
  pose proof (dv_consistent_container s C R) as Hc.
  destruct (dv_movePackets_committed s Hc)
    as (M1 & M2 & M3 & M4 & M5 & M6 & M7 & M8 & M9 & M10 & M11).
  unfold commit. unfold commitDue in E. rewrite <- !orb_assoc in *. rewrite E.
  unfold rearmed, containerGenerationIsCommitTimestampElapsed in D.
  set (s1 := movePackets s) in *.
  set (s2 := if r || w then set_imu (set_ignoreEvents true (imu s1)) s1 else s1).
  assert (F : container s2 = container s1 /\ timestamps s2 = timestamps s1
              /\ allocations s2 = allocations s1 /\ exchangePuts s2 = exchangePuts s1
              /\ currentPackets s2 = currentPackets s1 /\ dvs s2 = dvs s1
              /\ imu s2 = (if r || w then set_ignoreEvents true (imu s) else imu s)).
  { unfold s2. rewrite <- M7. destruct (r || w); repeat split. }
  destruct F as (F1 & F2 & F3 & F4 & F5 & F6 & F7).
  clearbody s2.
  rewrite F1, F2, F3, F4, M6.
  unfold containerGenerationExecute. rewrite M2, M3, D.
  replace (cgContainer (container s1)) with (committed s)
    by (unfold cgContainer; rewrite M1; reflexivity).
  rewrite M10, M11.
  replace (negb (polarityPosition (currentPackets s) >? 0)
           && negb (specialPosition (currentPackets s) >? 0)
           && negb (imu6Position (currentPackets s) >? 0))
    with (negb (pending s))
    by (unfold pending; rewrite !negb_orb; reflexivity).
  destruct (request (exchangePuts s)) as [ok puts'] eqn:Rq. cbn [fst].
  assert (P0 : polarityPosition (currentPackets s1) = 0
               /\ specialPosition (currentPackets s1) = 0
               /\ imu6Position (currentPackets s1) = 0
               /\ slotEvents (polarity (currentPackets s1)) = []
               /\ slotEvents (special (currentPackets s1)) = []
               /\ slotEvents (imu6 (currentPackets s1)) = []).
  { rewrite M5. cbn [polarity polarityPosition special specialPosition imu6 imu6Position].
    destruct C as (_ & C2 & C3 & C4).
    destruct (Z.gtb_spec (polarityPosition (currentPackets s)) 0);
      destruct (Z.gtb_spec (specialPosition (currentPackets s)) 0);
      destruct (Z.gtb_spec (imu6Position (currentPackets s)) 0); simpl;
      repeat split; try lia;
      try (destruct (slotEvents (polarity (currentPackets s))); [reflexivity | simpl in *; lia]);
      try (destruct (slotEvents (special (currentPackets s))); [reflexivity | simpl in *; lia]);
      try (destruct (slotEvents (imu6 (currentPackets s))); [reflexivity | simpl in *; lia]). }
  destruct P0 as (Q1 & Q2 & Q3 & Q4 & Q5 & Q6).
  destruct r.
  - destruct (executeReset (wrapOverflow (timestamps s)) (allocations s))
      as [o2 al2] eqn:Er.
    cbn [state outs ends continueWith fst].
    unfold consistent. simpl. rewrite F5, F6, F7, F2, M6, M8, Q1, Q2, Q3, Q4, Q5, Q6.
    conjuncts; auto.
    intros A. destruct (executeReset_spec (wrapOverflow (timestamps s)) (allocations s))
      as (_ & X). rewrite (X A) in Er. congruence.
  - cbn [state outs ends continueWith fst].
    unfold consistent. simpl. rewrite F5, F6, F7, F2, M6, M8, Q1, Q2, Q3, Q4, Q5, Q6.
    rewrite app_nil_r. conjuncts; auto.
Qed.

Lemma dv_commit_hangs s r w :
  commitDue s r w = true -> rearmed s = None -> ready s -> consistent s ->
  ends (commit s r w) = Diverges /\ outs (commit s r w) = [].
Proof.
  intros E D R C.
  pose proof (dv_consistent_container s C R) as Hc.
  destruct (dv_movePackets_committed s Hc)
    as (M1 & M2 & M3 & M4 & M5 & M6 & M7 & M8 & M9 & M10 & M11).
  unfold commit. unfold commitDue in E. rewrite <- !orb_assoc in *. rewrite E.
  unfold rearmed, containerGenerationIsCommitTimestampElapsed in D.
  set (s1 := movePackets s) in *.
  set (s2 := if r || w then set_imu (set_ignoreEvents true (imu s1)) s1 else s1).
  assert (F : container s2 = container s1 /\ timestamps s2 = timestamps s1).
  { unfold s2. destruct (r || w); repeat split. }
  destruct F as (F1 & F2).
  rewrite F1, F2, M6.
  unfold containerGenerationExecute. rewrite M2, M3, D. split; reflexivity.
Qed.

(** *** A step on a word *)

Lemma dv_process_spec s event s' o r w :
  decode s event = (s', o, r, w) ->
  state (process s event) = state (commit s' r w)
  /\ outs (process s event) = o ++ outs (commit s' r w)
  /\ ends (process s event) = ends (commit s' r w).
Proof.
  intros D. unfold process. rewrite D.
  rewrite dv_state_andThen, dv_outs_andThen, dv_ends_andThen. simpl. auto.
Qed.

(** The three ways a step on a word ends: a failed allocation of a
    fresh packet or container returns; otherwise the word is decoded and
    either no commit is due, or the commit hands over what is pending
    and, after a reset, the reset container; or the re-arming of the
    commit never ends. *)
Lemma token_cases s event :
  consistent s ->
  (ends (dvExplorerToken s event) = Returned
   /\ ends (prepare s) = Returned
   /\ state (dvExplorerToken s event) = state (prepare s)
   /\ handed (outs (dvExplorerToken s event)) = [])
  \/ exists s1 o1 r w,
       ends (prepare s) = Continue
       /\ decode (state (prepare s)) event = (s1, o1, r, w)
       /\ decoded (state (prepare s)) event s1 o1 r w
       /\ ready s1 /\ consistent s1
       /\ ((commitDue s1 r w = false
            /\ state (dvExplorerToken s event) = s1
            /\ outs (dvExplorerToken s event) = o1
            /\ ends (dvExplorerToken s event) = Continue)
           \/ (commitDue s1 r w = true
               /\ ends (dvExplorerToken s event) = Diverges
               /\ outs (dvExplorerToken s event) = o1)
           \/ (commitDue s1 r w = true
               /\ ends (dvExplorerToken s event) = Continue
               /\ outs (dvExplorerToken s event)
                  = o1
                    ++ handOverOuts (committed s1) (negb (pending s1))
                         (fst (request (exchangePuts s1)))
                    ++ (if r
                        then fst (executeReset (wrapOverflow (timestamps s1))
                                    (allocations s1))
                        else [])
               /\ consistent (state (dvExplorerToken s event))
               /\ polarityPosition (currentPackets (state (dvExplorerToken s event))) = 0
               /\ specialPosition (currentPackets (state (dvExplorerToken s event))) = 0
               /\ imu6Position (currentPackets (state (dvExplorerToken s event))) = 0
               /\ imu (state (dvExplorerToken s event))
                  = (if r || w then set_ignoreEvents true (imu s1) else imu s1)
               /\ timestamps (state (dvExplorerToken s event)) = timestamps s1
               /\ dvs (state (dvExplorerToken s event)) = dvs s1
               /\ (allocations s1 = [] ->
                   allocations (state (dvExplorerToken s event)) = []))).
Proof.
  intros C. destruct (dv_prepare_allocates s) as (P & N & O & Rt & _).
  destruct (ends (prepare s)) eqn:E.
  - right. rewrite (dvExplorerToken_process s event E). cbn [state outs ends].
    destruct (decode (state (prepare s)) event) as [[[s1 o1] r] w] eqn:D.
    pose proof (dv_prepare_ready s E) as R.
    pose proof (dv_prepare_consistent s C) as C0.
    pose proof (decode_decoded _ _ _ _ _ _ R D) as Dd.
    destruct (dv_decode_consistent _ _ _ _ _ _ D R C0) as (R1 & C1 & _).
    destruct (dv_process_spec _ _ _ _ _ _ D) as (PS & PO & PE).
    rewrite PS, PO, PE.
    exists s1, o1, r, w. conjuncts; auto.
    destruct (commitDue s1 r w) eqn:Due.
    + destruct (rearmed s1) as [d |] eqn:Re.
      * right. right.
        destruct (dv_commit_due_outs s1 r w d C1 R1 Due Re)
          as (Q1 & Q2 & Q3 & Q4 & Q5 & Q6 & Q7 & Q8 & Q9 & Q10 & Q11).
        rewrite Q1. conjuncts; auto.
      * right. left. destruct (dv_commit_hangs s1 r w Due Re R1 C1) as (X1 & X2).
        rewrite X1, X2, app_nil_r. auto.
    + left. rewrite (dv_commit_not_due s1 r w Due). simpl. rewrite app_nil_r. auto.
  - left. unfold dvExplorerToken, andThen. rewrite E.
    destruct (Rt eq_refl) as (m & ->). auto.
  - congruence.
Qed.

(** *** What the steps hand over *)

Lemma handed_handOverOuts c e ok :
  handed (handOverOuts c e ok) = if e then [] else [c].
Proof. unfold handOverOuts. destruct e, ok; reflexivity. Qed.

Lemma handed_executeReset ovf allocs :
  handed (fst (executeReset ovf allocs)) = []
  \/ handed (fst (executeReset ovf allocs)) = [tsResetContainer INT32_MAX ovf].
Proof.
  unfold executeReset, request. destruct allocs as [| [] [| [] al]]; simpl; auto.
Qed.

(** Every container a step hands to the exchange is the container of a
    timestamp reset, or the commit of the events pending after the word
    was decoded. *)
Lemma token_handed s event c :
  consistent s -> In c (handed (outs (dvExplorerToken s event))) ->
  (exists ovf, c = tsResetContainer INT32_MAX ovf)
  \/ exists s1 o1 r w,
       ends (prepare s) = Continue
       /\ decode (state (prepare s)) event = (s1, o1, r, w)
       /\ decoded (state (prepare s)) event s1 o1 r w
       /\ consistent s1 /\ pending s1 = true /\ c = committed s1.
Proof.
  intros C I. destruct (token_cases s event C)
    as [(_ & _ & _ & Hh) | (s1 & o1 & r & w & E & D & Dd & R1 & C1 & Cases)].
  - rewrite Hh in I. destruct I.
  - assert (Ho : handed o1 = []).
    { destruct Dd as (pa & sa & ia & Ef & _). apply Ef. }
    destruct Cases as [(_ & _ & O & _) | [(_ & _ & O) | (_ & _ & O & _)]];
      rewrite O in I; try (rewrite Ho in I; destruct I).
    rewrite !handed_app, Ho, handed_handOverOuts in I. cbn [app] in I.
    apply in_app_or in I. destruct I as [I | I].
    + right. exists s1, o1, r, w.
      destruct (pending s1) eqn:Pe; simpl in I; [| destruct I].
      destruct I as [<- | []]. conjuncts; auto.
    + left. destruct r; [| destruct I].
      destruct (handed_executeReset (wrapOverflow (timestamps s1)) (allocations s1))
        as [X | X]; rewrite X in I; [destruct I |].
      destruct I as [<- | []]. eauto.
Qed.

Lemma dv_committed_nonEmpty s :
  consistent s -> pending s = true -> nonEmpty (committed s) = true.
Proof.
  unfold consistent, pending, committed, nonEmpty. intros (_ & C2 & C3 & C4) P.
  cbn [polaritySlot specialSlot imu6Slot].
  assert (L : forall E (p : option (packet E)) position,
             position = Z.of_nat (List.length (slotEvents p)) ->
             (position >? 0) = true ->
             slotNonEmpty (if position >? 0 then p else None) = true).
  { intros E p position Hp G. rewrite G. apply Z.gtb_lt in G.
    destruct p as [p |]; simpl in *; [| lia].
    destruct (events p); simpl in *; [lia | reflexivity]. }
  apply orb_true_iff in P. destruct P as [P | P].
  - apply orb_true_iff in P. destruct P as [P | P].
    + rewrite (L _ _ _ C2 P). reflexivity.
    + rewrite (L _ _ _ C3 P). rewrite orb_true_r. reflexivity.
  - rewrite (L _ _ _ C4 P). rewrite !orb_true_r. reflexivity.
Qed.

Lemma token_handed_nonEmpty s event :
  consistent s ->
  Forall (fun c => nonEmpty c = true) (handed (outs (dvExplorerToken s event))).
Proof.
  intros C. apply Forall_forall. intros c I.
  destruct (token_handed s event c C I)
    as [(ovf & ->) | (s1 & o1 & r & w & _ & _ & _ & C1 & Pe & ->)].
  - reflexivity.
  - apply dv_committed_nonEmpty; assumption.
Qed.

Lemma token_consistent s event :
  consistent s -> ends (dvExplorerToken s event) <> Diverges ->
  consistent (state (dvExplorerToken s event)).
Proof.
  intros C N. destruct (token_cases s event C)
    as [(_ & _ & -> & _) | (s1 & o1 & r & w & E & D & Dd & R1 & C1 & Cases)].
  - apply dv_prepare_consistent. exact C.
  - destruct Cases as [(_ & -> & _) | [(_ & X & _) | (_ & _ & _ & X & _)]];
      [exact C1 | congruence | exact X].
Qed.

(** The loop over the words. *)
Lemma wordLoop_handed_nonEmpty words : forall s,
  consistent s ->
  Forall (fun c => nonEmpty c = true) (handed (outs (wordLoop words s))).
Proof.
  induction words as [| event words IH]; intros s C; [constructor |].
  cbn [wordLoop]. rewrite dv_outs_andThen.
  pose proof (token_handed_nonEmpty s event C) as F.
  destruct (ends (dvExplorerToken s event)) eqn:E; try exact F.
  rewrite handed_app. apply Forall_app. split; [exact F |].
  apply IH. apply token_consistent; [exact C | congruence].
Qed.

Lemma andThen_ext r k k' : (forall s, k s = k' s) -> andThen r k = andThen r k'.
Proof. intros E. unfold andThen. rewrite E. reflexivity. Qed.

Lemma decodeLoop_words n : forall buffer s,
  (List.length buffer <= n)%nat ->
  decodeLoop buffer s = wordLoop (wordsOf buffer) s.
Proof.
  induction n as [| n IH]; intros buffer s L.
  - destruct buffer; [reflexivity | simpl in L; lia].
  - destruct buffer as [| b0 [| b1 rest]]; try reflexivity.
    cbn [decodeLoop wordsOf wordLoop]. apply andThen_ext. intros s'.
    apply IH. simpl in L. lia.
Qed.

Lemma wordsOf_app a b :
  Nat.even (List.length a) = true -> wordsOf (a ++ b) = wordsOf a ++ wordsOf b.
Proof.
  revert a. fix IH 1. intros [| b0 [| b1 rest]] E.
  - reflexivity.
  - discriminate.
  - cbn [app wordsOf]. f_equal. apply IH. exact E.
Qed.

(** *** IMU samples across a timestamp reset *)

(** A forced commit, of a timestamp reset or of a big wrap, leaves the
    IMU events ignored. *)
Lemma commit_forced s r w :
  r || w = true -> ignoreEvents (imu (state (commit s r w))) = true.
Proof.
  intros F. unfold commit. rewrite F. cbn [orb].
  match goal with
  | |- context [containerGenerationExecute ?g ?e ?r ?o ?c ?a ?p] =>
      destruct (containerGenerationExecute g e r o c a p) as [[[[g' o'] a'] p'] |]
  end; reflexivity.
Qed.

Lemma committed_noIMU s : imuEmpty s -> noIMU (committed s).
Proof.
  unfold imuEmpty, noIMU, committed. intros E. cbn [imu6Slot].
  destruct (imu6Position (currentPackets s) >? 0); [exact E | reflexivity].
Qed.

(** A word that is no IMU end, or that comes while IMU events are
    ignored or while the count of the sample is not the expected one,
    puts no IMU sample into the packet. *)
Lemma decoded_imuEmpty s event s1 o1 r w :
  decoded s event s1 o1 r w -> ready s -> imuEmpty s ->
  isIMUEnd event = false \/ ignoreEvents (imu s) = true
  \/ count (imu s) <> IMU_TOTAL_COUNT ->
  imuEmpty s1.
Proof.
  intros (pa & sa & ia & E & _ & Ia & _) (_ & _ & _ & Ri) Em Hc.
  destruct E as (_ & _ & _ & _ & _ & _ & _ & _ & _ & Xi).
  destruct (Xi Ri) as (_ & X & _). unfold imuEmpty in *. rewrite X, Em.
  destruct Ia as [-> | (A & B & C & _)]; [reflexivity |].
  destruct Hc as [Hc | [Hc | Hc]]; congruence.
Qed.

Lemma token_imu s event :
  consistent s -> imuEmpty s ->
  isIMUEnd event = false \/ ignoreEvents (imu s) = true
  \/ count (imu s) <> IMU_TOTAL_COUNT ->
  Forall noIMU (handed (outs (dvExplorerToken s event)))
  /\ (ends (dvExplorerToken s event) <> Diverges ->
      imuEmpty (state (dvExplorerToken s event))).
Proof.
  intros C Em Hc.
  destruct (dv_prepare_allocates s) as (P & _).
  destruct P as (_ & _ & _ & P4 & _ & _ & _ & _ & _ & _ & _ & _ & _ & P14 & _).
  assert (Em0 : imuEmpty (state (prepare s))).
  { unfold imuEmpty. rewrite P14. exact Em. }
  split.
  - apply Forall_forall. intros c I.
    destruct (token_handed s event c C I)
      as [(ovf & ->) | (s1 & o1 & r & w & E & D & Dd & C1 & Pe & ->)].
    + reflexivity.
    + apply committed_noIMU.
      apply (decoded_imuEmpty _ _ _ _ _ _ Dd (dv_prepare_ready s E) Em0).
      rewrite P4. exact Hc.
  - intros N. destruct (token_cases s event C)
      as [(_ & _ & -> & _) | (s1 & o1 & r & w & E & D & Dd & R1 & C1 & Cases)];
      [exact Em0 |].
    pose proof (decoded_imuEmpty _ _ _ _ _ _ Dd (dv_prepare_ready s E) Em0) as Em1.
    rewrite P4 in Em1. specialize (Em1 Hc).
    destruct Cases as [(_ & -> & _) | [(_ & X & _) | (_ & _ & _ & Cf & _ & _ & Q & _)]];
      [exact Em1 | congruence |].
    unfold imuEmpty. destruct Cf as (_ & _ & _ & C4). rewrite Q in C4.
    destruct (slotEvents (imu6 (currentPackets (state (dvExplorerToken s event)))));
      [reflexivity | simpl in C4; lia].
Qed.

(** While IMU events are ignored, a word that is no IMU start leaves
    them ignored. *)
Lemma token_ignore s event :
  consistent s -> ignoreEvents (imu s) = true -> isIMUStart event = false ->
  ignoreEvents (imu (state (dvExplorerToken s event))) = true.
Proof.
  intros C Ig St.
  destruct (dv_prepare_allocates s) as (P & _).
  destruct P as (_ & _ & _ & P4 & _).
  destruct (token_cases s event C)
    as [(_ & _ & -> & _) | (s1 & o1 & r & w & E & D & Dd & R1 & C1 & Cases)].
  - rewrite P4. exact Ig.
  - assert (Ig1 : ignoreEvents (imu s1) = true).
    { destruct Dd as (pa & sa & ia & _ & _ & _ & K & _).
      rewrite (K St), P4. exact Ig. }
    destruct Cases as [(_ & -> & _) | [(Due & _ & _) | (_ & _ & _ & _ & _ & _ & _ & Q & _)]].
    + exact Ig1.
    + rewrite (dvExplorerToken_process s event E). cbn [state].
      destruct (dv_process_spec _ _ _ _ _ _ D) as (-> & _).
      unfold commit. unfold commitDue in Due. rewrite <- !orb_assoc in *.
      rewrite Due.
      match goal with
      | |- context [containerGenerationExecute ?g ?e ?r ?o ?c ?a ?p] =>
          destruct (containerGenerationExecute g e r o c a p) as [[[[g' o'] a'] p'] |]
      end; cbn [state continueWith imu set_exchangePuts set_allocations set_container];
        destruct (r || w); simpl; auto;
        destruct (dv_movePackets_committed s1 (dv_consistent_container s1 C1 R1))
          as (_ & _ & _ & _ & _ & _ & M7 & _); rewrite M7; exact Ig1.
    + rewrite Q. destruct (r || w); [reflexivity | exact Ig1].
Qed.

(** After the step on a timestamp reset that is decoded, IMU events are
    ignored. *)
Lemma token_reset_ignores s event :
  consistent s -> isTimestampReset event = true ->
  ends (prepare s) = Continue ->
  ignoreEvents (imu (state (dvExplorerToken s event))) = true.
Proof.
  intros C Rt E. rewrite (dvExplorerToken_process s event E). cbn [state].
  destruct (decode (state (prepare s)) event) as [[[s1 o1] r] w] eqn:D.
  destruct (dv_process_spec _ _ _ _ _ _ D) as (-> & _).
  destruct (decode_decoded _ _ _ _ _ _ (dv_prepare_ready s E) D)
    as (pa & sa & ia & _ & _ & _ & _ & _ & _ & _ & Rr & _).
  apply commit_forced. rewrite Rr, Rt. reflexivity.
Qed.

(** The loop over words of which none is an IMU end. *)
Lemma wordLoop_no_end words : forall s,
  consistent s -> imuEmpty s -> Forall (fun e => isIMUEnd e = false) words ->
  Forall noIMU (handed (outs (wordLoop words s)))
  /\ (ends (wordLoop words s) = Continue ->
      consistent (state (wordLoop words s)) /\ imuEmpty (state (wordLoop words s))).
Proof.
  induction words as [| event words IH]; intros s C Em F.
  - simpl. split; [constructor | auto].
  - inversion F as [| ? ? Fe F']; subst.
    cbn [wordLoop]. rewrite dv_outs_andThen, dv_ends_andThen, dv_state_andThen.
    destruct (token_imu s event C Em (or_introl Fe)) as (T1 & T2).
    destruct (ends (dvExplorerToken s event)) eqn:E;
      try (split; [exact T1 | discriminate]).
    destruct (IH (state (dvExplorerToken s event))) as (I1 & I2); auto.
    + apply token_consistent; [exact C | congruence].
    + apply T2. congruence.
    + split; [| exact I2]. rewrite handed_app. apply Forall_app. auto.
Qed.

(** The loop over words of which none is an IMU start, while IMU events
    are ignored. *)
Lemma wordLoop_ignoring words : forall s,
  consistent s -> imuEmpty s -> ignoreEvents (imu s) = true ->
  Forall (fun e => isIMUStart e = false) words ->
  Forall noIMU (handed (outs (wordLoop words s)))
  /\ ignoreEvents (imu (state (wordLoop words s))) = true.
Proof.
  induction words as [| event words IH]; intros s C Em Ig F.
  - simpl. split; [constructor | exact Ig].
  - inversion F as [| ? ? Fe F']; subst.
    cbn [wordLoop]. rewrite dv_outs_andThen, dv_state_andThen.
    destruct (token_imu s event C Em (or_intror (or_introl Ig))) as (T1 & T2).
    pose proof (token_ignore s event C Ig Fe) as Ig'.
    destruct (ends (dvExplorerToken s event)) eqn:E;
      try (split; [exact T1 | exact Ig']).
    destruct (IH (state (dvExplorerToken s event))) as (I1 & I2); auto.
    + apply token_consistent; [exact C | congruence].
    + apply T2. congruence.
    + split; [| exact I2]. rewrite handed_app. apply Forall_app. auto.
Qed.

Lemma andThen_assoc (r : result) (f g : dv_state -> result) :
  andThen (andThen r f) g = andThen r (fun s => andThen (f s) g).
Proof.
  destruct r as [s o e]. unfold andThen. cbn [ends state outs].
  destruct e; cbn [ends state outs]; try reflexivity.
  destruct (f s) as [s' o' e']. cbn [ends state outs].
  destruct e'; cbn [ends state outs]; try reflexivity.
  rewrite app_assoc. reflexivity.
Qed.

Lemma wordLoop_app a : forall b s,
  wordLoop (a ++ b) s = andThen (wordLoop a s) (wordLoop b).
Proof.
  induction a as [| e a IH]; intros b s.
  - simpl. unfold andThen. simpl. destruct (wordLoop b s); reflexivity.
  - cbn [app wordLoop]. rewrite andThen_assoc. apply andThen_ext.
    intros s'. apply IH.
Qed.

(** The events of the container a commit fills. *)
Lemma dv_committed_events s :
  consistent s ->
  slotEvents (polaritySlot (committed s)) = slotEvents (polarity (currentPackets s))
  /\ slotEvents (specialSlot (committed s)) = slotEvents (special (currentPackets s))
  /\ slotEvents (imu6Slot (committed s)) = slotEvents (imu6 (currentPackets s)).
Proof.
  unfold consistent, committed. intros (_ & C2 & C3 & C4).
  cbn [polaritySlot specialSlot imu6Slot].
  assert (L : forall E (p : option (packet E)) position,
             position = Z.of_nat (List.length (slotEvents p)) ->
             slotEvents (if position >? 0 then p else None) = slotEvents p).
  { intros E p position Hp. destruct (Z.gtb_spec position 0); [reflexivity |].
    destruct (slotEvents p); [reflexivity | simpl in *; lia]. }
  conjuncts; apply L; assumption.
Qed.

(** A wrap word that the timestamp helper classifies as a big wrap,
    when the allocations succeed: the sentinel is appended to the special
    packet and the packets are committed on that word. *)
Lemma big_wrap_word s event ts' l :
  consistent s -> ends (prepare s) = Continue ->
  isTimestamp event = false -> codeOf event = 7 ->
  handleTimestampWrapNewLogic (timestamps s) (dataOf event) TS_WRAP_ADD
  = (ts', l, true) ->
  allocations s = [] ->
  ends (dvExplorerToken s event) = Diverges
  \/ exists c,
       slotEvents (specialSlot c)
       = slotEvents (special (currentPackets s)) ++ [wrapSentinel]
       /\ slotEvents (polaritySlot c) = slotEvents (polarity (currentPackets s))
       /\ slotEvents (imu6Slot c) = slotEvents (imu6 (currentPackets s))
       /\ handed (outs (dvExplorerToken s event)) = [c]
       /\ ends (dvExplorerToken s event) = Continue
       /\ pending (state (dvExplorerToken s event)) = false
       /\ timestamps (state (dvExplorerToken s event)) = ts'
       /\ ignoreEvents (imu (state (dvExplorerToken s event))) = true.
Proof.
  intros C E Ts Cd Hw A.
  destruct (dv_prepare_allocates s) as (P & _).
  destruct P as (_ & P2 & _ & _ & _ & _ & _ & _ & _ & _ & _ & P12 & P13 & P14
                 & _ & _ & _ & _ & P19).
  specialize (P19 A).
  pose proof (dv_prepare_ready s E) as R0.
  set (s0 := state (prepare s)) in *.
  destruct (token_cases s event C)
    as [(_ & X & _) | (s1 & o1 & r & w & _ & D & Dd & R1 & C1 & Cases)];
    [congruence |].
  fold s0 in D, Dd.
  rewrite (decode_wrap s0 event Ts Cd) in D.
  unfold timestampWrap in D. rewrite P2, Hw in D.
  destruct (putSpecial (set_timestamps ts' s0) INT32_MAX TIMESTAMP_WRAP)
    as [sp op] eqn:Ps.
  injection D as <- <- <- <-.
  destruct (putSpecial_spec (set_timestamps ts' s0) INT32_MAX TIMESTAMP_WRAP)
    as (k' & env' & F & K1 & K2 & K3 & K4 & K5 & K6 & K7).
  { apply R0. }
  rewrite Ps in F, K7. cbn [fst snd] in F, K7.
  destruct K7 as [(Ev & Pos & _) | (_ & _ & _ & N)];
    [| exfalso; apply N; exact P19].
  assert (Hsp : slotEvents (special (currentPackets sp))
                = slotEvents (special (currentPackets s)) ++ [wrapSentinel]).
  { rewrite F. cbn. rewrite Ev. cbn. fold s0. rewrite P13. reflexivity. }
  assert (Hpo : slotEvents (polarity (currentPackets sp))
                = slotEvents (polarity (currentPackets s))).
  { rewrite F. cbn. rewrite K1. cbn. fold s0. rewrite P12. reflexivity. }
  assert (Him : slotEvents (imu6 (currentPackets sp))
                = slotEvents (imu6 (currentPackets s))).
  { rewrite F. cbn. rewrite K3. cbn. fold s0. rewrite P14. reflexivity. }
  assert (Hts : timestamps sp = ts').
  { rewrite F. reflexivity. }
  assert (Pe : pending sp = true).
  { unfold pending. destruct C1 as (_ & _ & C3 & _). rewrite Hsp in C3.
    rewrite length_app in C3. cbn in C3.
    assert (G : (specialPosition (currentPackets sp) >? 0) = true)
      by (apply Z.gtb_lt; lia).
    rewrite G. apply orb_true_iff. left. apply orb_true_iff. right. reflexivity. }
  destruct Cases as [(Due & _) | [(_ & Dv & _) | (_ & En & O & Cf & Q1 & Q2 & Q3 & Qi & Qt & _)]].
  - unfold commitDue in Due. cbn in Due. discriminate.
  - left. exact Dv.
  - right. exists (committed sp).
    destruct (dv_committed_events sp C1) as (E1 & E2 & E3).
    rewrite E1, E2, E3.
    conjuncts; auto.
    + rewrite O. rewrite Pe. cbn [negb].
      destruct Dd as (pa & sa & ia & Ef & _).
      assert (Ho : handed (logged l ++ op) = []) by apply Ef.
      rewrite !handed_app. rewrite <- handed_app, Ho.
      rewrite handed_handOverOuts_pending. reflexivity.
    + unfold pending. rewrite Q1, Q2, Q3. reflexivity.
    + rewrite Qt. exact Hts.
    + rewrite Qi. reflexivity.
Qed.

(** *** The copy of the IMU sample *)

Lemma decode_imu_end s event :
  isIMUEnd event = true ->
  decode s event = (fst (imuEnd s), snd (imuEnd s), false, false).
Proof.
  intros En. apply isSpecial_true in En. destruct En as (T & C & D).
  rewrite (decode_special s event T C), D. cbn [specialToken fst snd].
  reflexivity.
Qed.

(** The IMU samples in progress after the decoding of a word. *)
Lemma decoded_imu_events s event s1 o1 r w :
  decoded s event s1 o1 r w -> ready s ->
  exists ia,
    slotEvents (imu6 (currentPackets s1))
    = slotEvents (imu6 (currentPackets s)) ++ ia
    /\ (ia = [] \/ (completes s event /\ ia = [completedSample s])).
Proof.
  intros (pa & sa & ia & E & _ & Ia & _) (_ & _ & _ & Ri).
  destruct E as (_ & _ & _ & _ & _ & _ & _ & _ & _ & Xi).
  destruct (Xi Ri) as (_ & X & _). exists ia. split; [exact X |].
  destruct Ia as [-> | (A & B & C & ->)]; [left; reflexivity |].
  right. split; [split; [exact A | split; [exact B | exact C]] | reflexivity].
Qed.

Lemma completes_prepare s event :
  completes (state (prepare s)) event <-> completes s event.
Proof.
  destruct (dv_prepare_allocates s) as (P & _).
  destruct P as (_ & _ & _ & P4 & _). unfold completes. rewrite P4. tauto.
Qed.

Lemma completedSample_prepare s :
  completedSample (state (prepare s)) = completedSample s.
Proof.
  destruct (dv_prepare_allocates s) as (P & _).
  destruct P as (_ & P2 & _ & P4 & _). unfold completedSample.
  rewrite P2, P4. reflexivity.
Qed.

(** Every IMU sample that a step hands over, or keeps in progress, was
    in progress before the step or is the private sample that an IMU end
    completes. *)
Lemma token_imu_samples s event e :
  consistent s ->
  In e (imuSamples (handed (outs (dvExplorerToken s event))))
  \/ (ends (dvExplorerToken s event) = Continue
      /\ In e (slotEvents (imu6 (currentPackets (state (dvExplorerToken s event)))))) ->
  In e (slotEvents (imu6 (currentPackets s)))
  \/ (completes s event /\ e = completedSample s).
Proof.
  intros C I.
  destruct (dv_prepare_allocates s) as (P & _).
  destruct P as (_ & _ & _ & _ & _ & _ & _ & _ & _ & _ & _ & _ & _ & P14 & _).
  assert (K : forall s1 o1 r w,
             ends (prepare s) = Continue ->
             decoded (state (prepare s)) event s1 o1 r w ->
             In e (slotEvents (imu6 (currentPackets s1))) ->
             In e (slotEvents (imu6 (currentPackets s)))
             \/ (completes s event /\ e = completedSample s)).
  { intros s1 o1 r w E Dd In1.
    destruct (decoded_imu_events _ _ _ _ _ _ Dd (dv_prepare_ready s E))
      as (ia & X & Ia).
    rewrite X, P14 in In1. apply in_app_or in In1.
    destruct In1 as [In1 | In1]; [left; exact In1 |].
    destruct Ia as [-> | (Cp & ->)]; [destruct In1 |].
    destruct In1 as [<- | []]. right.
    split; [apply completes_prepare; exact Cp | apply completedSample_prepare]. }
  destruct I as [I | (En & I)].
  - unfold imuSamples in I. apply in_concat in I.
    destruct I as (l & Hl & Il). apply in_map_iff in Hl.
    destruct Hl as (c & <- & Hc).
    destruct (token_handed s event c C Hc)
      as [(ovf & ->) | (s1 & o1 & r & w & E & D & Dd & C1 & Pe & ->)].
    + destruct Il.
    + destruct (dv_committed_events s1 C1) as (_ & _ & E3). rewrite E3 in Il.
      exact (K s1 o1 r w E Dd Il).
  - destruct (token_cases s event C)
      as [(X & _) | (s1 & o1 & r & w & E & D & Dd & R1 & C1 & Cases)];
      [congruence |].
    destruct Cases as [(_ & St & _) | [(_ & X & _) | (_ & _ & _ & Cf & _ & _ & Q & _)]].
    + rewrite St in I. exact (K s1 o1 r w E Dd I).
    + congruence.
    + destruct Cf as (_ & _ & _ & C4). rewrite Q in C4.
      destruct (slotEvents (imu6 (currentPackets (state (dvExplorerToken s event)))));
        [destruct I | simpl in C4; lia].
Qed.

(** What a step logs: the logs of the decoding come first. *)
Lemma token_outs_decode s event s1 o1 r w :
  ends (prepare s) = Continue ->
  decode (state (prepare s)) event = (s1, o1, r, w) ->
  exists o2, outs (dvExplorerToken s event) = o1 ++ o2.
Proof.
  intros E D. rewrite (dvExplorerToken_process s event E). cbn [outs].
  destruct (dv_process_spec _ _ _ _ _ _ D) as (_ & -> & _).
  eexists. reflexivity.
Qed.

(** An IMU end that comes with the wrong count: the mismatch is
    logged. *)
Lemma token_imu_count_mismatch s event :
  ends (prepare s) = Continue ->
  isIMUEnd event = true -> ignoreEvents (imu s) = false ->
  count (imu s) <> IMU_TOTAL_COUNT ->
  In countMismatch (outs (dvExplorerToken s event)).
Proof.
  intros E En Ig Cn.
  destruct (dv_prepare_allocates s) as (P & _).
  destruct P as (_ & _ & _ & P4 & _).
  pose proof (dv_prepare_ready s E) as (_ & _ & _ & Ri).
  destruct (token_outs_decode s event _ _ _ _ E
              (decode_imu_end (state (prepare s)) event En)) as (o2 & ->).
  apply in_or_app. left.
  destruct (imuEnd_effect (state (prepare s)) Ri)
    as (ia & _ & _ & _ & _ & _ & Cases).
  rewrite P4 in Cases.
  destruct Cases as [(X & _) | [(_ & _ & _ & ->) | (_ & X & _)]];
    [congruence | | congruence].
  cbn [snd]. right. left. reflexivity.
Qed.

(** An IMU end that completes the sample, when the allocations
    succeed: the sample is copied, and is handed over or in progress
    after the step. *)
Lemma token_imu_complete s event :
  consistent s -> ends (prepare s) = Continue -> completes s event ->
  allocations s = [] -> ends (dvExplorerToken s event) = Continue ->
  In (completedSample s)
    (imuSamples (handed (outs (dvExplorerToken s event)))
     ++ slotEvents (imu6 (currentPackets (state (dvExplorerToken s event))))).
Proof.
  intros C E (En & Ig & Cn) A Ec.
  destruct (dv_prepare_allocates s) as (P & _).
  destruct P as (_ & P2 & _ & P4 & _ & _ & _ & _ & _ & _ & _ & _ & _ & P14
                 & _ & _ & _ & _ & P19).
  specialize (P19 A).
  pose proof (dv_prepare_ready s E) as R0.
  pose proof R0 as (_ & _ & _ & Ri).
  set (s0 := state (prepare s)) in *.
  destruct (imuEnd_effect s0 Ri) as (ia & Ef & _ & _ & _ & _ & Cases).
  rewrite P4 in Cases.
  destruct Cases as [(X & _) | [(_ & X & _) | (_ & _ & [(Hia & _) | (_ & _ & X)])]];
    try congruence.
  assert (In1 : In (completedSample s)
                  (slotEvents (imu6 (currentPackets (fst (imuEnd s0)))))).
  { destruct Ef as (_ & _ & _ & _ & _ & _ & _ & _ & _ & Xi).
    destruct (Xi Ri) as (_ & X & _). rewrite X, Hia.
    apply in_or_app. right. left. unfold completedSample.
    rewrite <- P2, <- P4. reflexivity. }
  destruct (token_cases s event C)
    as [(X & _) | (s1 & o1 & r & w & _ & D & Dd & R1 & C1 & Cases)];
    [congruence |].
  fold s0 in D. rewrite (decode_imu_end s0 event En) in D.
  injection D as <- <- <- <-.
  destruct Cases as [(_ & St & _) | [(_ & X & _) | (_ & _ & O & _)]].
  - apply in_or_app. right. rewrite St. exact In1.
  - congruence.
  - apply in_or_app. left. rewrite O.
    assert (Pe : pending (fst (imuEnd s0)) = true).
    { unfold pending. destruct C1 as (_ & _ & _ & C4).
      destruct (slotEvents (imu6 (currentPackets (fst (imuEnd s0))))) eqn:Ev;
        [destruct In1 |].
      assert (G : (imu6Position (currentPackets (fst (imuEnd s0))) >? 0) = true)
        by (apply Z.gtb_lt; rewrite C4; simpl; lia).
      rewrite G. apply orb_true_iff. right. reflexivity. }
    rewrite Pe. cbn [negb]. rewrite !handed_app, handed_handOverOuts_pending.
    unfold imuSamples. rewrite !map_app, !concat_app. cbn [map List.concat].
    apply in_or_app. right. apply in_or_app. left. apply in_or_app. left.
    destruct (dv_committed_events _ C1) as (_ & _ & ->). exact In1.
Qed.

(** *** After a forced commit *)

(** The step on a word classified as a timestamp reset or a big wrap
    leaves the IMU events ignored and no IMU sample in progress. *)
Lemma token_forced s event s1 o1 r w :
  consistent s -> ends (prepare s) = Continue ->
  decode (state (prepare s)) event = (s1, o1, r, w) -> r || w = true ->
  ignoreEvents (imu (state (dvExplorerToken s event))) = true
  /\ (ends (dvExplorerToken s event) = Continue ->
      imuEmpty (state (dvExplorerToken s event))).
Proof.
  intros C E D F. split.
  - rewrite (dvExplorerToken_process s event E). cbn [state].
    destruct (dv_process_spec _ _ _ _ _ _ D) as (-> & _).
    apply commit_forced. exact F.
  - intros Ec.
    destruct (token_cases s event C)
      as [(X & _) | (s1' & o1' & r' & w' & _ & D' & Dd & R1 & C1 & Cases)];
      [congruence |].
    rewrite D in D'. injection D' as <- <- <- <-.
    destruct Cases as [(Due & _) | [(_ & X & _) | (_ & _ & _ & Cf & _ & _ & Q & _)]].
    + unfold commitDue in Due. rewrite F in Due. discriminate.
    + congruence.
    + unfold imuEmpty. destruct Cf as (_ & _ & _ & C4). rewrite Q in C4.
      destruct (slotEvents (imu6 (currentPackets (state (dvExplorerToken s event)))));
        [reflexivity | simpl in C4; lia].
Qed.

Lemma set_ignoreEvents_same m :
  ignoreEvents m = true -> set_ignoreEvents true m = m.
Proof. destruct m. cbn. intros ->. reflexivity. Qed.

(** While IMU events are ignored, a word that is no IMU start leaves
    the IMU state as it is: the fragment is ignored. *)
Lemma token_ignored s event :
  consistent s -> ignoreEvents (imu s) = true -> isIMUStart event = false ->
  imu (state (dvExplorerToken s event)) = imu s.
Proof.
  intros C Ig St.
  destruct (dv_prepare_allocates s) as (P & _).
  destruct P as (_ & _ & _ & P4 & _).
  destruct (token_cases s event C)
    as [(_ & _ & -> & _) | (s1 & o1 & r & w & E & D & Dd & R1 & C1 & Cases)];
    [exact P4 |].
  assert (I1 : imu s1 = imu s).
  { destruct Dd as (pa & sa & ia & _ & _ & _ & _ & _ & K & _).
    rewrite <- P4. apply K; [rewrite P4; exact Ig | exact St]. }
  assert (Ig1 : ignoreEvents (imu s1) = true) by (rewrite I1; exact Ig).
  destruct Cases as [(_ & -> & _) | [(Due & _ & _) | (_ & _ & _ & _ & _ & _ & _ & Q & _)]].
  - exact I1.
  - rewrite (dvExplorerToken_process s event E). cbn [state].
    destruct (dv_process_spec _ _ _ _ _ _ D) as (-> & _).
    unfold commit. unfold commitDue in Due. rewrite <- !orb_assoc in *.
    rewrite Due.
    destruct (dv_movePackets_committed s1 (dv_consistent_container s1 C1 R1))
      as (_ & _ & _ & _ & _ & _ & M7 & _).
    match goal with
    | |- context [containerGenerationExecute ?g ?e ?r ?o ?c ?a ?p] =>
        destruct (containerGenerationExecute g e r o c a p) as [[[[g' o'] a'] p'] |]
    end; cbn [state continueWith imu set_exchangePuts set_allocations set_container];
      destruct (r || w); cbn; rewrite ?M7, ?set_ignoreEvents_same; auto;
        rewrite M7; auto.
  - rewrite Q. destruct (r || w); [rewrite set_ignoreEvents_same |]; auto.
Qed.

(** The loop over words of which none is an IMU start, while IMU events
    are ignored: no IMU sample is handed over and the IMU state stays as
    it is. *)
Lemma wordLoop_ignored words : forall s,
  consistent s -> imuEmpty s -> ignoreEvents (imu s) = true ->
  Forall (fun e => isIMUStart e = false) words ->
  Forall noIMU (handed (outs (wordLoop words s)))
  /\ imu (state (wordLoop words s)) = imu s.
Proof.
  induction words as [| event words IH]; intros s C Em Ig F.
  - simpl. split; [constructor | reflexivity].
  - inversion F as [| ? ? Fe F']; subst.
    cbn [wordLoop]. rewrite dv_outs_andThen, dv_state_andThen.
    destruct (token_imu s event C Em (or_intror (or_introl Ig))) as (T1 & T2).
    pose proof (token_ignored s event C Ig Fe) as I'.
    destruct (ends (dvExplorerToken s event)) eqn:E;
      try (split; [exact T1 | exact I']).
    destruct (IH (state (dvExplorerToken s event))) as (I1 & I2); auto.
    + apply token_consistent; [exact C | congruence].
    + apply T2. congruence.
    + rewrite I'. exact Ig.
    + split; [| rewrite I2; exact I'].
      rewrite handed_app. apply Forall_app. auto.
Qed.

(** A sample under assembly cut by a timestamp reset: whatever words
    come before the reset, as long as no IMU end is among them, and
    whatever words come after it, as long as no IMU start is among them,
    no IMU sample is handed over. *)
Lemma reset_mid_sample pre reset post s :
  consistent s -> imuEmpty s ->
  Forall (fun e => isIMUEnd e = false) pre ->
  isTimestampReset reset = true ->
  Forall (fun e => isIMUStart e = false) post ->
  Forall noIMU (handed (outs (wordLoop (pre ++ reset :: post) s))).
Proof.
  intros C Em Fp Rt Fq.
  rewrite wordLoop_app, dv_outs_andThen.
  destruct (wordLoop_no_end pre s C Em Fp) as (N1 & N2).
  destruct (ends (wordLoop pre s)) eqn:E; try exact N1.
  destruct (N2 eq_refl) as (C1 & Em1).
  set (s1 := state (wordLoop pre s)) in *.
  rewrite handed_app. apply Forall_app. split; [exact N1 |].
  cbn [wordLoop]. rewrite dv_outs_andThen.
  assert (Ne : isIMUEnd reset = false).
  { apply isSpecial_true in Rt. destruct Rt as (_ & _ & Rd).
    apply isSpecial_false. right. right. rewrite Rd. discriminate. }
  destruct (token_imu s1 reset C1 Em1 (or_introl Ne)) as (T1 & T2).
  destruct (ends (dvExplorerToken s1 reset)) eqn:E1; try exact T1.
  rewrite handed_app. apply Forall_app. split; [exact T1 |].
  assert (Ep : ends (prepare s1) = Continue).
  { destruct (token_cases s1 reset C1) as [(X & _) | (? & ? & ? & ? & Ep & _)];
      [congruence | exact Ep]. }
  apply wordLoop_ignored; auto.
  - apply token_consistent; [exact C1 | congruence].
  - apply T2. congruence.
  - apply token_reset_ignores; assumption.
Qed.

(** *** The translator on a whole buffer *)

Lemma land_one_even n :
  Nat.even n = true ->
  Z.land (Z.of_nat n) 0x01 = 0 /\ Z.land (Z.of_nat (n + 1)) 0x01 = 1.
Proof.
  intros E. apply Nat.even_spec in E. destruct E as (k & ->).
  assert (L : forall x, Z.land x 1 = x mod 2).
  { intros x. change 1 with (Z.ones 1). rewrite Z.land_ones by lia. reflexivity. }
  rewrite !L. split.
  - rewrite Nat2Z.inj_mul. change (Z.of_nat 2) with 2.
    rewrite Z.mul_comm. apply Z_mod_mult.
  - rewrite Nat2Z.inj_add, Nat2Z.inj_mul. change (Z.of_nat 2) with 2.
    change (Z.of_nat 1) with 1. rewrite Z.add_comm, Z.mul_comm.
    rewrite Z_mod_plus_full. reflexivity.
Qed.

(** On a buffer of even size the translator is the decoding loop. *)
Lemma translator_even s buffer :
  dataTransfersRun s = true -> Nat.even (List.length buffer) = true ->
  dvExplorerEventTranslator s buffer = decodeLoop buffer s.
Proof.
  intros R E. unfold dvExplorerEventTranslator. rewrite R. cbn [negb].
  destruct (land_one_even _ E) as (-> & _). reflexivity.
Qed.

(** On a buffer of odd size the translator logs an alert and is the
    decoding loop on the buffer without its last byte. *)
Lemma translator_odd s complete b :
  dataTransfersRun s = true -> Nat.even (List.length complete) = true ->
  dvExplorerEventTranslator s (complete ++ [b])
  = andThen (continueWith s [oddSizeAlert]) (decodeLoop complete).
Proof.
  intros R E. unfold dvExplorerEventTranslator. rewrite R. cbn [negb].
  rewrite length_app. cbn [List.length].
  destruct (land_one_even _ E) as (_ & ->). cbn [Z.eqb negb].
  replace (Z.to_nat (Z.of_nat (List.length complete + 1) - 1))
    with (List.length complete + 0)%nat by lia.
  rewrite firstn_app_2. cbn [firstn]. rewrite app_nil_r. reflexivity.
Qed.

(** The words of a buffer of odd size are the words of the buffer
    without its last byte. *)
Lemma wordsOf_odd complete b :
  Nat.even (List.length complete) = true ->
  wordsOf (complete ++ [b]) = wordsOf complete.
Proof.
  intros E. rewrite (wordsOf_app _ _ E). cbn [wordsOf]. apply app_nil_r.
Qed.

Lemma even_or_odd {A} (l : list A) :
  Nat.even (List.length l) = true
  \/ exists complete b, l = complete ++ [b]
                        /\ Nat.even (List.length complete) = true.
Proof.
  destruct (Nat.even (List.length l)) eqn:E; [left; reflexivity | right].
  destruct l as [| a l] using rev_ind; [discriminate |].
  exists l, a. split; [reflexivity |].
  rewrite length_app in E. cbn [List.length] in E.
  rewrite Nat.add_1_r, Nat.even_succ, <- Nat.negb_even in E.
  destruct (Nat.even (List.length l)); [reflexivity | discriminate].
Qed.

(** What the translator hands over is what the loop over the words of
    the buffer hands over, and its final state is the one of that loop. *)
Lemma translator_words s buffer :
  dataTransfersRun s = true ->
  handed (outs (dvExplorerEventTranslator s buffer))
  = handed (outs (wordLoop (wordsOf buffer) s))
  /\ state (dvExplorerEventTranslator s buffer)
     = state (wordLoop (wordsOf buffer) s)
  /\ ends (dvExplorerEventTranslator s buffer)
     = ends (wordLoop (wordsOf buffer) s).
Proof.
  intros R. destruct (even_or_odd buffer) as [E | (complete & b & -> & E)].
  - rewrite (translator_even s buffer R E).
    rewrite (decodeLoop_words _ buffer s (le_n _)). auto.
  - rewrite (translator_odd s complete b R E), (wordsOf_odd complete b E).
    unfold andThen, continueWith. cbn [ends state outs].
    rewrite (decodeLoop_words _ complete s (le_n _)). cbn [app handed]. auto.
Qed.

(** *** No empty container *)

Lemma wordLoop_consistent words : forall s,
  consistent s -> ends (wordLoop words s) <> Diverges ->
  consistent (state (wordLoop words s)).
Proof.
  induction words as [| event words IH]; intros s C.
  - intros _. exact C.
  - cbn [wordLoop]. rewrite dv_ends_andThen, dv_state_andThen.
    destruct (ends (dvExplorerToken s event)) eqn:E.
    + apply IH. apply token_consistent; [exact C | congruence].
    + intros _. apply token_consistent; [exact C | congruence].
    + intros N. congruence.
Qed.

(** The translator keeps the packets consistent, from one buffer to
    the next. *)
Lemma dv_translator_consistent s buffer :
  consistent s -> ends (dvExplorerEventTranslator s buffer) <> Diverges ->
  consistent (state (dvExplorerEventTranslator s buffer)).
Proof.
  intros C. destruct (dataTransfersRun s) eqn:R.
  - destruct (translator_words s buffer R) as (_ & -> & ->).
    apply wordLoop_consistent. exact C.
  - unfold dvExplorerEventTranslator. rewrite R. intros _. exact C.
Qed.

Lemma dv_translator_handed_nonEmpty s buffer :
  consistent s ->
  Forall (fun c => nonEmpty c = true)
    (handed (outs (dvExplorerEventTranslator s buffer))).
Proof.
  intros C. destruct (dataTransfersRun s) eqn:R.
  - destruct (translator_words s buffer R) as (-> & _).
    apply wordLoop_handed_nonEmpty. exact C.
  - unfold dvExplorerEventTranslator. rewrite R. constructor.
Qed.

Lemma dv_committed_nothing s : pending s = false -> committed s = emptyContainer.
Proof.
  unfold pending, committed. intros P. apply orb_false_iff in P.
  destruct P as (P & ->). apply orb_false_iff in P.
  destruct P as (-> & ->). reflexivity.
Qed.

(** A commit that is due while nothing is pending, and that no
    timestamp reset forces: the container is freed and nothing is handed
    to the exchange. *)
Lemma dv_commit_nothing_pending s w d :
  consistent s -> ready s -> commitDue s false w = true -> pending s = false ->
  rearmed s = Some d ->
  outs (commit s false w) = [ContainerFree emptyContainer]
  /\ ends (commit s false w) = Continue.
Proof.
  intros C R Due P Rk.
  destruct (dv_commit_due_outs s false w _ C R Due Rk) as (O & E & _).
  rewrite O, E, P, (dv_committed_nothing s P). split; reflexivity.
Qed.

(** *** Pixel addresses *)

(** A column address beyond [sizeY] is rejected with an alert and
    leaves the state as it is. *)
Lemma columnAddress_out_of_range s data :
  sizeY (dvs s) <= Z.land data 0x03FF ->
  fst (columnAddress s data) = s
  /\ In (Log CAER_LOG_ALERT
           "DVS: Y address out of range (0-%d): %PRIu16, due to USB communication issue.")
       (snd (columnAddress s data)).
Proof.
  intros G. unfold columnAddress.
  assert (E : (Z.land data 0x03FF >=? sizeY (dvs s)) = true)
    by (apply Z.geb_le; exact G).
  rewrite E. cbn [fst snd]. split; [reflexivity |].
  apply in_or_app. right. left. reflexivity.
Qed.

(** The row address of an SGROUP word is stored whatever [sizeX] is,
    and nothing is logged. *)
Lemma groupAddress_unchecked s data :
  Z.land data 0x0FC0 = 0 ->
  lastX (dvs (fst (groupAddress s data))) = U16T (Z.land data 0x003F * 8)
  /\ snd (groupAddress s data) = [].
Proof.
  intros G. unfold groupAddress. rewrite G. cbn. split; reflexivity.
Qed.

(** *** A packet that cannot grow *)




(** *** A buffer of odd size *)

(** The translator logs an alert and decodes the buffer without its
    last byte. *)
Lemma translator_truncates s complete b :
  dataTransfersRun s = true -> Nat.even (List.length complete) = true ->
  outs (dvExplorerEventTranslator s (complete ++ [b]))
  = oddSizeAlert :: outs (dvExplorerEventTranslator s complete)
  /\ state (dvExplorerEventTranslator s (complete ++ [b]))
     = state (dvExplorerEventTranslator s complete)
  /\ ends (dvExplorerEventTranslator s (complete ++ [b]))
     = ends (dvExplorerEventTranslator s complete).
Proof.
  intros R E.
  rewrite (translator_odd s complete b R E), (translator_even s complete R E).
  unfold andThen, continueWith. cbn [ends state outs app]. auto.
Qed.

(** *** The sentinels of the big wraps *)

Lemma decoded_wraps_stamped s event s1 o1 r w :
  decoded s event s1 o1 r w -> ready s ->
  wrapsStamped (slotEvents (special (currentPackets s))) ->
  wrapsStamped (slotEvents (special (currentPackets s1))).
Proof.
  intros (pa & sa & ia & E & St & _) (_ & _ & Rs & _) W.
  destruct E as (_ & _ & _ & _ & _ & _ & _ & _ & Xs & _).
  destruct (Xs Rs) as (_ & X & _). rewrite X.
  apply Forall_app. split; [exact W |].
  eapply Forall_impl; [| exact St]. intros e (_ & Se). exact Se.
Qed.

Lemma token_wraps_stamped s event :
  consistent s -> wrapsStamped (slotEvents (special (currentPackets s))) ->
  Forall (fun c => wrapsStamped (slotEvents (specialSlot c)))
    (handed (outs (dvExplorerToken s event)))
  /\ (ends (dvExplorerToken s event) <> Diverges ->
      wrapsStamped
        (slotEvents (special (currentPackets (state (dvExplorerToken s event)))))).
Proof.
  intros C W.
  destruct (dv_prepare_allocates s) as (P & _).
  destruct P as (_ & _ & _ & _ & _ & _ & _ & _ & _ & _ & _ & _ & P13 & _).
  assert (W0 : wrapsStamped (slotEvents (special (currentPackets (state (prepare s)))))).
  { rewrite P13. exact W. }
  split.
  - apply Forall_forall. intros c I.
    destruct (token_handed s event c C I)
      as [(ovf & ->) | (s1 & o1 & r & w & E & D & Dd & C1 & Pe & ->)].
    + repeat constructor.
    + destruct (dv_committed_events s1 C1) as (_ & -> & _).
      apply (decoded_wraps_stamped _ _ _ _ _ _ Dd (dv_prepare_ready s E) W0).
  - intros N. destruct (token_cases s event C)
      as [(_ & _ & -> & _) | (s1 & o1 & r & w & E & D & Dd & R1 & C1 & Cases)];
      [exact W0 |].
    pose proof (decoded_wraps_stamped _ _ _ _ _ _ Dd (dv_prepare_ready s E) W0) as W1.
    destruct Cases as [(_ & -> & _) | [(_ & X & _) | (_ & _ & _ & Cf & _ & Q & _)]];
      [exact W1 | congruence |].
    destruct Cf as (_ & _ & C3 & _). rewrite Q in C3.
    destruct (slotEvents (special (currentPackets (state (dvExplorerToken s event)))));
      [constructor | simpl in C3; lia].
Qed.

Lemma wordLoop_wraps_stamped words : forall s,
  consistent s -> wrapsStamped (slotEvents (special (currentPackets s))) ->
  Forall (fun c => wrapsStamped (slotEvents (specialSlot c)))
    (handed (outs (wordLoop words s)))
  /\ (ends (wordLoop words s) <> Diverges ->
      wrapsStamped (slotEvents (special (currentPackets (state (wordLoop words s)))))).
Proof.
  induction words as [| event words IH]; intros s C W.
  - simpl. split; [constructor | intros _; exact W].
  - cbn [wordLoop]. rewrite dv_outs_andThen, dv_ends_andThen, dv_state_andThen.
    destruct (token_wraps_stamped s event C W) as (T1 & T2).
    destruct (ends (dvExplorerToken s event)) eqn:E.
    + destruct (IH (state (dvExplorerToken s event))) as (I1 & I2).
      * apply token_consistent; [exact C | congruence].
      * apply T2. discriminate.
      * split; [| exact I2]. rewrite handed_app. apply Forall_app. auto.
    + split; [exact T1 | intros _; apply T2; discriminate].
    + split; [exact T1 | intros N; congruence].
Qed.

(** Every special event of a timestamp wrap in a container that the
    translator hands over, or that it keeps in progress, carries
    [INT32_MAX]. *)
Lemma translator_wraps_stamped s buffer :
  consistent s -> wrapsStamped (slotEvents (special (currentPackets s))) ->
  Forall (fun c => wrapsStamped (slotEvents (specialSlot c)))
    (handed (outs (dvExplorerEventTranslator s buffer)))
  /\ (ends (dvExplorerEventTranslator s buffer) <> Diverges ->
      wrapsStamped
        (slotEvents (special (currentPackets
                                (state (dvExplorerEventTranslator s buffer)))))).
Proof.
  intros C W. destruct (dataTransfersRun s) eqn:R.
  - destruct (translator_words s buffer R) as (-> & -> & ->).
    apply wordLoop_wraps_stamped; assumption.
  - unfold dvExplorerEventTranslator. rewrite R. cbn.
    split; [constructor | intros _; exact W].
Qed.

End WithHeaders.

End DvFacts.

Import IntFacts RearmFacts OutFacts Edvs EdvsFacts.

(** ** The steps of the eDVS translator *)

Module EdvsSteps.
Section WithHeader.
Context `{edvs_h}.

(** *** The ways a step ends *)

(** The state a commit that ends leaves. *)
Lemma commit_afterCommit s r w d :
  consistent s -> ready s -> commitDue s r w = true -> rearmed s = Some d ->
  afterCommit s (state (commit s r w)).
Proof.
  intros C R Due Rk.
  destruct (commit_due_outs s r w d C R Due Rk) as (_ & _ & Cf & P0 & S0 & _).
  split; [apply commit_keepsClock |]. split; [exact Cf |].
  split; [exact P0 |]. split; [exact S0 |].
  rewrite (commit_due s r w d Due Rk), state_andThen, handOver_ends.
  destruct (movePackets_committed s (consistent_container s C R))
    as (_ & _ & _ & Mp & Ms & _).
  set (s1 := set_commitTimestamp d (movePackets s)).
  assert (Ep : currentPolarityPacket s1 = currentPolarityPacket (movePackets s))
    by reflexivity.
  assert (Es : currentSpecialPacket s1 = currentSpecialPacket (movePackets s))
    by reflexivity.
  pose proof (handOver_state s1 (negb (pending s))) as Hh. cbv zeta in Hh.
  destruct Hh as (_ & Hp & _ & Hs & _).
  destruct r.
  - pose proof (commitReset_state (state (handOver s1 (negb (pending s))))) as Hr.
    cbv zeta in Hr. destruct Hr as (_ & Rp & _ & Rs & _).
    rewrite Rp, Rs, Hp, Hs, Ep, Es, Mp, Ms. split; reflexivity.
  - cbn [state continue]. rewrite Hp, Hs, Ep, Es, Mp, Ms. split; reflexivity.
Qed.

(** The three ways a step on a token ends: a failed allocation returns
    with one critical log; otherwise the token is decoded and either no
    commit is due, or the re-arming of the commit never ends, or the
    commit hands over what is pending and, after a reset, the reset
    container when it can be allocated. *)
Lemma edvsToken_cases s y x t1 t2 :
  consistent s ->
  (ends (prepare s) = Returned
   /\ ends (edvsToken s y x t1 t2) = Returned
   /\ state (edvsToken s y x t1 t2) = state (prepare s)
   /\ exists m, outs (edvsToken s y x t1 t2) = [Log CAER_LOG_CRITICAL m])
  \/ exists s1 o1 r w,
       ends (prepare s) = Continue
       /\ decode (state (prepare s)) y x t1 t2 = (s1, o1, r, w)
       /\ ready s1 /\ consistent s1 /\ handed o1 = []
       /\ ((commitDue s1 r w = false
            /\ state (edvsToken s y x t1 t2) = s1
            /\ outs (edvsToken s y x t1 t2) = o1
            /\ ends (edvsToken s y x t1 t2) = Continue)
           \/ (commitDue s1 r w = true
               /\ ends (edvsToken s y x t1 t2) = Diverges
               /\ outs (edvsToken s y x t1 t2) = o1)
           \/ (commitDue s1 r w = true
               /\ ends (edvsToken s y x t1 t2) <> Diverges
               /\ afterCommit s1 (state (edvsToken s y x t1 t2))
               /\ exists o2,
                    outs (edvsToken s y x t1 t2)
                    = o1
                      ++ handOverOuts (committed s1) (negb (pending s1))
                           (fst (request (exchangePuts s1)))
                      ++ o2
                    /\ (handed o2 = []
                        \/ exists ovf,
                             o2 = [ExchangePutForce (tsResetContainer ovf)]))).
Proof.
  intros C. destruct (prepare_allocates s) as (_ & N & O & Rt & _).
  destruct (ends (prepare s)) eqn:E; [| | congruence].
  - right.
    destruct (decode (state (prepare s)) y x t1 t2) as [[[s1 o1] r] w] eqn:D.
    exists s1, o1, r, w.
    destruct (decode_consistent _ _ _ _ _ _ _ _ _ D (prepare_ready s E)
                (prepare_consistent s C)) as (R1 & C1 & _).
    pose proof (decode_outs _ _ _ _ _ _ _ _ _ D) as Ho.
    split; [reflexivity |]. split; [reflexivity |].
    split; [exact R1 |]. split; [exact C1 |]. split; [exact Ho |].
    rewrite (edvsToken_process s _ _ _ _ E). cbn [state outs ends].
    destruct (process_spec _ _ _ _ _ _ _ _ _ D) as (-> & -> & ->).
    destruct (commitDue s1 r w) eqn:Due.
    + destruct (rearmed s1) as [d |] eqn:Rk.
      * right. right. split; [reflexivity |].
        destruct (commit_deadline s1 r w d Due Rk) as (_ & Nd).
        split; [exact Nd |].
        split; [apply (commit_afterCommit s1 r w d C1 R1 Due Rk) |].
        destruct (commit_due_outs s1 r w d C1 R1 Due Rk) as (Oc & _).
        rewrite Oc. eexists. split; [reflexivity |].
        destruct r; [| left; reflexivity].
        match goal with
        | |- context [commitReset ?a] =>
            destruct (commitReset_outs a) as [(-> & _) | (Hh & _)]
        end.
        -- right. eexists. reflexivity.
        -- left. exact Hh.
      * right. left. rewrite (commit_hangs s1 r w Due Rk). cbn [ends outs].
        rewrite app_nil_r. auto.
    + left. rewrite (commit_not_due s1 r w Due). cbn [state outs ends continue].
      rewrite app_nil_r. auto.
  - left. split; [reflexivity |].
    unfold edvsToken, andThen. rewrite E.
    split; [exact E |]. split; [reflexivity |]. apply Rt. reflexivity.
Qed.

(** The containers a step hands over: the reset container, or the one
    filled from the state the decoding of the token leaves. *)
Lemma edvsToken_handed s y x t1 t2 c :
  consistent s -> In c (handed (outs (edvsToken s y x t1 t2))) ->
  (exists ovf, c = tsResetContainer ovf)
  \/ exists s1 o1 r w,
       ends (prepare s) = Continue
       /\ decode (state (prepare s)) y x t1 t2 = (s1, o1, r, w)
       /\ ready s1 /\ consistent s1 /\ pending s1 = true /\ c = committed s1.
Proof.
  intros C I. destruct (edvsToken_cases s y x t1 t2 C)
    as [(_ & _ & _ & m & O) | (s1 & o1 & r & w & E & D & R1 & C1 & Ho & Cases)].
  - rewrite O in I. destruct I.
  - destruct Cases as [(_ & _ & O & _) | [(_ & _ & O) | (_ & _ & _ & o2 & O & H2)]];
      rewrite O in I; try (rewrite Ho in I; destruct I).
    rewrite !handed_app, Ho in I. cbn [app] in I.
    apply in_app_or in I. destruct I as [I | I].
    + right. exists s1, o1, r, w.
      unfold handOverOuts in I. destruct (pending s1) eqn:Pe; cbn [negb] in I.
      * destruct (fst (request (exchangePuts s1))); cbn in I;
          destruct I as [<- | []]; auto 10.
      * destruct I.
    + destruct H2 as [H2 | (ovf & ->)]; [rewrite H2 in I; destruct I |].
      left. exists ovf. destruct I as [<- | []]. reflexivity.
Qed.

End WithHeader.

(** *** Invariants of the translator *)

(** A property [I] of the states between two steps is kept by the
    translator, and a property [G] holds of every container handed over,
    once they are shown for the parts of a step: the allocations at its
    head (after which [P] holds), the decoding of the token (after which
    [J] holds, as long as the decoding logs nothing that [bad] flags;
    [J] is told whether the token was a timestamp reset or a big wrap)
    and the commit. *)
Section Invariant.
Context `{edvs_h}.
Variables I P : edvs_state -> Prop.
Variable J : edvs_state -> bool -> bool -> Prop.
Variable G : container -> Prop.
Variable bad : out -> bool.
Hypothesis prepare_returns :
  forall s, consistent s -> I s -> I (state (prepare s)).
Hypothesis prepare_continues :
  forall s, consistent s -> I s -> ends (prepare s) = Continue ->
            P (state (prepare s)).
Hypothesis decodes :
  forall s y x t1 t2 s1 o r w,
    ready s -> consistent s -> P s -> decode s y x t1 t2 = (s1, o, r, w) ->
    existsb bad o = false -> J s1 r w.
Hypothesis kept :
  forall s1, consistent s1 -> J s1 false false ->
             commitDue s1 false false = false -> I s1.
Hypothesis committed_good :
  forall s1 r w, consistent s1 -> J s1 r w -> G (committed s1).
Hypothesis commits :
  forall s1 s2 r w, consistent s1 -> J s1 r w -> afterCommit s1 s2 -> I s2.
Hypothesis reset_good : forall ovf, G (tsResetContainer ovf).

Lemma existsb_app_false {A} (f : A -> bool) l1 l2 :
  existsb f (l1 ++ l2) = false -> existsb f l1 = false /\ existsb f l2 = false.
Proof. rewrite existsb_app. apply orb_false_iff. Qed.

Lemma edvsToken_invariant s y x t1 t2 :
  consistent s -> I s -> existsb bad (outs (edvsToken s y x t1 t2)) = false ->
  Forall G (handed (outs (edvsToken s y x t1 t2)))
  /\ (ends (edvsToken s y x t1 t2) <> Diverges ->
      I (state (edvsToken s y x t1 t2))).
Proof.
  intros C Hi B.
  destruct (edvsToken_cases s y x t1 t2 C)
    as [(_ & _ & St & m & O) | (s1 & o1 & r & w & E & D & R1 & C1 & Ho & Cases)].
  - rewrite O, St. split; [constructor | intros _].
    apply prepare_returns; assumption.
  - assert (B1 : existsb bad o1 = false).
    { destruct Cases as [(_ & _ & O & _) | [(_ & _ & O) | (_ & _ & _ & o2 & O & _)]];
        rewrite O in B; [exact B | exact B |].
      apply existsb_app_false in B. apply B. }
    assert (Hj : J s1 r w).
    { apply (decodes (state (prepare s)) y x t1 t2 s1 o1 r w); auto.
      - apply prepare_ready. exact E.
      - apply prepare_consistent. exact C. }
    split.
    + apply Forall_forall. intros c Ic.
      destruct (edvsToken_handed s y x t1 t2 c C Ic)
        as [(ovf & ->) | (s1' & o1' & r' & w' & _ & D' & _ & _ & _ & ->)].
      * apply reset_good.
      * rewrite D in D'. injection D' as <- _ _ _.
        apply (committed_good s1 r w); assumption.
    + destruct Cases as [(Nd & -> & _) | [(_ & X & _) | (_ & _ & Ac & _)]].
      * intros _. destruct r; [discriminate |]. destruct w; [discriminate |].
        apply kept; assumption.
      * intros Nd. congruence.
      * intros _. apply (commits s1 _ r w); assumption.
Qed.

Lemma decodeLoop_invariant n : forall buffer s,
  (List.length buffer <= n)%nat -> consistent s -> I s ->
  existsb bad (outs (decodeLoop buffer s)) = false ->
  Forall G (handed (outs (decodeLoop buffer s)))
  /\ (ends (decodeLoop buffer s) <> Diverges -> I (state (decodeLoop buffer s))).
Proof.
  induction n as [| n IH]; intros buffer s L C Hi B.
  - destruct buffer; [split; [constructor | intros _; exact Hi] | simpl in L; lia].
  - destruct buffer as [| y rest]; [split; [constructor | intros _; exact Hi] |].
    simpl in L. cbn [decodeLoop] in *.
    destruct (negb (Z.land y HIGH_BIT_MASK =? HIGH_BIT_MASK)).
    + rewrite outs_andThen, ends_andThen, state_andThen in *.
      cbn [ends state outs] in *. cbn [app handed].
      apply IH; [lia | exact C | exact Hi |].
      cbn [app existsb] in B. apply orb_false_iff in B. apply B.
    + destruct rest as [| x [| t1 [| t2 rest']]];
        try (split; [constructor | intros _; exact Hi]).
      rewrite outs_andThen, ends_andThen, state_andThen in *.
      destruct (ends (edvsToken s y x t1 t2)) eqn:E.
      * apply existsb_app_false in B. destruct B as (B1 & B2).
        destruct (edvsToken_invariant s y x t1 t2 C Hi B1) as (F1 & K1).
        destruct (IH rest' (state (edvsToken s y x t1 t2))) as (F2 & K2);
          [simpl in L; lia | | | exact B2 |].
        -- apply edvsToken_consistent; [exact C | congruence].
        -- apply K1. congruence.
        -- split; [| exact K2]. rewrite handed_app. apply Forall_app. auto.
      * destruct (edvsToken_invariant s y x t1 t2 C Hi B) as (F1 & K1).
        split; [exact F1 | intros _; apply K1; congruence].
      * destruct (edvsToken_invariant s y x t1 t2 C Hi B) as (F1 & K1).
        split; [exact F1 | intros Nd; congruence].
Qed.

Lemma translator_invariant s buffer :
  consistent s -> I s ->
  existsb bad (outs (edvsEventTranslator s buffer)) = false ->
  Forall G (handed (outs (edvsEventTranslator s buffer)))
  /\ (ends (edvsEventTranslator s buffer) <> Diverges ->
      I (state (edvsEventTranslator s buffer))).
Proof.
  intros C Hi. unfold edvsEventTranslator.
  destruct (serialThreadRun s); cbn [negb].
  - apply (decodeLoop_invariant _ buffer s (le_n _) C Hi).
  - intros _. split; [constructor | intros _; exact Hi].
Qed.

End Invariant.
End EdvsSteps.

(** ** The packets of the eDVS translator *)

Module EdvsPackets.
Import EdvsSteps.
Section WithHeader.
Context `{edvs_h}.

(** *** What the parts of a step do to the packets *)

Lemma andThen_stops r k : ends r <> Continue -> andThen r k = r.
Proof. unfold andThen. destruct (ends r); congruence. Qed.

Lemma spacious_roomy {E} (p : option (packet E)) : spacious p -> roomy p.
Proof. destruct p as [pk |]; simpl; [lia | auto]. Qed.

Lemma spacious_write {E} (p : option (packet E)) e : spacious p -> roomy (write p e).
Proof.
  destruct p as [pk |]; simpl; [| auto]. rewrite length_app. simpl. lia.
Qed.

(** The decoding of a token has one of three effects.  A timestamp
    reset and a big wrap zero the timestamps and leave the polarity
    packet alone; the big wrap writes its sentinel.  Any other token
    updates the timestamps, checks them, leaves the special packet alone
    and writes at most one polarity event, stamped with the timestamp just
    rebuilt and addressed within the array. *)
Lemma decode_effect s y x t1 t2 s1 o r w :
  decode s y x t1 t2 = (s1, o, r, w) ->
  maxPacketContainerPacketSize s1 = maxPacketContainerPacketSize s
  /\ ((r = true /\ w = false
       /\ timestamps s1 = clockAtZero 0
       /\ currentPolarityPacket s1 = currentPolarityPacket s
       /\ currentSpecialPacket s1 = currentSpecialPacket s)
      \/ (r = false /\ w = true
          /\ timestamps s1 = clockAtZero (I32T (wrapOverflow (timestamps s) + 1))
          /\ currentPolarityPacket s1 = currentPolarityPacket s
          /\ currentSpecialPacket s1
             = write (currentSpecialPacket s)
                 {| spcTimestamp := INT32_MAX; spcType := TIMESTAMP_WRAP |})
      \/ (r = false /\ w = false
          /\ bigWrapOf s t1 t2 = false
          /\ timestamps s1 = updated (timestamps s) (shortTSOf t1 t2)
          /\ currentSpecialPacket s1 = currentSpecialPacket s
          /\ (exists o2, o = checkMonotonicTimestamp s1 ++ o2)
          /\ (currentPolarityPacket s1 = currentPolarityPacket s
              \/ exists e,
                   currentPolarityPacket s1 = write (currentPolarityPacket s) e
                   /\ polTimestamp e = current (timestamps s1)
                   /\ inArray e))).
Proof.
  destruct (dvsTSReset s) eqn:Rs.
  - rewrite (decode_reset s y x t1 t2 Rs). intros D. injection D as <- _ <- <-.
    match goal with
    | |- context [initContainerCommitTimestamp ?a] =>
        destruct (initContainerCommitTimestamp_packets a) as (_ & -> & _ & -> & _);
        destruct (initContainerCommitTimestamp_keepsClock a) as (-> & _ & _ & -> & _)
    end.
    split; [reflexivity |]. left. repeat split.
  - destruct (bigWrapOf s t1 t2) eqn:W.
    + rewrite (decode_big_wrap s y x t1 t2 Rs W). intros D.
      injection D as <- _ <- <-. split; [reflexivity |]. right. left. repeat split.
    + unfold decode. rewrite Rs. pose proof W as W'.
      unfold bigWrapOf, tsWrapOf in W. rewrite W.
      match goal with
      | |- context [initContainerCommitTimestamp ?a] =>
          set (s0 := initContainerCommitTimestamp a);
          destruct (initContainerCommitTimestamp_packets a)
            as (_ & Ip & _ & Is & _);
          destruct (initContainerCommitTimestamp_keepsClock a)
            as (It & _ & _ & Im & _)
      end.
      fold s0 in Ip, Is, It, Im.
      cbn [currentPolarityPacket currentSpecialPacket set_timestamps timestamps
           maxPacketContainerPacketSize] in Ip, Is, It, Im.
      unfold decodePolarity.
      destruct ((U8T (Z.land x LOW_BITS_MASK) <? EDVS_ARRAY_SIZE_X)
                && (U8T (Z.land y LOW_BITS_MASK) <? EDVS_ARRAY_SIZE_Y)) eqn:In;
        intros D; injection D as <- <- <- <-.
      * apply andb_true_iff in In. destruct In as (Ix & Iy).
        apply Z.ltb_lt in Ix, Iy.
        pose proof (U8T_range (Z.land x LOW_BITS_MASK)).
        pose proof (U8T_range (Z.land y LOW_BITS_MASK)).
        cbn [maxPacketContainerPacketSize set_polarity timestamps
             currentPolarityPacket currentSpecialPacket].
        split; [exact Im |]. right. right.
        split; [reflexivity |]. split; [reflexivity |]. split; [reflexivity |].
        split; [exact It |]. split; [exact Is |].
        split; [eexists; reflexivity |]. right.
        eexists. rewrite Ip. split; [reflexivity |].
        unfold inArray. cbn [polTimestamp polX polY]. repeat split; lia.
      * split; [exact Im |]. right. right.
        split; [reflexivity |]. split; [reflexivity |]. split; [reflexivity |].
        split; [exact It |]. split; [exact Is |].
        split; [eexists; reflexivity |]. left. exact Ip.
Qed.

(** The allocations at the head of a step keep the events within the
    capacities, and make room for one more event when they succeed. *)
Lemma allocateContainer_packets s :
  currentPolarityPacket (state (allocateContainer s)) = currentPolarityPacket s
  /\ currentSpecialPacket (state (allocateContainer s)) = currentSpecialPacket s.
Proof.
  unfold allocateContainer. destruct (currentPacketContainer s); [split; reflexivity |].
  unfold caerEventPacketContainerAllocate. destruct (request (allocations s)) as ([|] & env);
    split; reflexivity.
Qed.

Ltac room Ep :=
  cbn [state ends currentPolarityPacket currentSpecialPacket set_polarity
       set_special set_allocations continue returnWith];
  try rewrite Ep;
  cbn [roomy spacious eventCapacity events List.length];
  repeat split;
  try discriminate;
  try match goal with |- Continue = Continue -> _ => intros _ end;
  simpl; lia.

Lemma allocatePolarity_room s :
  0 < EDVS_POLARITY_DEFAULT_SIZE ->
  currentPolarityPacketPosition s
  = Z.of_nat (List.length (slotEvents (currentPolarityPacket s))) ->
  roomy (currentPolarityPacket s) ->
  roomy (currentPolarityPacket (state (allocatePolarity s)))
  /\ currentSpecialPacket (state (allocatePolarity s)) = currentSpecialPacket s
  /\ (ends (allocatePolarity s) = Continue ->
      spacious (currentPolarityPacket (state (allocatePolarity s)))).
Proof.
  intros D. unfold allocatePolarity.
  destruct (currentPolarityPacket s) as [p |] eqn:Ep.
  - cbn [slotEvents roomy]. intros Pos (Cp & Le).
    destruct (currentPolarityPacketPosition s >=? eventCapacity p) eqn:Full.
    + unfold caerEventPacketGrow. apply Z.geb_le in Full.
      destruct (request (allocations s)) as ([|] & env); room Ep.
    + rewrite Z.geb_leb in Full. apply Z.leb_gt in Full. room Ep.
  - intros _ _. unfold caerEventPacketAllocate.
    destruct (request (allocations s)) as ([|] & env); room Ep.
Qed.

Lemma allocateSpecial_room s :
  0 < EDVS_SPECIAL_DEFAULT_SIZE ->
  currentSpecialPacketPosition s
  = Z.of_nat (List.length (slotEvents (currentSpecialPacket s))) ->
  roomy (currentSpecialPacket s) ->
  roomy (currentSpecialPacket (state (allocateSpecial s)))
  /\ currentPolarityPacket (state (allocateSpecial s)) = currentPolarityPacket s
  /\ (ends (allocateSpecial s) = Continue ->
      spacious (currentSpecialPacket (state (allocateSpecial s)))).
Proof.
  intros D. unfold allocateSpecial.
  destruct (currentSpecialPacket s) as [p |] eqn:Ep.
  - cbn [slotEvents roomy]. intros Pos (Cp & Le).
    destruct (currentSpecialPacketPosition s >=? eventCapacity p) eqn:Full.
    + unfold caerEventPacketGrow. apply Z.geb_le in Full.
      destruct (request (allocations s)) as ([|] & env); room Ep.
    + rewrite Z.geb_leb in Full. apply Z.leb_gt in Full. room Ep.
  - intros _ _. unfold caerEventPacketAllocate.
    destruct (request (allocations s)) as ([|] & env); room Ep.
Qed.

(** The allocations as a whole. *)
Lemma prepare_room s :
  0 < EDVS_POLARITY_DEFAULT_SIZE -> 0 < EDVS_SPECIAL_DEFAULT_SIZE ->
  consistent s ->
  roomy (currentPolarityPacket s) -> roomy (currentSpecialPacket s) ->
  roomy (currentPolarityPacket (state (prepare s)))
  /\ roomy (currentSpecialPacket (state (prepare s)))
  /\ (ends (prepare s) = Continue ->
      spacious (currentPolarityPacket (state (prepare s)))
      /\ spacious (currentSpecialPacket (state (prepare s)))).
Proof.
  intros Dp Ds C Rp Rs.
  assert (Ac : allocates allocateContainer) by apply allocateContainer_allocates.
  destruct (Ac s) as (Sc & _).
  destruct (allocateContainer_packets s) as (Pc & Sp).
  set (s1 := state (allocateContainer s)) in *.
  destruct C as (_ & P0 & S0).
  assert (P1 : currentPolarityPacketPosition s1
               = Z.of_nat (List.length (slotEvents (currentPolarityPacket s1)))).
  { destruct Sc as (_ & _ & _ & _ & _ & _ & -> & _). rewrite Pc. exact P0. }
  assert (S1 : currentSpecialPacketPosition s1
               = Z.of_nat (List.length (slotEvents (currentSpecialPacket s1)))).
  { destruct Sc as (_ & _ & _ & _ & _ & _ & _ & -> & _). rewrite Sp. exact S0. }
  destruct (allocatePolarity_room s1 Dp P1) as (Rp2 & Sp2 & Fp2);
    [rewrite Pc; exact Rp |].
  assert (Ap : allocates allocatePolarity) by apply allocatePolarity_allocates.
  destruct (Ap s1) as (Sc2 & _).
  set (s2 := state (allocatePolarity s1)) in *.
  assert (S2 : currentSpecialPacketPosition s2
               = Z.of_nat (List.length (slotEvents (currentSpecialPacket s2)))).
  { rewrite Sp2. destruct Sc2 as (_ & _ & _ & _ & _ & _ & _ & -> & _). exact S1. }
  destruct (allocateSpecial_room s2 Ds S2) as (Rs3 & Pp3 & Fs3);
    [rewrite Sp2, Sp; exact Rs |].
  unfold prepare.
  destruct (ends (allocateContainer s)) eqn:E1.
  - rewrite state_andThen, ends_andThen, E1. fold s1.
    destruct (ends (allocatePolarity s1)) eqn:E2.
    + rewrite state_andThen, ends_andThen, E2. fold s2.
      rewrite Pp3. repeat split; auto.
    + rewrite andThen_stops by congruence. rewrite E2. fold s2. rewrite Sp2, Sp.
      repeat split; auto; discriminate.
    + rewrite andThen_stops by congruence. rewrite E2. fold s2. rewrite Sp2, Sp.
      repeat split; auto; discriminate.
  - rewrite andThen_stops by congruence. rewrite E1. fold s1. rewrite Pc, Sp.
    repeat split; auto; discriminate.
  - rewrite andThen_stops by congruence. rewrite E1. fold s1. rewrite Pc, Sp.
    repeat split; auto; discriminate.
Qed.

(** What the allocations keep. *)
Lemma prepare_events s :
  slotEvents (currentPolarityPacket (state (prepare s)))
  = slotEvents (currentPolarityPacket s)
  /\ slotEvents (currentSpecialPacket (state (prepare s)))
     = slotEvents (currentSpecialPacket s)
  /\ timestamps (state (prepare s)) = timestamps s
  /\ maxPacketContainerPacketSize (state (prepare s))
     = maxPacketContainerPacketSize s.
Proof.
  destruct (prepare_allocates s) as (P & _). unfold sameButPackets in P.
  destruct P as (_ & _ & Pm & _ & Pt & _ & _ & _ & _ & Pp & Ps & _).
  auto.
Qed.

Lemma Forall_write {E} (Q : E -> Prop) (p : option (packet E)) e :
  Forall Q (slotEvents p) -> Q e -> Forall Q (slotEvents (write p e)).
Proof.
  destruct p as [pk |]; simpl; [| constructor].
  intros F Qe. apply Forall_app. split; [exact F | constructor; [exact Qe | constructor]].
Qed.

Lemma ascending_app l e :
  ascending l -> Forall (fun e' => polTimestamp e' <= polTimestamp e) l ->
  ascending (l ++ [e]).
Proof.
  induction l as [| a l IH]; simpl.
  - intros _ _. split; [constructor | exact Logic.I].
  - intros (Fa & Al) Fe. inversion Fe as [| ? ? Ha Fl]; subst.
    split; [| apply IH; assumption].
    apply Forall_app. split; [exact Fa | constructor; [exact Ha | constructor]].
Qed.

Lemma ascending_write p e :
  ascending (slotEvents p) ->
  Forall (fun e' => polTimestamp e' <= polTimestamp e) (slotEvents p) ->
  ascending (slotEvents (write p e)).
Proof.
  destruct p as [pk |]; simpl; [| auto]. apply ascending_app.
Qed.

Lemma length_write_le {E} (p : option (packet E)) e :
  Z.of_nat (List.length (slotEvents (write p e)))
  <= Z.of_nat (List.length (slotEvents p)) + 1.
Proof.
  destruct p as [pk |]; simpl; [| lia]. rewrite length_app. simpl. lia.
Qed.

(** The events of the container a commit fills, and of the packets it
    leaves, in terms of the packets in progress. *)
Lemma committed_slots s :
  (slotEvents (polaritySlot (committed s)) = []
   \/ polaritySlot (committed s) = currentPolarityPacket s)
  /\ (slotEvents (specialSlot (committed s)) = []
      \/ specialSlot (committed s) = currentSpecialPacket s)
  /\ imu6Slot (committed s) = None.
Proof.
  unfold committed. cbn [polaritySlot specialSlot imu6Slot].
  destruct (currentPolarityPacketPosition s >? 0),
           (currentSpecialPacketPosition s >? 0); auto.
Qed.

Lemma afterCommit_events s s' :
  consistent s -> afterCommit s s' ->
  slotEvents (currentPolarityPacket s') = []
  /\ slotEvents (currentSpecialPacket s') = [].
Proof.
  intros _ (_ & (_ & Cp & Cs) & Pp & Ps & _).
  rewrite Pp in Cp. rewrite Ps in Cs.
  split; apply length_zero_iff_nil; lia.
Qed.

End WithHeader.
End EdvsPackets.

(** ** The eDVS stream cut into buffers *)

Module EdvsBuffers.

Section WithHeader.
Context `{edvs_h}.

(** *** The run flag *)

Lemma decode_run s y x t1 t2 :
  serialThreadRun (fst (fst (fst (decode s y x t1 t2)))) = serialThreadRun s.
Proof.
  unfold decode. destruct (dvsTSReset s).
  - cbn [fst].
    match goal with
    | |- context [initContainerCommitTimestamp ?a] =>
        destruct (initContainerCommitTimestamp_keepsClock a) as (_ & _ & -> & _)
    end.
    reflexivity.
  - match goal with
    | |- context [if ?b then _ else _] => destruct b
    end; [reflexivity |].
    match goal with
    | |- context [decodePolarity ?a y x] =>
        pose proof (decodePolarity_keepsClock a y x) as K;
        destruct (decodePolarity a y x) as [s' o2]
    end.
    cbn [fst] in *. destruct K as (_ & _ & -> & _).
    match goal with
    | |- context [initContainerCommitTimestamp ?a] =>
        destruct (initContainerCommitTimestamp_keepsClock a) as (_ & _ & -> & _)
    end.
    reflexivity.
Qed.

Lemma edvsToken_run s y x t1 t2 :
  serialThreadRun (state (edvsToken s y x t1 t2)) = serialThreadRun s.
Proof.
  destruct (prepare_allocates s) as ((Pr & _) & _).
  unfold edvsToken. rewrite state_andThen.
  destruct (ends (prepare s)); try exact Pr.
  destruct (decode (state (prepare s)) y x t1 t2) as [[[s1 o] r] w] eqn:D.
  destruct (process_keepsClock _ _ _ _ _ _ _ _ _ D) as (_ & _ & -> & _).
  pose proof (decode_run (state (prepare s)) y x t1 t2) as K.
  rewrite D in K. cbn [fst] in K. congruence.
Qed.

Lemma decodeLoop_run n : forall buffer s,
  (List.length buffer <= n)%nat ->
  serialThreadRun (state (decodeLoop buffer s)) = serialThreadRun s.
Proof.
  induction n as [| n IH]; intros buffer s L.
  - destruct buffer; [reflexivity | simpl in L; lia].
  - destruct buffer as [| y rest]; [reflexivity |].
    simpl in L. cbn [decodeLoop].
    destruct (negb (Z.land y HIGH_BIT_MASK =? HIGH_BIT_MASK)).
    + rewrite state_andThen. cbn [ends state]. apply IH. lia.
    + destruct rest as [| x [| t1 [| t2 rest']]]; try reflexivity.
      rewrite state_andThen.
      destruct (ends (edvsToken s y x t1 t2)); try apply edvsToken_run.
      rewrite IH by (simpl in L; lia). apply edvsToken_run.
Qed.

(** *** A stream cut into buffers *)

Lemma edvs_andThen_assoc (r : result) (f g : edvs_state -> result) :
  andThen (andThen r f) g = andThen r (fun s => andThen (f s) g).
Proof.
  destruct r as [s o e]. unfold andThen. cbn [ends state outs].
  destruct e; cbn [ends state outs]; try reflexivity.
  destruct (f s) as [s' o' e']. cbn [ends state outs].
  destruct e'; cbn [ends state outs]; try reflexivity.
  rewrite app_assoc. reflexivity.
Qed.

Lemma edvs_andThen_ext r k k' :
  (forall s, k s = k' s) -> andThen r k = andThen r k'.
Proof. intros E. unfold andThen. rewrite E. reflexivity. Qed.

(** The loop on pieces that are tokens or stray bytes, and on what
    follows them. *)
Lemma decodeLoop_pieces pieces : forall rest s,
  Forall (fun t => token t \/ stray t) pieces ->
  decodeLoop (List.concat pieces ++ rest) s
  = andThen (decodeLoop (List.concat pieces) s) (decodeLoop rest).
Proof.
  induction pieces as [| t pieces IH]; intros rest s F.
  - cbn [List.concat app decodeLoop]. unfold andThen, continue. cbn [ends state outs app].
    destruct (decodeLoop rest s); reflexivity.
  - inversion F as [| ? ? [(y & x & t1 & t2 & -> & Hy) | (b & -> & Hb)] F']; subst.
    + cbn [List.concat app]. rewrite !decodeLoop_token by assumption.
      rewrite edvs_andThen_assoc. apply edvs_andThen_ext. intros s'. apply IH. exact F'.
    + cbn [List.concat app decodeLoop].
      apply Z.eqb_neq in Hb. rewrite Hb. cbn [negb].
      rewrite edvs_andThen_assoc. apply edvs_andThen_ext. intros s'. apply IH. exact F'.
Qed.

Lemma translator_pieces s pieces rest :
  serialThreadRun s = true ->
  Forall (fun t => token t \/ stray t) pieces ->
  edvsEventTranslator s (List.concat pieces ++ rest)
  = andThen (edvsEventTranslator s (List.concat pieces))
      (fun s' => edvsEventTranslator s' rest).
Proof.
  intros R F. unfold edvsEventTranslator at 1 2. rewrite R. cbn [negb].
  rewrite (decodeLoop_pieces pieces rest s F).
  unfold andThen. destruct (ends (decodeLoop (List.concat pieces) s)); try reflexivity.
  unfold edvsEventTranslator.
  rewrite (decodeLoop_run _ _ s (le_n _)), R. reflexivity.
Qed.

End WithHeader.
End EdvsBuffers.

(** ** The eDVS device functions *)

Module EdvsDeviceFacts.
Import EdvsDevice.

Section WithHeaders.
Context `{edvs_h} `{edvs_config_h}.

(** *** Serial writes *)

Lemma sameButWrites_refl d : sameButWrites d d.
Proof. unfold sameButWrites. repeat split. Qed.

Lemma sameButWrites_trans d1 d2 d3 :
  sameButWrites d1 d2 -> sameButWrites d2 d3 -> sameButWrites d1 d3.
Proof.
  unfold sameButWrites.
  intros (A1 & A2 & A3 & A4 & A5 & A6 & A7) (B1 & B2 & B3 & B4 & B5 & B6 & B7).
  repeat split; congruence.
Qed.

Lemma sameButWrites_set d env : sameButWrites d (set_serialWrites env d).
Proof. unfold sameButWrites. repeat split. Qed.

Lemma allWritten_request n env :
  allWritten (S n) env
  = fst (request env) && allWritten n (snd (request env)).
Proof.
  unfold allWritten. destruct env as [| ok env]; [destruct n; reflexivity |].
  reflexivity.
Qed.

Lemma attempted_all cmds : forall env,
  allWritten (List.length cmds) env = true -> attempted cmds env = cmds.
Proof.
  induction cmds as [| c cmds IH]; intros env A; [reflexivity |].
  cbn [List.length] in A. rewrite allWritten_request in A.
  apply andb_true_iff in A. destruct A as (A1 & A2).
  cbn [attempted]. destruct (request env) as [ok env']. cbn [fst snd] in *.
  subst ok. rewrite (IH env' A2). reflexivity.
Qed.

Lemma attempted_app cmds : forall more env,
  attempted (cmds ++ more) env
  = if allWritten (List.length cmds) env
    then cmds ++ attempted more (skipn (List.length cmds) env)
    else attempted cmds env.
Proof.
  induction cmds as [| c cmds IH]; intros more env; [reflexivity |].
  cbn [app attempted List.length]. rewrite allWritten_request.
  destruct env as [| ok env]; cbn [request fst snd skipn andb].
  - rewrite IH. unfold allWritten. rewrite firstn_nil. cbn [forallb].
    rewrite skipn_nil. reflexivity.
  - destruct ok; cbn [andb]; [| reflexivity].
    rewrite IH. destruct (allWritten (List.length cmds) env); reflexivity.
Qed.

Lemma skipn_request n env :
  skipn (S n) env = skipn n (snd (request env)).
Proof. destruct env; [rewrite !skipn_nil |]; reflexivity. Qed.

(** The loop over the biases: it tries the commands of the biases in
    order, up to the first write that fails. *)
Lemma sendBiasLoop_spec n : forall i d,
  let cmds := map (biasCommand d) (map (fun k => i + Z.of_nat k) (seq 0 n)) in
  sameButWrites d (fst (fst (sendBiasLoop n i d)))
  /\ snd (fst (sendBiasLoop n i d))
     = map SerialWrite (attempted cmds (serialWrites d))
  /\ snd (sendBiasLoop n i d) = allWritten n (serialWrites d)
  /\ (allWritten n (serialWrites d) = true ->
      serialWrites (fst (fst (sendBiasLoop n i d))) = skipn n (serialWrites d)).
Proof.
  induction n as [| n IH]; intros i d cmds.
  - cbn. split; [apply sameButWrites_refl |]. repeat split.
  - subst cmds. cbn [sendBiasLoop seq map attempted].
    rewrite allWritten_request, skipn_request, Z.add_0_r.
    unfold serialPortWrite. fold (biasCommand d i).
    destruct (request (serialWrites d)) as [ok env]. cbn [fst snd].
    destruct ok; cbn [andb].
    + specialize (IH (i + 1) (set_serialWrites env d)).
      destruct IH as (S1 & O1 & R1 & W1).
      destruct (sendBiasLoop n (i + 1) (set_serialWrites env d)) as [[d2 o2] ok2].
      cbn [fst snd] in *.
      split; [eapply sameButWrites_trans; [apply sameButWrites_set | exact S1] |].
      split; [| split; [exact R1 | exact W1]].
      assert (E : map (biasCommand (set_serialWrites env d))
                    (map (fun k => i + 1 + Z.of_nat k) (seq 0 n))
                  = map (biasCommand d) (map (fun k => i + Z.of_nat k) (seq 1 n))).
      { rewrite <- seq_shift, !map_map. apply map_ext. intros k.
        unfold biasCommand. cbn [biases set_serialWrites].
        replace (i + Z.of_nat (S k)) with (i + 1 + Z.of_nat k) by lia.
        reflexivity. }
      rewrite O1, E. reflexivity.
    + cbn [fst snd]. split; [apply sameButWrites_set |].
      repeat split. discriminate.
Qed.

Lemma allWritten_last n : forall env,
  allWritten (n + 1) env = allWritten n env && fst (request (skipn n env)).
Proof.
  induction n as [| n IH]; intros env.
  - cbn [Nat.add skipn]. rewrite allWritten_request.
    unfold allWritten. cbn [firstn forallb]. rewrite andb_true_r. reflexivity.
  - cbn [Nat.add]. rewrite !allWritten_request, skipn_request, IH.
    apply andb_assoc.
Qed.

(** [edvsSendBiases] tries the commands of the biases and the flush
    command in order, up to the first write that fails, and returns
    whether every write succeeded. *)
Lemma edvsSendBiases_spec d biasID :
  (biasID = -1 /\ 0 <= BIAS_NUMBER < 2 ^ 64) \/ 0 <= biasID < 2 ^ 64 - 1 ->
  let cmds := map (biasCommand d) (biasIndices biasID) ++ [cmdFlushBiases] in
  sameButWrites d (fst (fst (edvsSendBiases d biasID)))
  /\ snd (fst (edvsSendBiases d biasID))
     = map SerialWrite (attempted cmds (serialWrites d))
  /\ snd (edvsSendBiases d biasID)
     = allWritten (List.length cmds) (serialWrites d).
Proof.
  intros Hb cmds.
  assert (E : exists n i,
             edvsSendBiases d biasID
             = (let '(d1, o1, ok) := sendBiasLoop n i d in
                if ok then
                  let '(d2, o2, ok2) := serialPortWrite d1 cmdFlushBiases in
                  (d2, o1 ++ o2, ok2)
                else (d1, o1, false))
             /\ biasIndices biasID = map (fun k => i + Z.of_nat k) (seq 0 n)).
  { unfold edvsSendBiases, biasIndices. destruct Hb as [(-> & Hn) | Hb].
    - exists (Z.to_nat BIAS_NUMBER), 0. cbn [Z.eqb Pos.eqb].
      rewrite (U64T_small BIAS_NUMBER Hn), Z.sub_0_r. split; [reflexivity |].
      apply map_ext. intros k. reflexivity.
    - exists 1%nat, biasID.
      assert (N : (biasID =? -1) = false) by (apply Z.eqb_neq; lia).
      rewrite N, !U64T_small by (rewrite ?U64T_small; lia).
      replace (biasID + 1 - biasID) with 1 by lia.
      split; [reflexivity |]. cbn. rewrite Z.add_0_r. reflexivity. }
  destruct E as (n & i & -> & Ei). subst cmds. rewrite Ei.
  destruct (sendBiasLoop_spec n i d) as (S1 & O1 & R1 & W1).
  set (cs := map (biasCommand d) (map (fun k => i + Z.of_nat k) (seq 0 n))) in *.
  assert (L : List.length cs = n)
    by (unfold cs; rewrite !length_map, length_seq; reflexivity).
  rewrite attempted_app, length_app, L.
  cbn [List.length]. rewrite allWritten_last.
  destruct (sendBiasLoop n i d) as [[d1 o1] ok]. cbn [fst snd] in *.
  subst ok. destruct (allWritten n (serialWrites d)) eqn:A.
  - unfold serialPortWrite. rewrite (W1 eq_refl).
    cbn [attempted andb].
    destruct (request (skipn n (serialWrites d))) as [ok env]. cbn [fst snd].
    split; [eapply sameButWrites_trans; [exact S1 | apply sameButWrites_set] |].
    split; [| reflexivity].
    rewrite O1, attempted_all by (rewrite L; exact A).
    rewrite map_app. destruct ok; reflexivity.
  - cbn [fst snd andb]. split; [exact S1 |]. split; [exact O1 | reflexivity].
Qed.

(** *** The switches of the configuration functions *)

Lemma isBiasParameter_In paramAddr :
  isBiasParameter paramAddr = true <-> In paramAddr biasParameters.
Proof.
  unfold isBiasParameter. rewrite existsb_exists. split.
  - intros (x & I & E). apply Z.eqb_eq in E. subst. exact I.
  - intros I. exists paramAddr. split; [exact I | apply Z.eqb_refl].
Qed.

(** The labels of the modules and of the parameters of a module are
    apart from one another. *)
Lemma labels_apart :
  labelsDistinct ->
  (CAER_HOST_CONFIG_SERIAL <> CAER_HOST_CONFIG_DATAEXCHANGE
   /\ CAER_HOST_CONFIG_SERIAL <> CAER_HOST_CONFIG_PACKETS
   /\ CAER_HOST_CONFIG_SERIAL <> CAER_HOST_CONFIG_LOG
   /\ CAER_HOST_CONFIG_SERIAL <> EDVS_CONFIG_DVS
   /\ CAER_HOST_CONFIG_SERIAL <> EDVS_CONFIG_BIAS)
  /\ (CAER_HOST_CONFIG_DATAEXCHANGE <> CAER_HOST_CONFIG_PACKETS
      /\ CAER_HOST_CONFIG_DATAEXCHANGE <> CAER_HOST_CONFIG_LOG
      /\ CAER_HOST_CONFIG_DATAEXCHANGE <> EDVS_CONFIG_DVS
      /\ CAER_HOST_CONFIG_DATAEXCHANGE <> EDVS_CONFIG_BIAS)
  /\ (CAER_HOST_CONFIG_PACKETS <> CAER_HOST_CONFIG_LOG
      /\ CAER_HOST_CONFIG_PACKETS <> EDVS_CONFIG_DVS
      /\ CAER_HOST_CONFIG_PACKETS <> EDVS_CONFIG_BIAS)
  /\ (CAER_HOST_CONFIG_LOG <> EDVS_CONFIG_DVS
      /\ CAER_HOST_CONFIG_LOG <> EDVS_CONFIG_BIAS)
  /\ EDVS_CONFIG_DVS <> EDVS_CONFIG_BIAS
  /\ CAER_HOST_CONFIG_PACKETS_MAX_CONTAINER_PACKET_SIZE
     <> CAER_HOST_CONFIG_PACKETS_MAX_CONTAINER_INTERVAL
  /\ EDVS_CONFIG_DVS_RUN <> EDVS_CONFIG_DVS_TIMESTAMP_RESET.
Proof.
  unfold labelsDistinct, modules, packetParameters, dvsParameters.
  intros (M & P & D & _).
  repeat match goal with
         | X : NoDup (_ :: _) |- _ =>
             apply NoDup_cons_iff in X; cbn [In] in X; destruct X
         end.
  repeat split; intros E; symmetry in E; tauto.
Qed.

Ltac apart L :=
  destruct (labels_apart L)
    as ((? & ? & ? & ? & ?) & (? & ? & ? & ?) & (? & ? & ?) & (? & ?) & ? & ? & ?).

Ltac tests :=
  repeat match goal with
         | |- context [?a =? ?b] =>
             destruct (Z.eqb_spec a b); try congruence
         end.

(** A host parameter set is read back, and no other address reads
    differently. *)
Lemma host_set_get d modAddr paramAddr param :
  labelsDistinct -> hostParameter modAddr paramAddr -> 0 <= param < 2 ^ 32 ->
  snd (edvsConfigSet d modAddr paramAddr param) = true
  /\ snd (fst (edvsConfigSet d modAddr paramAddr param)) = []
  /\ edvsConfigGet (fst (fst (edvsConfigSet d modAddr paramAddr param)))
       modAddr paramAddr
     = Some (if modAddr =? CAER_HOST_CONFIG_LOG then U8T param else param)
  /\ forall m p,
       (m, p) <> (modAddr, paramAddr) ->
       edvsConfigGet (fst (fst (edvsConfigSet d modAddr paramAddr param))) m p
       = edvsConfigGet d m p.
Proof.
  intros L Hp R. apart L.
  assert (U : U32T param = param)
    by (unfold U32T, unsigned; apply Z.mod_small; exact R).
  destruct Hp as [(-> & ->) | [(-> & [<- | [<- | []]]) | (-> & ->)]];
    unfold edvsConfigSet; tests; cbn [fst snd];
    (split; [reflexivity |]); (split; [reflexivity |]); split;
    try (intros m p Ne); unfold edvsConfigGet; tests;
    cbn [serialReadSize set_serialReadSize decoder set_decoder
         maxPacketContainerPacketSize set_maxPacketContainerPacketSize
         maxPacketContainerInterval set_maxPacketContainerInterval
         deviceLogLevel set_deviceLogLevel dataExchange biases dvsRunning];
    rewrite ?U; reflexivity.
Qed.

(** An address the switches do not know. *)
Lemma unknown_address d modAddr paramAddr param :
  modAddr <> CAER_HOST_CONFIG_DATAEXCHANGE ->
  ~ In paramAddr (parameters modAddr) ->
  edvsConfigSet d modAddr paramAddr param = (d, [], false)
  /\ edvsConfigGet d modAddr paramAddr = None.
Proof.
  intros Nx. unfold parameters, edvsConfigSet, edvsConfigGet,
    packetParameters, dvsParameters.
  destruct (isBiasParameter paramAddr) eqn:B.
  - apply isBiasParameter_In in B.
    tests; cbn [In]; intros N; try (exfalso; intuition congruence); split; reflexivity.
  - tests; cbn [In]; intros N; try (exfalso; intuition congruence); split; reflexivity.
Qed.

(** *** The parameters of the DVS module *)

Lemma dvs_run d param :
  labelsDistinct ->
  let r := edvsConfigSet d EDVS_CONFIG_DVS EDVS_CONFIG_DVS_RUN param in
  let wanted := negb (param =? 0) in
  (snd r = true <-> dvsRunning (fst (fst r)) = wanted)
  /\ snd (fst r)
     = (if Bool.eqb (dvsRunning d) wanted then []
        else [SerialWrite (if wanted then cmdStartDVS else cmdStopDVS)])
  /\ decoder (fst (fst r)) = decoder d
  /\ biases (fst (fst r)) = biases d
  /\ (snd r = true ->
      edvsConfigSet (fst (fst r)) EDVS_CONFIG_DVS EDVS_CONFIG_DVS_RUN param
      = (fst (fst r), [], true)).
Proof.
  intros L r wanted. subst r wanted. apart L.
  unfold edvsConfigSet, serialPortWrite. tests;
    destruct (dvsRunning d) eqn:Rn;
    destruct (request (serialWrites d)) as [[] env];
    cbn; rewrite ?Rn; cbn;
    intuition (try discriminate; try reflexivity).
Qed.

Lemma reset_request d param :
  labelsDistinct ->
  let r := edvsConfigSet d EDVS_CONFIG_DVS EDVS_CONFIG_DVS_TIMESTAMP_RESET param in
  r = ((if param =? 0 then d
        else set_decoder (set_dvsTSReset true (decoder d)) d), [], true)
  /\ forall d', edvsConfigGet d' EDVS_CONFIG_DVS EDVS_CONFIG_DVS_TIMESTAMP_RESET
                = Some 0.
Proof.
  intros L r. subst r. apart L. split.
  - unfold edvsConfigSet; tests; reflexivity.
  - intros d'. unfold edvsConfigGet; tests; reflexivity.
Qed.

(** The token after a timestamp reset was requested. *)
Lemma requested_reset_decoded s y x t1 t2 :
  dvsTSReset s = true ->
  exists s1,
    decode s y x t1 t2 = (s1, [SerialWrite cmdTSReset], true, false)
    /\ timestamps s1 = clockAtZero 0
    /\ dvsTSReset s1 = false
    /\ currentPolarityPacket s1 = currentPolarityPacket s
    /\ currentSpecialPacket s1 = currentSpecialPacket s
    /\ dvsTSReset (state (process s y x t1 t2)) = false
    /\ timestamps (state (process s y x t1 t2)) = clockAtZero 0.
Proof.
  intros R. pose proof (decode_reset s y x t1 t2 R) as D.
  match type of D with _ = (?a, _, _, _) => set (s1 := a) in * end.
  exists s1.
  assert (T : timestamps s1 = clockAtZero 0 /\ dvsTSReset s1 = false).
  { unfold s1.
    match goal with
    | |- context [initContainerCommitTimestamp ?a] =>
        destruct (initContainerCommitTimestamp_keepsClock a) as (-> & -> & _)
    end.
    split; reflexivity. }
  destruct T as (T1 & T2).
  assert (P : currentPolarityPacket s1 = currentPolarityPacket s
              /\ currentSpecialPacket s1 = currentSpecialPacket s).
  { unfold s1.
    match goal with
    | |- context [initContainerCommitTimestamp ?a] =>
        destruct (initContainerCommitTimestamp_packets a) as (_ & -> & _ & -> & _)
    end.
    split; reflexivity. }
  destruct P as (P1 & P2).
  destruct (process_keepsClock _ _ _ _ _ _ _ _ _ D) as (K1 & K2 & _).
  rewrite K1, K2. repeat split; assumption.
Qed.

(** *** The biases *)

Lemma bias_set d paramAddr param :
  labelsDistinct -> In paramAddr biasParameters -> 0 <= paramAddr < 2 ^ 64 - 1 ->
  let r := edvsConfigSet d EDVS_CONFIG_BIAS paramAddr param in
  let stored := caerIntegerToByteArray param BIAS_LENGTH in
  biases (fst (fst r)) paramAddr = stored
  /\ (forall i, i <> paramAddr -> biases (fst (fst r)) i = biases d i)
  /\ snd (fst r)
     = map SerialWrite
         (attempted
            [cmdSetBias paramAddr (caerByteArrayToInteger stored BIAS_LENGTH);
             cmdFlushBiases] (serialWrites d))
  /\ snd r = allWritten 2 (serialWrites d)
  /\ edvsConfigGet (fst (fst r)) EDVS_CONFIG_BIAS paramAddr
     = Some (caerByteArrayToInteger stored BIAS_LENGTH).
Proof.
  intros L I R r stored. subst r stored. apart L.
  apply isBiasParameter_In in I.
  assert (E : edvsConfigSet d EDVS_CONFIG_BIAS paramAddr param
              = edvsSendBiases (storeBias d (paramAddr, param)) paramAddr).
  { unfold edvsConfigSet; tests; rewrite I; reflexivity. }
  rewrite E.
  destruct (edvsSendBiases_spec (storeBias d (paramAddr, param)) paramAddr
              (or_intror R)) as ((_ & _ & _ & _ & B & _) & O & Rs).
  assert (N : (paramAddr =? -1) = false) by (apply Z.eqb_neq; lia).
  unfold biasIndices in O, Rs. rewrite N in O, Rs.
  cbn [map app List.length] in O, Rs.
  unfold biasCommand in O. cbn [biases storeBias set_biases fst snd] in O.
  rewrite Z.eqb_refl in O. cbn [serialWrites storeBias set_biases] in O, Rs.
  rewrite B. cbn [biases storeBias set_biases fst snd]. rewrite Z.eqb_refl.
  split; [reflexivity |]. split.
  - intros i Ni. apply Z.eqb_neq in Ni. rewrite Ni. reflexivity.
  - split; [exact O |]. split; [exact Rs |].
    unfold edvsConfigGet; tests; rewrite I, B;
      cbn [biases storeBias set_biases fst snd]; rewrite Z.eqb_refl; reflexivity.
Qed.

(** *** Start and stop of the data transfers *)

(** [freeAllDataMemory] leaves no container and no packet, and frees
    the container there was; the rest of the state is as it was, but
    for the data exchange. *)
Lemma freeAll_spec d :
  let d' := fst (freeAllDataMemory d) in
  unallocated (decoder d')
  /\ keepsClock (decoder d) (decoder d')
  /\ (currentPolarityPacketPosition (decoder d')
      = currentPolarityPacketPosition (decoder d)
      /\ currentSpecialPacketPosition (decoder d')
         = currentSpecialPacketPosition (decoder d)
      /\ currentPacketContainerCommitTimestamp (decoder d')
         = currentPacketContainerCommitTimestamp (decoder d)
      /\ allocations (decoder d') = allocations (decoder d)
      /\ exchangePuts (decoder d') = exchangePuts (decoder d))
  /\ (dvsRunning d' = dvsRunning d /\ biases d' = biases d
      /\ serialWrites d' = serialWrites d /\ threads d' = threads d
      /\ serialReadSize d' = serialReadSize d
      /\ deviceLogLevel d' = deviceLogLevel d)
  /\ handed (snd (freeAllDataMemory d)) = []
  /\ (currentPacketContainer (decoder d) = None -> snd (freeAllDataMemory d) = [])
  /\ (forall c, currentPacketContainer (decoder d) = Some c ->
      snd (freeAllDataMemory d)
      = [ContainerFree
           {| polaritySlot :=
                match currentPolarityPacket (decoder d) with
                | Some _ => None
                | None => polaritySlot c
                end;
              specialSlot :=
                match currentSpecialPacket (decoder d) with
                | Some _ => None
                | None => specialSlot c
                end;
              imu6Slot := imu6Slot c |}]).
Proof.
  unfold freeAllDataMemory, unallocated, keepsClock.
  destruct d as [s rs ll run bs dx sw th].
  destruct s as [r t ms mi ts ct c pp ppos sp spos al ex].
  cbn [decoder set_dataExchange dataExchange].
  destruct pp as [pp |], sp as [sp |], c as [c |]; cbn;
    repeat split; try reflexivity; try discriminate;
    intros c0 E; injection E as <-; destruct c; reflexivity.
Qed.

(** [edvsConfigSet] on the run parameter of the DVS, as the start and
    the stop of the data transfers call it. *)
Lemma dvs_run_frame d param :
  labelsDistinct ->
  let r := edvsConfigSet d EDVS_CONFIG_DVS EDVS_CONFIG_DVS_RUN param in
  decoder (fst (fst r)) = decoder d
  /\ threads (fst (fst r)) = threads d
  /\ dataExchange (fst (fst r)) = dataExchange d
  /\ handed (snd (fst r)) = [].
Proof.
  intros L r. subst r. apart L.
  unfold edvsConfigSet, serialPortWrite. tests;
    destruct (dvsRunning d) eqn:Rn;
    destruct (request (serialWrites d)) as [[] env];
    cbn; repeat split; reflexivity.
Qed.

Lemma allWritten_3 env :
  allWritten 3 env
  = fst (request env) && (fst (request (snd (request env)))
    && fst (request (snd (request (snd (request env)))))).
Proof.
  rewrite !allWritten_request. unfold allWritten. cbn [firstn forallb].
  rewrite andb_true_r. reflexivity.
Qed.

Lemma dataStart_spec d :
  labelsDistinct ->
  let r := edvsDataStart d in
  let s := decoder d in
  let s' := decoder (fst (fst r)) in
  snd r
  = snd (dataExchangeBufferInit (dataExchangeSetNotify (dataExchange d)))
    && allWritten 3 (allocations s) && fst (request (threads d))
  /\ (snd r = true ->
      serialThreadRun s' = true
      /\ currentPacketContainer s' = Some emptyContainer
      /\ currentPolarityPacket s'
         = Some {| eventCapacity := EDVS_POLARITY_DEFAULT_SIZE;
                   eventTSOverflow := 0; eventNumber := 0;
                   events := [] |}
      /\ currentSpecialPacket s'
         = Some {| eventCapacity := EDVS_SPECIAL_DEFAULT_SIZE;
                   eventTSOverflow := 0; eventNumber := 0;
                   events := [] |})
  /\ (snd r = false ->
      serialThreadRun s' = serialThreadRun s
      /\ (unallocated s -> unallocated s'))
  /\ currentPacketContainerCommitTimestamp s' = -1
  /\ timestamps s' = timestamps s
  /\ dvsTSReset s' = dvsTSReset s
  /\ maxPacketContainerPacketSize s' = maxPacketContainerPacketSize s
  /\ maxPacketContainerInterval s' = maxPacketContainerInterval s
  /\ currentPolarityPacketPosition s' = currentPolarityPacketPosition s
  /\ currentSpecialPacketPosition s' = currentSpecialPacketPosition s
  /\ handed (snd (fst r)) = [].
Proof.
  intros L r s s'. subst r s s'.
  unfold edvsDataStart, caerEventPacketContainerAllocate, caerEventPacketAllocate,
    serialThreadStart.
  rewrite allWritten_3.
  cbn [dataExchange set_dataExchange set_decoder decoder].
  destruct (dataExchangeBufferInit (dataExchangeSetNotify (dataExchange d)))
    as [x ok]. cbn [snd].
  destruct ok; cbn [negb andb];
    [| cbn; repeat split; try discriminate; auto;
       match goal with
       | X : unallocated _ |- _ => destruct X as (? & ? & ?)
       end; assumption].
  cbn [allocations set_commitTimestamp].
  destruct (request (allocations (decoder d))) as [a1 env1]. cbn [fst snd].
  destruct a1; cbn [andb].
  2:{ match goal with
      | |- context [freeAllDataMemory ?a] =>
          destruct (freeAll_spec a)
            as ((U1 & U2 & U3) & (K1 & K2 & K3 & K4 & K5) & (P1 & P2 & P3 & _)
                & _ & Hh & _);
          destruct (freeAllDataMemory a) as [d4 o4]
      end.
      cbn [fst snd] in *. rewrite handed_app, Hh, K1, K2, K3, K4, K5, P1, P2, P3.
      cbn. repeat split; try discriminate; auto. }
  cbn [allocations set_allocations set_container].
  destruct (request env1) as [a2 env2]. cbn [fst snd].
  destruct a2; cbn [andb].
  2:{ match goal with
      | |- context [freeAllDataMemory ?a] =>
          destruct (freeAll_spec a)
            as ((U1 & U2 & U3) & (K1 & K2 & K3 & K4 & K5) & (P1 & P2 & P3 & _)
                & _ & Hh & _);
          destruct (freeAllDataMemory a) as [d4 o4]
      end.
      cbn [fst snd] in *. rewrite handed_app, Hh, K1, K2, K3, K4, K5, P1, P2, P3.
      cbn. repeat split; try discriminate; auto. }
  cbn [allocations set_allocations set_container set_polarity].
  destruct (request env2) as [a3 env3]. cbn [fst snd].
  destruct a3; cbn [andb].
  2:{ match goal with
      | |- context [freeAllDataMemory ?a] =>
          destruct (freeAll_spec a)
            as ((U1 & U2 & U3) & (K1 & K2 & K3 & K4 & K5) & (P1 & P2 & P3 & _)
                & _ & Hh & _);
          destruct (freeAllDataMemory a) as [d4 o4]
      end.
      cbn [fst snd] in *. rewrite handed_app, Hh, K1, K2, K3, K4, K5, P1, P2, P3.
      cbn. repeat split; try discriminate; auto. }
  cbn [threads set_decoder set_dataExchange].
  destruct (request (threads d)) as [t1 envt]. cbn [fst snd].
  destruct t1; cbn [negb].
  2:{ match goal with
      | |- context [freeAllDataMemory ?a] =>
          destruct (freeAll_spec a)
            as ((U1 & U2 & U3) & (K1 & K2 & K3 & K4 & K5) & (P1 & P2 & P3 & _)
                & _ & Hh & _);
          destruct (freeAllDataMemory a) as [d4 o4]
      end.
      cbn [fst snd] in *. rewrite handed_app, Hh, K1, K2, K3, K4, K5, P1, P2, P3.
      cbn. repeat split; try discriminate; auto. }
  cbn [dataExchange set_decoder set_threads].
  match goal with
  | |- context [dataExchangeStartProducers ?a] =>
      destruct (dataExchangeStartProducers a) as [x2 producers]
  end.
  destruct producers.
  - match goal with
    | |- context [edvsConfigSet ?a _ _ 1] =>
        destruct (dvs_run_frame a 1 L) as (D & _ & _ & Hh);
        destruct (edvsConfigSet a EDVS_CONFIG_DVS EDVS_CONFIG_DVS_RUN 1)
          as [[d5 o5] ok5]
    end.
    cbn [fst snd] in *. rewrite D, Hh. cbn.
    repeat split; try discriminate; auto.
  - cbn. repeat split; try discriminate; auto.
Qed.

Lemma dataStop_spec d :
  labelsDistinct ->
  let r := edvsDataStop d in
  let s := decoder d in
  let s' := decoder (fst (fst r)) in
  snd r = true
  /\ serialThreadRun s' = false
  /\ unallocated s'
  /\ currentPolarityPacketPosition s' = 0
  /\ currentSpecialPacketPosition s' = 0
  /\ timestamps s' = timestamps s
  /\ dvsTSReset s' = dvsTSReset s
  /\ maxPacketContainerPacketSize s' = maxPacketContainerPacketSize s
  /\ maxPacketContainerInterval s' = maxPacketContainerInterval s
  /\ allocations s' = allocations s
  /\ handed (snd (fst r)) = [].
Proof.
  intros L r s s'. subst r s s'. unfold edvsDataStop.
  destruct (dataExchangeStopProducers (dataExchange d)) as [x producers].
  assert (E : exists d1 o1,
             (if producers
              then let '(d0, o, _) :=
                     edvsConfigSet (set_dataExchange x d) EDVS_CONFIG_DVS
                       EDVS_CONFIG_DVS_RUN 0 in (d0, o)
              else (set_dataExchange x d, [])) = (d1, o1)
             /\ decoder d1 = decoder d /\ handed o1 = []).
  { destruct producers.
    - destruct (dvs_run_frame (set_dataExchange x d) 0 L) as (D & _ & _ & Hh).
      destruct (edvsConfigSet (set_dataExchange x d) EDVS_CONFIG_DVS
                  EDVS_CONFIG_DVS_RUN 0) as [[d1 o1] ok1].
      exists d1, o1. cbn [fst snd] in *. repeat split; assumption.
    - exists (set_dataExchange x d), []. repeat split. }
  destruct E as (d1 & o1 & -> & D1 & H1).
  unfold serialThreadStop.
  cbn [threads set_decoder].
  destruct (request (threads d1)) as [ok env].
  match goal with
  | |- context [freeAllDataMemory ?a] =>
      destruct (freeAll_spec a)
        as ((U1 & U2 & U3) & (K1 & K2 & K3 & K4 & K5) & (P1 & P2 & P3 & P4 & _)
            & _ & Hh & _);
      destruct (freeAllDataMemory a) as [d4 o4]
  end.
  cbn [fst snd decoder set_decoder set_dataExchange set_threads] in *.
  rewrite !handed_app, H1, Hh.
  unfold unallocated.
  cbn [serialThreadRun currentPacketContainer currentPolarityPacket
       currentSpecialPacket currentPolarityPacketPosition
       currentSpecialPacketPosition timestamps dvsTSReset
       maxPacketContainerPacketSize maxPacketContainerInterval allocations
       set_polarity set_special set_serialThreadRun] in *.
  rewrite K1, K2, K3, K4, K5, P4, U1, U2, U3, D1.
  destruct ok; repeat split; reflexivity.
Qed.

(** A stopped device does not decode. *)
Lemma stopped_translator s buffer :
  serialThreadRun s = false -> edvsEventTranslator s buffer = returnWith s [].
Proof. intros R. unfold edvsEventTranslator. rewrite R. reflexivity. Qed.

(** *** The commit thresholds *)

Lemma I32T_high v : 2 ^ 31 <= v < 2 ^ 32 -> I32T v = v - 2 ^ 32.
Proof.
  intros R. unfold I32T, signed. change (2 ^ (32 - 1)) with (2 ^ 31).
  replace (v + 2 ^ 31) with (v - 2 ^ 31 + 1 * 2 ^ 32) by lia.
  rewrite Z.mod_add by lia. rewrite Z.mod_small by lia. lia.
Qed.

Lemma size_trigger_off s r w :
  I32T (maxPacketContainerPacketSize s) <= 0 ->
  commitDue s r w = r || w || containerTimeCommit s.
Proof.
  intros N. unfold commitDue.
  destruct (Z.gtb_spec (I32T (maxPacketContainerPacketSize s)) 0); [lia |].
  cbn [andb]. rewrite orb_false_r. reflexivity.
Qed.

Lemma zero_interval_hangs s r w :
  I32T (maxPacketContainerInterval s) = 0 ->
  containerTimeCommit s = true ->
  INT64_MIN <= currentPacketContainerCommitTimestamp s <= INT64_MAX ->
  ends (commit s r w) = Diverges.
Proof.
  intros Z0 T Rg.
  assert (Due : commitDue s r w = true).
  { unfold commitDue. rewrite T. apply orb_true_r. }
  assert (Re : rearmed s = None).
  { unfold rearmed, rearm. rewrite T.
    apply rearm_zero_interval_diverges; [exact Z0 | exact Rg |].
    unfold containerTimeCommit in T. apply Z.gtb_lt in T. exact T. }
  rewrite (commit_hangs s r w Due Re). reflexivity.
Qed.

(** *** The default biases *)

Ltac distinct_biases L :=
  let B := fresh "B" in
  destruct L as (_ & _ & _ & B); unfold biasParameters in B;
  repeat match goal with
         | X : NoDup (_ :: _) |- _ =>
             apply NoDup_cons_iff in X; cbn [In] in X; destruct X
         end;
  repeat match goal with
         | X : ~ (_ \/ _) |- _ => apply Decidable.not_or in X; destruct X
         | X : ~ False |- _ => clear X
         | X : NoDup [] |- _ => clear X
         end.

Lemma default_biases_stored d label v :
  labelsDistinct -> In (label, v) defaultBiases ->
  biases (fold_left storeBias defaultBiases d) label
  = caerIntegerToByteArray v BIAS_LENGTH
  /\ isBiasParameter label = true.
Proof.
  intros L I. distinct_biases L.
  unfold defaultBiases in *. cbn [In] in I.
  cbn [fold_left storeBias set_biases biases fst snd].
  unfold isBiasParameter, biasParameters. cbn [existsb].
  repeat match goal with
         | X : _ \/ _ |- _ => destruct X as [X | X]
         end;
    try contradiction; injection I as <- <-; rewrite ?Z.eqb_refl;
    cbn [orb]; rewrite ?orb_true_r; (split; [| reflexivity]); tests; reflexivity.
Qed.

Lemma defaultConfig_spec d :
  labelsDistinct -> 0 <= BIAS_NUMBER < 2 ^ 64 ->
  let r := edvsSendDefaultConfig d in
  let d' := fst (fst r) in
  (forall label v,
     In (label, v) defaultBiases ->
     biases d' label = caerIntegerToByteArray v BIAS_LENGTH
     /\ edvsConfigGet d' EDVS_CONFIG_BIAS label
        = Some (caerByteArrayToInteger (caerIntegerToByteArray v BIAS_LENGTH)
                  BIAS_LENGTH))
  /\ snd (fst r)
     = map SerialWrite
         (attempted (map (biasCommand d') (biasIndices (-1)) ++ [cmdFlushBiases])
            (serialWrites d))
  /\ snd r = allWritten (Z.to_nat BIAS_NUMBER + 1) (serialWrites d).
Proof.
  intros L Hn r d'. subst r d'. unfold edvsSendDefaultConfig.
  set (d0 := fold_left storeBias defaultBiases d).
  assert (W : serialWrites d0 = serialWrites d) by reflexivity.
  destruct (edvsSendBiases_spec d0 (-1) (or_introl (conj eq_refl Hn)))
    as ((_ & _ & _ & _ & B & _) & O & R).
  split; [| split].
  - intros label v I.
    destruct (default_biases_stored d label v L I) as (S1 & S2).
    fold d0 in S1. rewrite B. split; [exact S1 |].
    unfold edvsConfigGet.
    apart L. tests; rewrite S2, B, S1; reflexivity.
  - rewrite O, W. f_equal. f_equal. f_equal.
    apply map_ext. intros i. unfold biasCommand. rewrite B. reflexivity.
  - rewrite R, W. f_equal.
    rewrite length_app, length_map. unfold biasIndices.
    cbn [Z.eqb Pos.eqb]. rewrite length_map, length_seq. reflexivity.
Qed.

(** *** A restart *)

Lemma restart_spec d :
  labelsDistinct ->
  let d1 := fst (fst (edvsDataStop d)) in
  let r := edvsDataStart d1 in
  let s' := decoder (fst (fst r)) in
  snd r = true ->
  consistent s' /\ ready s'
  /\ serialThreadRun s' = true
  /\ timestamps s' = timestamps (decoder d)
  /\ currentPacketContainerCommitTimestamp s' = -1
  /\ currentPolarityPacket s'
     = Some {| eventCapacity := EDVS_POLARITY_DEFAULT_SIZE;
               eventTSOverflow := 0; eventNumber := 0;
               events := [] |}
  /\ currentSpecialPacket s'
     = Some {| eventCapacity := EDVS_SPECIAL_DEFAULT_SIZE;
               eventTSOverflow := 0; eventNumber := 0;
               events := [] |}.
Proof.
  intros L d1 r s' Ok. subst r s'.
  destruct (dataStop_spec d L)
    as (_ & _ & _ & P0 & S0 & Ts & _).
  fold d1 in P0, S0, Ts.
  destruct (dataStart_spec d1 L)
    as (_ & St & _ & Ct & Ts' & _ & _ & _ & Pp & Sp & _).
  destruct (St Ok) as (Rn & Cc & Pk & Sk).
  unfold consistent, ready. rewrite Cc, Pk, Sk, Pp, Sp, P0, S0, Ts', Ts.
  cbn [slotEvents events List.length Z.of_nat].
  repeat split; try discriminate; auto.
Qed.

End WithHeaders.
End EdvsDeviceFacts.

(** ** The steps of the DV-Explorer translator *)

Module DvSteps.
Import DvExplorer DvFacts.

Section WithHeaders.
Context `{dv_explorer_h} `{timestamps_h}.

Ltac conjuncts := repeat match goal with |- _ /\ _ => split end.

(** *** What a commit leaves *)

Lemma dv_commit_afterCommit s r w d :
  consistent s -> ready s -> commitDue s r w = true -> rearmed s = Some d ->
  afterCommit s (state (commit s r w)).
Proof.
  intros C R E D.
  destruct (dv_commit_due_outs s r w d C R E D)
    as (_ & _ & Cf & P0 & S0 & I0 & _ & _ & Ts & Dv & _).
  pose proof (dv_consistent_container s C R) as Hc.
  destruct (dv_movePackets_committed s Hc)
    as (M1 & M2 & M3 & M4 & M5 & M6 & M7 & M8 & M9 & M10 & M11).
  unfold afterCommit. split; [exact Cf |]. split; [exact Ts |]. split; [exact Dv |].
  revert P0 S0 I0.
  unfold commit. unfold commitDue in E. rewrite <- !orb_assoc in *. rewrite E.
  unfold rearmed, containerGenerationIsCommitTimestampElapsed in D.
  set (s1 := movePackets s) in *.
  set (s2 := if r || w then set_imu (set_ignoreEvents true (imu s1)) s1 else s1).
  assert (F : container s2 = container s1 /\ timestamps s2 = timestamps s1
              /\ allocations s2 = allocations s1 /\ exchangePuts s2 = exchangePuts s1
              /\ currentPackets s2 = currentPackets s1).
  { unfold s2. destruct (r || w); repeat split. }
  destruct F as (F1 & F2 & F3 & F4 & F5). clearbody s2.
  rewrite F1, F2, F3, F4, M6.
  unfold containerGenerationExecute. rewrite M2, M3, D.
  destruct (request (exchangePuts s1)) as [ok puts'].
  assert (K : forall o al pu g,
             maxPacketContainerPacketSize g = maxPacketContainerPacketSize (container s1) ->
             maxPacketContainerInterval g = maxPacketContainerInterval (container s1) ->
             let s3 := state (continueWith
                                (set_exchangePuts pu (set_allocations al (set_container g s2)))
                                o) in
             polarityPosition (currentPackets s3) = 0 ->
             specialPosition (currentPackets s3) = 0 ->
             imu6Position (currentPackets s3) = 0 ->
             maxPacketContainerPacketSize (container s3)
             = maxPacketContainerPacketSize (container s)
             /\ maxPacketContainerInterval (container s3)
                = maxPacketContainerInterval (container s)
             /\ currentPackets s3
                = (let k := currentPackets s in
                   {| polarity := if polarityPosition k >? 0 then None else polarity k;
                      polarityPosition := 0;
                      special := if specialPosition k >? 0 then None else special k;
                      specialPosition := 0;
                      imu6 := if imu6Position k >? 0 then None else imu6 k;
                      imu6Position := 0 |})).
  { intros o al pu g G1 G2. cbn [state continueWith currentPackets container
      set_exchangePuts set_allocations set_container].
    rewrite G1, G2, M3, M4, F5, M5.
    cbn [polarity polarityPosition special specialPosition imu6 imu6Position].
    intros P0 S0 I0. split; [reflexivity |]. split; [reflexivity |].
    rewrite P0, S0, I0. reflexivity. }
  destruct r.
  - destruct (executeReset (wrapOverflow (timestamps s)) (allocations s1)) as [o2 al2].
    apply K; reflexivity.
  - apply K; reflexivity.
Qed.

(** *** What the handlers write *)

Lemma written_refl {E} (p : option (packet E)) position n :
  0 <= n -> written p p position n [].
Proof.
  intros N. destruct p as [pk |]; simpl; [| reflexivity].
  rewrite app_nil_r. repeat split; auto.
Qed.

Lemma addressed_refl d : addressed d d.
Proof. unfold addressed. auto 10. Qed.

Lemma wrote_polarity s s' pa :
  written (polarity (currentPackets s)) (polarity (currentPackets s'))
    (polarityPosition (currentPackets s)) 8 pa ->
  special (currentPackets s') = special (currentPackets s) ->
  imu6 (currentPackets s') = imu6 (currentPackets s) ->
  dvs s' = dvs s ->
  maxPacketContainerPacketSize (container s')
  = maxPacketContainerPacketSize (container s) ->
  Forall (pixelOf (dvs s) (current (timestamps s))) pa ->
  wrote s s' pa [] [].
Proof.
  intros W S I D M F. unfold wrote. rewrite S, I, D.
  split; [exact W |]. split; [apply written_refl; lia |].
  split; [apply written_refl; lia |]. split; [exact F |].
  split; [apply addressed_refl |]. split; [right; reflexivity | exact M].
Qed.

Lemma wrote_special s s' sa :
  polarity (currentPackets s') = polarity (currentPackets s) ->
  written (special (currentPackets s)) (special (currentPackets s'))
    (specialPosition (currentPackets s)) 1 sa ->
  imu6 (currentPackets s') = imu6 (currentPackets s) ->
  dvs s' = dvs s ->
  maxPacketContainerPacketSize (container s')
  = maxPacketContainerPacketSize (container s) ->
  wrote s s' [] sa [].
Proof.
  intros P W I D M. unfold wrote. rewrite P, I, D.
  split; [apply written_refl; lia |]. split; [exact W |].
  split; [apply written_refl; lia |]. split; [constructor |].
  split; [apply addressed_refl |]. split; [left; reflexivity | exact M].
Qed.

Lemma wrote_imu6 s s' ia :
  polarity (currentPackets s') = polarity (currentPackets s) ->
  special (currentPackets s') = special (currentPackets s) ->
  written (imu6 (currentPackets s)) (imu6 (currentPackets s'))
    (imu6Position (currentPackets s)) 1 ia ->
  dvs s' = dvs s ->
  maxPacketContainerPacketSize (container s')
  = maxPacketContainerPacketSize (container s) ->
  wrote s s' [] [] ia.
Proof.
  intros P S W D M. unfold wrote. rewrite P, S, D.
  split; [apply written_refl; lia |]. split; [apply written_refl; lia |].
  split; [exact W |]. split; [constructor |].
  split; [apply addressed_refl |]. split; [left; reflexivity | exact M].
Qed.

Lemma wrote_address s s' :
  currentPackets s' = currentPackets s ->
  addressed (dvs s) (dvs s') ->
  maxPacketContainerPacketSize (container s')
  = maxPacketContainerPacketSize (container s) ->
  wrote s s' [] [] [].
Proof.
  intros K A M. unfold wrote. rewrite K.
  split; [apply written_refl; lia |]. split; [apply written_refl; lia |].
  split; [apply written_refl; lia |]. split; [constructor |].
  split; [exact A |]. split; [left; reflexivity | exact M].
Qed.

(** A handler that leaves the packets, the addresses and the size
    threshold alone. *)
Lemma wrote_frame s s' :
  currentPackets s' = currentPackets s -> dvs s' = dvs s ->
  maxPacketContainerPacketSize (container s')
  = maxPacketContainerPacketSize (container s) ->
  wrote s s' [] [] [].
Proof.
  intros K D M. apply wrote_address; [exact K | | exact M].
  rewrite D. unfold addressed. auto 10.
Qed.

Lemma ensureSpaceForEvents_written {E} (pk : packet E) position n env e :
  0 < n ->
  let '(p', ok, _, _) := ensureSpaceForEvents (Some pk) position n env in
  if ok then written (Some pk) (write p' e) position n [e]
            /\ written (Some pk) p' position n []
  else p' = Some pk.
Proof.
  intros N. unfold ensureSpaceForEvents, caerEventPacketGrow, request.
  destruct (Z.leb_spec (position + n) (eventCapacity pk)) as [L | L].
  - simpl. rewrite app_nil_r. repeat split; auto; try lia.
  - destruct env as [| [] env]; simpl; rewrite ?app_nil_r;
      repeat split; auto; try lia.
Qed.

Lemma putSpecial_wrote s t ty :
  exists sa, wrote s (fst (putSpecial s t ty)) [] sa [].
Proof.
  unfold putSpecial.
  destruct (special (currentPackets s)) as [pk |] eqn:Ep.
  - pose proof (ensureSpaceForEvents_written pk (specialPosition (currentPackets s))
                  1 (allocations s) {| spcTimestamp := t; spcType := ty |}
                  ltac:(lia)) as W.
    destruct (ensureSpaceForEvents (Some pk) (specialPosition (currentPackets s)) 1
                (allocations s)) as [[[p' ok] o] env].
    destruct ok; cbn [fst].
    + eexists. apply wrote_special; try reflexivity.
      cbn [currentPackets set_currentPackets set_allocations set_pkSpecial special].
      rewrite Ep. apply W.
    + exists []. apply wrote_frame; auto.
      cbn [currentPackets set_currentPackets set_allocations]. subst p'.
      rewrite <- Ep. destruct (currentPackets s); reflexivity.
  - exists []. apply wrote_frame; auto. cbn [ensureSpaceForEvents fst].
    cbn [currentPackets set_currentPackets set_allocations].
    rewrite <- Ep. destruct (currentPackets s); reflexivity.
Qed.

Lemma ensureSpaceForEvents_copied {E} (pk : packet E) position n env e :
  0 < n ->
  let '(p', ok, _, _) := ensureSpaceForEvents (Some pk) position n env in
  written (Some pk) p' position n []
  /\ (ok = true -> written (Some pk) (copied p' e) position n [e]).
Proof.
  intros N. unfold ensureSpaceForEvents, caerEventPacketGrow, request.
  destruct (Z.leb_spec (position + n) (eventCapacity pk)) as [L | L].
  - simpl. rewrite app_nil_r. repeat split; auto; try lia.
  - destruct env as [| [] env]; simpl; rewrite ?app_nil_r;
      repeat split; auto; try lia; discriminate.
Qed.

(** What was written to a packet does not depend on the number of
    events its header had. *)
Lemma written_counted {E} (pk : packet E) p' position n (added : list E) :
  written (Some (countEvent pk)) p' position n added ->
  written (Some pk) p' position n added.
Proof. unfold written, countEvent. destruct p'; auto. Qed.

Lemma imuEnd_wrote s : exists ia, wrote s (fst (imuEnd s)) [] [] ia.
Proof.
  unfold imuEnd. destruct (ignoreEvents (imu s)).
  { exists []. apply wrote_frame; reflexivity. }
  destruct (count (imu s) =? IMU_TOTAL_COUNT).
  2: { exists []. apply wrote_frame; reflexivity. }
  destruct (imu6 (currentPackets s)) as [pk |] eqn:Ep.
  - assert (V : exists q,
               caerIMU6EventValidate (currentEventValid (imu s)) (Some pk)
               = (true, Some q, validation s)
               /\ forall p' ia,
                    written (Some q) p' (imu6Position (currentPackets s)) 1 ia ->
                    written (Some pk) p' (imu6Position (currentPackets s)) 1 ia).
    { unfold caerIMU6EventValidate, validation.
      destruct (currentEventValid (imu s)).
      - exists pk. split; [reflexivity | auto].
      - exists (countEvent pk). split; [reflexivity |].
        intros p' ia. apply written_counted. }
    destruct V as (q & -> & T).
    cbn [currentPackets set_imu allocations].
    match goal with
    | |- context [copied _ ?ev] =>
        pose proof (ensureSpaceForEvents_copied q (imu6Position (currentPackets s))
                      1 (allocations s) ev ltac:(lia)) as W
    end.
    destruct (ensureSpaceForEvents (Some q) (imu6Position (currentPackets s)) 1
                (allocations s)) as [[[p' ok] o] env].
    destruct W as (W0 & W1).
    destruct ok; cbn [fst].
    + eexists. apply wrote_imu6; try reflexivity.
      cbn [currentPackets set_currentPackets set_allocations set_imu set_pkIMU6 imu6].
      rewrite Ep. apply T, W1. reflexivity.
    + exists []. apply wrote_imu6; try reflexivity.
      cbn [currentPackets set_currentPackets set_allocations set_imu set_pkIMU6 imu6].
      rewrite Ep. apply T, W0.
  - exists []. cbv [caerIMU6EventValidate option_map ensureSpaceForEvents].
    destruct (currentEventValid (imu s)); cbn [fst];
      (apply wrote_frame; auto;
       cbn [currentPackets set_currentPackets set_allocations set_imu];
       rewrite <- Ep; destruct (currentPackets s); reflexivity).
Qed.

(** The events of a group: at most one for each place left, each at a
    place of the group. *)
Lemma pixelGroup_written n : forall i mask data pol d t pk position,
  0 <= i ->
  exists pa,
    fst (pixelGroup n i mask data pol d t (Some pk) position)
    = Some {| eventCapacity := eventCapacity pk;
              eventTSOverflow := eventTSOverflow pk;
              eventNumber := eventNumber pk + Z.of_nat (List.length pa);
              events := events pk ++ pa |}
    /\ (List.length pa <= n)%nat
    /\ Forall (fun e =>
                 polTimestamp e = t
                 /\ exists j,
                      i <= j < i + Z.of_nat n
                      /\ (if invertXY d
                          then polY e = U16T (lastX d + j) /\ polX e = U16T (lastY d)
                          else polY e = U16T (lastY d) /\ polX e = U16T (lastX d + j)))
         pa.
Proof.
  induction n as [| n IH]; intros i mask data pol d t pk position I0.
  - exists []. cbn [pixelGroup fst List.length Z.of_nat]. rewrite app_nil_r, Z.add_0_r.
    split; [destruct pk; reflexivity |]. split; [apply le_n | constructor].
  - cbn [pixelGroup]. destruct (Z.land data mask =? 0).
    + destruct (IH (i + 1) (Z.shiftr mask 1) data pol d t pk position)
        as (pa & E & L & F); [lia |].
      exists pa. split; [exact E |]. split; [lia |].
      eapply Forall_impl; [| exact F]. cbn beta.
      intros e (T & j & J & X). split; [exact T |]. exists j. split; [lia | exact X].
    + match goal with
      | |- context [write (Some pk) ?e] => set (ev := e)
      end.
      cbn [write].
      destruct (IH (i + 1) (Z.shiftr mask 1) data pol d t (appendEvent pk ev)
                  (position + 1)) as (pa & E & L & F); [lia |].
      exists (ev :: pa). split.
      * rewrite E. cbn [appendEvent eventCapacity eventTSOverflow eventNumber events].
        rewrite <- app_assoc. cbn [app]. f_equal. f_equal.
        cbn [List.length]. lia.
      * split; [simpl; lia |]. constructor.
        -- split; [unfold ev; destruct (invertXY d); reflexivity |].
           exists i. split; [lia |]. unfold ev. destruct (invertXY d); split; reflexivity.
        -- eapply Forall_impl; [| exact F]. cbn beta.
           intros e (T & j & J & X). split; [exact T |]. exists j.
           split; [lia | exact X].
Qed.

Lemma polarityGroup_wrote s code data :
  exists pa, wrote s (fst (polarityGroup s code data)) pa [] [].
Proof.
  unfold polarityGroup.
  destruct (polarity (currentPackets s)) as [pk |] eqn:Ep.
  - unfold ensureSpaceForEvents, caerEventPacketGrow, request.
    set (pos := polarityPosition (currentPackets s)).
    assert (Go : forall pk' env,
               eventTSOverflow pk' = eventTSOverflow pk ->
               events pk' = events pk ->
               (eventCapacity pk' = eventCapacity pk /\ pos + 8 <= eventCapacity pk)
               \/ (eventCapacity pk' = eventCapacity pk * 2
                   /\ eventCapacity pk < pos + 8) ->
               exists pa,
                 wrote s
                   (fst (let (p, position) :=
                           pixelGroup 8 0 128 data (negb (Z.land code 1 =? 0)) (dvs s)
                             (current (timestamps s)) (Some pk') pos in
                         (set_currentPackets
                            (set_pkPolarity p position (currentPackets s))
                            (set_allocations env s), @nil out)))
                   pa [] []).
    { intros pk' env Ho Ev Cap.
      destruct (pixelGroup_written 8 0 128 data (negb (Z.land code 1 =? 0)) (dvs s)
                  (current (timestamps s)) pk' pos ltac:(lia)) as (pa & E & L & F).
      destruct (pixelGroup 8 0 128 data (negb (Z.land code 1 =? 0)) (dvs s)
                  (current (timestamps s)) (Some pk') pos) as [p2 pos2].
      cbn [fst] in E. subst p2. exists pa. cbn [fst].
      apply wrote_polarity; try reflexivity.
      - cbn [currentPackets set_currentPackets set_allocations set_pkPolarity
             polarity]. rewrite Ep.
        cbn [written eventCapacity eventTSOverflow events]. rewrite Ev.
        split; [reflexivity |]. split; [exact Ho |]. split; [lia |].
        destruct Cap as [(Ce & Le) | (Ce & Lt)]; [left | right]; auto.
      - eapply Forall_impl; [| exact F]. cbn beta.
        intros e (T & j & J & X). split; [exact T |]. exists j. split; [lia | exact X]. }
    destruct (Z.leb_spec (pos + 8) (eventCapacity pk)) as [L | L].
    + apply Go; auto.
    + destruct (allocations s) as [| [] env].
      * apply Go; auto.
      * apply Go; auto.
      * exists []. apply wrote_frame; auto. cbn [fst].
        cbn [currentPackets set_currentPackets set_allocations]. unfold pos.
        rewrite <- Ep. destruct (currentPackets s); reflexivity.
  - exists []. apply wrote_frame; auto. cbn [ensureSpaceForEvents fst].
    cbn [currentPackets set_currentPackets set_allocations].
    rewrite <- Ep. destruct (currentPackets s); reflexivity.
Qed.

Lemma columnAddress_wrote s data : wrote s (fst (columnAddress s data)) [] [] [].
Proof.
  unfold columnAddress.
  destruct (Z.geb_spec (Z.land data 1023) (sizeY (dvs s))) as [G | L].
  - cbn [fst]. apply wrote_frame; reflexivity.
  - cbn [fst]. apply wrote_address; try reflexivity.
    unfold addressed. cbn [set_dvs dvs sizeX sizeY invertXY lastX lastY].
    split; [reflexivity |]. split; [reflexivity |]. split; [reflexivity |].
    split; [| left; reflexivity]. right.
    assert (0 <= Z.land data 1023 < 1024).
    { change 1023 with (Z.ones 10). rewrite Z.land_ones by lia.
      apply Z.mod_pos_bound. lia. }
    lia.
Qed.

Lemma groupAddress_wrote s data : wrote s (fst (groupAddress s data)) [] [] [].
Proof.
  unfold groupAddress. destruct (Z.land data 4032 =? 0); cbn [fst].
  - apply wrote_address; try reflexivity.
    unfold addressed. cbn [set_dvs dvs sizeX sizeY invertXY lastX lastY].
    split; [reflexivity |]. split; [reflexivity |]. split; [reflexivity |].
    split; [left; reflexivity |]. right. exists (Z.land data 63).
    assert (0 <= Z.land data 63 < 64).
    { change 63 with (Z.ones 6). rewrite Z.land_ones by lia.
      apply Z.mod_pos_bound. lia. }
    split; [lia |]. unfold U16T, unsigned. apply Z.mod_small. lia.
  - apply wrote_frame; reflexivity.
Qed.

Lemma imuData_wrote s d : wrote s (fst (imuData s d)) [] [] [].
Proof.
  unfold imuData. destruct (ignoreEvents (imu s)).
  - apply wrote_frame; reflexivity.
  - destruct (imuField (imu s) d) as [m o]. apply wrote_frame; reflexivity.
Qed.

Lemma imuScaleConfig_wrote s d : wrote s (fst (imuScaleConfig s d)) [] [] [].
Proof.
  unfold imuScaleConfig.
  repeat match goal with
         | |- context [if ?c then _ else _] => destruct c
         end; apply wrote_frame; reflexivity.
Qed.

Lemma misc8Token_wrote s data : wrote s (fst (misc8Token s data)) [] [] [].
Proof.
  destruct (misc8Token_cases s data) as [-> | [-> | ->]].
  - apply imuData_wrote.
  - apply imuScaleConfig_wrote.
  - apply wrote_frame; reflexivity.
Qed.

Lemma timestampReset_wrote s : wrote s (fst (timestampReset s)) [] [] [].
Proof.
  unfold timestampReset.
  destruct (handleTimestampResetNewLogic (timestamps s)) as [ts l]. cbn [fst].
  apply wrote_frame; reflexivity.
Qed.

Lemma specialToken_wrote s data :
  exists sa ia, wrote s (fst (fst (specialToken s data))) [] sa ia.
Proof.
  destruct (Z.eq_dec data 1) as [-> | E1].
  { exists [], []. cbn [specialToken].
    pose proof (timestampReset_wrote s) as W.
    destruct (timestampReset s) as [s1 o1]. exact W. }
  destruct (Z.eq_dec data 5) as [-> | E5].
  { exists [], []. cbn [specialToken fst]. apply wrote_frame; reflexivity. }
  destruct (Z.eq_dec data 7) as [-> | E7].
  { destruct (imuEnd_wrote s) as (ia & W). exists [], ia. exact W. }
  destruct (Z.eq_dec data 2) as [E2 | E2];
    [| destruct (Z.eq_dec data 3) as [E3 | E3];
       [| destruct (Z.eq_dec data 4) as [E4 | E4];
          [| destruct (Z.eq_dec data 16) as [E16 | E16];
             [| destruct (Z.eq_dec data 17) as [E17 | E17]]]]].
  6: { destruct (specialToken_other s data) as (msg & ->); auto.
       exists [], []. apply wrote_frame; reflexivity. }
  all: destruct (specialToken_external s data) as (ty & msg & _ & _ & ->);
    [tauto |];
    destruct (putSpecial_wrote s (current (timestamps s)) ty) as (sa & W);
    exists sa, []; exact W.
Qed.

Lemma timestampWrap_wrote s data :
  exists sa, wrote s (fst (fst (timestampWrap s data))) [] sa [].
Proof.
  unfold timestampWrap.
  destruct (handleTimestampWrapNewLogic (timestamps s) data TS_WRAP_ADD)
    as [[ts l] big].
  destruct big.
  - destruct (putSpecial_wrote (set_timestamps ts s) INT32_MAX TIMESTAMP_WRAP)
      as (sa & W).
    destruct (putSpecial (set_timestamps ts s) INT32_MAX TIMESTAMP_WRAP) as [s1 o1].
    exists sa. cbn [fst] in *. unfold wrote in *.
    cbn [currentPackets set_timestamps dvs container] in W.
    destruct W as (W1 & W2 & W3 & _ & W5 & W6 & W7).
    split; [exact W1 |]. split; [exact W2 |]. split; [exact W3 |].
    split; [constructor |]. split; [exact W5 |]. split; [exact W6 | exact W7].
  - exists []. cbn [fst]. apply wrote_frame; try reflexivity.
    cbn [container set_container set_timestamps].
    match goal with
    | |- context [containerGenerationCommitTimestampInit ?g ?t] =>
        destruct (commitTimestampInit_frame g t) as (_ & -> & _)
    end.
    reflexivity.
Qed.

(** Whatever the word, the decoding writes as [wrote] says. *)
Lemma decode_wrote s event s' o r w :
  decode s event = (s', o, r, w) ->
  exists pa sa ia, wrote s s' pa sa ia.
Proof.
  intros D. destruct (isTimestamp event) eqn:T.
  - rewrite (decode_timestamp s event T) in D.
    destruct (handleTimestampUpdateNewLogic (timestamps s) event) as [ts l].
    injection D as <- _ _ _. exists [], [], []. apply wrote_frame; try reflexivity.
    cbn [container set_container set_timestamps].
    match goal with
    | |- context [containerGenerationCommitTimestampInit ?g ?t] =>
        destruct (commitTimestampInit_frame g t) as (_ & -> & _)
    end.
    reflexivity.
  - destruct (Z.eq_dec (codeOf event) 0) as [C0 | C0].
    { rewrite (decode_special s event T C0) in D.
      destruct (specialToken_wrote s (dataOf event)) as (sa & ia & W).
      destruct (specialToken s (dataOf event)) as [[s1 o1] r1].
      injection D as <- _ _ _. exists [], sa, ia. exact W. }
    destruct (Z.eq_dec (codeOf event) 1) as [C1 | C1].
    { rewrite (decode_column s event T C1) in D. injection D as <- _ _ _.
      exists [], [], []. apply columnAddress_wrote. }
    destruct (Z.eq_dec (codeOf event) 2) as [C2 | C2].
    { rewrite (decode_polarity s event T (or_introl C2)) in D.
      injection D as <- _ _ _.
      destruct (polarityGroup_wrote s (codeOf event) (dataOf event)) as (pa & W).
      exists pa, [], []. exact W. }
    destruct (Z.eq_dec (codeOf event) 3) as [C3 | C3].
    { rewrite (decode_polarity s event T (or_intror C3)) in D.
      injection D as <- _ _ _.
      destruct (polarityGroup_wrote s (codeOf event) (dataOf event)) as (pa & W).
      exists pa, [], []. exact W. }
    destruct (Z.eq_dec (codeOf event) 4) as [C4 | C4].
    { rewrite (decode_group s event T C4) in D. injection D as <- _ _ _.
      exists [], [], []. apply groupAddress_wrote. }
    destruct (Z.eq_dec (codeOf event) 5) as [C5 | C5].
    { rewrite (decode_misc8 s event T C5) in D. injection D as <- _ _ _.
      exists [], [], []. apply misc8Token_wrote. }
    destruct (Z.eq_dec (codeOf event) 7) as [C7 | C7].
    { rewrite (decode_wrap s event T C7) in D.
      destruct (timestampWrap_wrote s (dataOf event)) as (sa & W).
      destruct (timestampWrap s (dataOf event)) as [[s1 o1] big].
      injection D as <- _ _ _. exists [], sa, []. exact W. }
    rewrite (decode_other s event T C0 C1 C2 C3 C4 C5 C7) in D.
    injection D as <- _ _ _. exists [], [], []. apply wrote_frame; reflexivity.
Qed.

(** The state after a step whose commit was due and ended. *)
Lemma token_afterCommit s event s1 o1 r w :
  consistent s -> ends (prepare s) = Continue ->
  decode (state (prepare s)) event = (s1, o1, r, w) ->
  ready s1 -> consistent s1 -> commitDue s1 r w = true ->
  ends (dvExplorerToken s event) = Continue ->
  afterCommit s1 (state (dvExplorerToken s event)).
Proof.
  intros C E D R1 C1 Due En.
  rewrite (dvExplorerToken_process s event E) in *. cbn [state ends] in *.
  destruct (dv_process_spec _ _ _ _ _ _ D) as (PS & _ & PE).
  rewrite PS. rewrite PE in En.
  destruct (rearmed s1) as [d |] eqn:Re.
  - apply (dv_commit_afterCommit s1 r w d); assumption.
  - destruct (dv_commit_hangs s1 r w Due Re R1 C1) as (X & _). congruence.
Qed.

End WithHeaders.

(** *** Invariants of the translator *)

(** A property [I] of the states between two steps is kept by the
    translator, and a property [G] holds of every container handed over,
    once they are shown for the parts of a step: the allocations at its
    head (after which [P] holds), the decoding of the word (after which
    [J] holds; [J] is told whether the word was a timestamp reset or a
    big wrap) and the commit. *)
Section Invariant.
Context `{dv_explorer_h} `{timestamps_h}.
Variables I P : dv_state -> Prop.
Variable J : dv_state -> bool -> bool -> Prop.
Variable G : Events.container -> Prop.
Hypothesis prepare_returns :
  forall s, consistent s -> I s -> I (state (prepare s)).
Hypothesis prepare_continues :
  forall s, consistent s -> I s -> ends (prepare s) = Continue ->
            P (state (prepare s)).
Hypothesis decodes :
  forall s event s1 o r w,
    ready s -> consistent s -> P s -> decode s event = (s1, o, r, w) ->
    consistent s1 -> J s1 r w.
Hypothesis kept :
  forall s1, consistent s1 -> J s1 false false ->
             commitDue s1 false false = false -> I s1.
Hypothesis committed_good :
  forall s1 r w, consistent s1 -> J s1 r w -> G (committed s1).
Hypothesis commits :
  forall s1 s2 r w, consistent s1 -> J s1 r w -> afterCommit s1 s2 -> I s2.
Hypothesis reset_good : forall ovf, G (tsResetContainer INT32_MAX ovf).

Lemma token_invariant s event :
  consistent s -> I s ->
  Forall G (handed (outs (dvExplorerToken s event)))
  /\ (ends (dvExplorerToken s event) <> Diverges ->
      I (state (dvExplorerToken s event))).
Proof.
  intros C Hi.
  destruct (token_cases s event C)
    as [(_ & _ & St & Hh) | (s1 & o1 & r & w & E & D & _ & R1 & C1 & Cases)].
  - rewrite Hh, St. split; [constructor | intros _].
    apply prepare_returns; assumption.
  - assert (Hj : J s1 r w).
    { apply (decodes (state (prepare s)) event s1 o1 r w); auto.
      - apply dv_prepare_ready. exact E.
      - apply dv_prepare_consistent. exact C. }
    split.
    + apply Forall_forall. intros c Ic.
      destruct (token_handed s event c C Ic)
        as [(ovf & ->) | (s1' & o1' & r' & w' & _ & D' & _ & _ & _ & ->)].
      * apply reset_good.
      * rewrite D in D'. injection D' as <- _ _ _.
        apply (committed_good s1 r w); assumption.
    + destruct Cases as [(Nd & -> & _) | [(_ & X & _) | (Due & En & _)]].
      * intros _. destruct r; [discriminate |]. destruct w; [discriminate |].
        apply kept; assumption.
      * intros Nd. congruence.
      * intros _. apply (commits s1 _ r w); [assumption | assumption |].
        apply (token_afterCommit s event s1 o1 r w); assumption.
Qed.

Lemma wordLoop_invariant words : forall s,
  consistent s -> I s ->
  Forall G (handed (outs (wordLoop words s)))
  /\ (ends (wordLoop words s) <> Diverges -> I (state (wordLoop words s))).
Proof.
  induction words as [| event words IH]; intros s C Hi.
  - split; [constructor | intros _; exact Hi].
  - cbn [wordLoop]. rewrite dv_outs_andThen, dv_ends_andThen, dv_state_andThen.
    destruct (token_invariant s event C Hi) as (F1 & K1).
    destruct (ends (dvExplorerToken s event)) eqn:E.
    + destruct (IH (state (dvExplorerToken s event))) as (F2 & K2).
      * apply token_consistent; [exact C | congruence].
      * apply K1. congruence.
      * split; [| exact K2]. rewrite handed_app. apply Forall_app. auto.
    + split; [exact F1 | intros _; apply K1; congruence].
    + split; [exact F1 | intros Nd; congruence].
Qed.

Lemma dv_translator_invariant s buffer :
  consistent s -> I s ->
  Forall G (handed (outs (dvExplorerEventTranslator s buffer)))
  /\ (ends (dvExplorerEventTranslator s buffer) <> Diverges ->
      I (state (dvExplorerEventTranslator s buffer))).
Proof.
  intros C Hi. destruct (dataTransfersRun s) eqn:R.
  - destruct (translator_words s buffer R) as (-> & -> & ->).
    apply wordLoop_invariant; assumption.
  - unfold dvExplorerEventTranslator. rewrite R. cbn [negb returnWith outs state ends].
    split; [constructor | intros _; exact Hi].
Qed.

End Invariant.
End DvSteps.

(** ** The packets of the DV-Explorer translator *)

Module DvPackets.
Import DvExplorer DvFacts.

Section WithHeaders.
Context `{dv_explorer_h} `{timestamps_h}.

(** *** Room in the packets *)

Lemma roomFor_roomy {E} n (p : option (packet E)) : 0 < n -> roomFor n p -> roomy p.
Proof. destruct p as [pk |]; simpl; [lia | auto]. Qed.

(** A packet with room keeps it when it is written to after
    [ensureSpaceForEvents], at the position its events say. *)
Lemma written_roomFor {E} n (p p' : option (packet E)) position added :
  position = Z.of_nat (List.length (slotEvents p)) ->
  roomFor n p -> written p p' position n added -> roomFor n p'.
Proof.
  destruct p as [pk |], p' as [pk' |]; simpl; auto; try contradiction.
  intros -> (N & L) (Ev & _ & La & Cap). rewrite Ev, length_app.
  destruct Cap as [(-> & [-> | Le]) | (-> & Lt)]; simpl; lia.
Qed.

Lemma written_length {E} n (p p' : option (packet E)) position added :
  0 <= n -> written p p' position n added ->
  Z.of_nat (List.length (slotEvents p'))
  <= Z.of_nat (List.length (slotEvents p)) + n
  /\ Z.of_nat (List.length (slotEvents p))
     <= Z.of_nat (List.length (slotEvents p')).
Proof.
  intros N. destruct p as [pk |], p' as [pk' |]; simpl; try contradiction.
  - intros (Ev & _ & La & _). rewrite Ev, length_app. lia.
  - intros ->. simpl. lia.
Qed.

Lemma written_events {E} n (p p' : option (packet E)) position added :
  written p p' position n added -> slotEvents p' = slotEvents p ++ added.
Proof.
  destruct p as [pk |], p' as [pk' |]; simpl; try contradiction.
  - intros (Ev & _). exact Ev.
  - intros ->. reflexivity.
Qed.

Lemma andThen_keeps (Q : dv_state -> Prop) r k :
  Q (state r) -> (forall s, Q s -> Q (state (k s))) -> Q (state (andThen r k)).
Proof.
  intros Qr Qk. rewrite dv_state_andThen. destruct (ends r); auto.
Qed.

(** The allocations at the head of a step leave a packet as it is or
    allocate it with its default size. *)
Lemma dv_prepare_room s :
  8 <= DV_EXPLORER_POLARITY_DEFAULT_SIZE ->
  1 <= DV_EXPLORER_SPECIAL_DEFAULT_SIZE ->
  1 <= DV_EXPLORER_IMU_DEFAULT_SIZE ->
  roomFor 8 (polarity (currentPackets s))
  /\ roomFor 1 (special (currentPackets s))
  /\ roomFor 1 (imu6 (currentPackets s)) ->
  roomFor 8 (polarity (currentPackets (state (prepare s))))
  /\ roomFor 1 (special (currentPackets (state (prepare s))))
  /\ roomFor 1 (imu6 (currentPackets (state (prepare s)))).
Proof.
  intros Dp Ds Di. unfold prepare.
  set (Q := fun s => roomFor 8 (polarity (currentPackets s))
                     /\ roomFor 1 (special (currentPackets s))
                     /\ roomFor 1 (imu6 (currentPackets s))).
  intros Qs. change (Q (state (andThen (allocateContainer s)
                                (fun s => andThen (allocateSpecial s)
                                  (fun s => andThen (allocatePolarity s) allocateIMU6))))).
  apply andThen_keeps.
  { unfold allocateContainer, containerGenerationAllocate,
      caerEventPacketContainerAllocate.
    destruct (currentPacketContainer (container s)); [exact Qs |].
    destruct (request (allocations s)) as [[|] env]; exact Qs. }
  clear s Qs. intros s Qs. apply andThen_keeps.
  { unfold allocateSpecial, caerEventPacketAllocate.
    destruct (special (currentPackets s)) eqn:E; [exact Qs |].
    destruct (request (allocations s)) as [[|] env]; [| exact Qs].
    destruct Qs as (Q1 & Q2 & Q3). unfold Q. simpl. repeat split; auto; lia. }
  clear s Qs. intros s Qs. apply andThen_keeps.
  { unfold allocatePolarity, caerEventPacketAllocate.
    destruct (polarity (currentPackets s)) eqn:E; [exact Qs |].
    destruct (request (allocations s)) as [[|] env]; [| exact Qs].
    destruct Qs as (Q1 & Q2 & Q3). unfold Q. simpl. repeat split; auto; lia. }
  clear s Qs. intros s Qs.
  unfold allocateIMU6, caerEventPacketAllocate.
  destruct (imu6 (currentPackets s)) eqn:E; [exact Qs |].
  destruct (request (allocations s)) as [[|] env]; [| exact Qs].
  destruct Qs as (Q1 & Q2 & Q3). unfold Q. simpl. repeat split; auto; lia.
Qed.

(** What the allocations keep. *)
Lemma prepare_keeps s :
  slotEvents (polarity (currentPackets (state (prepare s))))
  = slotEvents (polarity (currentPackets s))
  /\ slotEvents (special (currentPackets (state (prepare s))))
     = slotEvents (special (currentPackets s))
  /\ slotEvents (imu6 (currentPackets (state (prepare s))))
     = slotEvents (imu6 (currentPackets s))
  /\ dvs (state (prepare s)) = dvs s
  /\ maxPacketContainerPacketSize (container (state (prepare s)))
     = maxPacketContainerPacketSize (container s).
Proof.
  destruct (dv_prepare_allocates s) as (P & _). unfold sameButPackets in P.
  destruct P as (_ & _ & Pd & _ & _ & _ & Pm & _ & _ & _ & _ & Pp & Ps & Pi & _).
  auto.
Qed.

(** The slots of the container a commit fills. *)
Lemma dv_committed_slots s :
  (slotEvents (polaritySlot (committed s)) = []
   \/ polaritySlot (committed s) = polarity (currentPackets s))
  /\ (slotEvents (specialSlot (committed s)) = []
      \/ specialSlot (committed s) = special (currentPackets s))
  /\ (slotEvents (imu6Slot (committed s)) = []
      \/ imu6Slot (committed s) = imu6 (currentPackets s)).
Proof.
  unfold committed. cbn [polaritySlot specialSlot imu6Slot].
  destruct (polarityPosition (currentPackets s) >? 0),
           (specialPosition (currentPackets s) >? 0),
           (imu6Position (currentPackets s) >? 0); auto.
Qed.

Lemma dv_afterCommit_events s s' :
  afterCommit s s' ->
  slotEvents (polarity (currentPackets s')) = []
  /\ slotEvents (special (currentPackets s')) = []
  /\ slotEvents (imu6 (currentPackets s')) = [].
Proof.
  intros ((_ & Cp & Cs & Ci) & _ & _ & _ & _ & K).
  assert (P0 : polarityPosition (currentPackets s') = 0) by (rewrite K; reflexivity).
  assert (S0 : specialPosition (currentPackets s') = 0) by (rewrite K; reflexivity).
  assert (I0 : imu6Position (currentPackets s') = 0) by (rewrite K; reflexivity).
  repeat split; apply length_zero_iff_nil; lia.
Qed.

End WithHeaders.
End DvPackets.

(** ** The packet headers of the DV-Explorer translator *)

Module DvHeaders.
Import DvExplorer DvFacts.

Section WithHeaders.
Context `{dv_explorer_h} `{timestamps_h}.

(** *** The number of events in the headers *)

Lemma counted_surplus {E} (p : option (packet E)) : counted p <-> surplus p = 0.
Proof. unfold counted, surplus. lia. Qed.

Lemma surplus_write {E} (p : option (packet E)) e : surplus (write p e) = surplus p.
Proof.
  destruct p as [pk |]; [| reflexivity].
  unfold surplus. cbn [write slotNumber slotEvents appendEvent eventNumber events].
  rewrite length_app. cbn [List.length]. lia.
Qed.

(** [ensureSpaceForEvents] leaves the header and the events alone, and
    finds no room in a packet that is not there. *)
Lemma ensureSpaceForEvents_header {E} (p : option (packet E)) position n env :
  let '(p', ok, _, _) := ensureSpaceForEvents p position n env in
  slotNumber p' = slotNumber p /\ slotEvents p' = slotEvents p
  /\ (ok = false -> p' = p).
Proof.
  destruct p as [pk |]; [| cbn; auto].
  unfold ensureSpaceForEvents, caerEventPacketGrow, request.
  destruct (position + n <=? eventCapacity pk); [cbn; auto |].
  destruct env as [| [] env]; cbn; repeat split; auto; discriminate.
Qed.

Lemma ensureSpaceForEvents_surplus {E} (p : option (packet E)) position n env :
  let '(p', _, _, _) := ensureSpaceForEvents p position n env in
  surplus p' = surplus p.
Proof.
  pose proof (ensureSpaceForEvents_header p position n env) as K.
  destruct (ensureSpaceForEvents p position n env) as [[[p' ok] o] env'].
  destruct K as (K1 & K2 & _). unfold surplus. rewrite K1, K2. reflexivity.
Qed.

(** A handler that leaves the packets alone. *)
Lemma headers_frame (s s' : dv_state) (P : Prop) :
  currentPackets s' = currentPackets s ->
  surplus (polarity (currentPackets s')) = surplus (polarity (currentPackets s))
  /\ surplus (special (currentPackets s')) = surplus (special (currentPackets s))
  /\ (surplus (imu6 (currentPackets s')) = surplus (imu6 (currentPackets s)) \/ P).
Proof. intros ->. auto. Qed.

Lemma putSpecial_surplus s t ty :
  currentPackets (fst (putSpecial s t ty))
  = set_pkSpecial (special (currentPackets (fst (putSpecial s t ty))))
      (specialPosition (currentPackets (fst (putSpecial s t ty))))
      (currentPackets s)
  /\ surplus (special (currentPackets (fst (putSpecial s t ty))))
     = surplus (special (currentPackets s)).
Proof.
  unfold putSpecial.
  pose proof (ensureSpaceForEvents_surplus (special (currentPackets s))
                (specialPosition (currentPackets s)) 1 (allocations s)) as K.
  destruct (ensureSpaceForEvents (special (currentPackets s))
              (specialPosition (currentPackets s)) 1 (allocations s))
    as [[[p' ok] o] env'].
  destruct ok; cbn [fst currentPackets set_currentPackets set_allocations
                    set_pkSpecial special specialPosition];
    (split; [reflexivity |]); rewrite ?surplus_write; exact K.
Qed.

Lemma polarityGroup_surplus s code data :
  currentPackets (fst (polarityGroup s code data))
  = set_pkPolarity (polarity (currentPackets (fst (polarityGroup s code data))))
      (polarityPosition (currentPackets (fst (polarityGroup s code data))))
      (currentPackets s)
  /\ surplus (polarity (currentPackets (fst (polarityGroup s code data))))
     = surplus (polarity (currentPackets s)).
Proof.
  unfold polarityGroup.
  pose proof (ensureSpaceForEvents_header (polarity (currentPackets s))
                (polarityPosition (currentPackets s)) 8 (allocations s)) as K.
  destruct (ensureSpaceForEvents (polarity (currentPackets s))
              (polarityPosition (currentPackets s)) 8 (allocations s))
    as [[[p' ok] o] env'].
  destruct K as (K1 & K2 & K3).
  assert (S0 : surplus p' = surplus (polarity (currentPackets s)))
    by (unfold surplus; rewrite K1, K2; reflexivity).
  destruct ok.
  - cbn [set_allocations dvs timestamps].
    destruct p' as [pk' |].
    + destruct (DvSteps.pixelGroup_written 8 0 128 data (negb (Z.land code 1 =? 0))
                  (dvs s) (current (timestamps s)) pk'
                  (polarityPosition (currentPackets s)) ltac:(lia))
        as (pa & E & _).
      destruct (pixelGroup 8 0 128 data (negb (Z.land code 1 =? 0)) (dvs s)
                  (current (timestamps s)) (Some pk')
                  (polarityPosition (currentPackets s))) as [p2 pos2].
      cbn [fst] in E. subst p2.
      cbn [fst currentPackets set_currentPackets set_allocations set_pkPolarity
           polarity polarityPosition].
      split; [reflexivity |]. rewrite <- S0. unfold surplus.
      cbn [slotNumber slotEvents eventNumber events]. rewrite length_app. lia.
    + assert (G : forall n i mask pos,
                 fst (pixelGroup n i mask data (negb (Z.land code 1 =? 0)) (dvs s)
                        (current (timestamps s)) None pos) = None).
      { induction n as [| n IH]; intros i mask pos; cbn [pixelGroup fst];
          [reflexivity |].
        destruct (Z.land data mask =? 0); cbn [write]; apply IH. }
      specialize (G 8%nat 0 128 (polarityPosition (currentPackets s))).
      destruct (pixelGroup 8 0 128 data (negb (Z.land code 1 =? 0)) (dvs s)
                  (current (timestamps s)) None
                  (polarityPosition (currentPackets s))) as [p2 pos2].
      cbn [fst] in G. subst p2.
      cbn [fst currentPackets set_currentPackets set_allocations set_pkPolarity
           polarity polarityPosition].
      split; [reflexivity | exact S0].
  - cbn [fst currentPackets set_currentPackets set_allocations set_pkPolarity
         polarity polarityPosition].
    split; [reflexivity | exact S0].
Qed.

(** The header of the IMU packet at an IMU end: it counts the sample
    that is copied, unless the sample was validated before or the packet
    cannot grow. *)
Lemma imuEnd_surplus s :
  currentPackets (fst (imuEnd s))
  = set_pkIMU6 (imu6 (currentPackets (fst (imuEnd s))))
      (imu6Position (currentPackets (fst (imuEnd s)))) (currentPackets s)
  /\ (surplus (imu6 (currentPackets (fst (imuEnd s))))
      = surplus (imu6 (currentPackets s))
      \/ (ignoreEvents (imu s) = false /\ count (imu s) = IMU_TOTAL_COUNT
          /\ (currentEventValid (imu s) = true \/ allocations s <> []))).
Proof.
  unfold imuEnd. destruct (ignoreEvents (imu s)) eqn:Ig.
  { cbn [fst]. split; [destruct (currentPackets s); reflexivity | left; reflexivity]. }
  destruct (Z.eqb_spec (count (imu s)) IMU_TOTAL_COUNT) as [C | C].
  2: { cbn [fst]. split; [destruct (currentPackets s); reflexivity | left; reflexivity]. }
  unfold caerIMU6EventValidate.
  destruct (currentEventValid (imu s)) eqn:V.
  - cbn [currentPackets set_imu allocations].
    destruct (ensureSpaceForEvents (imu6 (currentPackets s))
                (imu6Position (currentPackets s)) 1 (allocations s))
      as [[[p' ok] o] env'].
    destruct ok; cbn [fst currentPackets set_currentPackets set_allocations set_imu
                      set_pkIMU6 imu6 imu6Position];
      (split; [reflexivity | right; auto]).
  - cbn [currentPackets set_imu allocations].
    destruct (imu6 (currentPackets s)) as [pk |] eqn:Ep.
    + cbn [option_map].
      unfold ensureSpaceForEvents, caerEventPacketGrow, request.
      cbn [countEvent eventCapacity].
      destruct (imu6Position (currentPackets s) + 1 <=? eventCapacity pk).
      * cbn [fst currentPackets set_currentPackets set_allocations set_imu
             set_pkIMU6 imu6 imu6Position copied option_map].
        split; [reflexivity |]. left. unfold surplus.
        cbn [slotNumber slotEvents copyEvent countEvent eventNumber events].
        rewrite length_app. cbn [List.length]. lia.
      * destruct (allocations s) as [| [] env] eqn:A;
          cbn [fst currentPackets set_currentPackets set_allocations set_imu
               set_pkIMU6 imu6 imu6Position copied option_map];
          (split; [reflexivity |]).
        -- left. unfold surplus.
           cbn [slotNumber slotEvents copyEvent countEvent eventNumber events].
           rewrite length_app. cbn [List.length]. lia.
        -- left. unfold surplus.
           cbn [slotNumber slotEvents copyEvent countEvent eventNumber events].
           rewrite length_app. cbn [List.length]. lia.
        -- right. repeat split; auto. right. discriminate.
    + cbn [option_map ensureSpaceForEvents fst currentPackets set_currentPackets
           set_allocations set_imu set_pkIMU6 imu6 imu6Position].
      split; [reflexivity | left; reflexivity].
Qed.

Lemma set_pkSpecial_surplus (k k' : current_packets) :
  k' = set_pkSpecial (special k') (specialPosition k') k ->
  surplus (special k') = surplus (special k) ->
  forall P : Prop,
    surplus (polarity k') = surplus (polarity k)
    /\ surplus (special k') = surplus (special k)
    /\ (surplus (imu6 k') = surplus (imu6 k) \/ P).
Proof.
  intros E S P. split; [| split; [exact S | left]]; rewrite E; reflexivity.
Qed.

(** What the decoding of a word does to the headers: those of the
    polarity and special packets move with the events written, and so
    does the one of the IMU packet, unless the word is an IMU end that
    finds the count it expects and either the private sample validated
    before or an allocation that can fail. *)
Lemma decode_surplus s event s' o r w :
  decode s event = (s', o, r, w) ->
  surplus (polarity (currentPackets s')) = surplus (polarity (currentPackets s))
  /\ surplus (special (currentPackets s')) = surplus (special (currentPackets s))
  /\ (surplus (imu6 (currentPackets s')) = surplus (imu6 (currentPackets s))
      \/ (completes s event
          /\ (currentEventValid (imu s) = true \/ allocations s <> []))).
Proof.
  intros D. destruct (isTimestamp event) eqn:T.
  - rewrite (decode_timestamp s event T) in D.
    destruct (handleTimestampUpdateNewLogic (timestamps s) event) as [ts l].
    injection D as <- _ _ _. apply headers_frame. reflexivity.
  - destruct (Z.eq_dec (codeOf event) 0) as [C0 | C0].
    { rewrite (decode_special s event T C0) in D.
      destruct (Z.eq_dec (dataOf event) 1) as [E1 | E1].
      { rewrite E1 in D. cbn [specialToken] in D. unfold timestampReset in D.
        destruct (handleTimestampResetNewLogic (timestamps s)) as [ts l].
        injection D as <- _ _ _. apply headers_frame. reflexivity. }
      destruct (Z.eq_dec (dataOf event) 5) as [E5 | E5].
      { rewrite E5 in D. cbn [specialToken imuStart fst snd] in D.
        injection D as <- _ _ _. apply headers_frame. reflexivity. }
      destruct (Z.eq_dec (dataOf event) 7) as [E7 | E7].
      { rewrite E7 in D. cbn [specialToken] in D. injection D as <- _ _ _.
        destruct (imuEnd_surplus s) as (K & S).
        split; [rewrite K; reflexivity |]. split; [rewrite K; reflexivity |].
        destruct S as [S | (Ig & Cn & V)]; [left; exact S | right].
        split; [| exact V]. unfold completes, isIMUEnd, isSpecial.
        rewrite T, C0, E7. auto. }
      destruct (Z.eq_dec (dataOf event) 2) as [E2 | E2];
        [| destruct (Z.eq_dec (dataOf event) 3) as [E3 | E3];
           [| destruct (Z.eq_dec (dataOf event) 4) as [E4 | E4];
              [| destruct (Z.eq_dec (dataOf event) 16) as [E16 | E16];
                 [| destruct (Z.eq_dec (dataOf event) 17) as [E17 | E17]]]]].
      6: { destruct (specialToken_other s (dataOf event)) as (msg & X); auto.
           rewrite X in D. injection D as <- _ _ _.
           apply headers_frame. reflexivity. }
      all: destruct (specialToken_external s (dataOf event)) as (ty & msg & _ & _ & X);
        [tauto |]; rewrite X in D; injection D as <- _ _ _;
        destruct (putSpecial_surplus s (current (timestamps s)) ty) as (K & S);
        apply set_pkSpecial_surplus; assumption. }
    destruct (Z.eq_dec (codeOf event) 1) as [C1 | C1].
    { rewrite (decode_column s event T C1) in D. injection D as <- _ _ _.
      apply headers_frame. unfold columnAddress.
      destruct (Z.land (dataOf event) 1023 >=? sizeY (dvs s)); reflexivity. }
    assert (Pg : codeOf event = 2 \/ codeOf event = 3 ->
                 surplus (polarity (currentPackets s'))
                 = surplus (polarity (currentPackets s))
                 /\ surplus (special (currentPackets s'))
                    = surplus (special (currentPackets s))
                 /\ (surplus (imu6 (currentPackets s'))
                     = surplus (imu6 (currentPackets s))
                     \/ (completes s event
                         /\ (currentEventValid (imu s) = true
                             \/ allocations s <> [])))).
    { intros Cd. rewrite (decode_polarity s event T Cd) in D.
      injection D as <- _ _ _.
      destruct (polarityGroup_surplus s (codeOf event) (dataOf event)) as (K & S).
      split; [exact S |]. split; [rewrite K; reflexivity | left; rewrite K; reflexivity]. }
    destruct (Z.eq_dec (codeOf event) 2) as [C2 | C2]; [apply Pg; auto |].
    destruct (Z.eq_dec (codeOf event) 3) as [C3 | C3]; [apply Pg; auto |].
    clear Pg.
    destruct (Z.eq_dec (codeOf event) 4) as [C4 | C4].
    { rewrite (decode_group s event T C4) in D. injection D as <- _ _ _.
      apply headers_frame. unfold groupAddress.
      destruct (Z.land (dataOf event) 4032 =? 0); reflexivity. }
    destruct (Z.eq_dec (codeOf event) 5) as [C5 | C5].
    { rewrite (decode_misc8 s event T C5) in D. injection D as <- _ _ _.
      apply headers_frame.
      destruct (misc8Token_cases s (dataOf event)) as [-> | [-> | ->]].
      - unfold imuData. destruct (ignoreEvents (imu s)); [reflexivity |].
        destruct (imuField (imu s) _) as [m l]. reflexivity.
      - unfold imuScaleConfig.
        repeat match goal with
               | |- context [if ?c then _ else _] => destruct c
               end; reflexivity.
      - reflexivity. }
    destruct (Z.eq_dec (codeOf event) 7) as [C7 | C7].
    { rewrite (decode_wrap s event T C7) in D. unfold timestampWrap in D.
      destruct (handleTimestampWrapNewLogic (timestamps s) (dataOf event)
                  TS_WRAP_ADD) as [[ts l] big].
      destruct big.
      - destruct (putSpecial_surplus (set_timestamps ts s) INT32_MAX TIMESTAMP_WRAP)
          as (K & S).
        destruct (putSpecial (set_timestamps ts s) INT32_MAX TIMESTAMP_WRAP)
          as [s1 o1].
        injection D as <- _ _ _. cbn [fst] in K, S.
        apply set_pkSpecial_surplus; assumption.
      - injection D as <- _ _ _. apply headers_frame. reflexivity. }
    rewrite (decode_other s event T C0 C1 C2 C3 C4 C5 C7) in D.
    injection D as <- _ _ _. apply headers_frame. reflexivity.
Qed.

(** The allocations at the head of a step leave the headers and the
    events of the packets that are there and allocate the others
    empty. *)
Lemma prepare_surplus s :
  surplus (polarity (currentPackets (state (prepare s))))
  = surplus (polarity (currentPackets s))
  /\ surplus (special (currentPackets (state (prepare s))))
     = surplus (special (currentPackets s))
  /\ surplus (imu6 (currentPackets (state (prepare s))))
     = surplus (imu6 (currentPackets s)).
Proof.
  unfold prepare.
  set (Q := fun s' : dv_state =>
              surplus (polarity (currentPackets s'))
              = surplus (polarity (currentPackets s))
              /\ surplus (special (currentPackets s'))
                 = surplus (special (currentPackets s))
              /\ surplus (imu6 (currentPackets s'))
                 = surplus (imu6 (currentPackets s))).
  change (Q (state (andThen (allocateContainer s)
                      (fun s => andThen (allocateSpecial s)
                        (fun s => andThen (allocatePolarity s) allocateIMU6))))).
  assert (Q0 : Q s) by (unfold Q; auto).
  apply DvPackets.andThen_keeps.
  { unfold allocateContainer, containerGenerationAllocate,
      caerEventPacketContainerAllocate.
    destruct (currentPacketContainer (container s)); [exact Q0 |].
    destruct (request (allocations s)) as [[|] env]; exact Q0. }
  clear Q0. intros s1 Q1. apply DvPackets.andThen_keeps.
  { unfold allocateSpecial, caerEventPacketAllocate.
    destruct (special (currentPackets s1)) eqn:E; [exact Q1 |].
    destruct (request (allocations s1)) as [[|] env]; [| exact Q1].
    destruct Q1 as (Q1 & Q2 & Q3). unfold Q.
    cbn [state continue currentPackets set_currentPackets set_allocations
         set_pkSpecial polarity special imu6].
    rewrite E in Q2. split; [exact Q1 |]. split; [| exact Q3].
    rewrite <- Q2. reflexivity. }
  clear s1 Q1. intros s1 Q1. apply DvPackets.andThen_keeps.
  { unfold allocatePolarity, caerEventPacketAllocate.
    destruct (polarity (currentPackets s1)) eqn:E; [exact Q1 |].
    destruct (request (allocations s1)) as [[|] env]; [| exact Q1].
    destruct Q1 as (Q1 & Q2 & Q3). unfold Q.
    cbn [state continue currentPackets set_currentPackets set_allocations
         set_pkPolarity polarity special imu6].
    rewrite E in Q1. split; [| split; [exact Q2 | exact Q3]].
    rewrite <- Q1. reflexivity. }
  clear s1 Q1. intros s1 Q1.
  unfold allocateIMU6, caerEventPacketAllocate.
  destruct (imu6 (currentPackets s1)) eqn:E; [exact Q1 |].
  destruct (request (allocations s1)) as [[|] env]; [| exact Q1].
  destruct Q1 as (Q1 & Q2 & Q3). unfold Q.
  cbn [state continue currentPackets set_currentPackets set_allocations
       set_pkIMU6 polarity special imu6].
  rewrite E in Q3. split; [exact Q1 |]. split; [exact Q2 |].
  rewrite <- Q3. reflexivity.
Qed.

(** The packets a commit moves to the container and the ones it leaves
    keep their headers. *)
Lemma committed_surplus s :
  (surplus (polaritySlot (committed s)) = 0
   \/ polaritySlot (committed s) = polarity (currentPackets s))
  /\ (surplus (specialSlot (committed s)) = 0
      \/ specialSlot (committed s) = special (currentPackets s))
  /\ (surplus (imu6Slot (committed s)) = 0
      \/ imu6Slot (committed s) = imu6 (currentPackets s)).
Proof.
  unfold committed. cbn [polaritySlot specialSlot imu6Slot].
  destruct (polarityPosition (currentPackets s) >? 0),
           (specialPosition (currentPackets s) >? 0),
           (imu6Position (currentPackets s) >? 0); auto.
Qed.

Lemma afterCommit_surplus s s' :
  afterCommit s s' ->
  (surplus (polarity (currentPackets s')) = 0
   \/ polarity (currentPackets s') = polarity (currentPackets s))
  /\ (surplus (special (currentPackets s')) = 0
      \/ special (currentPackets s') = special (currentPackets s))
  /\ (surplus (imu6 (currentPackets s')) = 0
      \/ imu6 (currentPackets s') = imu6 (currentPackets s)).
Proof.
  intros (_ & _ & _ & _ & _ & K). rewrite K.
  cbn [polarity special imu6].
  destruct (polarityPosition (currentPackets s) >? 0),
           (specialPosition (currentPackets s) >? 0),
           (imu6Position (currentPackets s) >? 0); auto.
Qed.

(** The headers of the polarity and special packets count the events
    written: an invariant of the translator, which holds of the packets
    of every container handed over. *)
Lemma dv_translator_counted s buffer :
  consistent s ->
  counted (polarity (currentPackets s)) -> counted (special (currentPackets s)) ->
  Forall (fun c => counted (polaritySlot c) /\ counted (specialSlot c))
    (handed (outs (dvExplorerEventTranslator s buffer)))
  /\ (ends (dvExplorerEventTranslator s buffer) <> Diverges ->
      counted (polarity (currentPackets (state (dvExplorerEventTranslator s buffer))))
      /\ counted (special (currentPackets (state (dvExplorerEventTranslator s buffer))))).
Proof.
  intros C Cp Cs.
  pose (I := fun s' : dv_state =>
               counted (polarity (currentPackets s'))
               /\ counted (special (currentPackets s'))).
  apply (DvSteps.dv_translator_invariant I I (fun s' _ _ => I s')
           (fun c => counted (polaritySlot c) /\ counted (specialSlot c))).
  - intros s0 _ (I1 & I2). unfold I, counted, surplus in *.
    destruct (prepare_surplus s0) as (P1 & P2 & _). unfold surplus in P1, P2.
    split; lia.
  - intros s0 _ (I1 & I2) _. unfold I, counted, surplus in *.
    destruct (prepare_surplus s0) as (P1 & P2 & _). unfold surplus in P1, P2.
    split; lia.
  - intros s0 event s1 o r w _ _ (I1 & I2) D _. unfold I, counted in *.
    destruct (decode_surplus _ _ _ _ _ _ D) as (P1 & P2 & _).
    unfold surplus in P1, P2. split; lia.
  - intros s1 _ I1 _. exact I1.
  - intros s1 r w _ (I1 & I2). unfold committed. cbn [polaritySlot specialSlot].
    destruct (polarityPosition (currentPackets s1) >? 0),
             (specialPosition (currentPackets s1) >? 0); split;
      try reflexivity; assumption.
  - intros s1 s2 r w _ (I1 & I2) (_ & _ & _ & _ & _ & K). unfold I. rewrite K.
    cbn [polarity special].
    destruct (polarityPosition (currentPackets s1) >? 0),
             (specialPosition (currentPackets s1) >? 0); split;
      try reflexivity; assumption.
  - intros ovf. unfold tsResetContainer, counted. cbn. auto.
  - exact C.
  - split; assumption.
Qed.

(** With a positive interval and the clock in its range, the re-arming
    of a commit ends. *)
Lemma dv_rearmed_total s :
  0 < I32T (maxPacketContainerInterval (container s)) ->
  0 <= wrapOverflow (timestamps s) <= INT32_MAX ->
  0 <= current (timestamps s) <= INT32_MAX ->
  INT64_MIN <= currentPacketContainerCommitTimestamp (container s) ->
  exists d, rearmed s = Some d.
Proof.
  intros I O C D. unfold rearmed.
  destruct (containerGenerationIsCommitTimestampElapsed (container s)
              (wrapOverflow (timestamps s)) (current (timestamps s)));
    [| eexists; reflexivity].
  pose proof (generateFullTimestamp_value _ _ O C) as F.
  pose proof (I32T_range (maxPacketContainerInterval (container s))) as IR.
  unfold INT32_MAX in O, C.
  destruct (rearm_total
              (generateFullTimestamp (wrapOverflow (timestamps s))
                 (current (timestamps s)))
              (currentPacketContainerCommitTimestamp (container s))
              (maxPacketContainerInterval (container s)))
    as (k & _ & E & _); try assumption.
  - rewrite F. unfold INT64_MAX. change (2 ^ 31) with 2147483648. lia.
  - eexists. exact E.
Qed.

End WithHeaders.
End DvHeaders.

(** ** The IMU samples of the DV-Explorer *)

Module DvIMU.
Import DvExplorer DvFacts.

Section WithHeader.
Context `{dv_explorer_h}.

(** *** The position counter of the IMU sample *)

(** One IMU data byte at a position of an enabled sensor: it is not
    logged as an error and leaves one byte less to come. *)
Lemma imuData_counting s b :
  ignoreEvents (imu s) = false ->
  imuCounting (type (imu s)) (count (imu s)) -> count (imu s) < 14 ->
  let s' := fst (imuData s b) in
  ignoreEvents (imu s') = false
  /\ type (imu s') = type (imu s)
  /\ imuCounting (type (imu s')) (count (imu s'))
  /\ imuBytesLeft (type (imu s')) (count (imu s'))
     = imuBytesLeft (type (imu s)) (count (imu s)) - 1
  /\ existsb (isLog CAER_LOG_ERROR) (snd (imuData s b)) = false.
Proof.
  intros Ig (R & Ca & Ct & Cg) Lt. unfold imuData. rewrite Ig.
  destruct (imu s) as [ig fx fy fz ty c tmp sa sg ev va] eqn:Em.
  cbn [count type ignoreEvents] in *. subst ig.
  unfold imuBytesLeft, imuCounting, imuEnabled in *.
  assert (Cases : c = 0 \/ c = 1 \/ c = 2 \/ c = 3 \/ c = 4 \/ c = 5 \/ c = 6
                  \/ c = 7 \/ c = 8 \/ c = 9 \/ c = 10 \/ c = 11 \/ c = 12 \/ c = 13)
    by lia.
  destruct (Z.land ty IMU_TYPE_ACCEL =? 0) eqn:Ea;
    destruct (Z.land ty IMU_TYPE_TEMP =? 0) eqn:Et;
    destruct (Z.land ty IMU_TYPE_GYRO =? 0) eqn:Eg;
    cbn [negb] in *;
    destruct Cases as [-> | [-> | [-> | [-> | [-> | [-> | [-> | [-> | [-> | [-> | [-> | [-> | [-> | ->]]]]]]]]]]]]];
    try (assert (X : false = true) by (apply Ca; lia); discriminate X);
    try (assert (X : false = true) by (apply Ct; lia); discriminate X);
    try (assert (X : false = true) by (apply Cg; lia); discriminate X);
    clear Ca Ct Cg;
    cbn [imuField count type set_count set_tmpData set_currentEvent fst snd
         imu set_imu ignoreEvents existsb isLog orb];
    rewrite ?Et, ?Eg;
    cbn [negb imuField count type set_count set_tmpData set_currentEvent fst snd
         imu set_imu ignoreEvents existsb isLog orb];
    rewrite ?Ea, ?Et, ?Eg; cbn [negb];
    (split; [reflexivity |]); (split; [reflexivity |]);
    (split; [| split; [reflexivity | reflexivity]]);
    vm_compute;
    repeat split; intros X; try reflexivity; try discriminate X;
    try (exfalso; apply (proj1 X); reflexivity);
    try (exfalso; discriminate (proj2 X)).
Qed.

(** At the end of the sample, and only there, no byte is left to
    come. *)
Lemma imuCounting_done ty c :
  imuCounting ty c -> (c = 14 <-> imuBytesLeft ty c = 0).
Proof.
  unfold imuCounting, imuBytesLeft. intros (R & _).
  destruct (Z.ltb_spec c 6); [| destruct (Z.ltb_spec c 8)];
    destruct (imuEnabled ty IMU_TYPE_TEMP), (imuEnabled ty IMU_TYPE_GYRO);
    cbv beta iota; lia.
Qed.

Lemma imuBytes_counting bytes : forall s,
  ignoreEvents (imu s) = false ->
  imuCounting (type (imu s)) (count (imu s)) ->
  Z.of_nat (List.length bytes) <= imuBytesLeft (type (imu s)) (count (imu s)) ->
  let s' := fst (imuBytes s bytes) in
  type (imu s') = type (imu s)
  /\ imuCounting (type (imu s')) (count (imu s'))
  /\ imuBytesLeft (type (imu s')) (count (imu s'))
     = imuBytesLeft (type (imu s)) (count (imu s)) - Z.of_nat (List.length bytes)
  /\ existsb (isLog CAER_LOG_ERROR) (snd (imuBytes s bytes)) = false.
Proof.
  induction bytes as [| b bytes IH]; intros s Ig Cn Le.
  - cbn [imuBytes fst snd List.length existsb].
    split; [reflexivity |]. split; [exact Cn |]. split; [lia | reflexivity].
  - cbn [List.length] in Le.
    assert (Lt : count (imu s) < 14).
    { destruct (imuCounting_done _ _ Cn) as (D & _). destruct Cn as (R & _).
      destruct (Z.eq_dec (count (imu s)) 14) as [E | E]; [| lia].
      specialize (D E). lia. }
    destruct (imuData_counting s b Ig Cn Lt) as (Ig1 & Ty1 & Cn1 & Lf1 & Er1).
    cbn [imuBytes]. destruct (imuData s b) as [s1 o1]. cbn [fst snd] in *.
    assert (Le1 : Z.of_nat (List.length bytes)
                  <= imuBytesLeft (type (imu s1)) (count (imu s1))).
    { rewrite Lf1. lia. }
    specialize (IH s1 Ig1 Cn1 Le1).
    destruct (imuBytes s1 bytes) as [s2 o2]. cbn [fst snd] in *.
    destruct IH as (Ty2 & Cn2 & Lf2 & Er2).
    split; [congruence |]. split; [exact Cn2 |].
    split; [rewrite Lf2, Lf1; cbn [List.length]; lia |].
    rewrite existsb_app, Er1, Er2. reflexivity.
Qed.

(** The scale configuration sets the counter to the first byte of the
    first sensor enabled. *)
Lemma imuScaleConfig_counting s data :
  ignoreEvents (imu s) = false ->
  let s0 := fst (imuScaleConfig s data) in
  let ty := type (imu s0) in
  ignoreEvents (imu s0) = false
  /\ (imuEnabled ty IMU_TYPE_ACCEL || imuEnabled ty IMU_TYPE_TEMP
      || imuEnabled ty IMU_TYPE_GYRO = true ->
      imuCounting ty (count (imu s0))
      /\ imuBytesLeft ty (count (imu s0))
         = (if imuEnabled ty IMU_TYPE_ACCEL then 6 else 0)
           + (if imuEnabled ty IMU_TYPE_TEMP then 2 else 0)
           + (if imuEnabled ty IMU_TYPE_GYRO then 6 else 0)).
Proof.
  intros Ig. unfold imuScaleConfig. rewrite Ig.
  unfold imuCounting, imuBytesLeft, imuEnabled.
  cbn [set_scales set_type type].
  set (ty := Z.land (Z.shiftr data 5) 7).
  destruct (Z.land ty IMU_TYPE_ACCEL =? 0) eqn:Ea;
    destruct (Z.land ty IMU_TYPE_TEMP =? 0) eqn:Et;
    destruct (Z.land ty IMU_TYPE_GYRO =? 0) eqn:Eg;
    cbn [negb fst imu set_imu set_count count type set_type set_scales
         ignoreEvents orb];
    rewrite ?Ea, ?Et, ?Eg; cbn [negb orb];
    (split; [exact Ig |]); intros X; try discriminate X;
    (split; [| reflexivity]);
    repeat split; try lia; intros Y; try reflexivity; exfalso; lia.
Qed.

(** *** The fields of the IMU sample *)

Lemma imuBytes_cons s b rest :
  fst (imuBytes s (b :: rest)) = fst (imuBytes (fst (imuData s b)) rest).
Proof.
  cbn [imuBytes]. destruct (imuData s b) as [s1 o1]. cbn [fst].
  destruct (imuBytes s1 rest) as [s2 o2]. reflexivity.
Qed.

Lemma imuBytes_nil s : fst (imuBytes s []) = s.
Proof. reflexivity. Qed.

(** The IMU state after a data byte, from the IMU state before. *)
Lemma imuData_imu s b m m' o :
  imu s = m -> ignoreEvents m = false -> imuField m b = (m', o) ->
  imu (fst (imuData s b)) = set_count (U8T (count m' + 1)) m'.
Proof.
  intros <- Ig F. unfold imuData. rewrite Ig, F. reflexivity.
Qed.

Ltac imu_fields E :=
  cbv [imuField set_count set_tmpData set_currentEvent ignoreEvents flipX flipY
       flipZ type count tmpData accelScale gyroScale currentEvent
       currentEventValid negb] in E.

Ltac imu_step E Et Eg :=
  imu_fields E; rewrite ?Et, ?Eg in E; imu_fields E;
  match type of E with
  | context [U8T (?k + 1)] =>
      let v := eval vm_compute in (U8T (k + 1)) in
      change (U8T (k + 1)) with v in E
  end.

(** The IMU state after the 14 data bytes of a complete sample. *)
Lemma imuBytes_sample s axh axl ayh ayl azh azl th tl gxh gxl gyh gyl gzh gzl
    fx fy fz ty tmp sa sg ev va :
  imu s = {| ignoreEvents := false; flipX := fx; flipY := fy; flipZ := fz;
             type := ty; count := 0; tmpData := tmp; accelScale := sa;
             gyroScale := sg; currentEvent := ev; currentEventValid := va |} ->
  (Z.land ty IMU_TYPE_TEMP =? 0) = false ->
  (Z.land ty IMU_TYPE_GYRO =? 0) = false ->
  imu (fst (imuBytes s
              [axh; axl; ayh; ayl; azh; azl; th; tl; gxh; gxl; gyh; gyl; gzh; gzl]))
  = {| ignoreEvents := false; flipX := fx; flipY := fy; flipZ := fz;
       type := ty; count := 14; tmpData := gzh; accelScale := sa; gyroScale := sg;
       currentEvent :=
         {| imuTimestamp := imuTimestamp ev;
            imuAccelX := Accel (flipped fx (reading axh axl)) sa;
            imuAccelY := Accel (flipped fy (reading ayh ayl)) sa;
            imuAccelZ := Accel (flipped fz (reading azh azl)) sa;
            imuGyroX := Gyro (flipped fx (reading gxh gxl)) sg;
            imuGyroY := Gyro (flipped fy (reading gyh gyl)) sg;
            imuGyroZ := Gyro (flipped fz (reading gzh gzl)) sg;
            imuTemp := Temp (reading th tl) |};
       currentEventValid := va |}.
Proof.
  intros E0 Et Eg. rewrite !imuBytes_cons, imuBytes_nil.
  pose proof (imuData_imu _ axh _ _ _ E0 eq_refl eq_refl) as E1.
  imu_step E1 Et Eg.
  pose proof (imuData_imu _ axl _ _ _ E1 eq_refl eq_refl) as E2.
  imu_step E2 Et Eg.
  pose proof (imuData_imu _ ayh _ _ _ E2 eq_refl eq_refl) as E3.
  imu_step E3 Et Eg.
  pose proof (imuData_imu _ ayl _ _ _ E3 eq_refl eq_refl) as E4.
  imu_step E4 Et Eg.
  pose proof (imuData_imu _ azh _ _ _ E4 eq_refl eq_refl) as E5.
  imu_step E5 Et Eg.
  pose proof (imuData_imu _ azl _ _ _ E5 eq_refl eq_refl) as E6.
  imu_step E6 Et Eg.
  pose proof (imuData_imu _ th _ _ _ E6 eq_refl eq_refl) as E7.
  imu_step E7 Et Eg.
  pose proof (imuData_imu _ tl _ _ _ E7 eq_refl eq_refl) as E8.
  imu_step E8 Et Eg.
  pose proof (imuData_imu _ gxh _ _ _ E8 eq_refl eq_refl) as E9.
  imu_step E9 Et Eg.
  pose proof (imuData_imu _ gxl _ _ _ E9 eq_refl eq_refl) as E10.
  imu_step E10 Et Eg.
  pose proof (imuData_imu _ gyh _ _ _ E10 eq_refl eq_refl) as E11.
  imu_step E11 Et Eg.
  pose proof (imuData_imu _ gyl _ _ _ E11 eq_refl eq_refl) as E12.
  imu_step E12 Et Eg.
  pose proof (imuData_imu _ gzh _ _ _ E12 eq_refl eq_refl) as E13.
  imu_step E13 Et Eg.
  pose proof (imuData_imu _ gzl _ _ _ E13 eq_refl eq_refl) as E14.
  imu_step E14 Et Eg.
  rewrite E14. reflexivity.
Qed.

End WithHeader.
End DvIMU.

(** ** IMU samples cut short *)

Module DvSamples.
Import DvExplorer DvFacts.

Section WithHeaders.
Context `{dv_explorer_h} `{timestamps_h}.

Lemma isMisc8_spec code event :
  isMisc8 code event = true
  <-> isTimestamp event = false /\ codeOf event = 5 /\ misc8CodeOf event = code.
Proof.
  unfold isMisc8. rewrite !andb_true_iff, negb_true_iff, !Z.eqb_eq. tauto.
Qed.

Lemma putSpecial_imu s t ty : imu (fst (putSpecial s t ty)) = imu s.
Proof.
  unfold putSpecial.
  destruct (ensureSpaceForEvents (special (currentPackets s))
              (specialPosition (currentPackets s)) 1 (allocations s))
    as [[[p' ok] o] env'].
  destruct ok; reflexivity.
Qed.

(** What the decoding of a word does to the IMU state, for a word that
    is neither an IMU start nor a scale configuration nor an IMU end that
    finds the count it expects: a data byte is taken in, and every other
    word leaves the IMU state alone. *)
Lemma decode_imu s event s' o r w :
  decode s event = (s', o, r, w) ->
  isIMUStart event = false -> isIMUScaleConfig event = false ->
  (isIMUEnd event = true ->
   ignoreEvents (imu s) = true \/ count (imu s) <> IMU_TOTAL_COUNT) ->
  imu s'
  = imu (if isIMUData event
         then fst (imuData s (U8T (Z.land (dataOf event) 0x00FF)))
         else s).
Proof.
  intros D St Sc En.
  assert (Nd : forall c, codeOf event = c -> c <> 5 -> isIMUData event = false).
  { intros c Ec Nc. destruct (isIMUData event) eqn:X; [| reflexivity].
    apply isMisc8_spec in X. destruct X as (_ & X & _). congruence. }
  destruct (isTimestamp event) eqn:T.
  { assert (X : isIMUData event = false).
    { unfold isIMUData, isMisc8. rewrite T. reflexivity. }
    rewrite X. rewrite (decode_timestamp s event T) in D.
    destruct (handleTimestampUpdateNewLogic (timestamps s) event) as [ts l].
    injection D as <- _ _ _. reflexivity. }
  destruct (Z.eq_dec (codeOf event) 0) as [C0 | C0].
  { rewrite (Nd 0 C0 ltac:(lia)).
    rewrite (decode_special s event T C0) in D.
    destruct (Z.eq_dec (dataOf event) 1) as [E1 | E1].
    { rewrite E1 in D. cbn [specialToken] in D. unfold timestampReset in D.
      destruct (handleTimestampResetNewLogic (timestamps s)) as [ts l].
      injection D as <- _ _ _. reflexivity. }
    destruct (Z.eq_dec (dataOf event) 5) as [E5 | E5].
    { exfalso. unfold isIMUStart, isSpecial in St. rewrite T, C0, E5 in St.
      discriminate St. }
    destruct (Z.eq_dec (dataOf event) 7) as [E7 | E7].
    { rewrite E7 in D. cbn [specialToken] in D. injection D as <- _ _ _.
      assert (X : isIMUEnd event = true).
      { unfold isIMUEnd, isSpecial. rewrite T, C0, E7. reflexivity. }
      unfold imuEnd. destruct (En X) as [Ig | Cn].
      - rewrite Ig. reflexivity.
      - destruct (ignoreEvents (imu s)); [reflexivity |].
        apply Z.eqb_neq in Cn. rewrite Cn. reflexivity. }
    destruct (Z.eq_dec (dataOf event) 2) as [E2 | E2];
      [| destruct (Z.eq_dec (dataOf event) 3) as [E3 | E3];
         [| destruct (Z.eq_dec (dataOf event) 4) as [E4 | E4];
            [| destruct (Z.eq_dec (dataOf event) 16) as [E16 | E16];
               [| destruct (Z.eq_dec (dataOf event) 17) as [E17 | E17]]]]].
    6: { destruct (specialToken_other s (dataOf event)) as (msg & X); auto.
         rewrite X in D. injection D as <- _ _ _. reflexivity. }
    all: destruct (specialToken_external s (dataOf event)) as (ty & msg & _ & _ & X);
      [tauto |]; rewrite X in D; injection D as <- _ _ _;
      apply putSpecial_imu. }
  destruct (Z.eq_dec (codeOf event) 1) as [C1 | C1].
  { rewrite (Nd 1 C1 ltac:(lia)).
    rewrite (decode_column s event T C1) in D. injection D as <- _ _ _.
    destruct (columnAddress_effect s (dataOf event)) as (_ & I & _). exact I. }
  assert (Pg : codeOf event = 2 \/ codeOf event = 3 -> imu s' = imu s).
  { intros Cd. rewrite (decode_polarity s event T Cd) in D.
    injection D as <- _ _ _.
    destruct (polarityGroup_effect s (codeOf event) (dataOf event)) as (pa & _ & I & _).
    exact I. }
  destruct (Z.eq_dec (codeOf event) 2) as [C2 | C2].
  { rewrite (Nd 2 C2 ltac:(lia)). apply Pg. auto. }
  destruct (Z.eq_dec (codeOf event) 3) as [C3 | C3].
  { rewrite (Nd 3 C3 ltac:(lia)). apply Pg. auto. }
  clear Pg.
  destruct (Z.eq_dec (codeOf event) 4) as [C4 | C4].
  { rewrite (Nd 4 C4 ltac:(lia)).
    rewrite (decode_group s event T C4) in D. injection D as <- _ _ _.
    destruct (groupAddress_effect s (dataOf event)) as (_ & I & _). exact I. }
  destruct (Z.eq_dec (codeOf event) 5) as [C5 | C5].
  { rewrite (decode_misc8 s event T C5) in D. injection D as <- _ _ _.
    unfold isIMUData, isIMUScaleConfig, isMisc8 in *. rewrite T, C5 in *.
    cbn [negb andb Z.eqb] in *. unfold misc8CodeOf in *. unfold misc8Token.
    destruct (U8T (Z.shiftr (Z.land (dataOf event) 3840) 8)) as [| p | p];
      [reflexivity | | reflexivity].
    destruct p as [[p | p |] | p |]; try reflexivity. discriminate Sc. }
  rewrite (Nd (codeOf event) eq_refl C5).
  destruct (Z.eq_dec (codeOf event) 7) as [C7 | C7].
  { rewrite (decode_wrap s event T C7) in D. unfold timestampWrap in D.
    destruct (handleTimestampWrapNewLogic (timestamps s) (dataOf event)
                TS_WRAP_ADD) as [[ts l] big].
    destruct big.
    - pose proof (putSpecial_imu (set_timestamps ts s) INT32_MAX TIMESTAMP_WRAP) as I.
      destruct (putSpecial (set_timestamps ts s) INT32_MAX TIMESTAMP_WRAP)
        as [s1 o1].
      injection D as <- _ _ _. exact I.
    - injection D as <- _ _ _. reflexivity. }
  rewrite (decode_other s event T C0 C1 C2 C3 C4 C5 C7) in D.
  injection D as <- _ _ _. reflexivity.
Qed.

(** The IMU state after a step that goes on: the one the decoding of
    the word left, with IMU events ignored after a forced commit. *)
Lemma token_imu_after s event :
  consistent s -> ends (dvExplorerToken s event) = Continue ->
  exists s1 o1 r w,
    ends (prepare s) = Continue
    /\ decode (state (prepare s)) event = (s1, o1, r, w)
    /\ imu (state (prepare s)) = imu s
    /\ (imu (state (dvExplorerToken s event)) = imu s1
        \/ imu (state (dvExplorerToken s event)) = set_ignoreEvents true (imu s1)).
Proof.
  intros C En.
  destruct (dv_prepare_allocates s) as (P & _).
  destruct P as (_ & _ & _ & P4 & _).
  destruct (token_cases s event C)
    as [(X & _) | (s1 & o1 & r & w & E & D & _ & _ & _ & Cases)]; [congruence |].
  exists s1, o1, r, w. split; [exact E |]. split; [exact D |]. split; [exact P4 |].
  destruct Cases as [(_ & -> & _) | [(_ & X & _) | (_ & _ & _ & _ & _ & _ & _ & Q & _)]].
  - left. reflexivity.
  - congruence.
  - rewrite Q. destruct (r || w); auto.
Qed.

Lemma imuShort_end n m :
  IMU_TOTAL_COUNT = 14 -> 0 <= n -> imuShort n m ->
  ignoreEvents m = true \/ count m <> IMU_TOTAL_COUNT.
Proof.
  intros T N [Ig | (Cn & Lt)]; [left; exact Ig | right].
  rewrite T. intros E. apply (DvIMU.imuCounting_done _ _ Cn) in E. lia.
Qed.

(** A data byte taken in leaves one byte less to come. *)
Lemma imuShort_data s b n :
  0 <= n -> imuShort (n + 1) (imu s) -> imuShort n (imu (fst (imuData s b))).
Proof.
  intros N Sh. destruct (ignoreEvents (imu s)) eqn:Ig.
  - left. unfold imuData. rewrite Ig. exact Ig.
  - destruct Sh as [X | (Cn & Lt)]; [congruence |].
    assert (L14 : count (imu s) < 14).
    { destruct (Z.eq_dec (count (imu s)) 14) as [E | E].
      - apply (DvIMU.imuCounting_done _ _ Cn) in E. lia.
      - destruct Cn as (R & _). lia. }
    destruct (DvIMU.imuData_counting s b Ig Cn L14) as (_ & Ty & Cn1 & Lf & _).
    right. split; [exact Cn1 |]. rewrite Lf. lia.
Qed.

(** A step on a word that is neither an IMU start nor a scale
    configuration, from a state in which an IMU end would discard the
    sample even after the data bytes still to come: no IMU sample is
    handed over, and the state after the step is such a state again. *)
Lemma token_short s event n :
  IMU_TOTAL_COUNT = 14 -> consistent s -> imuEmpty s ->
  isIMUStart event = false -> isIMUScaleConfig event = false ->
  0 <= n ->
  imuShort (n + (if isIMUData event then 1 else 0)) (imu s) ->
  Forall noIMU (handed (outs (dvExplorerToken s event)))
  /\ (ends (dvExplorerToken s event) = Continue ->
      imuEmpty (state (dvExplorerToken s event))
      /\ imuShort n (imu (state (dvExplorerToken s event)))).
Proof.
  intros T C Em St Sc N Sh.
  assert (Hc : ignoreEvents (imu s) = true \/ count (imu s) <> IMU_TOTAL_COUNT).
  { apply (imuShort_end _ _ T) in Sh; [exact Sh |].
    destruct (isIMUData event); lia. }
  destruct (token_imu s event C Em (or_intror Hc)) as (F & K).
  split; [exact F |]. intros En. split; [apply K; congruence |].
  destruct (token_imu_after s event C En) as (s1 & o1 & r & w & E & D & P4 & Q).
  assert (S1 : imuShort n (imu s1)).
  { rewrite (decode_imu _ _ _ _ _ _ D St Sc) by (intros _; rewrite P4; exact Hc).
    destruct (isIMUData event).
    - apply imuShort_data; [exact N |]. rewrite P4. exact Sh.
    - rewrite P4. rewrite Z.add_0_r in Sh. exact Sh. }
  destruct Q as [-> | ->]; [exact S1 |].
  left. destruct (imu s1). reflexivity.
Qed.

(** The loop over words of which none is an IMU start or a scale
    configuration, with fewer data bytes among them than the sample still
    takes: no IMU sample is handed over, whatever IMU ends, timestamps,
    resets and other events are among the words. *)
Lemma wordLoop_short words : forall s,
  IMU_TOTAL_COUNT = 14 -> consistent s -> imuEmpty s ->
  Forall (fun e => isIMUStart e = false /\ isIMUScaleConfig e = false) words ->
  imuShort (Z.of_nat (List.length (filter isIMUData words))) (imu s) ->
  Forall noIMU (handed (outs (wordLoop words s))).
Proof.
  induction words as [| event words IH]; intros s T C Em F Sh.
  - constructor.
  - inversion F as [| ? ? (St & Sc) F']; subst.
    cbn [wordLoop]. rewrite dv_outs_andThen.
    destruct (token_short s event
                (Z.of_nat (List.length (filter isIMUData words))) T C Em St Sc)
      as (F1 & K); [lia | |].
    { cbn [filter] in Sh. destruct (isIMUData event).
      - cbn [List.length] in Sh. rewrite Nat2Z.inj_succ in Sh.
        unfold Z.succ in Sh. exact Sh.
      - rewrite Z.add_0_r. exact Sh. }
    destruct (ends (dvExplorerToken s event)) eqn:E; try exact F1.
    destruct (K eq_refl) as (Em1 & Sh1).
    rewrite handed_app. apply Forall_app. split; [exact F1 |].
    apply IH; auto. apply token_consistent; [exact C | congruence].
Qed.

(** After a scale configuration that enables a sensor, as long as fewer
    data bytes follow than the sensors enabled take, and neither an IMU
    start nor another scale configuration, no IMU sample is handed
    over. *)
Lemma wordLoop_configured_short config words s :
  IMU_TOTAL_COUNT = 14 -> consistent s -> imuEmpty s ->
  isIMUScaleConfig config = true ->
  Forall (fun e => isIMUStart e = false /\ isIMUScaleConfig e = false) words ->
  Z.of_nat (List.length (filter isIMUData words))
  < imuBytesOf (configuredType config) ->
  Forall noIMU (handed (outs (wordLoop (config :: words) s))).
Proof.
  intros T C Em Cf F Lt.
  apply isMisc8_spec in Cf. destruct Cf as (Ts & C5 & M3).
  assert (En : isIMUEnd config = false).
  { apply isSpecial_false. right. left. rewrite C5. discriminate. }
  cbn [wordLoop]. rewrite dv_outs_andThen.
  destruct (token_imu s config C Em (or_introl En)) as (F1 & K).
  destruct (ends (dvExplorerToken s config)) eqn:E; try exact F1.
  rewrite handed_app. apply Forall_app. split; [exact F1 |].
  apply wordLoop_short; auto.
  - apply token_consistent; [exact C | congruence].
  - apply K. congruence.
  - destruct (token_imu_after s config C E) as (s1 & o1 & r & w & _ & D & P4 & Q).
    assert (S1 : imuShort (Z.of_nat (List.length (filter isIMUData words))) (imu s1)).
    { rewrite (decode_misc8 _ config Ts C5) in D. injection D as <- _ _ _.
      unfold misc8Token. unfold misc8CodeOf in M3. rewrite M3.
      destruct (ignoreEvents (imu (state (prepare s)))) eqn:Ig.
      - left. unfold imuScaleConfig. rewrite Ig. exact Ig.
      - destruct (DvIMU.imuScaleConfig_counting (state (prepare s)) (dataOf config) Ig)
          as (_ & Cn).
        assert (Ty : type (imu (fst (imuScaleConfig (state (prepare s)) (dataOf config))))
                     = configuredType config).
        { unfold imuScaleConfig. rewrite Ig. unfold configuredType.
          repeat match goal with
                 | |- context [if ?c then _ else _] => destruct c
                 end; reflexivity. }
        rewrite Ty in Cn. unfold imuBytesOf in Lt.
        destruct Cn as (Cn & Lf).
        { destruct (imuEnabled (configuredType config) IMU_TYPE_ACCEL),
                   (imuEnabled (configuredType config) IMU_TYPE_TEMP),
                   (imuEnabled (configuredType config) IMU_TYPE_GYRO);
            try reflexivity; simpl in Lt; lia. }
        right. rewrite Ty. split; [exact Cn |]. rewrite Lf. exact Lt. }
    destruct Q as [-> | ->]; [exact S1 |].
    left. destruct (imu s1). reflexivity.
Qed.

(** *** The header of the IMU packet *)

(** A step keeps the header of the IMU packet in line with the samples
    copied, unless its word is an IMU end that finds the count it expects
    and either the private sample validated before or an allocation that
    can fail. *)
Lemma token_imu_counted s event :
  consistent s -> counted (imu6 (currentPackets s)) ->
  (completes s event -> currentEventValid (imu s) = false /\ allocations s = []) ->
  Forall (fun c => counted (imu6Slot c)) (handed (outs (dvExplorerToken s event)))
  /\ (ends (dvExplorerToken s event) = Continue ->
      counted (imu6 (currentPackets (state (dvExplorerToken s event))))).
Proof.
  intros C Cn Hc.
  destruct (dv_prepare_allocates s) as (P & _).
  destruct P as (_ & _ & _ & P4 & _ & _ & _ & _ & _ & _ & _ & _ & _ & _ & _ & _ & _ & _ & PA).
  destruct (DvHeaders.prepare_surplus s) as (_ & _ & S0).
  apply DvHeaders.counted_surplus in Cn.
  assert (S1 : forall s1 o1 r w,
             decode (state (prepare s)) event = (s1, o1, r, w) ->
             surplus (imu6 (currentPackets s1)) = 0).
  { intros s1 o1 r w D.
    destruct (DvHeaders.decode_surplus _ _ _ _ _ _ D) as (_ & _ & [S | (Cp & V)]).
    - rewrite S, S0. exact Cn.
    - exfalso. unfold completes in Cp. rewrite P4 in Cp.
      destruct (Hc Cp) as (V0 & A0). rewrite P4 in V.
      destruct V as [V | V]; [congruence | apply V, PA, A0]. }
  split.
  - apply Forall_forall. intros c Ic.
    destruct (token_handed s event c C Ic)
      as [(ovf & ->) | (s1 & o1 & r & w & _ & D & _ & _ & _ & ->)].
    + reflexivity.
    + apply DvHeaders.counted_surplus.
      destruct (DvHeaders.committed_surplus s1) as (_ & _ & [X | ->]);
        [exact X | exact (S1 _ _ _ _ D)].
  - intros En.
    destruct (token_cases s event C)
      as [(X & _) | (s1 & o1 & r & w & E & D & _ & R1 & C1 & Cases)]; [congruence |].
    apply DvHeaders.counted_surplus.
    destruct Cases as [(_ & -> & _) | [(_ & X & _) | (Due & _)]].
    + exact (S1 _ _ _ _ D).
    + congruence.
    + pose proof (DvSteps.token_afterCommit s event s1 o1 r w C E D R1 C1 Due En) as Ac.
      destruct (DvHeaders.afterCommit_surplus _ _ Ac) as (_ & _ & [X | ->]);
        [exact X | exact (S1 _ _ _ _ D)].
Qed.

End WithHeaders.
End DvSamples.

(** ** The pixels of a DV-Explorer polarity group *)

Module DvPixels.
Import DvExplorer DvFacts.

(** *** The pixels of a group *)

Lemma land_bit_testbit data k :
  0 <= k -> (Z.land data (2 ^ k) =? 0) = negb (Z.testbit data k).
Proof.
  intros K. destruct (Z.testbit data k) eqn:T; cbn [negb].
  - apply Z.eqb_neq. intros E.
    assert (X : Z.testbit (Z.land data (2 ^ k)) k = false)
      by (rewrite E; apply Z.bits_0).
    rewrite Z.land_spec, T, Z.pow2_bits_true in X by lia. discriminate X.
  - apply Z.eqb_eq. apply Z.bits_inj'. intros j J.
    rewrite Z.land_spec, Z.bits_0.
    destruct (Z.eq_dec j k) as [-> | N].
    + rewrite T. reflexivity.
    + rewrite Z.pow2_bits_false by lia. apply andb_false_r.
Qed.

(** The loop over the places of a group, from place [i] on, with the
    mask at the bit of that place. *)
Lemma pixelGroup_places n : forall i data pol d t pk position,
  i + Z.of_nat n = 8 -> 0 <= i ->
  pixelGroup n i (2 ^ (7 - i)) data pol d t (Some pk) position
  = (Some {| eventCapacity := eventCapacity pk;
             eventTSOverflow := eventTSOverflow pk;
             eventNumber :=
               eventNumber pk
               + Z.of_nat (List.length
                             (filter (fun j => Z.testbit data (7 - j))
                                (map (fun k => i + Z.of_nat k) (seq 0 n))));
             events :=
               events pk
               ++ map (groupPixel d t pol)
                    (filter (fun j => Z.testbit data (7 - j))
                       (map (fun k => i + Z.of_nat k) (seq 0 n))) |},
     position
     + Z.of_nat (List.length
                   (filter (fun j => Z.testbit data (7 - j))
                      (map (fun k => i + Z.of_nat k) (seq 0 n))))).
Proof.
  induction n as [| n IH]; intros i data pol d t pk position E I0.
  - cbn [pixelGroup seq map filter List.length Z.of_nat].
    rewrite app_nil_r, !Z.add_0_r.
    destruct pk; reflexivity.
  - cbn [pixelGroup seq map]. rewrite Z.add_0_r.
    rewrite land_bit_testbit by lia.
    assert (Sh : Z.shiftr (2 ^ (7 - i)) 1 = 2 ^ (7 - (i + 1)) \/ n = 0%nat).
    { destruct n as [| n]; [right; reflexivity | left].
      rewrite Z.shiftr_div_pow2 by lia. change (2 ^ 1) with 2.
      replace (7 - i) with (Z.succ (7 - (i + 1))) by lia.
      rewrite Z.pow_succ_r by lia. rewrite Z.mul_comm, Z.div_mul by lia.
      reflexivity. }
    assert (Sq : map (fun k => i + Z.of_nat k) (seq 1 n)
                 = map (fun k => i + 1 + Z.of_nat k) (seq 0 n)).
    { rewrite <- seq_shift, map_map. apply map_ext. intros k. lia. }
    rewrite Sq. cbn [filter].
    destruct (Z.testbit data (7 - i)) eqn:T; cbn [negb].
    + cbn [write]. destruct Sh as [-> | ->].
      * rewrite IH by lia.
        cbn [appendEvent eventCapacity eventTSOverflow eventNumber events map
             List.length].
        rewrite <- app_assoc. cbn [app].
        unfold groupPixel.
        destruct (invertXY d); (f_equal; [f_equal; f_equal; lia | lia]).
      * cbn [pixelGroup seq map filter List.length appendEvent Z.of_nat
             Pos.of_succ_nat].
        unfold groupPixel. destruct (invertXY d); reflexivity.
    + destruct Sh as [-> | ->].
      * rewrite IH by lia. reflexivity.
      * cbn [pixelGroup seq map filter List.length Z.of_nat].
        rewrite app_nil_r, !Z.add_0_r.
        destruct pk; reflexivity.
Qed.

End DvPixels.

(** ** The DV-Explorer stream cut into buffers *)

Module DvBuffers.
Import DvExplorer DvFacts.

Section WithHeaders.
Context `{dv_explorer_h} `{timestamps_h}.

(** *** The run flag *)

Lemma movePackets_run s : dataTransfersRun (movePackets s) = dataTransfersRun s.
Proof.
  unfold movePackets.
  repeat match goal with
         | |- context [if ?b then _ else _] => destruct b
         end; reflexivity.
Qed.

Lemma commit_run s r w :
  dataTransfersRun (state (commit s r w)) = dataTransfersRun s.
Proof.
  unfold commit.
  match goal with
  | |- context [if ?b then _ else _] => destruct b
  end; [| reflexivity].
  destruct (r || w).
  - match goal with
    | |- context [match ?x with Some _ => _ | None => _ end] => destruct x as [[[[g o] al] pu] |]
    end; cbn; apply movePackets_run.
  - match goal with
    | |- context [match ?x with Some _ => _ | None => _ end] => destruct x as [[[[g o] al] pu] |]
    end; cbn; apply movePackets_run.
Qed.

Lemma token_run s event :
  consistent s ->
  dataTransfersRun (state (dvExplorerToken s event)) = dataTransfersRun s.
Proof.
  intros C.
  destruct (dv_prepare_allocates s) as ((Pr & _) & _).
  destruct (token_cases s event C)
    as [(_ & _ & -> & _) | (s1 & o1 & r & w & E & D & (pa & sa & ia & (Er & _) & _) & _)];
    [exact Pr |].
  rewrite (dvExplorerToken_process s event E). cbn [state].
  destruct (dv_process_spec _ _ _ _ _ _ D) as (-> & _).
  rewrite commit_run. congruence.
Qed.

Lemma wordLoop_run words : forall s,
  consistent s -> ends (wordLoop words s) <> Diverges ->
  dataTransfersRun (state (wordLoop words s)) = dataTransfersRun s.
Proof.
  induction words as [| event words IH]; intros s C.
  - reflexivity.
  - cbn [wordLoop]. rewrite dv_ends_andThen, dv_state_andThen.
    pose proof (token_run s event C) as T.
    destruct (ends (dvExplorerToken s event)) eqn:E.
    + intros Nd. rewrite IH; [exact T | | exact Nd].
      apply token_consistent; [exact C | congruence].
    + intros _. exact T.
    + intros _. exact T.
Qed.

(** *** A stream cut into buffers *)

(** The translator on two buffers one after the other, the first of
    even size and decoded to its end, and on the two as one. *)
Lemma translator_app s first second :
  consistent s -> dataTransfersRun s = true ->
  Nat.even (List.length first) = true ->
  ends (dvExplorerEventTranslator s first) = Continue ->
  let r1 := dvExplorerEventTranslator s first in
  let r2 := dvExplorerEventTranslator (state r1) second in
  let r := dvExplorerEventTranslator s (first ++ second) in
  state r = state r2
  /\ handed (outs r) = handed (outs r1) ++ handed (outs r2)
  /\ ends r = ends r2
  /\ (Nat.even (List.length second) = true -> outs r = outs r1 ++ outs r2).
Proof.
  intros C R E En r1 r2 r. subst r1 r2 r.
  rewrite (translator_even s first R E) in *.
  rewrite (decodeLoop_words _ first s (le_n _)) in *.
  assert (R1 : dataTransfersRun (state (wordLoop (wordsOf first) s)) = true).
  { rewrite wordLoop_run; [exact R | exact C | congruence]. }
  destruct (translator_words s (first ++ second) R) as (Hh & Hs & He).
  destruct (translator_words _ second R1) as (Hh2 & Hs2 & He2).
  rewrite Hh, Hs, He, Hh2, Hs2, He2.
  rewrite (wordsOf_app _ _ E), wordLoop_app.
  rewrite dv_state_andThen, dv_outs_andThen, dv_ends_andThen, En, handed_app.
  repeat split.
  intros E2.
  rewrite (translator_even _ second R1 E2).
  rewrite (translator_even s (first ++ second) R).
  - rewrite (decodeLoop_words _ (first ++ second) s (le_n _)).
    rewrite (decodeLoop_words _ second _ (le_n _)).
    rewrite (wordsOf_app _ _ E), wordLoop_app, dv_outs_andThen, En. reflexivity.
  - rewrite length_app, Nat.even_add, E, E2. reflexivity.
Qed.

End WithHeaders.
End DvBuffers.

(** ** The packet headers of the eDVS translator *)

Module EdvsHeaders.
Import Edvs EdvsFacts.

Section WithHeader.
Context `{edvs_h}.

Lemma edvs_surplus_write {E} (p : option (packet E)) e :
  surplus (write p e) = surplus p.
Proof.
  destruct p as [pk |]; [| reflexivity].
  unfold surplus. cbn [write slotNumber slotEvents appendEvent eventNumber events].
  rewrite length_app. cbn [List.length]. lia.
Qed.

(** Every event the decoding of a token writes is counted in the
    header of its packet. *)
Lemma edvs_decode_surplus s y x t1 t2 s' o r w :
  decode s y x t1 t2 = (s', o, r, w) ->
  surplus (currentPolarityPacket s') = surplus (currentPolarityPacket s)
  /\ surplus (currentSpecialPacket s') = surplus (currentSpecialPacket s).
Proof.
  unfold decode, decodePolarity. intros D.
  destruct (dvsTSReset s).
  - injection D as <- _ _ _.
    match goal with
    | |- context [initContainerCommitTimestamp ?a] =>
        destruct (initContainerCommitTimestamp_packets a) as (_ & -> & _ & -> & _)
    end.
    split; reflexivity.
  - destruct ((shortTSOf t1 t2 <? lastShort (timestamps s))
              && (wrapAdd (timestamps s) =? INT32_MAX - (TS_WRAP_ADD - 1))).
    + injection D as <- _ _ _.
      cbn [currentPolarityPacket currentSpecialPacket set_special set_timestamps].
      rewrite edvs_surplus_write. split; reflexivity.
    + match type of D with
      | context [initContainerCommitTimestamp ?a] =>
          destruct (initContainerCommitTimestamp_packets a) as (_ & Ip & _ & Is & _);
          set (s0 := initContainerCommitTimestamp a) in *
      end.
      cbn [currentPolarityPacket currentSpecialPacket set_timestamps] in Ip, Is.
      destruct ((U8T (Z.land x LOW_BITS_MASK) <? EDVS_ARRAY_SIZE_X)
                && (U8T (Z.land y LOW_BITS_MASK) <? EDVS_ARRAY_SIZE_Y));
        injection D as <- _ _ _.
      * cbn [currentPolarityPacket currentSpecialPacket set_polarity].
        rewrite edvs_surplus_write, Ip, Is. split; reflexivity.
      * rewrite Ip, Is. split; reflexivity.
Qed.

(** The allocations at the head of a step leave the headers and the
    events of the packets that are there, also when a packet grows, and
    allocate the others empty. *)
Lemma edvs_prepare_surplus s :
  surplus (currentPolarityPacket (state (prepare s)))
  = surplus (currentPolarityPacket s)
  /\ surplus (currentSpecialPacket (state (prepare s)))
     = surplus (currentSpecialPacket s).
Proof.
  set (Q := fun s' : edvs_state =>
              surplus (currentPolarityPacket s') = surplus (currentPolarityPacket s)
              /\ surplus (currentSpecialPacket s')
                 = surplus (currentSpecialPacket s)).
  assert (K : forall r k, Q (state r) -> (forall s', Q s' -> Q (state (k s'))) ->
                          Q (state (andThen r k))).
  { intros r k Qr Qk. rewrite state_andThen. destruct (ends r); auto. }
  change (Q (state (prepare s))). unfold prepare.
  assert (Q0 : Q s) by (unfold Q; auto).
  apply K.
  { unfold allocateContainer, caerEventPacketContainerAllocate.
    destruct (currentPacketContainer s); [exact Q0 |].
    destruct (request (allocations s)) as [[|] env]; exact Q0. }
  clear Q0. intros s1 Q1. apply K.
  { unfold allocatePolarity, caerEventPacketAllocate, caerEventPacketGrow.
    destruct (currentPolarityPacket s1) as [p |] eqn:E.
    - destruct (currentPolarityPacketPosition s1 >=? eventCapacity p); [| exact Q1].
      destruct (request (allocations s1)) as [[|] env]; [| exact Q1].
      destruct Q1 as (Q1 & Q2). unfold Q.
      cbn [state continue currentPolarityPacket currentSpecialPacket set_polarity
           set_allocations].
      rewrite E in Q1. split; [| exact Q2]. rewrite <- Q1. reflexivity.
    - destruct (request (allocations s1)) as [[|] env]; [| exact Q1].
      destruct Q1 as (Q1 & Q2). unfold Q.
      cbn [state continue currentPolarityPacket currentSpecialPacket set_polarity
           set_allocations].
      rewrite E in Q1. split; [| exact Q2]. rewrite <- Q1. reflexivity. }
  clear s1 Q1. intros s1 Q1.
  unfold allocateSpecial, caerEventPacketAllocate, caerEventPacketGrow.
  destruct (currentSpecialPacket s1) as [p |] eqn:E.
  - destruct (currentSpecialPacketPosition s1 >=? eventCapacity p); [| exact Q1].
    destruct (request (allocations s1)) as [[|] env]; [| exact Q1].
    destruct Q1 as (Q1 & Q2). unfold Q.
    cbn [state continue currentPolarityPacket currentSpecialPacket set_special
         set_allocations].
    rewrite E in Q2. split; [exact Q1 |]. rewrite <- Q2. reflexivity.
  - destruct (request (allocations s1)) as [[|] env]; [| exact Q1].
    destruct Q1 as (Q1 & Q2). unfold Q.
    cbn [state continue currentPolarityPacket currentSpecialPacket set_special
         set_allocations].
    rewrite E in Q2. split; [exact Q1 |]. rewrite <- Q2. reflexivity.
Qed.

(** The headers of the packets count the events written: an invariant
    of the translator, which holds of the packets of every container
    handed over. *)
Lemma edvs_translator_counted s buffer :
  consistent s ->
  counted (currentPolarityPacket s) -> counted (currentSpecialPacket s) ->
  Forall (fun c => counted (polaritySlot c) /\ counted (specialSlot c)
                   /\ imu6Slot c = None)
    (handed (outs (edvsEventTranslator s buffer)))
  /\ (ends (edvsEventTranslator s buffer) <> Diverges ->
      counted (currentPolarityPacket (state (edvsEventTranslator s buffer)))
      /\ counted (currentSpecialPacket (state (edvsEventTranslator s buffer)))).
Proof.
  intros C Cp Cs.
  pose (I := fun s' : edvs_state =>
               counted (currentPolarityPacket s')
               /\ counted (currentSpecialPacket s')).
  apply (EdvsSteps.translator_invariant I I (fun s' _ _ => I s')
           (fun c => counted (polaritySlot c) /\ counted (specialSlot c)
                     /\ imu6Slot c = None)
           (fun _ => false)).
  - intros s0 _ (I1 & I2). unfold I, counted, surplus in *.
    destruct (edvs_prepare_surplus s0) as (P1 & P2). unfold surplus in P1, P2.
    split; lia.
  - intros s0 _ (I1 & I2) _. unfold I, counted, surplus in *.
    destruct (edvs_prepare_surplus s0) as (P1 & P2). unfold surplus in P1, P2.
    split; lia.
  - intros s0 y x t1 t2 s1 o r w _ _ (I1 & I2) D _. unfold I, counted in *.
    destruct (edvs_decode_surplus _ _ _ _ _ _ _ _ _ D) as (P1 & P2).
    unfold surplus in P1, P2. split; lia.
  - intros s1 _ I1 _. exact I1.
  - intros s1 r w _ (I1 & I2).
    destruct (EdvsPackets.committed_slots s1) as (Sp & Ss & Si).
    split; [| split; [| exact Si]].
    + unfold committed in *. cbn [polaritySlot] in *.
      destruct (currentPolarityPacketPosition s1 >? 0); [exact I1 | reflexivity].
    + unfold committed in *. cbn [specialSlot] in *.
      destruct (currentSpecialPacketPosition s1 >? 0); [exact I2 | reflexivity].
  - intros s1 s2 r w _ (I1 & I2) (_ & _ & _ & _ & Kp & Ks). unfold I.
    rewrite Kp, Ks.
    destruct (currentPolarityPacketPosition s1 >? 0),
             (currentSpecialPacketPosition s1 >? 0); split;
      try reflexivity; assumption.
  - intros ovf. unfold tsResetContainer, counted. cbn. auto.
  - exact C.
  - split; assumption.
  - induction (outs (edvsEventTranslator s buffer)); [reflexivity | exact IHl].
Qed.

End WithHeader.
End EdvsHeaders.

(** ** Packets that cannot grow *)

Module Growth.

Section Serial.
Import Edvs EdvsFacts.
Context `{edvs_h}.


End Serial.

Section Words.
Import DvExplorer DvFacts.
Context `{dv_explorer_h} `{timestamps_h}.




End Words.
End Growth.

(** * The claims *)

(** C1, as the code has it (eDVS).  A token decoded while a timestamp
    reset is requested, when the allocations succeed: the step delivers
    the container of the events that were pending, when there are any and
    the exchange takes it, and after it the reset container, which holds
    exactly one event, the special event of the timestamp reset; nothing
    stays pending. *)
Theorem reset_container_follows_pending `{edvs_h} (s : edvs_state)
  (yByte xByte ts1Byte ts2Byte : Z) :
  consistent s -> dvsTSReset s = true -> allocations s = [] ->
  0 < I32T (maxPacketContainerInterval s) ->
  let step := edvsToken s yByte xByte ts1Byte ts2Byte in
  exists c,
    slotEvents (polaritySlot c) = slotEvents (currentPolarityPacket s)
    /\ slotEvents (specialSlot c) = slotEvents (currentSpecialPacket s)
    /\ imu6Slot c = None
    /\ delivered (outs step)
       = (if pending s && fst (request (exchangePuts s)) then [c] else [])
         ++ [tsResetContainer 0]
    /\ isResetContainer (tsResetContainer 0) = true
    /\ eventCount (tsResetContainer 0) = 1%nat
    /\ ends step = Continue
    /\ pending (state step) = false.
Proof.
  intros C Rs A I step.
  destruct (reset_token s yByte xByte ts1Byte ts2Byte C Rs A I)
    as (c & Pc & Sc & Ic & O & E & _ & P0 & S0 & _).
  exists c. repeat split; auto.
  - unfold step. rewrite O. cbn [delivered]. rewrite delivered_app.
    cbn [delivered app]. f_equal.
    unfold handOverOuts.
    destruct (pending s), (fst (request (exchangePuts s))); reflexivity.
  - unfold pending. fold step in P0, S0. rewrite P0, S0. reflexivity.
Qed.

Lemma reset_container_follows_pending_witness :
  exists c,
    delivered (outs (@edvsToken Examples.smallEdvs Examples.edvsResetPending
                       0x85 0x03 0 5))
    = [c; tsResetContainer 0].
Proof.
  destruct (@reset_container_follows_pending Examples.smallEdvs
              Examples.edvsResetPending 0x85 0x03 0 5)
    as (c & _ & _ & _ & D & _).
  - unfold consistent. simpl. repeat split. right. reflexivity.
  - reflexivity.
  - reflexivity.
  - reflexivity.
  - exists c. exact D.
Defined.

(** C1 as stated fails: with a polarity event pending when the reset is
    classified, the first container the step delivers is the one of the
    pending event, not the reset container. *)
Lemma reset_container_not_first :
  dvsTSReset Examples.edvsResetPending = true
  /\ exists c rest,
       delivered (outs (@edvsToken Examples.smallEdvs Examples.edvsResetPending
                          0x85 0x03 0 5)) = c :: rest
       /\ isResetContainer c = false
       /\ eventCount (tsResetContainer 0) = 1%nat
       /\ rest = [tsResetContainer 0]
       /\ slotEvents (polaritySlot c)
          = [{| polTimestamp := 100; polPolarity := true; polY := 5; polX := 3 |}].
Proof.
  split; [reflexivity |].
  eexists. eexists. split; [vm_compute; reflexivity |].
  repeat split; reflexivity.
Qed.

(** C2 (eDVS, the serial protocol with the 16-bit field).  A token that
    is decoded and is neither a timestamp reset nor a big wrap: when its
    field is not below the last raw field, the timestamp is
    [wrapAdd + field] and the last raw field becomes the field; when the
    field is below the last raw field, [wrapAdd] first grows by exactly
    0x10000 and the last raw field is reset to 0, and the timestamp is the
    new [wrapAdd + field]. *)
Theorem timestamp_normal_and_small_wrap `{edvs_h} (s : edvs_state)
  (yByte xByte ts1Byte ts2Byte : Z) :
  wrapOK (timestamps s) ->
  dvsTSReset s = false ->
  bigWrapOf s ts1Byte ts2Byte = false ->
  ends (prepare s) = Continue ->
  let field := shortTSOf ts1Byte ts2Byte in
  let ts := timestamps s in
  let ts' := timestamps (state (edvsToken s yByte xByte ts1Byte ts2Byte)) in
  (lastShort ts <= field ->
   current ts' = wrapAdd ts + field /\ lastShort ts' = field
   /\ wrapAdd ts' = wrapAdd ts)
  /\ (field < lastShort ts ->
      wrapAdd ts' = wrapAdd ts + 0x10000 /\ lastShort ts' = 0
      /\ current ts' = wrapAdd ts' + field).
Proof.
  intros Hok Hreset Hbig Hprep field ts ts'.
  destruct (prepare_allocates s) as (Hsame & _).
  destruct Hsame as (_ & R & _ & _ & T & _).
  assert (Hbig' : bigWrapOf (state (prepare s)) ts1Byte ts2Byte = false).
  { unfold bigWrapOf, tsWrapOf in *. rewrite T. exact Hbig. }
  destruct (decode_update (state (prepare s)) yByte xByte ts1Byte ts2Byte)
    as (s1 & o & D & U); [congruence | exact Hbig' |].
  assert (E : ts' = updated ts field).
  { unfold ts'. rewrite (edvsToken_process s _ _ _ _ Hprep). simpl.
    destruct (process_keepsClock _ _ _ _ _ _ _ _ _ D) as (K & _).
    rewrite K, U, T. reflexivity. }
  rewrite E.
  destruct (updated_wrapOK ts field Hok) as (_ & N & W).
  - unfold field, shortTSOf. apply U16T_range.
  - exact Hbig.
  - split; assumption.
Qed.

Lemma timestamp_normal_and_small_wrap_witness :
  let ts' := timestamps (state (@edvsToken Examples.smallEdvs
                                  Examples.edvsBeforeWrap 0x85 0x03 0 5)) in
  wrapAdd ts' = 0x10000 /\ lastShort ts' = 0 /\ current ts' = 0x10005.
Proof.
  intros ts'.
  destruct (@timestamp_normal_and_small_wrap Examples.smallEdvs
              Examples.edvsBeforeWrap 0x85 0x03 0 5) as [_ W].
  - unfold wrapOK, INT32_MAX, TS_WRAP_ADD. simpl.
    repeat split; try lia; reflexivity.
  - reflexivity.
  - reflexivity.
  - reflexivity.
  - apply W. reflexivity.
Defined.

(** C3.  eDVS: a token classified as a big wrap (a wrap of the 16-bit
    field while [wrapAdd] is at its maximum) grows the overflow epoch by
    exactly one, zeroes [wrapAdd] and the last raw field, appends the
    sentinel Special(TIMESTAMP_WRAP) to the special packet, and the
    packets are committed on that same token: the one container handed
    over ends with the sentinel, and nothing stays pending.  DV-Explorer:
    on a wrap word that the timestamp helper classifies as a big wrap, the
    sentinel is appended to the special packet and the commit is forced on
    that word (the step hands over the one container that ends with the
    sentinel, unless the re-arming of the deadline never ends); epoch and
    offset are the business of the helper. *)
Theorem big_wrap_sentinel_and_commit `{edvs_h} `{DvExplorer.dv_explorer_h}
  `{DvExplorer.timestamps_h}
  (s : edvs_state) (yByte xByte ts1Byte ts2Byte : Z)
  (d : DvExplorer.dv_state) (event : Z)
  (ts' : DvExplorer.timestamps_state_new_logic) (l : DvExplorer.logs) :
  (consistent s -> dvsTSReset s = false ->
   bigWrapOf s ts1Byte ts2Byte = true -> ends (prepare s) = Continue ->
   0 <= wrapOverflow (timestamps s) < INT32_MAX ->
   0 < I32T (maxPacketContainerInterval s) ->
   INT64_MIN <= currentPacketContainerCommitTimestamp s ->
   let step := edvsToken s yByte xByte ts1Byte ts2Byte in
   exists c,
     timestamps (state step)
     = {| wrapOverflow := wrapOverflow (timestamps s) + 1; wrapAdd := 0;
          lastShort := 0; last := 0; current := 0 |}
     /\ slotEvents (specialSlot c)
        = slotEvents (currentSpecialPacket s)
          ++ [{| spcTimestamp := INT32_MAX; spcType := TIMESTAMP_WRAP |}]
     /\ slotEvents (polaritySlot c) = slotEvents (currentPolarityPacket s)
     /\ handed (outs step) = [c]
     /\ ends step = Continue
     /\ pending (state step) = false)
  /\ (DvExplorer.consistent d ->
      DvExplorer.ends (DvExplorer.prepare d) = Continue ->
      DvExplorer.isTimestamp event = false -> DvExplorer.codeOf event = 7 ->
      DvExplorer.handleTimestampWrapNewLogic (DvExplorer.timestamps d)
        (DvExplorer.dataOf event) DvExplorer.TS_WRAP_ADD = (ts', l, true) ->
      DvExplorer.allocations d = [] ->
      let step := DvExplorer.dvExplorerToken d event in
      DvExplorer.ends step = Diverges
      \/ exists c,
           slotEvents (specialSlot c)
           = slotEvents (DvExplorer.special (DvExplorer.currentPackets d))
             ++ [{| spcTimestamp := INT32_MAX; spcType := TIMESTAMP_WRAP |}]
           /\ slotEvents (polaritySlot c)
              = slotEvents (DvExplorer.polarity (DvExplorer.currentPackets d))
           /\ slotEvents (imu6Slot c)
              = slotEvents (DvExplorer.imu6 (DvExplorer.currentPackets d))
           /\ handed (DvExplorer.outs step) = [c]
           /\ DvExplorer.ends step = Continue
           /\ DvExplorer.pending (DvExplorer.state step) = false
           /\ DvExplorer.timestamps (DvExplorer.state step) = ts').
Proof.
  split.
  - intros C Rs W PC O I Dl step.
    destruct (big_wrap_token s yByte xByte ts1Byte ts2Byte C Rs W PC O I Dl)
      as (c & T & Sc & Pc & Ou & E & P0 & S0).
    exists c. fold step in T, Ou, E, P0, S0.
    repeat split; auto.
    + rewrite Ou. apply handed_handOverOuts_pending.
    + unfold pending. rewrite P0, S0. reflexivity.
  - intros C PC Ts Cd Hw A step.
    destruct (DvFacts.big_wrap_word d event ts' l C PC Ts Cd Hw A)
      as [Dv | (c & Sc & Pc & Ic & Ha & E & Pe & Tt & _)].
    + left. exact Dv.
    + right. exists c. repeat split; assumption.
Qed.

Lemma big_wrap_sentinel_and_commit_witness :
  (exists c,
     handed (outs (@edvsToken Examples.smallEdvs Examples.edvsBeforeBigWrap
                     0x85 0x03 0 5)) = [c]
     /\ slotEvents (specialSlot c)
        = [{| spcTimestamp := INT32_MAX; spcType := TIMESTAMP_WRAP |}])
  /\ (exists c,
        handed (DvExplorer.outs
                  (@DvExplorer.dvExplorerToken Examples.smallDv
                     DvExplorer.specTimestamps Examples.dvBeforeBigWrap 0x7001))
        = [c]
        /\ slotEvents (specialSlot c)
           = [{| spcTimestamp := INT32_MAX; spcType := TIMESTAMP_WRAP |}]).
Proof.
  destruct (@big_wrap_sentinel_and_commit Examples.smallEdvs Examples.smallDv
              DvExplorer.specTimestamps Examples.edvsBeforeBigWrap 0x85 0x03 0 5
              Examples.dvBeforeBigWrap 0x7001
              {| DvExplorer.wrapOverflow := 1; DvExplorer.wrapAdd := 0;
                 DvExplorer.lastRaw := 0; DvExplorer.last := 0;
                 DvExplorer.current := 0 |} [])
    as [E D].
  split.
  - destruct E as (c & _ & Sc & _ & Ha & _).
    + unfold consistent. simpl. repeat split. right. reflexivity.
    + reflexivity.
    + reflexivity.
    + reflexivity.
    + simpl. unfold INT32_MAX. lia.
    + reflexivity.
    + unfold INT64_MIN. simpl. lia.
    + exists c. split; [exact Ha | exact Sc].
  - destruct D as [Dv | (c & Sc & _ & _ & Ha & _)].
    + unfold DvExplorer.consistent. simpl. repeat split. right. reflexivity.
    + reflexivity.
    + reflexivity.
    + reflexivity.
    + reflexivity.
    + reflexivity.
    + vm_compute in Dv. discriminate Dv.
    + exists c. split; [exact Ha | exact Sc].
Defined.

Section IMUSamples.
Import DvExplorer DvFacts.

(** C4, as the code has it (DV-Explorer).  From a state whose packets
    are consistent, for the step on any word: every IMU sample written
    in the IMU packet that the step hands over or keeps in progress was
    in the packet before or is the private sample, stamped with the
    current timestamp, that an IMU end copies when IMU events are not
    ignored and the position counter equals [IMU_TOTAL_COUNT]; the
    header of the IMU packet counts
    exactly the samples copied, in the containers handed over and in
    progress, when it did so before and the IMU end, if the word is one
    that copies, finds the private sample not validated yet and
    allocations that succeed; such an end does copy the sample when the
    allocations succeed; an IMU end with another count logs the mismatch
    (and by the first part copies nothing); and after a commit forced by a
    timestamp reset or a big wrap, IMU events are ignored: whatever buffer
    follows, as long as none of its words is an IMU start, the translator
    hands over no IMU sample and leaves the IMU state untouched.  In
    particular a buffer in which a timestamp reset cuts a sample under
    assembly (no IMU end before the reset, no IMU start after it) makes the
    translator hand over no IMU sample at all.  And a sample that is short
    of data bytes is never handed over: after a scale configuration, as
    long as fewer data bytes follow than the sensors it enables take (6
    for the accelerometer, 2 for the temperature, 6 for the gyroscope) and
    neither an IMU start nor another scale configuration, the translator
    hands over no IMU sample, whatever IMU ends, timestamps, resets and
    other events are among the words.  A sample that has its data bytes
    is the one an IMU end copies: after the 14 data bytes of a sample
    with the three sensors enabled, taken from position 0, an IMU end
    finds the count it expects, and what it copies are the readings of
    these bytes, two for each field and the high byte first, negated
    where the axis is flipped and paired with the scale of the sensor. *)
Theorem imu_sample_atomicity `{dv_explorer_h} `{timestamps_h} (s : dv_state)
  (event : Z) :
  consistent s ->
  let step := dvExplorerToken s event in
  (forall e,
     In e (imuSamples (handed (outs step)))
     \/ (ends step = Continue
         /\ In e (slotEvents (imu6 (currentPackets (state step))))) ->
     In e (slotEvents (imu6 (currentPackets s)))
     \/ (completes s event /\ e = completedSample s))
  /\ (counted (imu6 (currentPackets s)) ->
      (completes s event ->
       currentEventValid (imu s) = false /\ allocations s = []) ->
      Forall (fun c => counted (imu6Slot c)) (handed (outs step))
      /\ (ends step = Continue ->
          counted (imu6 (currentPackets (state step)))))
  /\ (ends (prepare s) = Continue -> completes s event ->
      allocations s = [] -> ends step = Continue ->
      In (completedSample s)
        (imuSamples (handed (outs step))
         ++ slotEvents (imu6 (currentPackets (state step)))))
  /\ (ends (prepare s) = Continue -> isIMUEnd event = true ->
      ignoreEvents (imu s) = false -> count (imu s) <> IMU_TOTAL_COUNT ->
      In countMismatch (outs step))
  /\ (forall s1 o1 tsReset tsBigWrap,
        ends (prepare s) = Continue ->
        decode (state (prepare s)) event = (s1, o1, tsReset, tsBigWrap) ->
        tsReset || tsBigWrap = true -> ends step = Continue ->
        ignoreEvents (imu (state step)) = true
        /\ forall buffer,
             Forall (fun e => isIMUStart e = false) (wordsOf buffer) ->
             Forall noIMU
               (handed (outs (dvExplorerEventTranslator (state step) buffer)))
             /\ imu (state (dvExplorerEventTranslator (state step) buffer))
                = imu (state step))
  /\ (forall buffer pre post,
        imuEmpty s -> isTimestampReset event = true ->
        wordsOf buffer = pre ++ event :: post ->
        Forall (fun e => isIMUEnd e = false) pre ->
        Forall (fun e => isIMUStart e = false) post ->
        Forall noIMU (handed (outs (dvExplorerEventTranslator s buffer))))
  /\ (forall buffer words,
        IMU_TOTAL_COUNT = 14 -> imuEmpty s ->
        isIMUScaleConfig event = true ->
        wordsOf buffer = event :: words ->
        Forall (fun e => isIMUStart e = false /\ isIMUScaleConfig e = false)
          words ->
        Z.of_nat (List.length (filter isIMUData words))
        < imuBytesOf (configuredType event) ->
        Forall noIMU (handed (outs (dvExplorerEventTranslator s buffer))))
  /\ (forall axh axl ayh ayl azh azl th tl gxh gxl gyh gyl gzh gzl,
        IMU_TOTAL_COUNT = 14 ->
        ignoreEvents (imu s) = false -> count (imu s) = 0 ->
        imuEnabled (type (imu s)) IMU_TYPE_TEMP = true ->
        imuEnabled (type (imu s)) IMU_TYPE_GYRO = true ->
        let s' :=
          fst (imuBytes s
                 [axh; axl; ayh; ayl; azh; azl; th; tl; gxh; gxl; gyh; gyl;
                  gzh; gzl]) in
        let accel flip high low :=
          Accel (flipped flip (reading high low)) (accelScale (imu s)) in
        let gyro flip high low :=
          Gyro (flipped flip (reading high low)) (gyroScale (imu s)) in
        (isIMUEnd event = true -> completes s' event)
        /\ completedSample s'
           = {| imuTimestamp := current (timestamps s');
                imuAccelX := accel (flipX (imu s)) axh axl;
                imuAccelY := accel (flipY (imu s)) ayh ayl;
                imuAccelZ := accel (flipZ (imu s)) azh azl;
                imuGyroX := gyro (flipX (imu s)) gxh gxl;
                imuGyroY := gyro (flipY (imu s)) gyh gyl;
                imuGyroZ := gyro (flipZ (imu s)) gzh gzl;
                imuTemp := Temp (reading th tl) |}).
Proof.
  intros C step.
  split; [| split; [| split; [| split; [| split; [| split; [| split]]]]]].
  - intros e. apply token_imu_samples. exact C.
  - intros Cn Hc. apply DvSamples.token_imu_counted; assumption.
  - intros E Cp A Ec. apply token_imu_complete; assumption.
  - intros E En Ig Cn. apply token_imu_count_mismatch; assumption.
  - intros s1 o1 r w E D F Ec.
    destruct (token_forced s event s1 o1 r w C E D F) as (Ig & Em).
    specialize (Em Ec). split; [exact Ig |].
    intros buffer Fs.
    destruct (dataTransfersRun (state step)) eqn:R.
    + destruct (translator_words (state step) buffer R) as (-> & -> & _).
      apply wordLoop_ignored; auto.
      apply token_consistent; [exact C | fold step; congruence].
    + unfold dvExplorerEventTranslator. rewrite R. cbn.
      split; [constructor | reflexivity].
  - intros buffer pre post Em Rt W Fp Fq.
    destruct (dataTransfersRun s) eqn:R.
    + destruct (translator_words s buffer R) as (-> & _).
      rewrite W. apply reset_mid_sample; assumption.
    + unfold dvExplorerEventTranslator. rewrite R. cbn. constructor.
  - intros buffer words T Em Cf W F Lt.
    destruct (dataTransfersRun s) eqn:R.
    + destruct (translator_words s buffer R) as (-> & _).
      rewrite W. apply DvSamples.wordLoop_configured_short; assumption.
    + unfold dvExplorerEventTranslator. rewrite R. cbn. constructor.
  - intros axh axl ayh ayl azh azl th tl gxh gxl gyh gyl gzh gzl T Ig C0 Et Eg
           s' accel gyro.
    unfold imuEnabled in Et, Eg. apply negb_true_iff in Et, Eg.
    destruct (imu s) as [ig fx fy fz ty c tmp sa sg ev va] eqn:E0.
    cbn [ignoreEvents count type flipX flipY flipZ accelScale gyroScale] in *.
    subst ig c.
    pose proof (DvIMU.imuBytes_sample s axh axl ayh ayl azh azl th tl gxh gxl
                  gyh gyl gzh gzl _ _ _ _ _ _ _ _ _ E0 Et Eg) as E14.
    fold s' in E14. unfold completes, completedSample. rewrite E14.
    cbn [ignoreEvents count currentEvent setTimestamp imuTimestamp imuAccelX
         imuAccelY imuAccelZ imuGyroX imuGyroY imuGyroZ imuTemp].
    split; [| reflexivity]. intros En. rewrite T. auto.
Qed.

Lemma imu_sample_atomicity_witness :
  Forall noIMU
    (handed (outs (@dvExplorerEventTranslator Examples.smallDv specTimestamps
                     Examples.dvRunning Examples.resetMidSample)))
  /\ Forall noIMU
       (handed (outs (@dvExplorerEventTranslator Examples.smallDv specTimestamps
                        Examples.dvSampling Examples.cutSample))).
Proof.
  split.
  - destruct (@imu_sample_atomicity Examples.smallDv specTimestamps
                Examples.dvRunning 0x0001) as (_ & _ & _ & _ & _ & W & _).
    + unfold consistent. simpl. repeat split. right. reflexivity.
    + apply (W Examples.resetMidSample [0x0005; 0x5012; 0x5034] [0x5056; 0x0007]).
      * reflexivity.
      * reflexivity.
      * reflexivity.
      * repeat constructor.
      * repeat constructor.
  - destruct (@imu_sample_atomicity Examples.smallDv specTimestamps
                Examples.dvSampling 0x53E0) as (_ & _ & _ & _ & _ & _ & W & _).
    + unfold consistent. simpl. repeat split. right. reflexivity.
    + apply (W Examples.cutSample [0x5012; 0x5034; 0x0007]).
      * reflexivity.
      * reflexivity.
      * reflexivity.
      * reflexivity.
      * repeat constructor.
      * vm_compute. reflexivity.
Defined.

(** C4 as stated fails when the scale configuration changes in the
    middle of a sample: each configuration sets the position counter
    anew, so that an IMU end can find the expected count although only
    some of the fields were filled.  After the two data bytes of the
    first accelerometer axis of a sample with the three sensors enabled,
    a configuration that enables no sensor puts the counter at
    [IMU_TOTAL_COUNT], and the IMU end copies the sample, which is handed
    over with one axis of the accelerometer and nothing else; a
    configuration that enables the temperature only, followed by the two
    bytes of the temperature, does the same, and neither a mismatch nor
    an error is logged. *)
Lemma reconfigured_sample_is_handed_over :
  let r := @dvExplorerEventTranslator Examples.smallDv specTimestamps
             Examples.dvSizeOne Examples.reconfiguredSample in
  let r' := @dvExplorerEventTranslator Examples.smallDv specTimestamps
              Examples.dvSizeOne Examples.reconfiguredToTemperature in
  let sample x t :=
    {| imuTimestamp := 100; imuAccelX := x; imuAccelY := Zeroed;
       imuAccelZ := Zeroed; imuGyroX := Zeroed; imuGyroY := Zeroed;
       imuGyroZ := Zeroed; imuTemp := t |} in
  let container e :=
    {| polaritySlot := None; specialSlot := None;
       imu6Slot := Some {| eventCapacity := 2; eventTSOverflow := 0;
                           eventNumber := 1; events := [e] |} |} in
  handed (outs r) = [container (sample (Accel 0x1234 0) Zeroed)]
  /\ handed (outs r') = [container (sample (Accel 0x1234 0) (Temp 0x0102))]
  /\ existsb (isLog CAER_LOG_INFO) (outs r') = false
  /\ existsb (isLog CAER_LOG_ERROR) (outs r') = false.
Proof.
  repeat split; vm_compute; reflexivity.
Qed.

End IMUSamples.

(** C5, the defect (DV-Explorer).  With a maximum packet size of 1, so
    that every sample is committed at its IMU end, whatever the timestamp
    helpers: on a buffer that carries an IMU start, the six data bytes of
    an accelerometer sample and two IMU ends, the first end validates the
    private sample, which counts it in the header of the IMU packet, and
    copies it; the container handed over reports one event.  The second
    end finds the position counter still at [IMU_TOTAL_COUNT] and the
    private sample validated already: a critical message is logged,
    nothing is counted, and the sample is copied into the fresh IMU
    packet all the same, which advances the position.  The commit goes by
    the position and hands over a second container, whose only packet
    reports no event. *)
Theorem repeated_imu_end_hands_over_empty_container (T : DvExplorer.timestamps_h) :
  let r := @DvExplorer.dvExplorerEventTranslator Examples.smallDv T
             Examples.dvSizeOne Examples.doubleEnd in
  let sample :=
    {| imuTimestamp := 100; imuAccelX := Accel 0x0102 0;
       imuAccelY := Accel 0x0304 0; imuAccelZ := Accel 0x0506 0;
       imuGyroX := Zeroed; imuGyroY := Zeroed; imuGyroZ := Zeroed;
       imuTemp := Zeroed |} in
  let container n :=
    {| polaritySlot := None; specialSlot := None;
       imu6Slot := Some {| eventCapacity := 2; eventTSOverflow := 0;
                           eventNumber := n; events := [sample] |} |} in
  delivered (DvExplorer.outs r) = [container 1; container 0]
  /\ eventsNumber (container 1) = 1
  /\ eventsNumber (container 0) = 0
  /\ filter (isLog CAER_LOG_CRITICAL) (DvExplorer.outs r) = DvExplorer.alreadyValid
  /\ DvExplorer.ends r = Continue.
Proof.
  intros r sample container. repeat split; vm_compute; reflexivity.
Qed.

(** C6 (eDVS).  When the time trigger of the commit fires (the full
    timestamp is past the commit deadline), with a positive interval and
    the clock in its range, the commit ends and leaves the deadline
    re-armed: the interval was added [k >= 1] times, as many times as
    needed and no more, so that the deadline is not in the past of the
    full timestamp, which the commit leaves as it is. *)
Theorem commit_rearms_deadline (s : edvs_state) (tsReset tsBigWrap : bool) :
  containerTimeCommit s = true ->
  0 < I32T (maxPacketContainerInterval s) ->
  clockInRange (timestamps s) ->
  INT64_MIN <= currentPacketContainerCommitTimestamp s ->
  let s' := state (commit s tsReset tsBigWrap) in
  ends (commit s tsReset tsBigWrap) <> Diverges
  /\ fullTimestamp s' = fullTimestamp s
  /\ fullTimestamp s' <= currentPacketContainerCommitTimestamp s'
  /\ exists k,
       1 <= k
       /\ currentPacketContainerCommitTimestamp s'
          = currentPacketContainerCommitTimestamp s
            + k * I32T (maxPacketContainerInterval s)
       /\ currentPacketContainerCommitTimestamp s
          + (k - 1) * I32T (maxPacketContainerInterval s) < fullTimestamp s.
Proof.
  intros T I Cl Dl s'.
  destruct (rearmed_total s I Cl Dl) as (k & _ & Rk & Le & _ & Tk).
  destruct (Tk T) as (K1 & Lt).
  assert (Due : commitDue s tsReset tsBigWrap = true).
  { unfold commitDue. rewrite T. apply orb_true_r. }
  destruct (commit_deadline s tsReset tsBigWrap _ Due Rk) as (D & N).
  destruct (commit_keepsClock s tsReset tsBigWrap) as (K & _).
  assert (F : fullTimestamp s' = fullTimestamp s).
  { unfold fullTimestamp, s'. rewrite K. reflexivity. }
  split; [exact N |]. split; [exact F |]. split.
  - rewrite F. unfold s'. rewrite D. exact Le.
  - exists k. split; [exact K1 |]. split; [exact D | exact Lt].
Qed.

Lemma commit_rearms_deadline_witness :
  currentPacketContainerCommitTimestamp
    (state (commit Examples.edvsFarPastDeadline false false)) = 30050.
Proof.
  destruct (commit_rearms_deadline Examples.edvsFarPastDeadline false false)
    as (_ & _ & Le & k & K1 & D & Lt).
  - reflexivity.
  - reflexivity.
  - unfold clockInRange, INT32_MAX. simpl. lia.
  - unfold INT64_MIN. simpl. lia.
  - rewrite D in *.
    change (currentPacketContainerCommitTimestamp Examples.edvsFarPastDeadline)
      with 50 in *.
    change (I32T (maxPacketContainerInterval Examples.edvsFarPastDeadline))
      with 10000 in *.
    change (fullTimestamp
              (state (commit Examples.edvsFarPastDeadline false false)))
      with 25000 in Le.
    change (fullTimestamp Examples.edvsFarPastDeadline) with 25000 in Lt.
    assert (k = 3) by lia. subst k. reflexivity.
Defined.

(** C7, the defect (DV-Explorer).  On a device of [sizeX = 480] and
    [sizeY = 640], whatever the timestamp helpers: the SGROUP word of
    address 63 sets the row address to 504 without a range check and the
    polarity group that follows stores an event with the coordinate 504,
    beyond [sizeX], and logs nothing; whereas the column word of address
    700, beyond [sizeY], is rejected with an alert and leaves the column
    address as it was. *)
Theorem row_address_not_range_checked (T : DvExplorer.timestamps_h) :
  let r := @DvExplorer.dvExplorerEventTranslator Examples.smallDv T
             Examples.dvRunning Examples.groupBeyondWidth in
  let c := @DvExplorer.dvExplorerEventTranslator Examples.smallDv T
             Examples.dvRunning Examples.columnBeyondHeight in
  DvExplorer.sizeX (DvExplorer.dvs Examples.dvRunning) = 480
  /\ DvExplorer.lastX (DvExplorer.dvs (DvExplorer.state r)) = 504
  /\ slotEvents (DvExplorer.polarity (DvExplorer.currentPackets (DvExplorer.state r)))
     = [{| polTimestamp := 100; polPolarity := true; polY := 504; polX := 0 |}]
  /\ DvExplorer.outs r = []
  /\ DvExplorer.outs c
     = [Log CAER_LOG_ALERT
          "DVS: Y address out of range (0-%d): %PRIu16, due to USB communication issue."]
  /\ DvExplorer.dvs (DvExplorer.state c) = DvExplorer.dvs Examples.dvRunning.
Proof.
  intros r c. repeat split; vm_compute; reflexivity.
Qed.




(** C9, as the code has it.  DV-Explorer: on a buffer of odd size the
    translator logs an alert and is otherwise what it is on the buffer
    without its last byte: the complete 16-bit words are decoded.  eDVS:
    on a buffer that ends in a partial token after complete tokens, the
    translator decodes the complete tokens and drops the partial one:
    state and outputs are those of the buffer without it, so that nothing
    is logged of the drop. *)
Theorem trailing_partial_token_dropped `{edvs_h} `{DvExplorer.dv_explorer_h}
  `{DvExplorer.timestamps_h}
  (d : DvExplorer.dv_state) (complete : list Z) (b : Z)
  (s : edvs_state) (tokens : list (list Z)) (t : list Z) :
  (DvExplorer.dataTransfersRun d = true ->
   Nat.even (List.length complete) = true ->
   DvExplorer.outs (DvExplorer.dvExplorerEventTranslator d (complete ++ [b]))
   = Log CAER_LOG_ALERT
       "%zu bytes received via USB, which is not a multiple of two."
     :: DvExplorer.outs (DvExplorer.dvExplorerEventTranslator d complete)
   /\ DvExplorer.state (DvExplorer.dvExplorerEventTranslator d (complete ++ [b]))
      = DvExplorer.state (DvExplorer.dvExplorerEventTranslator d complete)
   /\ DvExplorer.ends (DvExplorer.dvExplorerEventTranslator d (complete ++ [b]))
      = DvExplorer.ends (DvExplorer.dvExplorerEventTranslator d complete))
  /\ (Forall token tokens -> partialToken t ->
      state (edvsEventTranslator s (List.concat tokens ++ t))
      = state (edvsEventTranslator s (List.concat tokens))
      /\ outs (edvsEventTranslator s (List.concat tokens ++ t))
         = outs (edvsEventTranslator s (List.concat tokens))).
Proof.
  split.
  - apply DvFacts.translator_truncates.
  - apply translator_trailing_partial.
Qed.

Lemma trailing_partial_token_dropped_witness :
  DvExplorer.outs
    (@DvExplorer.dvExplorerEventTranslator Examples.smallDv
       DvExplorer.specTimestamps Examples.dvRunning
       (Examples.groupBeyondWidth ++ [0x07]))
  = [Log CAER_LOG_ALERT
       "%zu bytes received via USB, which is not a multiple of two."]
  /\ outs (@edvsEventTranslator Examples.smallEdvs Examples.edvsRunning
             Examples.twoTokensAndAHalf)
     = outs (@edvsEventTranslator Examples.smallEdvs Examples.edvsRunning
               Examples.twoTokens).
Proof.
  destruct (@trailing_partial_token_dropped Examples.smallEdvs Examples.smallDv
              DvExplorer.specTimestamps Examples.dvRunning
              Examples.groupBeyondWidth 0x07 Examples.edvsRunning
              [[0x85; 0x03; 0x00; 0x6E]; [0x86; 0x84; 0x00; 0x78]]
              [0x87; 0x05])
    as (D & E).
  split.
  - destruct D as (O & _); [reflexivity | reflexivity |].
    rewrite O. reflexivity.
  - destruct E as (_ & O).
    + repeat constructor; do 4 eexists; split; reflexivity.
    + exists 0x87, [0x05]. repeat split. simpl. lia.
    + exact O.
Defined.

(** C9 as stated fails on the eDVS: the partial token that ends the
    buffer is dropped and nothing at all is logged. *)
Lemma partial_record_dropped_without_log :
  let r := @edvsEventTranslator Examples.smallEdvs Examples.edvsRunning
             Examples.twoTokensAndAHalf in
  outs r = []
  /\ ends r = Returned
  /\ List.length (slotEvents (currentPolarityPacket (state r))) = 2%nat.
Proof.
  intros r. repeat split; vm_compute; reflexivity.
Qed.

(** C10.  eDVS: from a state whose special events in progress are
    sentinels stamped with [INT32_MAX], every special event of every
    container that the translator hands over is a TIMESTAMP_WRAP or a
    TIMESTAMP_RESET that carries [INT32_MAX], and so are the special events
    in progress afterwards.  DV-Explorer: from a state whose TIMESTAMP_WRAP
    events in progress carry [INT32_MAX], every TIMESTAMP_WRAP event of
    every container that the translator hands over carries [INT32_MAX],
    and so do those in progress afterwards. *)
Theorem sentinels_carry_int32_max `{edvs_h} `{DvExplorer.dv_explorer_h}
  `{DvExplorer.timestamps_h} (s : edvs_state) (d : DvExplorer.dv_state)
  (buffer : list Z) :
  (consistent s -> sentinels s ->
   (forall c e,
      In c (handed (outs (edvsEventTranslator s buffer))) ->
      In e (slotEvents (specialSlot c)) ->
      spcTimestamp e = INT32_MAX
      /\ (spcType e = TIMESTAMP_WRAP \/ spcType e = TIMESTAMP_RESET))
   /\ (ends (edvsEventTranslator s buffer) <> Diverges ->
       sentinels (state (edvsEventTranslator s buffer))))
  /\ (DvExplorer.consistent d ->
      DvExplorer.wrapsStamped
        (slotEvents (DvExplorer.special (DvExplorer.currentPackets d))) ->
      (forall c e,
         In c (handed (DvExplorer.outs
                         (DvExplorer.dvExplorerEventTranslator d buffer))) ->
         In e (slotEvents (specialSlot c)) ->
         spcType e = TIMESTAMP_WRAP -> spcTimestamp e = INT32_MAX)
      /\ (DvExplorer.ends (DvExplorer.dvExplorerEventTranslator d buffer)
          <> Diverges ->
          DvExplorer.wrapsStamped
            (slotEvents
               (DvExplorer.special
                  (DvExplorer.currentPackets
                     (DvExplorer.state
                        (DvExplorer.dvExplorerEventTranslator d buffer))))))).
Proof.
  split.
  - intros C S. destruct (translator_sentinels s buffer C S) as (F & K).
    split; [| exact K]. intros c e Ic Ie.
    rewrite Forall_forall in F. specialize (F c Ic).
    unfold specialsStamped in F. rewrite Forall_forall in F.
    exact (F e Ie).
  - intros C W.
    destruct (DvFacts.translator_wraps_stamped d buffer C W) as (F & K).
    split; [| exact K]. intros c e Ic Ie.
    rewrite Forall_forall in F. specialize (F c Ic).
    unfold DvExplorer.wrapsStamped in F. rewrite Forall_forall in F.
    exact (F e Ie).
Qed.

Lemma sentinels_carry_int32_max_witness :
  Forall
    (fun c => Forall (fun e => spcTimestamp e = INT32_MAX)
                (slotEvents (specialSlot c)))
    (handed (outs (@edvsEventTranslator Examples.smallEdvs
                     Examples.edvsBeforeBigWrap [0x85; 0x03; 0x00; 0x05])))
  /\ Forall
       (fun c => Forall (fun e => spcType e = TIMESTAMP_WRAP ->
                                  spcTimestamp e = INT32_MAX)
                   (slotEvents (specialSlot c)))
       (handed (DvExplorer.outs
                  (@DvExplorer.dvExplorerEventTranslator Examples.smallDv
                     DvExplorer.specTimestamps Examples.dvBeforeBigWrap
                     [0x01; 0x70]))).
Proof.
  destruct (@sentinels_carry_int32_max Examples.smallEdvs Examples.smallDv
              DvExplorer.specTimestamps Examples.edvsBeforeBigWrap
              Examples.dvBeforeBigWrap [0x85; 0x03; 0x00; 0x05])
    as (E & _).
  destruct (@sentinels_carry_int32_max Examples.smallEdvs Examples.smallDv
              DvExplorer.specTimestamps Examples.edvsBeforeBigWrap
              Examples.dvBeforeBigWrap [0x01; 0x70])
    as (_ & D).
  split.
  - destruct E as (F & _).
    + unfold consistent. simpl. repeat split. right. reflexivity.
    + constructor.
    + apply Forall_forall. intros c Ic. apply Forall_forall. intros e Ie.
      apply (F c e Ic Ie).
  - destruct D as (F & _).
    + unfold DvExplorer.consistent. simpl. repeat split. right. reflexivity.
    + constructor.
    + apply Forall_forall. intros c Ic. apply Forall_forall. intros e Ie.
      apply (F c e Ic Ie).
Defined.

(** * Further properties *)

(** X1.  The full timestamp keeps both of its parts and their order: for
    an epoch and a timestamp within the non-negative range of [int32_t],
    the epoch is read back by a shift of 31 bits, the timestamp by a mask
    of 31 bits, and full timestamps compare as the pairs of epoch and
    timestamp do, epoch first. *)
Theorem full_timestamp_round_trip (tsOverflow timestamp tsOverflow' timestamp' : Z) :
  0 <= tsOverflow <= INT32_MAX -> 0 <= timestamp <= INT32_MAX ->
  0 <= tsOverflow' <= INT32_MAX -> 0 <= timestamp' <= INT32_MAX ->
  Z.shiftr (generateFullTimestamp tsOverflow timestamp) TS_OVERFLOW_SHIFT
  = tsOverflow
  /\ Z.land (generateFullTimestamp tsOverflow timestamp) 0x7FFFFFFF = timestamp
  /\ (generateFullTimestamp tsOverflow timestamp
      < generateFullTimestamp tsOverflow' timestamp'
      <-> tsOverflow < tsOverflow'
          \/ (tsOverflow = tsOverflow' /\ timestamp < timestamp')).
Proof.
  intros Ho Ht Ho' Ht'.
  rewrite (generateFullTimestamp_value _ _ Ho Ht).
  rewrite (generateFullTimestamp_value _ _ Ho' Ht').
  unfold INT32_MAX, TS_OVERFLOW_SHIFT in *.
  change (2 ^ 31) with 2147483648.
  split; [| split].
  - rewrite Z.shiftr_div_pow2 by lia. change (2 ^ 31) with 2147483648.
    rewrite Z.add_comm, Z.div_add by lia.
    rewrite Z.div_small by lia. reflexivity.
  - change 0x7FFFFFFF with (Z.ones 31). rewrite Z.land_ones by lia.
    change (2 ^ 31) with 2147483648.
    rewrite Z.add_comm, Z.mod_add by lia. apply Z.mod_small. lia.
  - nia.
Qed.

Lemma full_timestamp_round_trip_witness :
  Z.shiftr (generateFullTimestamp 3 70000) TS_OVERFLOW_SHIFT = 3
  /\ Z.land (generateFullTimestamp 3 70000) 0x7FFFFFFF = 70000
  /\ generateFullTimestamp 2 2147483647 < generateFullTimestamp 3 0.
Proof.
  assert (R : forall a b : Z, 0 <= a <= 3 -> 0 <= b <= 2147483647 ->
              0 <= a <= INT32_MAX /\ 0 <= b <= INT32_MAX)
    by (unfold INT32_MAX; lia).
  destruct (R 3 70000) as (H3 & H7); [lia | lia |].
  destruct (R 2 2147483647) as (H2 & Hm); [lia | lia |].
  destruct (R 3 0) as (_ & H0); [lia | lia |].
  destruct (full_timestamp_round_trip 3 70000 3 70000 H3 H7 H3 H7) as (A & B & _).
  destruct (full_timestamp_round_trip 2 2147483647 3 0 H2 Hm H3 H0) as (_ & _ & C).
  split; [exact A | split; [exact B |]].
  apply C. left. reflexivity.
Defined.

(** X2.  The eDVS translator never holds more events in a packet than
    the packet has room for: when the default packet sizes are positive
    and the packets in progress fit their capacities, every packet of
    every container handed over fits its capacity, and so do the packets
    in progress when the translator is done, whatever the bytes and
    whichever allocations fail. *)
Theorem edvs_packets_within_capacity `{edvs_h} (s : edvs_state) (buffer : list Z) :
  0 < EDVS_POLARITY_DEFAULT_SIZE -> 0 < EDVS_SPECIAL_DEFAULT_SIZE ->
  consistent s ->
  roomy (currentPolarityPacket s) -> roomy (currentSpecialPacket s) ->
  Forall fits (handed (outs (edvsEventTranslator s buffer)))
  /\ (ends (edvsEventTranslator s buffer) <> Diverges ->
      roomy (currentPolarityPacket (state (edvsEventTranslator s buffer)))
      /\ roomy (currentSpecialPacket (state (edvsEventTranslator s buffer)))).
Proof.
  intros Dp Ds C Rp Rs.
  pose (I := fun s => roomy (currentPolarityPacket s)
                      /\ roomy (currentSpecialPacket s)).
  pose (P := fun s => spacious (currentPolarityPacket s)
                      /\ spacious (currentSpecialPacket s)).
  apply (EdvsSteps.translator_invariant I P (fun s _ _ => I s) fits (fun _ => false)).
  - intros s0 C0 (Ip & Is).
    destruct (EdvsPackets.prepare_room s0 Dp Ds C0 Ip Is) as (A & B & _).
    split; assumption.
  - intros s0 C0 (Ip & Is) E.
    destruct (EdvsPackets.prepare_room s0 Dp Ds C0 Ip Is) as (_ & _ & F).
    apply F. exact E.
  - intros s0 y x t1 t2 s1 o r w _ _ (Pp & Ps) D _.
    destruct (EdvsPackets.decode_effect s0 y x t1 t2 s1 o r w D)
      as (_ & [(_ & _ & _ & Ep & Es) | [(_ & _ & _ & Ep & Es)
               | (_ & _ & _ & _ & Es & _ & [Ep | (e & Ep & _)])]]);
      split; rewrite ?Ep, ?Es;
      auto using EdvsPackets.spacious_roomy, EdvsPackets.spacious_write.
  - intros s1 _ Hs _. exact Hs.
  - intros s1 _ _ _ (Ip & Is). unfold fits, committed. cbn [polaritySlot specialSlot imu6Slot].
    destruct (currentPolarityPacketPosition s1 >? 0),
             (currentSpecialPacketPosition s1 >? 0); simpl; auto.
  - intros s1 s2 _ _ _ (Ip & Is) (_ & _ & _ & _ & Ep & Es).
    unfold I. rewrite Ep, Es.
    destruct (currentPolarityPacketPosition s1 >? 0),
             (currentSpecialPacketPosition s1 >? 0); simpl; auto.
  - intros ovf. unfold fits, tsResetContainer. simpl. lia.
  - exact C.
  - split; assumption.
  - clear. induction (outs (edvsEventTranslator s buffer)); simpl; auto.
Qed.

Lemma edvs_packets_within_capacity_witness :
  Forall fits
    (handed (outs (@edvsEventTranslator Examples.smallEdvs Examples.edvsFullPacket Examples.twoTokens)))
  /\ (ends (@edvsEventTranslator Examples.smallEdvs Examples.edvsFullPacket Examples.twoTokens)
      <> Diverges ->
      roomy (currentPolarityPacket
               (state (@edvsEventTranslator Examples.smallEdvs Examples.edvsFullPacket
                         Examples.twoTokens)))
      /\ roomy (currentSpecialPacket
                  (state (@edvsEventTranslator Examples.smallEdvs Examples.edvsFullPacket
                            Examples.twoTokens)))).
Proof.
  apply (@edvs_packets_within_capacity Examples.smallEdvs Examples.edvsFullPacket Examples.twoTokens).
  - reflexivity.
  - reflexivity.
  - unfold consistent. simpl. repeat split. right. reflexivity.
  - simpl. lia.
  - simpl. lia.
Defined.

(** X3.  Every polarity event the eDVS translator hands over is
    addressed within the pixel array: when the events in progress are,
    so are the polarity events of every container handed over and the
    ones in progress when the translator is done. *)
Theorem edvs_events_within_array `{edvs_h} (s : edvs_state) (buffer : list Z) :
  consistent s ->
  Forall inArray (slotEvents (currentPolarityPacket s)) ->
  Forall (fun c => Forall inArray (slotEvents (polaritySlot c)))
    (handed (outs (edvsEventTranslator s buffer)))
  /\ (ends (edvsEventTranslator s buffer) <> Diverges ->
      Forall inArray
        (slotEvents (currentPolarityPacket (state (edvsEventTranslator s buffer))))).
Proof.
  intros C F.
  pose (I := fun s => Forall inArray (slotEvents (currentPolarityPacket s))).
  apply (EdvsSteps.translator_invariant I I (fun s _ _ => I s)
           (fun c => Forall inArray (slotEvents (polaritySlot c)))
           (fun _ => false)).
  - intros s0 _ I0. unfold I.
    destruct (EdvsPackets.prepare_events s0) as (-> & _). exact I0.
  - intros s0 _ I0 _. unfold I.
    destruct (EdvsPackets.prepare_events s0) as (-> & _). exact I0.
  - intros s0 y x t1 t2 s1 o r w _ _ I0 D _. unfold I.
    destruct (EdvsPackets.decode_effect s0 y x t1 t2 s1 o r w D)
      as (_ & [(_ & _ & _ & Ep & _) | [(_ & _ & _ & Ep & _)
               | (_ & _ & _ & _ & _ & _ & [Ep | (e & Ep & _ & Ie)])]]);
      rewrite Ep; [exact I0 | exact I0 | exact I0 |].
    apply EdvsPackets.Forall_write; assumption.
  - intros s1 _ I1 _. exact I1.
  - intros s1 _ _ _ I1.
    destruct (EdvsPackets.committed_slots s1) as ([-> | ->] & _);
      [constructor | exact I1].
  - intros s1 s2 _ _ C1 _ A. unfold I.
    destruct (EdvsPackets.afterCommit_events s1 s2 C1 A) as (-> & _). constructor.
  - intros ovf. constructor.
  - exact C.
  - exact F.
  - clear. induction (outs (edvsEventTranslator s buffer)); simpl; auto.
Qed.

Lemma edvs_events_within_array_witness :
  Forall (fun c => Forall (@inArray Examples.smallEdvs) (slotEvents (polaritySlot c)))
    (handed (outs (@edvsEventTranslator Examples.smallEdvs Examples.edvsPastDeadline
                     Examples.twoTokens)))
  /\ (ends (@edvsEventTranslator Examples.smallEdvs Examples.edvsPastDeadline Examples.twoTokens)
      <> Diverges ->
      Forall (@inArray Examples.smallEdvs)
        (slotEvents
           (currentPolarityPacket
              (state (@edvsEventTranslator Examples.smallEdvs Examples.edvsPastDeadline
                        Examples.twoTokens))))).
Proof.
  apply (@edvs_events_within_array Examples.smallEdvs Examples.edvsPastDeadline Examples.twoTokens).
  - unfold consistent. simpl. repeat split. right. reflexivity.
  - simpl. constructor.
Defined.

(** X4.  The timestamps of the polarity events stay within the
    non-negative range of [int32_t]: when the timestamp state is in its
    ranges, with the coarse offset a multiple of the wrap increment, and
    the events in progress are stamped within the range, then so is every
    polarity event of every container handed over, and the timestamp
    state is in its ranges again when the translator is done. *)
Theorem edvs_timestamps_within_int32 `{edvs_h} (s : edvs_state) (buffer : list Z) :
  consistent s -> wrapOK (timestamps s) ->
  Forall (fun e => 0 <= polTimestamp e <= INT32_MAX)
    (slotEvents (currentPolarityPacket s)) ->
  Forall (fun c => Forall (fun e => 0 <= polTimestamp e <= INT32_MAX)
                     (slotEvents (polaritySlot c)))
    (handed (outs (edvsEventTranslator s buffer)))
  /\ (ends (edvsEventTranslator s buffer) <> Diverges ->
      wrapOK (timestamps (state (edvsEventTranslator s buffer)))
      /\ Forall (fun e => 0 <= polTimestamp e <= INT32_MAX)
           (slotEvents (currentPolarityPacket
                          (state (edvsEventTranslator s buffer))))).
Proof.
  intros C W F.
  pose (Q := fun e => 0 <= polTimestamp e <= INT32_MAX).
  pose (I := fun s => wrapOK (timestamps s)
                      /\ Forall Q (slotEvents (currentPolarityPacket s))).
  apply (EdvsSteps.translator_invariant I I (fun s _ _ => I s)
           (fun c => Forall Q (slotEvents (polaritySlot c))) (fun _ => false)).
  - intros s0 _ I0. unfold I.
    destruct (EdvsPackets.prepare_events s0) as (-> & _ & -> & _). exact I0.
  - intros s0 _ I0 _. unfold I.
    destruct (EdvsPackets.prepare_events s0) as (-> & _ & -> & _). exact I0.
  - intros s0 y x t1 t2 s1 o r w _ _ (W0 & F0) D _. unfold I.
    assert (Z0 : forall ovf, wrapOK (clockAtZero ovf)).
    { intros ovf. unfold wrapOK, clockAtZero, INT32_MAX, TS_WRAP_ADD. simpl.
      repeat split; try reflexivity; lia. }
    destruct (EdvsPackets.decode_effect s0 y x t1 t2 s1 o r w D)
      as (_ & [(_ & _ & Et & Ep & _) | [(_ & _ & Et & Ep & _)
               | (_ & _ & Bw & Et & _ & _ & Pe)]]).
    + rewrite Et, Ep. split; [apply Z0 | exact F0].
    + rewrite Et, Ep. split; [apply Z0 | exact F0].
    + assert (W1 : wrapOK (timestamps s1)).
      { rewrite Et. apply updated_wrapOK; [exact W0 | apply U16T_range | exact Bw]. }
      split; [exact W1 |].
      destruct Pe as [-> | (e & -> & Te & _)]; [exact F0 |].
      apply EdvsPackets.Forall_write; [exact F0 |].
      unfold Q. rewrite Te. apply W1.
  - intros s1 _ I1 _. exact I1.
  - intros s1 _ _ _ (_ & F1).
    destruct (EdvsPackets.committed_slots s1) as ([-> | ->] & _);
      [constructor | exact F1].
  - intros s1 s2 _ _ C1 (W1 & _) A. unfold I.
    destruct (EdvsPackets.afterCommit_events s1 s2 C1 A) as (-> & _).
    destruct A as ((-> & _) & _). split; [exact W1 | constructor].
  - intros ovf. constructor.
  - exact C.
  - split; assumption.
  - clear. induction (outs (edvsEventTranslator s buffer)); simpl; auto.
Qed.

Lemma edvs_timestamps_within_int32_witness :
  Forall (fun c => Forall (fun e => 0 <= polTimestamp e <= INT32_MAX)
                     (slotEvents (polaritySlot c)))
    (handed (outs (@edvsEventTranslator Examples.smallEdvs Examples.edvsBeforeBigWrap
                     Examples.twoTokens)))
  /\ (ends (@edvsEventTranslator Examples.smallEdvs Examples.edvsBeforeBigWrap Examples.twoTokens)
      <> Diverges ->
      wrapOK (timestamps (state (@edvsEventTranslator Examples.smallEdvs
                                   Examples.edvsBeforeBigWrap Examples.twoTokens)))
      /\ Forall (fun e => 0 <= polTimestamp e <= INT32_MAX)
           (slotEvents
              (currentPolarityPacket
                 (state (@edvsEventTranslator Examples.smallEdvs Examples.edvsBeforeBigWrap
                           Examples.twoTokens))))).
Proof.
  apply (@edvs_timestamps_within_int32 Examples.smallEdvs Examples.edvsBeforeBigWrap
           Examples.twoTokens).
  - unfold consistent. simpl. repeat split. right. reflexivity.
  - unfold wrapOK, INT32_MAX, TS_WRAP_ADD. simpl. repeat split; lia.
  - simpl. constructor.
Defined.

(** X5.  As long as the translator does not log the alert of a
    non-monotonic timestamp, the polarity events of every container it
    hands over are in the order of their timestamps, none later than the
    next: this holds when the events in progress are in order and none of
    them is later than the current timestamp. *)
Theorem edvs_events_in_timestamp_order `{edvs_h} (s : edvs_state) (buffer : list Z) :
  consistent s ->
  ascending (slotEvents (currentPolarityPacket s)) ->
  Forall (fun e => polTimestamp e <= current (timestamps s))
    (slotEvents (currentPolarityPacket s)) ->
  existsb isNonMonotonicAlert (outs (edvsEventTranslator s buffer)) = false ->
  Forall (fun c => ascending (slotEvents (polaritySlot c)))
    (handed (outs (edvsEventTranslator s buffer)))
  /\ (ends (edvsEventTranslator s buffer) <> Diverges ->
      ascending (slotEvents (currentPolarityPacket
                               (state (edvsEventTranslator s buffer))))).
Proof.
  intros C A F B.
  pose (I := fun s =>
               ascending (slotEvents (currentPolarityPacket s))
               /\ Forall (fun e => polTimestamp e <= current (timestamps s))
                    (slotEvents (currentPolarityPacket s))).
  pose (J := fun s (r w : bool) =>
               ascending (slotEvents (currentPolarityPacket s))
               /\ (r = false -> w = false ->
                   Forall (fun e => polTimestamp e <= current (timestamps s))
                     (slotEvents (currentPolarityPacket s)))).
  destruct (EdvsSteps.translator_invariant I I J
              (fun c => ascending (slotEvents (polaritySlot c)))
              isNonMonotonicAlert) with (s := s) (buffer := buffer)
    as (R1 & R2); [| | | | | | | exact C | split; assumption | exact B |].
  - intros s0 _ I0. unfold I.
    destruct (EdvsPackets.prepare_events s0) as (-> & _ & -> & _). exact I0.
  - intros s0 _ I0 _. unfold I.
    destruct (EdvsPackets.prepare_events s0) as (-> & _ & -> & _). exact I0.
  - intros s0 y x t1 t2 s1 o r w _ _ (A0 & F0) D Bo. unfold J.
    destruct (EdvsPackets.decode_effect s0 y x t1 t2 s1 o r w D)
      as (_ & [(-> & _ & _ & Ep & _) | [(_ & -> & _ & Ep & _)
               | (_ & _ & _ & Et & _ & (o2 & Eo) & Pe)]]).
    + rewrite Ep. split; [exact A0 | discriminate].
    + rewrite Ep. split; [exact A0 | discriminate].
    + assert (L : current (timestamps s0) <= current (timestamps s1)).
      { rewrite Eo in Bo. apply EdvsSteps.existsb_app_false in Bo.
        destruct Bo as (Bo & _). unfold checkMonotonicTimestamp in Bo.
        destruct (Z.ltb_spec (current (timestamps s1)) (last (timestamps s1)))
          as [Lt | Ge]; [discriminate Bo |].
        assert (El : last (timestamps s1) = current (timestamps s0))
          by (rewrite Et; reflexivity).
        lia. }
      assert (F1 : Forall (fun e => polTimestamp e <= current (timestamps s1))
                     (slotEvents (currentPolarityPacket s0))).
      { eapply Forall_impl; [| exact F0]. cbn beta. intros e He. lia. }
      destruct Pe as [-> | (e & -> & Te & _)]; [split; auto |].
      split.
      * apply EdvsPackets.ascending_write; [exact A0 |]. rewrite Te. exact F1.
      * intros _ _. apply EdvsPackets.Forall_write; [exact F1 | lia].
  - intros s1 _ (A1 & F1) _. split; [exact A1 | apply F1; reflexivity].
  - intros s1 r w _ (A1 & _).
    destruct (EdvsPackets.committed_slots s1) as ([-> | ->] & _);
      [exact Logic.I | exact A1].
  - intros s1 s2 r w C1 _ Ac. unfold I.
    destruct (EdvsPackets.afterCommit_events s1 s2 C1 Ac) as (-> & _).
    split; [exact Logic.I | constructor].
  - intros ovf. exact Logic.I.
  - split; [exact R1 |]. intros Nd. apply (R2 Nd).
Qed.

Lemma edvs_events_in_timestamp_order_witness :
  Forall (fun c => ascending (slotEvents (polaritySlot c)))
    (handed (outs (@edvsEventTranslator Examples.smallEdvs Examples.edvsPastDeadline
                     Examples.twoTokens)))
  /\ (ends (@edvsEventTranslator Examples.smallEdvs Examples.edvsPastDeadline Examples.twoTokens)
      <> Diverges ->
      ascending
        (slotEvents
           (currentPolarityPacket
              (state (@edvsEventTranslator Examples.smallEdvs Examples.edvsPastDeadline
                        Examples.twoTokens))))).
Proof.
  apply (@edvs_events_in_timestamp_order Examples.smallEdvs Examples.edvsPastDeadline
           Examples.twoTokens).
  - unfold consistent. simpl. repeat split. right. reflexivity.
  - simpl. exact Logic.I.
  - simpl. constructor.
  - vm_compute. reflexivity.
Defined.

(** X6.  A positive maximum packet size bounds every packet handed
    over: when fewer events than the maximum are in progress in each
    packet, no packet of a container the eDVS translator hands over holds
    more events than the maximum, and fewer than the maximum are in
    progress again when the translator is done. *)
Theorem edvs_packet_size_bounded `{edvs_h} (s : edvs_state) (buffer : list Z) :
  consistent s ->
  0 < I32T (maxPacketContainerPacketSize s) ->
  currentPolarityPacketPosition s < I32T (maxPacketContainerPacketSize s) ->
  currentSpecialPacketPosition s < I32T (maxPacketContainerPacketSize s) ->
  Forall
    (fun c =>
       Z.of_nat (List.length (slotEvents (polaritySlot c)))
       <= I32T (maxPacketContainerPacketSize s)
       /\ Z.of_nat (List.length (slotEvents (specialSlot c)))
          <= I32T (maxPacketContainerPacketSize s))
    (handed (outs (edvsEventTranslator s buffer)))
  /\ (ends (edvsEventTranslator s buffer) <> Diverges ->
      currentPolarityPacketPosition (state (edvsEventTranslator s buffer))
      < I32T (maxPacketContainerPacketSize s)
      /\ currentSpecialPacketPosition (state (edvsEventTranslator s buffer))
         < I32T (maxPacketContainerPacketSize s)).
Proof.
  intros C N Lp Ls.
  set (n := I32T (maxPacketContainerPacketSize s)) in *.
  pose (len := fun E (p : option (packet E)) => Z.of_nat (List.length (slotEvents p))).
  pose (I := fun s' =>
               I32T (maxPacketContainerPacketSize s') = n
               /\ len _ (currentPolarityPacket s') < n
               /\ len _ (currentSpecialPacket s') < n).
  pose (J := fun s' (r w : bool) =>
               I32T (maxPacketContainerPacketSize s') = n
               /\ len _ (currentPolarityPacket s') <= n
               /\ len _ (currentSpecialPacket s') <= n).
  destruct (EdvsSteps.translator_invariant I I J
              (fun c => len _ (polaritySlot c) <= n /\ len _ (specialSlot c) <= n)
              (fun _ => false)) with (s := s) (buffer := buffer)
    as (R1 & R2); [| | | | | | | exact C | | |].
  - intros s0 _ I0. unfold I, len.
    destruct (EdvsPackets.prepare_events s0) as (-> & -> & _ & ->). exact I0.
  - intros s0 _ I0 _. unfold I, len.
    destruct (EdvsPackets.prepare_events s0) as (-> & -> & _ & ->). exact I0.
  - intros s0 y x t1 t2 s1 o r w _ _ (M0 & P0 & S0) D _. unfold J, len in *.
    destruct (EdvsPackets.decode_effect s0 y x t1 t2 s1 o r w D)
      as (-> & [(_ & _ & _ & Ep & Es) | [(_ & _ & _ & Ep & Es)
               | (_ & _ & _ & _ & Es & _ & [Ep | (e & Ep & _)])]]);
      rewrite Ep, Es; split; [exact M0 | | exact M0 | | exact M0 | | exact M0 |];
      try (split; lia).
    + pose proof (EdvsPackets.length_write_le (currentSpecialPacket s0)
                    {| spcTimestamp := INT32_MAX; spcType := TIMESTAMP_WRAP |}).
      split; lia.
    + pose proof (EdvsPackets.length_write_le (currentPolarityPacket s0) e).
      split; lia.
  - intros s1 (_ & Cp & Cs) (M1 & P1 & S1) Nd. unfold I, len in *.
    split; [exact M1 |]. rewrite <- Cp, <- Cs.
    unfold commitDue in Nd. cbn [orb] in Nd. rewrite M1 in Nd.
    apply orb_false_iff in Nd. destruct Nd as (Nd & _).
    apply andb_false_iff in Nd. destruct Nd as [Nd | Nd].
    + rewrite Z.gtb_ltb in Nd. apply Z.ltb_ge in Nd. lia.
    + apply orb_false_iff in Nd. destruct Nd as (Np & Ns).
      rewrite Z.geb_leb in Np, Ns. apply Z.leb_gt in Np, Ns. split; assumption.
  - intros s1 r w _ (_ & P1 & S1). unfold len in *.
    destruct (EdvsPackets.committed_slots s1) as ([-> | ->] & [-> | ->] & _);
      simpl List.length; split; lia.
  - intros s1 s2 r w C1 (M1 & _) Ac. unfold I, len.
    destruct (EdvsPackets.afterCommit_events s1 s2 C1 Ac) as (-> & ->).
    destruct Ac as ((_ & _ & _ & -> & _) & _). simpl. repeat split; [exact M1 | lia | lia].
  - intros ovf. unfold len. simpl. lia.
  - destruct C as (_ & Cp & Cs). unfold I, len. rewrite <- Cp, <- Cs. auto.
  - clear. induction (outs (edvsEventTranslator s buffer)); simpl; auto.
  - split; [exact R1 |]. intros Nd. destruct (R2 Nd) as (_ & P2 & S2).
    assert (C2 : consistent (state (edvsEventTranslator s buffer))).
    { apply translator_consistent; [exact C | exact Nd]. }
    destruct C2 as (_ & -> & ->). split; assumption.
Qed.

Lemma edvs_packet_size_bounded_witness :
  Forall
    (fun c =>
       Z.of_nat (List.length (slotEvents (polaritySlot c)))
       <= I32T (maxPacketContainerPacketSize Examples.edvsRunning)
       /\ Z.of_nat (List.length (slotEvents (specialSlot c)))
          <= I32T (maxPacketContainerPacketSize Examples.edvsRunning))
    (handed (outs (@edvsEventTranslator Examples.smallEdvs Examples.edvsRunning Examples.twoTokens)))
  /\ (ends (@edvsEventTranslator Examples.smallEdvs Examples.edvsRunning Examples.twoTokens)
      <> Diverges ->
      currentPolarityPacketPosition
        (state (@edvsEventTranslator Examples.smallEdvs Examples.edvsRunning Examples.twoTokens))
      < I32T (maxPacketContainerPacketSize Examples.edvsRunning)
      /\ currentSpecialPacketPosition
           (state (@edvsEventTranslator Examples.smallEdvs Examples.edvsRunning Examples.twoTokens))
         < I32T (maxPacketContainerPacketSize Examples.edvsRunning)).
Proof.
  apply (@edvs_packet_size_bounded Examples.smallEdvs Examples.edvsRunning Examples.twoTokens).
  - unfold consistent. simpl. repeat split. right. reflexivity.
  - reflexivity.
  - reflexivity.
  - reflexivity.
Defined.

(** X7.  The translator finds the start of a token again after bytes
    that cannot start one: bytes without the high bit at the head of a
    buffer are skipped one by one, each with a notice, and the rest of the
    buffer is decoded as if it had been received alone. *)
Theorem misaligned_bytes_skipped `{edvs_h}
    (s : edvs_state) (skipped rest : list Z) :
  serialThreadRun s = true ->
  Forall (fun b => Z.land b HIGH_BIT_MASK <> HIGH_BIT_MASK) skipped ->
  state (edvsEventTranslator s (skipped ++ rest))
  = state (edvsEventTranslator s rest)
  /\ outs (edvsEventTranslator s (skipped ++ rest))
     = repeat notAligned (List.length skipped)
       ++ outs (edvsEventTranslator s rest)
  /\ ends (edvsEventTranslator s (skipped ++ rest))
     = ends (edvsEventTranslator s rest).
Proof.
  intros Run F. unfold edvsEventTranslator. rewrite Run. cbn [negb].
  induction F as [| b l Hb _ IH]; [auto |].
  cbn [app decodeLoop List.length repeat].
  apply Z.eqb_neq in Hb. rewrite Hb. cbn [negb].
  rewrite state_andThen, outs_andThen, ends_andThen. cbn [ends state outs].
  destruct IH as (-> & -> & ->). auto.
Qed.

Lemma misaligned_bytes_skipped_witness :
  outs (@edvsEventTranslator Examples.smallEdvs Examples.edvsRunning
          ([0x03; 0x00; 0x6E] ++ Examples.twoTokens))
  = repeat notAligned 3
    ++ outs (@edvsEventTranslator Examples.smallEdvs Examples.edvsRunning Examples.twoTokens).
Proof.
  apply (@misaligned_bytes_skipped Examples.smallEdvs Examples.edvsRunning [0x03; 0x00; 0x6E]
           Examples.twoTokens).
  - reflexivity.
  - repeat constructor; vm_compute; discriminate.
Defined.

(** X8.  The event that fires the time trigger is part of the
    container it commits (the NOTE of edvs.c, lines 893-895): a token that
    is neither a reset nor a big wrap, addressed within the array, whose
    timestamp takes the full timestamp past the commit deadline, is
    written first and committed with the events in progress, so that the
    container handed over ends with an event stamped past the deadline,
    and no polarity event is left in progress. *)
Theorem time_commit_takes_triggering_event `{edvs_h}
    (s : edvs_state) (yByte xByte ts1Byte ts2Byte : Z) :
  let ts := updated (timestamps s) (shortTSOf ts1Byte ts2Byte) in
  consistent s -> ready s ->
  dvsTSReset s = false -> bigWrapOf s ts1Byte ts2Byte = false ->
  ~ outOfRange yByte xByte ->
  currentPacketContainerCommitTimestamp s <> -1 ->
  currentPacketContainerCommitTimestamp s
  < generateFullTimestamp (wrapOverflow ts) (current ts) ->
  0 < I32T (maxPacketContainerInterval s) ->
  clockInRange ts ->
  INT64_MIN <= currentPacketContainerCommitTimestamp s ->
  exists c e,
    handed (outs (process s yByte xByte ts1Byte ts2Byte)) = [c]
    /\ slotEvents (polaritySlot c) = slotEvents (currentPolarityPacket s) ++ [e]
    /\ polTimestamp e = current ts
    /\ polX e = U8T (Z.land xByte LOW_BITS_MASK)
    /\ polY e = U8T (Z.land yByte LOW_BITS_MASK)
    /\ currentPacketContainerCommitTimestamp s
       < generateFullTimestamp (wrapOverflow ts) (polTimestamp e)
    /\ currentPolarityPacketPosition
         (state (process s yByte xByte ts1Byte ts2Byte)) = 0.
Proof.
  intros ts C R Rs W In Dl T Iv Cl Dm.
  destruct (decode s yByte xByte ts1Byte ts2Byte) as [[[s1 o] r] w] eqn:D.
  destruct (decode_consistent _ _ _ _ _ _ _ _ _ D R C) as (R1 & C1 & _).
  pose proof D as D'. unfold decode in D'. rewrite Rs in D'.
  unfold bigWrapOf, tsWrapOf in W. rewrite W in D'.
  fold (updated (timestamps s) (shortTSOf ts1Byte ts2Byte)) in D'. fold ts in D'.
  assert (Ei : initContainerCommitTimestamp (set_timestamps ts s)
               = set_timestamps ts s).
  { unfold initContainerCommitTimestamp. cbn [currentPacketContainerCommitTimestamp
      set_timestamps]. apply Z.eqb_neq in Dl. rewrite Dl. reflexivity. }
  rewrite Ei, (decodePolarity_in_range _ _ _ In) in D'.
  cbn [currentPolarityPacket currentPolarityPacketPosition timestamps
       set_timestamps] in D'.
  injection D' as E1 _ Er Ew. subst r w.
  assert (T1 : containerTimeCommit s1 = true).
  { unfold containerTimeCommit, fullTimestamp. rewrite <- E1.
    cbn [timestamps set_polarity set_timestamps
         currentPacketContainerCommitTimestamp].
    apply Z.gtb_lt. exact T. }
  assert (Due : commitDue s1 false false = true).
  { unfold commitDue. rewrite T1. apply orb_true_r. }
  destruct (rearmed_total s1) as (k & _ & Rk & _).
  { rewrite <- E1. exact Iv. }
  { rewrite <- E1. exact Cl. }
  { rewrite <- E1. exact Dm. }
  destruct (commit_due_outs s1 false false _ C1 R1 Due Rk) as (Oc & _ & _ & P0 & _).
  destruct (process_spec _ _ _ _ _ _ _ _ _ D) as (-> & -> & _).
  assert (Pe : pending s1 = true).
  { unfold pending. rewrite <- E1. cbn [currentPolarityPacketPosition set_polarity].
    destruct C as (_ & Cp & _).
    assert (G : (currentPolarityPacketPosition s + 1 >? 0) = true)
      by (apply Z.gtb_lt; lia).
    rewrite G. reflexivity. }
  exists (committed s1). eexists.
  split; [| split; [| split; [| split; [| split; [| split; [| exact P0]]]]]].
  - rewrite Oc, Pe, !handed_app, (decode_outs _ _ _ _ _ _ _ _ _ D).
    cbn [negb app]. rewrite handed_handOverOuts_pending. reflexivity.
  - destruct (committed_events s1 C1) as (-> & _). rewrite <- E1.
    cbn [currentPolarityPacket set_polarity]. apply slotEvents_write. apply R.
  - reflexivity.
  - reflexivity.
  - reflexivity.
  - exact T.
Qed.

Lemma time_commit_takes_triggering_event_witness :
  exists c e,
    handed (outs (@process Examples.smallEdvs Examples.edvsAtDeadline 0x85 0x03 0x00 0x6E))
    = [c]
    /\ slotEvents (polaritySlot c)
       = slotEvents (currentPolarityPacket Examples.edvsAtDeadline) ++ [e]
    /\ polTimestamp e = 110.
Proof.
  destruct (@time_commit_takes_triggering_event Examples.smallEdvs Examples.edvsAtDeadline
              0x85 0x03 0x00 0x6E)
    as (c & e & Hc & He & Ht & _).
  - unfold consistent. simpl. repeat split. right. reflexivity.
  - unfold ready. simpl. repeat split; discriminate.
  - reflexivity.
  - reflexivity.
  - vm_compute. intros [Hx | Hx]; apply Hx; reflexivity.
  - simpl. discriminate.
  - reflexivity.
  - reflexivity.
  - vm_compute. repeat split; intros Hx; discriminate Hx.
  - unfold INT64_MIN. simpl. lia.
  - exists c, e. split; [exact Hc |]. split; [exact He |]. exact Ht.
Defined.

(** X9.  The DV-Explorer translator never writes more events to a
    packet than the packet has room for, as long as the polarity packets
    start with room for a whole group of 8 pixels: when the default size
    of the polarity packet is at least 8, the other default sizes are
    positive and the packets in progress hold the events written to them
    within capacities of at least these, every packet of every container
    handed over holds the events written to it within its capacity, and
    so do the packets in progress when the translator is done.
    [ensureSpaceForEvents] doubles the capacity once and does not check
    the room again, which is enough from a capacity of 8 on.  The headers
    of the polarity and special packets count exactly the events written,
    when they did so before.  Not so the header of the IMU packet, which
    counts a sample before room is made for it: when the packet cannot
    grow, the sample is counted although it is dropped, as on the third of
    three samples when the allocation fails, after which the header of the
    packet of capacity 2 counts 3 events with 2 samples copied. *)
Theorem dv_packets_within_capacity
    `{DvExplorer.dv_explorer_h} `{DvExplorer.timestamps_h}
    (s : DvExplorer.dv_state) (buffer : list Z) :
  8 <= DvExplorer.DV_EXPLORER_POLARITY_DEFAULT_SIZE ->
  1 <= DvExplorer.DV_EXPLORER_SPECIAL_DEFAULT_SIZE ->
  1 <= DvExplorer.DV_EXPLORER_IMU_DEFAULT_SIZE ->
  DvExplorer.consistent s ->
  roomFor 8 (DvExplorer.polarity (DvExplorer.currentPackets s)) ->
  roomFor 1 (DvExplorer.special (DvExplorer.currentPackets s)) ->
  roomFor 1 (DvExplorer.imu6 (DvExplorer.currentPackets s)) ->
  counted (DvExplorer.polarity (DvExplorer.currentPackets s)) ->
  counted (DvExplorer.special (DvExplorer.currentPackets s)) ->
  let r := DvExplorer.dvExplorerEventTranslator s buffer in
  let samples :=
    DvExplorer.imu6
      (DvExplorer.currentPackets
         (DvExplorer.state
            (@DvExplorer.dvExplorerEventTranslator Examples.smallDv
               DvExplorer.specTimestamps Examples.dvAllocationFails
               Examples.threeSamples))) in
  Forall (fun c => fits c /\ counted (polaritySlot c) /\ counted (specialSlot c))
    (handed (DvExplorer.outs r))
  /\ (DvExplorer.ends r <> Diverges ->
      roomFor 8 (DvExplorer.polarity (DvExplorer.currentPackets (DvExplorer.state r)))
      /\ roomFor 1 (DvExplorer.special (DvExplorer.currentPackets (DvExplorer.state r)))
      /\ roomFor 1 (DvExplorer.imu6 (DvExplorer.currentPackets (DvExplorer.state r)))
      /\ counted (DvExplorer.polarity (DvExplorer.currentPackets (DvExplorer.state r)))
      /\ counted (DvExplorer.special (DvExplorer.currentPackets (DvExplorer.state r))))
  /\ option_map eventCapacity samples = Some 2
  /\ List.length (slotEvents samples) = 2%nat
  /\ slotNumber samples = 3.
Proof.
  intros Dp Ds Di C Rp Rs Ri Cp Cs r samples.
  pose (I := fun s => roomFor 8 (DvExplorer.polarity (DvExplorer.currentPackets s))
                      /\ roomFor 1 (DvExplorer.special (DvExplorer.currentPackets s))
                      /\ roomFor 1 (DvExplorer.imu6 (DvExplorer.currentPackets s))).
  assert (Room : Forall fits (handed (DvExplorer.outs r))
                 /\ (DvExplorer.ends r <> Diverges -> I (DvExplorer.state r))).
  { apply (DvSteps.dv_translator_invariant I I (fun s _ _ => I s) fits).
    - intros s0 _ I0. apply DvPackets.dv_prepare_room; assumption.
    - intros s0 _ I0 _. apply DvPackets.dv_prepare_room; assumption.
    - intros s0 event s1 o r0 w0 _ (_ & Cp0 & Cs0 & Ci0) (Ip & Is & Ii) D _.
      destruct (DvSteps.decode_wrote s0 event s1 o r0 w0 D)
        as (pa & sa & ia & Wp & Ws & Wi & _).
      unfold I. split; [| split].
      + exact (DvPackets.written_roomFor 8 _ _ _ pa Cp0 Ip Wp).
      + exact (DvPackets.written_roomFor 1 _ _ _ sa Cs0 Is Ws).
      + exact (DvPackets.written_roomFor 1 _ _ _ ia Ci0 Ii Wi).
    - intros s1 _ I1 _. exact I1.
    - intros s1 _ _ _ (Ip & Is & Ii). unfold fits.
      destruct (DvPackets.dv_committed_slots s1) as (Sp & Ss & Si).
      split; [| split].
      + destruct Sp as [Sp | ->]; [| apply (DvPackets.roomFor_roomy 8); [lia | exact Ip]].
        unfold DvExplorer.committed in *. cbn [polaritySlot] in *.
        destruct (DvExplorer.polarityPosition (DvExplorer.currentPackets s1) >? 0);
          [apply (DvPackets.roomFor_roomy 8); [lia | exact Ip] | exact Logic.I].
      + destruct Ss as [Ss | ->]; [| apply (DvPackets.roomFor_roomy 1); [lia | exact Is]].
        unfold DvExplorer.committed in *. cbn [specialSlot] in *.
        destruct (DvExplorer.specialPosition (DvExplorer.currentPackets s1) >? 0);
          [apply (DvPackets.roomFor_roomy 1); [lia | exact Is] | exact Logic.I].
      + destruct Si as [Si | ->]; [| apply (DvPackets.roomFor_roomy 1); [lia | exact Ii]].
        unfold DvExplorer.committed in *. cbn [imu6Slot] in *.
        destruct (DvExplorer.imu6Position (DvExplorer.currentPackets s1) >? 0);
          [apply (DvPackets.roomFor_roomy 1); [lia | exact Ii] | exact Logic.I].
    - intros s1 s2 _ _ _ (Ip & Is & Ii) (_ & _ & _ & _ & _ & K). unfold I. rewrite K.
      cbn [DvExplorer.polarity DvExplorer.special DvExplorer.imu6].
      destruct (DvExplorer.polarityPosition (DvExplorer.currentPackets s1) >? 0),
               (DvExplorer.specialPosition (DvExplorer.currentPackets s1) >? 0),
               (DvExplorer.imu6Position (DvExplorer.currentPackets s1) >? 0);
        simpl; auto.
    - intros ovf. unfold fits, DvExplorer.tsResetContainer. simpl. lia.
    - exact C.
    - unfold I. auto. }
  destruct Room as (F1 & K1).
  destruct (DvHeaders.dv_translator_counted s buffer C Cp Cs) as (F2 & K2).
  fold r in F2, K2.
  split; [| split; [| split; [| split]]].
  - apply Forall_forall. intros c Ic.
    rewrite Forall_forall in F1, F2.
    destruct (F2 c Ic) as (X1 & X2). split; [exact (F1 c Ic) | split; assumption].
  - intros Nd. destruct (K1 Nd) as (Y1 & Y2 & Y3). destruct (K2 Nd) as (Y4 & Y5).
    repeat split; assumption.
  - vm_compute. reflexivity.
  - vm_compute. reflexivity.
  - vm_compute. reflexivity.
Qed.

Lemma dv_packets_within_capacity_witness :
  Forall (fun c => fits c /\ counted (polaritySlot c) /\ counted (specialSlot c))
    (handed (DvExplorer.outs
               (@DvExplorer.dvExplorerEventTranslator Examples.smallDv
                  DvExplorer.specTimestamps Examples.dvFullPacket Examples.groupBeyondWidth))).
Proof.
  assert (Dp : 8 <= @DvExplorer.DV_EXPLORER_POLARITY_DEFAULT_SIZE Examples.smallDv)
    by (simpl; lia).
  assert (Ds : 1 <= @DvExplorer.DV_EXPLORER_SPECIAL_DEFAULT_SIZE Examples.smallDv)
    by (simpl; lia).
  assert (Di : 1 <= @DvExplorer.DV_EXPLORER_IMU_DEFAULT_SIZE Examples.smallDv)
    by (simpl; lia).
  assert (C : DvExplorer.consistent Examples.dvFullPacket).
  { unfold DvExplorer.consistent. simpl. repeat split. right. reflexivity. }
  assert (Rp : roomFor 8 (DvExplorer.polarity (DvExplorer.currentPackets Examples.dvFullPacket)))
    by (simpl; lia).
  assert (Rs : roomFor 1 (DvExplorer.special (DvExplorer.currentPackets Examples.dvFullPacket)))
    by (simpl; lia).
  assert (Ri : roomFor 1 (DvExplorer.imu6 (DvExplorer.currentPackets Examples.dvFullPacket)))
    by (simpl; lia).
  assert (Cp : counted (DvExplorer.polarity (DvExplorer.currentPackets Examples.dvFullPacket)))
    by reflexivity.
  assert (Cs : counted (DvExplorer.special (DvExplorer.currentPackets Examples.dvFullPacket)))
    by reflexivity.
  exact (proj1 (@dv_packets_within_capacity Examples.smallDv DvExplorer.specTimestamps
                  Examples.dvFullPacket Examples.groupBeyondWidth Dp Ds Di C Rp Rs Ri
                  Cp Cs)).
Defined.

(** X10.  The coordinate a polarity event of the DV-Explorer takes from
    the column address is always within [sizeY], and the one it takes
    from the row address is below 512: when the addresses of the state are
    in their ranges and the events in progress are placed so, every
    polarity event of every container handed over is placed so, with the
    geometry the state started with, and the addresses are in their ranges
    again when the translator is done.  With inverted axes the column
    address is the x coordinate of the event, otherwise its y
    coordinate. *)
Theorem dv_events_column_within_size
    `{DvExplorer.dv_explorer_h} `{DvExplorer.timestamps_h}
    (s : DvExplorer.dv_state) (buffer : list Z) :
  let inverted := DvExplorer.invertXY (DvExplorer.dvs s) in
  let size := DvExplorer.sizeY (DvExplorer.dvs s) in
  let r := DvExplorer.dvExplorerEventTranslator s buffer in
  DvExplorer.consistent s ->
  DvExplorer.addressesInRange (DvExplorer.dvs s) ->
  Forall (DvExplorer.placed inverted size)
    (slotEvents (DvExplorer.polarity (DvExplorer.currentPackets s))) ->
  Forall (fun c => Forall (DvExplorer.placed inverted size)
                     (slotEvents (polaritySlot c)))
    (handed (DvExplorer.outs r))
  /\ (DvExplorer.ends r <> Diverges ->
      DvExplorer.addressesInRange (DvExplorer.dvs (DvExplorer.state r))
      /\ DvExplorer.invertXY (DvExplorer.dvs (DvExplorer.state r)) = inverted
      /\ DvExplorer.sizeY (DvExplorer.dvs (DvExplorer.state r)) = size
      /\ Forall (DvExplorer.placed inverted size)
           (slotEvents (DvExplorer.polarity
                          (DvExplorer.currentPackets (DvExplorer.state r))))).
Proof.
  intros inverted size r C A F.
  pose (I := fun s' =>
               DvExplorer.addressesInRange (DvExplorer.dvs s')
               /\ DvExplorer.invertXY (DvExplorer.dvs s') = inverted
               /\ DvExplorer.sizeY (DvExplorer.dvs s') = size
               /\ Forall (DvExplorer.placed inverted size)
                    (slotEvents (DvExplorer.polarity (DvExplorer.currentPackets s')))).
  apply (DvSteps.dv_translator_invariant I I (fun s _ _ => I s)
           (fun c => Forall (DvExplorer.placed inverted size)
                       (slotEvents (polaritySlot c)))).
  - intros s0 _ I0. unfold I.
    destruct (DvPackets.prepare_keeps s0) as (-> & _ & _ & -> & _). exact I0.
  - intros s0 _ I0 _. unfold I.
    destruct (DvPackets.prepare_keeps s0) as (-> & _ & _ & -> & _). exact I0.
  - intros s0 event s1 o r0 w0 _ _ ((Y0 & Y1 & g & G0 & X0) & Iv & Sz & F0) D _.
    destruct (DvSteps.decode_wrote s0 event s1 o r0 w0 D)
      as (pa & sa & ia & Wp & _ & _ & Px & (_ & Ey & Ei & Ay & Ax) & _).
    unfold I. rewrite Ei, Ey. split; [| split; [exact Iv | split; [exact Sz |]]].
    + unfold DvExplorer.addressesInRange. rewrite Ey. split; [| split].
      * destruct Ay as [-> | (Ay & _)]; assumption.
      * destruct Ay as [-> | (_ & Ay)]; assumption.
      * destruct Ax as [-> | Ax]; [exists g; auto | exact Ax].
    + rewrite (DvPackets.written_events _ _ _ _ _ Wp). apply Forall_app.
      split; [exact F0 |].
      eapply Forall_impl; [| exact Px]. cbn beta.
      intros e (_ & i & I8 & Pe). unfold DvExplorer.placed.
      rewrite Iv in Pe. rewrite X0 in Pe. unfold U16T, unsigned in Pe.
      rewrite !Z.mod_small in Pe by lia.
      destruct inverted; destruct Pe as (-> & ->); lia.
  - intros s1 _ I1 _. exact I1.
  - intros s1 _ _ _ (_ & _ & _ & F1).
    destruct (DvPackets.dv_committed_slots s1) as ([-> | ->] & _);
      [constructor | exact F1].
  - intros s1 s2 _ _ _ (A1 & Iv & Sz & _) Ac. unfold I.
    destruct (DvPackets.dv_afterCommit_events s1 s2 Ac) as (-> & _).
    destruct Ac as (_ & _ & -> & _). auto.
  - intros ovf. constructor.
  - exact C.
  - unfold I. auto.
Qed.

Lemma dv_events_column_within_size_witness :
  Forall (fun c => Forall (DvExplorer.placed true 640) (slotEvents (polaritySlot c)))
    (handed (DvExplorer.outs
               (@DvExplorer.dvExplorerEventTranslator Examples.smallDv
                  DvExplorer.specTimestamps Examples.dvPastDeadline Examples.groupBeyondWidth))).
Proof.
  assert (C : DvExplorer.consistent Examples.dvPastDeadline).
  { unfold DvExplorer.consistent. simpl. repeat split. right. reflexivity. }
  assert (A : DvExplorer.addressesInRange (DvExplorer.dvs Examples.dvPastDeadline)).
  { unfold DvExplorer.addressesInRange. simpl. split; [lia |]. split; [lia |].
    exists 0. lia. }
  assert (F : Forall (DvExplorer.placed true 640)
                (slotEvents (DvExplorer.polarity
                               (DvExplorer.currentPackets Examples.dvPastDeadline))))
    by constructor.
  exact (proj1 (@dv_events_column_within_size Examples.smallDv DvExplorer.specTimestamps
                  Examples.dvPastDeadline Examples.groupBeyondWidth C A F)).
Defined.

(** X11.  A positive maximum packet size bounds the packets of the
    DV-Explorer up to the size of a pixel group: the size trigger is
    checked after a whole word was decoded, and a word writes up to 8
    polarity events, so that into a polarity packet handed over at most 7
    events more than the maximum were written, and into a special or IMU
    packet at most the maximum; fewer events than the maximum are in
    progress in each packet when the translator is done, as they were
    before.  The headers of the polarity and special packets, which count
    the events written when they did so before, report these numbers; for
    the IMU packet the bound is on the samples copied, and nothing is said
    of its header. *)
Theorem dv_packet_size_bounded
    `{DvExplorer.dv_explorer_h} `{DvExplorer.timestamps_h}
    (s : DvExplorer.dv_state) (buffer : list Z) :
  let n := DvExplorer.containerGenerationGetMaxPacketSize (DvExplorer.container s) in
  let r := DvExplorer.dvExplorerEventTranslator s buffer in
  DvExplorer.consistent s ->
  0 < n ->
  DvExplorer.polarityPosition (DvExplorer.currentPackets s) < n ->
  DvExplorer.specialPosition (DvExplorer.currentPackets s) < n ->
  DvExplorer.imu6Position (DvExplorer.currentPackets s) < n ->
  counted (DvExplorer.polarity (DvExplorer.currentPackets s)) ->
  counted (DvExplorer.special (DvExplorer.currentPackets s)) ->
  Forall
    (fun c =>
       Z.of_nat (List.length (slotEvents (polaritySlot c))) <= n + 7
       /\ Z.of_nat (List.length (slotEvents (specialSlot c))) <= n
       /\ Z.of_nat (List.length (slotEvents (imu6Slot c))) <= n
       /\ slotNumber (polaritySlot c) <= n + 7
       /\ slotNumber (specialSlot c) <= n)
    (handed (DvExplorer.outs r))
  /\ (DvExplorer.ends r <> Diverges ->
      DvExplorer.polarityPosition (DvExplorer.currentPackets (DvExplorer.state r)) < n
      /\ DvExplorer.specialPosition (DvExplorer.currentPackets (DvExplorer.state r)) < n
      /\ DvExplorer.imu6Position (DvExplorer.currentPackets (DvExplorer.state r)) < n).
Proof.
  intros n r C N Lp Ls Li Cp Cs.
  pose (len := fun E (p : option (packet E)) => Z.of_nat (List.length (slotEvents p))).
  pose (I := fun s' =>
               DvExplorer.containerGenerationGetMaxPacketSize (DvExplorer.container s') = n
               /\ len _ (DvExplorer.polarity (DvExplorer.currentPackets s')) < n
               /\ len _ (DvExplorer.special (DvExplorer.currentPackets s')) < n
               /\ len _ (DvExplorer.imu6 (DvExplorer.currentPackets s')) < n).
  pose (J := fun s' (_ _ : bool) =>
               DvExplorer.containerGenerationGetMaxPacketSize (DvExplorer.container s') = n
               /\ len _ (DvExplorer.polarity (DvExplorer.currentPackets s')) <= n + 7
               /\ len _ (DvExplorer.special (DvExplorer.currentPackets s')) <= n
               /\ len _ (DvExplorer.imu6 (DvExplorer.currentPackets s')) <= n).
  destruct (DvSteps.dv_translator_invariant I I J
              (fun c => len _ (polaritySlot c) <= n + 7
                        /\ len _ (specialSlot c) <= n
                        /\ len _ (imu6Slot c) <= n)) with (s := s) (buffer := buffer)
    as (R1 & R2); [| | | | | | | exact C | |].
  - intros s0 _ I0. unfold I, len, DvExplorer.containerGenerationGetMaxPacketSize.
    destruct (DvPackets.prepare_keeps s0) as (-> & -> & -> & _ & ->). exact I0.
  - intros s0 _ I0 _. unfold I, len, DvExplorer.containerGenerationGetMaxPacketSize.
    destruct (DvPackets.prepare_keeps s0) as (-> & -> & -> & _ & ->). exact I0.
  - intros s0 event s1 o r0 w0 _ _ (M0 & P0 & S0 & I0) D _.
    destruct (DvSteps.decode_wrote s0 event s1 o r0 w0 D)
      as (pa & sa & ia & Wp & Ws & Wi & _ & _ & _ & Em).
    unfold J, len, DvExplorer.containerGenerationGetMaxPacketSize in *.
    rewrite Em. split; [exact M0 |].
    destruct (DvPackets.written_length 8 _ _ _ pa ltac:(lia) Wp) as (Wp' & _).
    destruct (DvPackets.written_length 1 _ _ _ sa ltac:(lia) Ws) as (Ws' & _).
    destruct (DvPackets.written_length 1 _ _ _ ia ltac:(lia) Wi) as (Wi' & _).
    repeat split; lia.
  - intros s1 (_ & Cp1 & Cs1 & Ci1) (M1 & _) Nd. unfold I, len in *.
    split; [exact M1 |]. rewrite <- Cp1, <- Cs1, <- Ci1.
    unfold DvExplorer.commitDue in Nd. cbn [orb] in Nd. rewrite M1 in Nd.
    apply orb_false_iff in Nd. destruct Nd as (Nd & _).
    apply andb_false_iff in Nd. destruct Nd as [Nd | Nd].
    + rewrite Z.gtb_ltb in Nd. apply Z.ltb_ge in Nd. unfold n in *. lia.
    + apply orb_false_iff in Nd. destruct Nd as (Nd & Ni).
      apply orb_false_iff in Nd. destruct Nd as (Np & Ns).
      rewrite Z.geb_leb in Np, Ns, Ni. apply Z.leb_gt in Np, Ns, Ni. auto.
  - intros s1 r0 w0 _ (_ & P1 & S1 & I1). unfold len in *.
    destruct (DvPackets.dv_committed_slots s1) as ([-> | ->] & [-> | ->] & [-> | ->]);
      simpl List.length; repeat split; lia.
  - intros s1 s2 r0 w0 _ (M1 & _) Ac. unfold I, len.
    destruct (DvPackets.dv_afterCommit_events s1 s2 Ac) as (-> & -> & ->).
    destruct Ac as (_ & _ & _ & Em & _).
    unfold DvExplorer.containerGenerationGetMaxPacketSize in *. rewrite Em.
    simpl. repeat split; [exact M1 | lia | lia | lia].
  - intros ovf. unfold len. simpl. lia.
  - destruct C as (_ & Cp0 & Cs0 & Ci0). unfold I, len.
    rewrite <- Cp0, <- Cs0, <- Ci0. auto.
  - destruct (DvHeaders.dv_translator_counted s buffer C Cp Cs) as (F2 & _).
    fold r in F2. split.
    + apply Forall_forall. intros c Ic. rewrite Forall_forall in R1, F2.
      destruct (R1 c Ic) as (X1 & X2 & X3). destruct (F2 c Ic) as (Y1 & Y2).
      unfold len in *. unfold counted in Y1, Y2. rewrite Y1, Y2.
      repeat split; assumption.
    + intros Nd. destruct (R2 Nd) as (_ & P2 & S2 & I2).
      assert (C2 : DvExplorer.consistent (DvExplorer.state r)).
      { apply DvFacts.dv_translator_consistent; [exact C | exact Nd]. }
      destruct C2 as (_ & -> & -> & ->). auto.
Qed.

Lemma dv_packet_size_bounded_witness :
  Forall
    (fun c =>
       Z.of_nat (List.length (slotEvents (polaritySlot c))) <= 4096 + 7
       /\ Z.of_nat (List.length (slotEvents (specialSlot c))) <= 4096
       /\ Z.of_nat (List.length (slotEvents (imu6Slot c))) <= 4096
       /\ slotNumber (polaritySlot c) <= 4096 + 7
       /\ slotNumber (specialSlot c) <= 4096)
    (handed (DvExplorer.outs
               (@DvExplorer.dvExplorerEventTranslator Examples.smallDv
                  DvExplorer.specTimestamps Examples.dvPastDeadline Examples.groupBeyondWidth))).
Proof.
  assert (C : DvExplorer.consistent Examples.dvPastDeadline).
  { unfold DvExplorer.consistent. simpl. repeat split. right. reflexivity. }
  exact (proj1 (@dv_packet_size_bounded Examples.smallDv DvExplorer.specTimestamps
                  Examples.dvPastDeadline Examples.groupBeyondWidth C
                  eq_refl eq_refl eq_refl eq_refl eq_refl eq_refl)).
Defined.

(** X12.  After a scale configuration that enables at least one sensor,
    the position counter of the IMU sample reaches 14, the count an IMU
    end accepts, after exactly 6 data bytes for the accelerometer, 2 for
    the temperature and 6 for the gyroscope, as far as they are enabled,
    and not before; none of these bytes is logged as an error. *)
Theorem imu_count_reaches_total `{DvExplorer.dv_explorer_h}
    (s : DvExplorer.dv_state) (data : Z) (bytes : list Z) :
  let s0 := fst (DvExplorer.imuScaleConfig s data) in
  let ty := DvExplorer.type (DvExplorer.imu s0) in
  let total :=
    (if DvExplorer.imuEnabled ty DvExplorer.IMU_TYPE_ACCEL then 6 else 0)
    + (if DvExplorer.imuEnabled ty DvExplorer.IMU_TYPE_TEMP then 2 else 0)
    + (if DvExplorer.imuEnabled ty DvExplorer.IMU_TYPE_GYRO then 6 else 0) in
  DvExplorer.ignoreEvents (DvExplorer.imu s) = false ->
  0 < total ->
  Z.of_nat (List.length bytes) <= total ->
  (DvExplorer.count (DvExplorer.imu (fst (DvExplorer.imuBytes s0 bytes))) = 14
   <-> Z.of_nat (List.length bytes) = total)
  /\ existsb (isLog CAER_LOG_ERROR) (snd (DvExplorer.imuBytes s0 bytes)) = false.
Proof.
  intros s0 ty total Ig T L.
  destruct (DvIMU.imuScaleConfig_counting s data Ig) as (Ig0 & Cn).
  fold s0 in Ig0, Cn. fold ty in Cn.
  assert (En : DvExplorer.imuEnabled ty DvExplorer.IMU_TYPE_ACCEL
               || DvExplorer.imuEnabled ty DvExplorer.IMU_TYPE_TEMP
               || DvExplorer.imuEnabled ty DvExplorer.IMU_TYPE_GYRO = true).
  { unfold total in T.
    destruct (DvExplorer.imuEnabled ty DvExplorer.IMU_TYPE_ACCEL),
             (DvExplorer.imuEnabled ty DvExplorer.IMU_TYPE_TEMP),
             (DvExplorer.imuEnabled ty DvExplorer.IMU_TYPE_GYRO);
      try reflexivity; simpl in T; lia. }
  destruct (Cn En) as (Cn0 & Lf0). fold total in Lf0.
  destruct (DvIMU.imuBytes_counting bytes s0 Ig0 Cn0) as (Ty1 & Cn1 & Lf1 & Er1).
  { fold ty. rewrite Lf0. exact L. }
  split; [| exact Er1].
  rewrite (DvIMU.imuCounting_done _ _ Cn1), Lf1. fold ty. rewrite Lf0. lia.
Qed.

Lemma imu_count_reaches_total_witness :
  DvExplorer.count
    (DvExplorer.imu
       (fst (@DvExplorer.imuBytes Examples.smallDv
               (fst (@DvExplorer.imuScaleConfig Examples.smallDv
                       (fst (DvExplorer.imuStart Examples.dvRunning)) 0xA0))
               [1; 2; 3; 4; 5; 6; 7; 8]))) = 14.
Proof.
  apply (@imu_count_reaches_total Examples.smallDv
           (fst (DvExplorer.imuStart Examples.dvRunning)) 0xA0 [1; 2; 3; 4; 5; 6; 7; 8]).
  - reflexivity.
  - reflexivity.
  - vm_compute. discriminate.
  - reflexivity.
Defined.

(** X13.  A complete IMU sample is assembled from its 14 data bytes, two
    for each field, the high byte first: with the temperature and the
    gyroscope enabled and the position counter at 0, the bytes give the
    three accelerometer axes, the temperature and the three gyroscope
    axes, in this order, each reading negated when its axis is flipped
    (the temperature never is) and scaled by the scale of its sensor; the
    counter ends at 14 and the timestamp of the private sample is left
    alone. *)
Theorem imu_sample_assembled `{DvExplorer.dv_explorer_h} (s : DvExplorer.dv_state)
    (axh axl ayh ayl azh azl th tl gxh gxl gyh gyl gzh gzl : Z) :
  let m := DvExplorer.imu s in
  let m' :=
    DvExplorer.imu
      (fst (DvExplorer.imuBytes s
              [axh; axl; ayh; ayl; azh; azl; th; tl; gxh; gxl; gyh; gyl; gzh; gzl])) in
  let accel flip high low :=
    Accel (DvExplorer.flipped flip (DvExplorer.reading high low))
      (DvExplorer.accelScale m) in
  let gyro flip high low :=
    Gyro (DvExplorer.flipped flip (DvExplorer.reading high low))
      (DvExplorer.gyroScale m) in
  DvExplorer.ignoreEvents m = false ->
  DvExplorer.count m = 0 ->
  DvExplorer.imuEnabled (DvExplorer.type m) DvExplorer.IMU_TYPE_TEMP = true ->
  DvExplorer.imuEnabled (DvExplorer.type m) DvExplorer.IMU_TYPE_GYRO = true ->
  DvExplorer.currentEvent m'
  = {| imuTimestamp := imuTimestamp (DvExplorer.currentEvent m);
       imuAccelX := accel (DvExplorer.flipX m) axh axl;
       imuAccelY := accel (DvExplorer.flipY m) ayh ayl;
       imuAccelZ := accel (DvExplorer.flipZ m) azh azl;
       imuGyroX := gyro (DvExplorer.flipX m) gxh gxl;
       imuGyroY := gyro (DvExplorer.flipY m) gyh gyl;
       imuGyroZ := gyro (DvExplorer.flipZ m) gzh gzl;
       imuTemp := Temp (DvExplorer.reading th tl) |}
  /\ DvExplorer.count m' = 14.
Proof.
  intros m m' accel gyro Ig C0 Et Eg. subst m' accel gyro.
  unfold DvExplorer.imuEnabled in Et, Eg. apply negb_true_iff in Et, Eg.
  destruct (DvExplorer.imu s) as [ig fx fy fz ty c tmp sa sg ev va] eqn:E0. subst m.
  cbn [DvExplorer.ignoreEvents DvExplorer.count DvExplorer.type
       DvExplorer.flipX DvExplorer.flipY DvExplorer.flipZ DvExplorer.accelScale
       DvExplorer.gyroScale DvExplorer.currentEvent] in *.
  subst ig c.
  rewrite (DvIMU.imuBytes_sample s axh axl ayh ayl azh azl th tl gxh gxl gyh gyl
             gzh gzl _ _ _ _ _ _ _ _ _ E0 Et Eg).
  split; reflexivity.
Qed.

Lemma imu_sample_assembled_witness :
  imuTemp
    (DvExplorer.currentEvent
       (DvExplorer.imu
          (fst (@DvExplorer.imuBytes Examples.smallDv
                  (fst (@DvExplorer.imuScaleConfig Examples.smallDv
                          (fst (DvExplorer.imuStart Examples.dvRunning)) 0xE0))
                  [0; 1; 0; 2; 0; 3; 0xFF; 0xFE; 0; 5; 0; 6; 0; 7]))))
  = Temp (-2).
Proof.
  destruct (@imu_sample_assembled Examples.smallDv
              (fst (@DvExplorer.imuScaleConfig Examples.smallDv
                      (fst (DvExplorer.imuStart Examples.dvRunning)) 0xE0))
              0 1 0 2 0 3 0xFF 0xFE 0 5 0 6 0 7) as (E & _).
  - reflexivity.
  - reflexivity.
  - reflexivity.
  - reflexivity.
  - rewrite E. reflexivity.
Defined.

(** X14.  A polarity group word gives one event for each bit set among
    the low 8 bits of its data, the pixel of bit 7 first: when the
    polarity packet has room for 8 events, the events written are the
    pixels at the places [i] of the group whose bit [7 - i] is set, in
    the order of the places, with the polarity of the code of the word
    (OFF for code 2, ON for code 3), stamped with the current timestamp;
    the position advances by their number and nothing is logged. *)
Theorem polarity_group_events (s : DvExplorer.dv_state) (code data : Z)
    (pk : packet caer_polarity_event) :
  let k := DvExplorer.currentPackets s in
  let k' := DvExplorer.currentPackets (fst (DvExplorer.polarityGroup s code data)) in
  let pixels :=
    map (DvExplorer.groupPixel (DvExplorer.dvs s)
           (DvExplorer.current (DvExplorer.timestamps s))
           (negb (Z.land code 0x01 =? 0)))
      (DvExplorer.groupPlaces data) in
  DvExplorer.polarity k = Some pk ->
  DvExplorer.polarityPosition k + 8 <= eventCapacity pk ->
  slotEvents (DvExplorer.polarity k') = events pk ++ pixels
  /\ DvExplorer.polarityPosition k'
     = DvExplorer.polarityPosition k + Z.of_nat (List.length pixels)
  /\ snd (DvExplorer.polarityGroup s code data) = [].
Proof.
  intros k k' pixels Ep Room. subst k k' pixels.
  unfold DvExplorer.polarityGroup, DvExplorer.ensureSpaceForEvents.
  rewrite Ep. apply Z.leb_le in Room. rewrite Room.
  change 128 with (2 ^ (7 - 0)).
  rewrite (DvPixels.pixelGroup_places 8 0) by lia.
  cbn [fst snd DvExplorer.currentPackets DvExplorer.set_currentPackets
       DvExplorer.set_pkPolarity DvExplorer.polarity DvExplorer.polarityPosition
       slotEvents events].
  unfold DvExplorer.groupPlaces. cbn [seq map Z.of_nat Z.add Pos.of_succ_nat Pos.succ].
  rewrite length_map. auto.
Qed.

Lemma polarity_group_events_witness :
  slotEvents
    (DvExplorer.polarity
       (DvExplorer.currentPackets
          (fst (DvExplorer.polarityGroup Examples.dvRunning 3 0x81))))
  = [DvExplorer.groupPixel (DvExplorer.dvs Examples.dvRunning) 100 true 0;
     DvExplorer.groupPixel (DvExplorer.dvs Examples.dvRunning) 100 true 7].
Proof.
  destruct (polarity_group_events Examples.dvRunning 3 0x81
              {| eventCapacity := 8; eventTSOverflow := 0; eventNumber := 0;
                 events := [] |})
    as (E & _).
  - reflexivity.
  - simpl. lia.
  - rewrite E. reflexivity.
Defined.

(** X15.  A polarity packet that is empty at a big wrap outlives it with
    the overflow epoch it was allocated with: the forced commit moves only
    the packets that hold events, so that after the token the polarity
    packet in progress is the one from before, with its epoch, while the
    overflow epoch of the timestamps is one more; the polarity events that
    follow are stamped in the new epoch and written to this packet.  With
    a positive interval the commit ends and the loop goes on. *)
Theorem empty_packet_keeps_epoch_over_big_wrap `{edvs_h}
    (s : edvs_state) (yByte xByte ts1Byte ts2Byte : Z)
    (p : packet caer_polarity_event) :
  let s' := state (process s yByte xByte ts1Byte ts2Byte) in
  consistent s -> ready s ->
  dvsTSReset s = false -> bigWrapOf s ts1Byte ts2Byte = true ->
  currentPolarityPacket s = Some p -> currentPolarityPacketPosition s = 0 ->
  0 <= wrapOverflow (timestamps s) < INT32_MAX ->
  0 < I32T (maxPacketContainerInterval s) ->
  INT64_MIN <= currentPacketContainerCommitTimestamp s ->
  ends (process s yByte xByte ts1Byte ts2Byte) = Continue
  /\ currentPolarityPacket s' = Some p
  /\ currentPolarityPacketPosition s' = 0
  /\ wrapOverflow (timestamps s') = wrapOverflow (timestamps s) + 1
  /\ current (timestamps s') = 0.
Proof.
  intros s' C R Rs W Ep P0 O I Dl. subst s'.
  pose proof (decode_big_wrap s yByte xByte ts1Byte ts2Byte Rs W) as D.
  destruct (decode_consistent _ _ _ _ _ _ _ _ _ D R C) as (R1 & C1 & _).
  destruct (process_spec _ _ _ _ _ _ _ _ _ D) as (Ps & _ & Pe).
  rewrite Pe, Ps.
  match type of D with _ = (?a, _, _, _) => set (s1 := a) in * end.
  assert (Due : commitDue s1 false true = true) by reflexivity.
  assert (T1 : wrapOverflow (timestamps s1) = wrapOverflow (timestamps s) + 1
               /\ current (timestamps s1) = 0).
  { unfold s1. cbn [set_special set_timestamps timestamps wrapOverflow current].
    unfold INT32_MAX in O. rewrite I32T_small by lia. split; reflexivity. }
  destruct T1 as (T1 & T2).
  destruct (rearmed_total s1) as (k & _ & Rk & _).
  { exact I. }
  { unfold clockInRange, INT32_MAX in *. rewrite T1, T2. lia. }
  { exact Dl. }
  destruct (commit_due_outs s1 false true _ C1 R1 Due Rk) as (_ & E & _).
  destruct (EdvsSteps.commit_afterCommit s1 false true _ C1 R1 Due Rk)
    as ((Kt & _) & _ & Pp & _ & Kp & _).
  split; [exact E |].
  rewrite Kp, Kt, T1, T2. unfold s1.
  cbn [currentPolarityPacketPosition currentPolarityPacket set_special
       set_timestamps].
  rewrite P0, Ep. cbn. auto.
Qed.

Lemma empty_packet_keeps_epoch_over_big_wrap_witness :
  ends (@process Examples.smallEdvs Examples.edvsBeforeBigWrap 0x85 0x03 0x00 0x05)
  = Continue
  /\ option_map eventTSOverflow
       (currentPolarityPacket
          (state (@process Examples.smallEdvs Examples.edvsBeforeBigWrap
                    0x85 0x03 0x00 0x05)))
     = Some 0
  /\ wrapOverflow
       (timestamps
          (state (@process Examples.smallEdvs Examples.edvsBeforeBigWrap
                    0x85 0x03 0x00 0x05)))
     = 1.
Proof.
  destruct (@empty_packet_keeps_epoch_over_big_wrap Examples.smallEdvs
              Examples.edvsBeforeBigWrap 0x85 0x03 0x00 0x05
              {| eventCapacity := 4; eventTSOverflow := 0; eventNumber := 0;
                 events := [] |})
    as (En & E & _ & O & _).
  - unfold consistent. simpl. repeat split. right. reflexivity.
  - unfold ready. simpl. repeat split; discriminate.
  - reflexivity.
  - reflexivity.
  - reflexivity.
  - reflexivity.
  - unfold INT32_MAX. simpl. lia.
  - reflexivity.
  - unfold INT64_MIN. simpl. lia.
  - rewrite En, E, O. repeat split; reflexivity.
Defined.

(** X16.  The DV-Explorer translator does not depend on how the stream
    is cut into buffers at word boundaries: when a buffer of even size
    was decoded to its end (no allocation failed and no commit hung),
    decoding the next buffer from the state it left gives the same final
    state, hands over the same containers in the same order and ends in
    the same way as decoding the two buffers as one; when the second
    buffer is of even size too, everything logged and handed over is the
    same, in the same order. *)
Theorem dv_buffers_compose `{DvExplorer.dv_explorer_h} `{DvExplorer.timestamps_h}
    (s : DvExplorer.dv_state) (first second : list Z) :
  let r1 := DvExplorer.dvExplorerEventTranslator s first in
  let r2 := DvExplorer.dvExplorerEventTranslator (DvExplorer.state r1) second in
  let r := DvExplorer.dvExplorerEventTranslator s (first ++ second) in
  DvExplorer.consistent s -> DvExplorer.dataTransfersRun s = true ->
  Nat.even (List.length first) = true ->
  DvExplorer.ends r1 = Continue ->
  DvExplorer.state r = DvExplorer.state r2
  /\ handed (DvExplorer.outs r)
     = handed (DvExplorer.outs r1) ++ handed (DvExplorer.outs r2)
  /\ DvExplorer.ends r = DvExplorer.ends r2
  /\ (Nat.even (List.length second) = true ->
      DvExplorer.outs r = DvExplorer.outs r1 ++ DvExplorer.outs r2).
Proof.
  intros r1 r2 r C R E En.
  exact (DvBuffers.translator_app s first second C R E En).
Qed.

Lemma dv_buffers_compose_witness :
  let first := [0x05; 0x00; 0x12; 0x50; 0x34; 0x50; 0x01; 0x00] in
  let second := [0x56; 0x50; 0x07; 0x00] in
  let r1 := @DvExplorer.dvExplorerEventTranslator Examples.smallDv
              DvExplorer.specTimestamps Examples.dvRunning first in
  DvExplorer.state
    (@DvExplorer.dvExplorerEventTranslator Examples.smallDv DvExplorer.specTimestamps
       Examples.dvRunning Examples.resetMidSample)
  = DvExplorer.state
      (@DvExplorer.dvExplorerEventTranslator Examples.smallDv DvExplorer.specTimestamps
         (DvExplorer.state r1) second).
Proof.
  intros first second r1.
  assert (C : DvExplorer.consistent Examples.dvRunning).
  { unfold DvExplorer.consistent. simpl. repeat split. right. reflexivity. }
  assert (R : DvExplorer.dataTransfersRun Examples.dvRunning = true) by reflexivity.
  assert (E : Nat.even (List.length first) = true) by reflexivity.
  assert (En : DvExplorer.ends r1 = Continue) by (vm_compute; reflexivity).
  exact (proj1 (@dv_buffers_compose Examples.smallDv DvExplorer.specTimestamps
                  Examples.dvRunning first second C R E En)).
Defined.

(** X17.  The eDVS translator does not depend on how the stream is cut
    into buffers between tokens: for a first buffer made of whole tokens
    and of stray bytes (bytes without the high bit where a token should
    start), decoding the next buffer from the state the first one left
    gives the same final state, the same logs and containers in the same
    order and the same way of ending as decoding the two as one buffer,
    when the first buffer was decoded to its end; when the decoding of
    the first buffer returned early or hung, the decoding of the two as
    one stops there as well, with the same result. *)
Theorem edvs_buffers_compose `{edvs_h} (s : edvs_state)
    (pieces : list (list Z)) (rest : list Z) :
  let r1 := edvsEventTranslator s (List.concat pieces) in
  let r2 := edvsEventTranslator (state r1) rest in
  let r := edvsEventTranslator s (List.concat pieces ++ rest) in
  serialThreadRun s = true ->
  Forall (fun t => token t \/ stray t) pieces ->
  (ends r1 = Continue ->
   state r = state r2 /\ outs r = outs r1 ++ outs r2 /\ ends r = ends r2)
  /\ (ends r1 <> Continue -> r = r1).
Proof.
  intros r1 r2 r R F. subst r r2 r1.
  rewrite (EdvsBuffers.translator_pieces s pieces rest R F).
  split.
  - intros En. rewrite state_andThen, outs_andThen, ends_andThen, En. auto.
  - intros En. unfold andThen.
    destruct (ends (edvsEventTranslator s (List.concat pieces)));
      [contradiction En |..]; reflexivity.
Qed.

Lemma edvs_buffers_compose_witness :
  state (@edvsEventTranslator Examples.smallEdvs Examples.edvsRunning
           ([0x05; 0x85; 0x03; 0x00; 0x6E] ++ [0x86; 0x84; 0x00; 0x78; 0x87]))
  = state (@edvsEventTranslator Examples.smallEdvs
             (state (@edvsEventTranslator Examples.smallEdvs Examples.edvsRunning
                       [0x05; 0x85; 0x03; 0x00; 0x6E]))
             [0x86; 0x84; 0x00; 0x78; 0x87]).
Proof.
  assert (R : serialThreadRun Examples.edvsRunning = true) by reflexivity.
  assert (F : Forall (fun t => token t \/ stray t)
                [[0x05]; [0x85; 0x03; 0x00; 0x6E]]).
  { constructor; [right; exists 0x05; split; [reflexivity | discriminate] |].
    constructor; [left | constructor].
    exists 0x85, 0x03, 0x00, 0x6E. split; reflexivity. }
  assert (En : ends (@edvsEventTranslator Examples.smallEdvs Examples.edvsRunning
                       (List.concat [[0x05]; [0x85; 0x03; 0x00; 0x6E]])) = Continue)
    by (vm_compute; reflexivity).
  exact (proj1 (proj1 (@edvs_buffers_compose Examples.smallEdvs Examples.edvsRunning
                         [[0x05]; [0x85; 0x03; 0x00; 0x6E]]
                         [0x86; 0x84; 0x00; 0x78; 0x87] R F) En)).
Defined.

(** X18.  A host parameter that edvsConfigSet stores is read back by
    edvsConfigGet, and no other address reads differently after it: for
    the serial read size and the two commit thresholds the value set
    (a uint32_t) is the value read; the log level is stored as a uint8_t,
    so that the value read is the value set modulo 256.  The call
    returns true and writes nothing to the device. *)
Theorem host_parameter_read_back `{EdvsDevice.edvs_config_h}
    (d : EdvsDevice.edvs_device) (modAddr paramAddr param : Z) :
  let r := EdvsDevice.edvsConfigSet d modAddr paramAddr param in
  EdvsDevice.labelsDistinct ->
  EdvsDevice.hostParameter modAddr paramAddr ->
  0 <= param < 2 ^ 32 ->
  snd r = true
  /\ snd (fst r) = []
  /\ EdvsDevice.edvsConfigGet (fst (fst r)) modAddr paramAddr
     = Some (if modAddr =? EdvsDevice.CAER_HOST_CONFIG_LOG
             then U8T param else param)
  /\ forall m p,
       (m, p) <> (modAddr, paramAddr) ->
       EdvsDevice.edvsConfigGet (fst (fst r)) m p = EdvsDevice.edvsConfigGet d m p.
Proof.
  intros r L Hp R. exact (EdvsDeviceFacts.host_set_get d modAddr paramAddr param L Hp R).
Qed.

Lemma host_parameter_read_back_witness :
  EdvsDevice.edvsConfigGet
    (fst (fst (EdvsDevice.edvsConfigSet Examples.edvsOpened (-4) 0 261))) (-4) 0
  = Some 5.
Proof.
  assert (L : @EdvsDevice.labelsDistinct Examples.smallConfig).
  { unfold EdvsDevice.labelsDistinct. repeat split;
      repeat (constructor; [cbn; lia |]); constructor. }
  assert (Hp : @EdvsDevice.hostParameter Examples.smallConfig (-4) 0).
  { right. right. split; reflexivity. }
  assert (R : 0 <= 261 < 2 ^ 32) by lia.
  destruct (@host_parameter_read_back Examples.smallConfig Examples.edvsOpened (-4) 0 261 L Hp R)
    as (_ & _ & G & _).
  exact G.
Defined.

(** X19.  edvsConfigSet and edvsConfigGet refuse an address they do not
    know: for a module other than the data exchange (which has its own
    parameters) and a parameter that is not among the case labels of the
    module, which are none for an unknown module, both return false;
    edvsConfigSet leaves the state as it was and writes nothing to the
    device. *)
Theorem unknown_address_refused `{EdvsDevice.edvs_config_h}
    (d : EdvsDevice.edvs_device) (modAddr paramAddr param : Z) :
  modAddr <> EdvsDevice.CAER_HOST_CONFIG_DATAEXCHANGE ->
  ~ In paramAddr (EdvsDevice.parameters modAddr) ->
  EdvsDevice.edvsConfigSet d modAddr paramAddr param = (d, [], false)
  /\ EdvsDevice.edvsConfigGet d modAddr paramAddr = None.
Proof.
  intros Nx Np. exact (EdvsDeviceFacts.unknown_address d modAddr paramAddr param Nx Np).
Qed.

Lemma unknown_address_refused_witness :
  EdvsDevice.edvsConfigSet Examples.edvsOpened (-3) 2 100 = (Examples.edvsOpened, [], false)
  /\ EdvsDevice.edvsConfigGet Examples.edvsOpened 7 0 = None.
Proof.
  assert (N1 : -3 <> @EdvsDevice.CAER_HOST_CONFIG_DATAEXCHANGE Examples.smallConfig)
    by (cbn; lia).
  assert (P1 : ~ In 2 (@EdvsDevice.parameters Examples.smallConfig (-3)))
    by (cbn; lia).
  assert (N2 : 7 <> @EdvsDevice.CAER_HOST_CONFIG_DATAEXCHANGE Examples.smallConfig)
    by (cbn; lia).
  assert (P2 : ~ In 0 (@EdvsDevice.parameters Examples.smallConfig 7))
    by (cbn; tauto).
  split.
  - exact (proj1 (@unknown_address_refused Examples.smallConfig Examples.edvsOpened (-3) 2 100 N1 P1)).
  - exact (proj2 (@unknown_address_refused Examples.smallConfig Examples.edvsOpened 7 0 0 N2 P2)).
Defined.

(** X20.  Setting the run parameter of the DVS returns true exactly
    when the device is left in the state asked for.  When the DVS is
    already in that state nothing is written; otherwise the one command
    E+ or E- is written, and the stored state changes only when the write
    succeeded.  A call that returned true, repeated, writes nothing and
    changes nothing. *)
Theorem dvs_run_reaches_requested_state `{EdvsDevice.edvs_config_h}
    (d : EdvsDevice.edvs_device) (param : Z) :
  let r := EdvsDevice.edvsConfigSet d EdvsDevice.EDVS_CONFIG_DVS
             EdvsDevice.EDVS_CONFIG_DVS_RUN param in
  let wanted := negb (param =? 0) in
  EdvsDevice.labelsDistinct ->
  (snd r = true <-> EdvsDevice.dvsRunning (fst (fst r)) = wanted)
  /\ snd (fst r)
     = (if Bool.eqb (EdvsDevice.dvsRunning d) wanted then []
        else [SerialWrite (if wanted then EdvsDevice.cmdStartDVS
                           else EdvsDevice.cmdStopDVS)])
  /\ EdvsDevice.decoder (fst (fst r)) = EdvsDevice.decoder d
  /\ EdvsDevice.biases (fst (fst r)) = EdvsDevice.biases d
  /\ (snd r = true ->
      EdvsDevice.edvsConfigSet (fst (fst r)) EdvsDevice.EDVS_CONFIG_DVS
        EdvsDevice.EDVS_CONFIG_DVS_RUN param
      = (fst (fst r), [], true)).
Proof.
  intros r wanted L. exact (EdvsDeviceFacts.dvs_run d param L).
Qed.

Lemma dvs_run_reaches_requested_state_witness :
  snd (fst (EdvsDevice.edvsConfigSet Examples.edvsOpened 0 0 1))
  = [SerialWrite EdvsDevice.cmdStartDVS].
Proof.
  assert (L : @EdvsDevice.labelsDistinct Examples.smallConfig).
  { unfold EdvsDevice.labelsDistinct. repeat split;
      repeat (constructor; [cbn; lia |]); constructor. }
  destruct (@dvs_run_reaches_requested_state Examples.smallConfig Examples.edvsOpened 1 L)
    as (_ & O & _).
  exact O.
Defined.

(** X21.  A timestamp reset asked for through edvsConfigSet is an
    impulse that the translator executes once: the call (with a parameter
    other than 0) returns true, writes nothing and only raises the flag,
    which edvsConfigGet never shows (it reads 0); asking again before the
    next token changes nothing more, and a parameter of 0 changes
    nothing at all, so that a request cannot be withdrawn.  The next
    token, whatever its bytes, is then used up by the reset: the reset
    command is written to the device first, and the token leaves the
    timestamps at zero and the flag cleared. *)
Theorem timestamp_reset_request_executed_once `{edvs_h} `{EdvsDevice.edvs_config_h}
    (d : EdvsDevice.edvs_device) (param yByte xByte ts1Byte ts2Byte : Z) :
  let set p d := EdvsDevice.edvsConfigSet d EdvsDevice.EDVS_CONFIG_DVS
                   EdvsDevice.EDVS_CONFIG_DVS_TIMESTAMP_RESET p in
  let d' := fst (fst (set param d)) in
  let token := process (EdvsDevice.decoder d') yByte xByte ts1Byte ts2Byte in
  EdvsDevice.labelsDistinct -> param <> 0 ->
  snd (set param d) = true
  /\ snd (fst (set param d)) = []
  /\ EdvsDevice.edvsConfigGet d' EdvsDevice.EDVS_CONFIG_DVS
       EdvsDevice.EDVS_CONFIG_DVS_TIMESTAMP_RESET = Some 0
  /\ set param d' = (d', [], true)
  /\ set 0 d' = (d', [], true)
  /\ (exists o, outs token = SerialWrite cmdTSReset :: o)
  /\ timestamps (state token) = clockAtZero 0
  /\ dvsTSReset (state token) = false.
Proof.
  intros set d' token L Np. subst set d' token.
  destruct (EdvsDeviceFacts.reset_request d param L) as (E & G).
  apply Z.eqb_neq in Np. rewrite Np in E. cbv beta. rewrite E. cbn [fst snd].
  split; [reflexivity |]. split; [reflexivity |]. split; [apply G |].
  split.
  { destruct (EdvsDeviceFacts.reset_request
                (EdvsDevice.set_decoder
                   (set_dvsTSReset true (EdvsDevice.decoder d)) d) param L)
      as (E' & _).
    rewrite Np in E'. rewrite E'. destruct d. reflexivity. }
  split.
  { destruct (EdvsDeviceFacts.reset_request
                (EdvsDevice.set_decoder
                   (set_dvsTSReset true (EdvsDevice.decoder d)) d) 0 L)
      as (E' & _).
    exact E'. }
  cbn [EdvsDevice.decoder EdvsDevice.set_decoder].
  destruct (EdvsDeviceFacts.requested_reset_decoded
              (set_dvsTSReset true (EdvsDevice.decoder d))
              yByte xByte ts1Byte ts2Byte eq_refl)
    as (s1 & D & _ & _ & _ & _ & F & T).
  destruct (process_spec _ _ _ _ _ _ _ _ _ D) as (_ & O & _).
  split; [| split; [exact T | exact F]].
  rewrite O. cbn [app]. eexists. reflexivity.
Qed.

Lemma timestamp_reset_request_executed_once_witness :
  timestamps
    (state
       (@process Examples.smallEdvs
          (EdvsDevice.decoder
             (fst (fst (EdvsDevice.edvsConfigSet Examples.edvsOpened 0 1 1))))
          0x85 0x03 0x00 0x6E))
  = clockAtZero 0.
Proof.
  assert (L : @EdvsDevice.labelsDistinct Examples.smallConfig).
  { unfold EdvsDevice.labelsDistinct. repeat split;
      repeat (constructor; [cbn; lia |]); constructor. }
  assert (Np : 1 <> 0) by lia.
  destruct (@timestamp_reset_request_executed_once Examples.smallEdvs Examples.smallConfig
              Examples.edvsOpened 1 0x85 0x03 0x00 0x6E L Np)
    as (_ & _ & _ & _ & _ & _ & T & _).
  exact T.
Defined.

(** X22.  edvsSendBiases writes the bias commands in the order of the
    indices (every bias for the ID -1, the one given otherwise) and the
    flush command last, stops at the first write that fails, and returns
    true exactly when every write succeeded: what is written is the list
    of these commands up to and including the first one whose write
    fails, so that the flush command is never written after a failed
    bias command.  Nothing but the serial port is touched. *)
Theorem send_biases_stops_at_first_failure `{EdvsDevice.edvs_config_h}
    (d : EdvsDevice.edvs_device) (biasID : Z) :
  let r := EdvsDevice.edvsSendBiases d biasID in
  let cmds := map (EdvsDevice.biasCommand d) (EdvsDevice.biasIndices biasID)
              ++ [EdvsDevice.cmdFlushBiases] in
  (biasID = -1 /\ 0 <= EdvsDevice.BIAS_NUMBER < 2 ^ 64)
  \/ 0 <= biasID < 2 ^ 64 - 1 ->
  EdvsDevice.sameButWrites d (fst (fst r))
  /\ snd (fst r)
     = map SerialWrite (EdvsDevice.attempted cmds (EdvsDevice.serialWrites d))
  /\ snd r = EdvsDevice.allWritten (List.length cmds) (EdvsDevice.serialWrites d).
Proof.
  intros r cmds Hb. exact (EdvsDeviceFacts.edvsSendBiases_spec d biasID Hb).
Qed.

Lemma send_biases_stops_at_first_failure_witness :
  let d := EdvsDevice.set_serialWrites [true; false] Examples.edvsOpened in
  snd (fst (EdvsDevice.edvsSendBiases d (-1)))
  = [SerialWrite (EdvsDevice.cmdSetBias 0 0); SerialWrite (EdvsDevice.cmdSetBias 1 0)]
  /\ snd (EdvsDevice.edvsSendBiases d (-1)) = false.
Proof.
  intros d.
  assert (Hb : (-1 = -1 /\ 0 <= @EdvsDevice.BIAS_NUMBER Examples.smallConfig < 2 ^ 64)
               \/ 0 <= -1 < 2 ^ 64 - 1).
  { left. cbn. lia. }
  destruct (@send_biases_stops_at_first_failure Examples.smallConfig d (-1) Hb)
    as (_ & O & R).
  split; [exact O | exact R].
Defined.

(** X23.  edvsConfigSet on a bias stores the value before it sends it:
    the bytes of the value replace the stored bias, the other biases
    stay, and the command of this bias and the flush command are written,
    up to the first write that fails.  The call returns true exactly
    when both writes succeeded; when it returns false the new value is
    stored all the same, and edvsConfigGet reads it. *)
Theorem bias_stored_before_sent `{EdvsDevice.edvs_config_h}
    (d : EdvsDevice.edvs_device) (paramAddr param : Z) :
  let r := EdvsDevice.edvsConfigSet d EdvsDevice.EDVS_CONFIG_BIAS paramAddr param in
  let stored := EdvsDevice.caerIntegerToByteArray param EdvsDevice.BIAS_LENGTH in
  EdvsDevice.labelsDistinct ->
  In paramAddr EdvsDevice.biasParameters -> 0 <= paramAddr < 2 ^ 64 - 1 ->
  EdvsDevice.biases (fst (fst r)) paramAddr = stored
  /\ (forall i, i <> paramAddr ->
      EdvsDevice.biases (fst (fst r)) i = EdvsDevice.biases d i)
  /\ snd (fst r)
     = map SerialWrite
         (EdvsDevice.attempted
            [EdvsDevice.cmdSetBias paramAddr
               (EdvsDevice.caerByteArrayToInteger stored EdvsDevice.BIAS_LENGTH);
             EdvsDevice.cmdFlushBiases] (EdvsDevice.serialWrites d))
  /\ snd r = EdvsDevice.allWritten 2 (EdvsDevice.serialWrites d)
  /\ EdvsDevice.edvsConfigGet (fst (fst r)) EdvsDevice.EDVS_CONFIG_BIAS paramAddr
     = Some (EdvsDevice.caerByteArrayToInteger stored EdvsDevice.BIAS_LENGTH).
Proof.
  intros r stored L I R. exact (EdvsDeviceFacts.bias_set d paramAddr param L I R).
Qed.

Lemma bias_stored_before_sent_witness :
  let d := EdvsDevice.set_serialWrites [false] Examples.edvsOpened in
  snd (EdvsDevice.edvsConfigSet d 1 4 132) = false
  /\ EdvsDevice.edvsConfigGet (fst (fst (EdvsDevice.edvsConfigSet d 1 4 132))) 1 4
     = Some 132.
Proof.
  intros d.
  assert (L : @EdvsDevice.labelsDistinct Examples.smallConfig).
  { unfold EdvsDevice.labelsDistinct. repeat split;
      repeat (constructor; [cbn; lia |]); constructor. }
  assert (I : In 4 (@EdvsDevice.biasParameters Examples.smallConfig)) by (cbn; tauto).
  assert (R : 0 <= 4 < 2 ^ 64 - 1) by lia.
  destruct (@bias_stored_before_sent Examples.smallConfig d 4 132 L I R)
    as (_ & _ & _ & Rs & G).
  split; [exact Rs | exact G].
Defined.

(** X24.  edvsSendDefaultConfig stores the twelve default biases and
    then sends every bias: each default is stored under its address and
    read back by edvsConfigGet whatever the outcome of the writes; the
    commands written are those of the biases of the indices 0 to
    BIAS_NUMBER - 1, with the values stored now, and the flush command,
    up to the first write that fails, and the call returns true exactly
    when all of the BIAS_NUMBER + 1 writes succeeded. *)
Theorem default_biases_stored_and_sent `{EdvsDevice.edvs_config_h}
    (d : EdvsDevice.edvs_device) :
  let r := EdvsDevice.edvsSendDefaultConfig d in
  let d' := fst (fst r) in
  EdvsDevice.labelsDistinct -> 0 <= EdvsDevice.BIAS_NUMBER < 2 ^ 64 ->
  (forall label v,
     In (label, v) EdvsDevice.defaultBiases ->
     EdvsDevice.biases d' label
     = EdvsDevice.caerIntegerToByteArray v EdvsDevice.BIAS_LENGTH
     /\ EdvsDevice.edvsConfigGet d' EdvsDevice.EDVS_CONFIG_BIAS label
        = Some (EdvsDevice.caerByteArrayToInteger
                  (EdvsDevice.caerIntegerToByteArray v EdvsDevice.BIAS_LENGTH)
                  EdvsDevice.BIAS_LENGTH))
  /\ snd (fst r)
     = map SerialWrite
         (EdvsDevice.attempted
            (map (EdvsDevice.biasCommand d') (EdvsDevice.biasIndices (-1))
             ++ [EdvsDevice.cmdFlushBiases]) (EdvsDevice.serialWrites d))
  /\ snd r
     = EdvsDevice.allWritten (Z.to_nat EdvsDevice.BIAS_NUMBER + 1)
         (EdvsDevice.serialWrites d).
Proof.
  intros r d' L Hn. exact (EdvsDeviceFacts.defaultConfig_spec d L Hn).
Qed.

Lemma default_biases_stored_and_sent_witness :
  EdvsDevice.edvsConfigGet
    (fst (fst (EdvsDevice.edvsSendDefaultConfig Examples.edvsOpened))) 1 6 = Some 969
  /\ snd (EdvsDevice.edvsSendDefaultConfig Examples.edvsOpened) = true.
Proof.
  assert (L : @EdvsDevice.labelsDistinct Examples.smallConfig).
  { unfold EdvsDevice.labelsDistinct. repeat split;
      repeat (constructor; [cbn; lia |]); constructor. }
  assert (Hn : 0 <= @EdvsDevice.BIAS_NUMBER Examples.smallConfig < 2 ^ 64) by (cbn; lia).
  destruct (@default_biases_stored_and_sent Examples.smallConfig Examples.edvsOpened L Hn)
    as (S & _ & R).
  split; [| exact R].
  assert (I : In (6, 969) (@EdvsDevice.defaultBiases Examples.smallConfig))
    by (cbn; tauto).
  exact (proj2 (S 6 969 I)).
Defined.

(** X25.  edvsDataStart starts the stream or leaves nothing behind.  It
    returns true exactly when the buffer of the data exchange, the
    container, the two packets and the serial thread were all obtained;
    the state then has the thread running, an empty container and two
    empty packets of the default sizes with overflow epoch 0.  When it
    returns false the run flag is as before and, when no container and no
    packet was allocated before the call, none is after it: what the call
    allocated was freed.  In both cases the commit deadline is left
    unset (-1), the timestamps, the pending reset, the thresholds and the
    packet positions are as before, and nothing is handed to the data
    exchange. *)
Theorem data_start_all_or_nothing `{edvs_h} `{EdvsDevice.edvs_config_h}
    (d : EdvsDevice.edvs_device) :
  let r := EdvsDevice.edvsDataStart d in
  let s := EdvsDevice.decoder d in
  let s' := EdvsDevice.decoder (fst (fst r)) in
  EdvsDevice.labelsDistinct ->
  snd r
  = snd (EdvsDevice.dataExchangeBufferInit
           (EdvsDevice.dataExchangeSetNotify (EdvsDevice.dataExchange d)))
    && EdvsDevice.allWritten 3 (allocations s)
    && fst (request (EdvsDevice.threads d))
  /\ (snd r = true ->
      serialThreadRun s' = true
      /\ currentPacketContainer s' = Some emptyContainer
      /\ currentPolarityPacket s'
         = Some {| eventCapacity := EDVS_POLARITY_DEFAULT_SIZE;
                   eventTSOverflow := 0; eventNumber := 0;
                   events := [] |}
      /\ currentSpecialPacket s'
         = Some {| eventCapacity := EDVS_SPECIAL_DEFAULT_SIZE;
                   eventTSOverflow := 0; eventNumber := 0;
                   events := [] |})
  /\ (snd r = false ->
      serialThreadRun s' = serialThreadRun s
      /\ (EdvsDevice.unallocated s -> EdvsDevice.unallocated s'))
  /\ currentPacketContainerCommitTimestamp s' = -1
  /\ timestamps s' = timestamps s
  /\ dvsTSReset s' = dvsTSReset s
  /\ maxPacketContainerPacketSize s' = maxPacketContainerPacketSize s
  /\ maxPacketContainerInterval s' = maxPacketContainerInterval s
  /\ currentPolarityPacketPosition s' = currentPolarityPacketPosition s
  /\ currentSpecialPacketPosition s' = currentSpecialPacketPosition s
  /\ handed (snd (fst r)) = [].
Proof.
  intros r s s' L. exact (EdvsDeviceFacts.dataStart_spec d L).
Qed.

Lemma data_start_all_or_nothing_witness :
  let d := EdvsDevice.set_decoder
             (set_allocations [true; true; false]
                (EdvsDevice.decoder Examples.edvsOpened)) Examples.edvsOpened in
  snd (@EdvsDevice.edvsDataStart Examples.smallEdvs Examples.smallConfig d) = false
  /\ EdvsDevice.unallocated
       (EdvsDevice.decoder
          (fst (fst (@EdvsDevice.edvsDataStart Examples.smallEdvs Examples.smallConfig d)))).
Proof.
  intros d.
  assert (L : @EdvsDevice.labelsDistinct Examples.smallConfig).
  { unfold EdvsDevice.labelsDistinct. repeat split;
      repeat (constructor; [cbn; lia |]); constructor. }
  destruct (@data_start_all_or_nothing Examples.smallEdvs Examples.smallConfig d L)
    as (R & _ & F & _).
  split; [exact R |].
  apply (proj2 (F R)). unfold EdvsDevice.unallocated. repeat split.
Defined.

(** X26.  edvsDataStop leaves a clean, stopped decoder: it returns
    true; the run flag is cleared, so that the translator returns at once
    on every buffer; no container and no packet is left allocated and
    both packet positions are 0, whatever was in progress; nothing is
    handed to the data exchange.  The timestamps, a pending timestamp
    reset and the thresholds are not touched. *)
Theorem data_stop_leaves_clean_state `{edvs_h} `{EdvsDevice.edvs_config_h}
    (d : EdvsDevice.edvs_device) (buffer : list Z) :
  let r := EdvsDevice.edvsDataStop d in
  let s := EdvsDevice.decoder d in
  let s' := EdvsDevice.decoder (fst (fst r)) in
  EdvsDevice.labelsDistinct ->
  snd r = true
  /\ serialThreadRun s' = false
  /\ edvsEventTranslator s' buffer = returnWith s' []
  /\ EdvsDevice.unallocated s'
  /\ currentPolarityPacketPosition s' = 0
  /\ currentSpecialPacketPosition s' = 0
  /\ consistent s'
  /\ handed (snd (fst r)) = []
  /\ timestamps s' = timestamps s
  /\ dvsTSReset s' = dvsTSReset s
  /\ maxPacketContainerPacketSize s' = maxPacketContainerPacketSize s
  /\ maxPacketContainerInterval s' = maxPacketContainerInterval s.
Proof.
  intros r s s' L. subst r s s'.
  destruct (EdvsDeviceFacts.dataStop_spec d L)
    as (Ok & Rn & (U1 & U2 & U3) & P0 & S0 & Ts & Rs & Ms & Mi & _ & Hh).
  split; [exact Ok |]. split; [exact Rn |].
  split; [apply EdvsDeviceFacts.stopped_translator; exact Rn |].
  split; [repeat split; assumption |].
  split; [exact P0 |]. split; [exact S0 |].
  split.
  { unfold consistent. rewrite U1, U2, U3, P0, S0. repeat split. left. reflexivity. }
  repeat split; assumption.
Qed.

Lemma data_stop_leaves_clean_state_witness :
  let d := EdvsDevice.set_decoder Examples.edvsAtDeadline Examples.edvsOpened in
  currentPolarityPacketPosition
    (EdvsDevice.decoder
       (fst (fst (@EdvsDevice.edvsDataStop Examples.smallConfig d)))) = 0
  /\ currentPolarityPacket
       (EdvsDevice.decoder
          (fst (fst (@EdvsDevice.edvsDataStop Examples.smallConfig d)))) = None.
Proof.
  intros d.
  assert (L : @EdvsDevice.labelsDistinct Examples.smallConfig).
  { unfold EdvsDevice.labelsDistinct. repeat split;
      repeat (constructor; [cbn; lia |]); constructor. }
  destruct (@data_stop_leaves_clean_state Examples.smallEdvs Examples.smallConfig d [] L)
    as (_ & _ & _ & (_ & U & _) & P & _).
  split; [exact P | exact U].
Defined.

(** X27.  A stream that is stopped and started again continues the
    clock of the stopped stream with fresh packets: when edvsDataStart
    after edvsDataStop returns true, the decoder is ready and consistent
    (container and packets allocated, positions matching the empty
    packets) and its commit deadline is unset, but its timestamps,
    overflow epoch included, are those the stopped stream ended with,
    while the two packets carry overflow epoch 0. *)
Theorem restart_continues_clock `{edvs_h} `{EdvsDevice.edvs_config_h}
    (d : EdvsDevice.edvs_device) :
  let d1 := fst (fst (EdvsDevice.edvsDataStop d)) in
  let r := EdvsDevice.edvsDataStart d1 in
  let s' := EdvsDevice.decoder (fst (fst r)) in
  EdvsDevice.labelsDistinct ->
  snd r = true ->
  consistent s' /\ ready s'
  /\ serialThreadRun s' = true
  /\ timestamps s' = timestamps (EdvsDevice.decoder d)
  /\ currentPacketContainerCommitTimestamp s' = -1
  /\ currentPolarityPacket s'
     = Some {| eventCapacity := EDVS_POLARITY_DEFAULT_SIZE;
               eventTSOverflow := 0; eventNumber := 0;
               events := [] |}
  /\ currentSpecialPacket s'
     = Some {| eventCapacity := EDVS_SPECIAL_DEFAULT_SIZE;
               eventTSOverflow := 0; eventNumber := 0;
               events := [] |}.
Proof.
  intros d1 r s' L Ok. exact (EdvsDeviceFacts.restart_spec d L Ok).
Qed.

Lemma restart_continues_clock_witness :
  let d := EdvsDevice.set_decoder
             (set_timestamps (clockAtZero 3) Examples.edvsAtDeadline) Examples.edvsOpened in
  let s' := EdvsDevice.decoder
              (fst (fst (@EdvsDevice.edvsDataStart Examples.smallEdvs Examples.smallConfig
                           (fst (fst (@EdvsDevice.edvsDataStop Examples.smallConfig d)))))) in
  wrapOverflow (timestamps s') = 3
  /\ option_map eventTSOverflow (currentPolarityPacket s') = Some 0.
Proof.
  intros d s'.
  assert (L : @EdvsDevice.labelsDistinct Examples.smallConfig).
  { unfold EdvsDevice.labelsDistinct. repeat split;
      repeat (constructor; [cbn; lia |]); constructor. }
  assert (Ok : snd (@EdvsDevice.edvsDataStart Examples.smallEdvs Examples.smallConfig
                      (fst (fst (@EdvsDevice.edvsDataStop Examples.smallConfig d))))
               = true) by reflexivity.
  destruct (@restart_continues_clock Examples.smallEdvs Examples.smallConfig d L Ok)
    as (_ & _ & _ & T & _ & P & _).
  subst s'. rewrite T, P. split; reflexivity.
Defined.

(** X28.  The packet size threshold is stored as the uint32_t given and
    read by the translator as an int32_t: edvsConfigSet accepts every
    value, and a value of 0 or of 2^31 and more switches the size trigger
    off, the commit being due then only for a timestamp reset, a big wrap
    or the time trigger. *)
Theorem size_threshold_beyond_int32_is_off `{EdvsDevice.edvs_config_h}
    (d : EdvsDevice.edvs_device) (param : Z) (tsReset tsBigWrap : bool) :
  let r := EdvsDevice.edvsConfigSet d EdvsDevice.CAER_HOST_CONFIG_PACKETS
             EdvsDevice.CAER_HOST_CONFIG_PACKETS_MAX_CONTAINER_PACKET_SIZE param in
  let s' := EdvsDevice.decoder (fst (fst r)) in
  EdvsDevice.labelsDistinct ->
  param = 0 \/ 2 ^ 31 <= param < 2 ^ 32 ->
  snd r = true
  /\ commitDue s' tsReset tsBigWrap
     = tsReset || tsBigWrap || containerTimeCommit s'.
Proof.
  intros r s' L Hp. subst r s'.
  assert (E : EdvsDevice.edvsConfigSet d EdvsDevice.CAER_HOST_CONFIG_PACKETS
                EdvsDevice.CAER_HOST_CONFIG_PACKETS_MAX_CONTAINER_PACKET_SIZE param
              = (EdvsDevice.set_decoder
                   (EdvsDevice.set_maxPacketContainerPacketSize param
                      (EdvsDevice.decoder d)) d, [], true)).
  { destruct (EdvsDeviceFacts.labels_apart L)
      as ((_ & N1 & _) & (N2 & _) & _).
    unfold EdvsDevice.edvsConfigSet.
    destruct (Z.eqb_spec EdvsDevice.CAER_HOST_CONFIG_PACKETS
                EdvsDevice.CAER_HOST_CONFIG_SERIAL); [congruence |].
    destruct (Z.eqb_spec EdvsDevice.CAER_HOST_CONFIG_PACKETS
                EdvsDevice.CAER_HOST_CONFIG_DATAEXCHANGE); [congruence |].
    rewrite !Z.eqb_refl. reflexivity. }
  rewrite E. cbn [fst snd]. split; [reflexivity |].
  apply EdvsDeviceFacts.size_trigger_off.
  cbn [EdvsDevice.decoder EdvsDevice.set_decoder maxPacketContainerPacketSize
       EdvsDevice.set_maxPacketContainerPacketSize].
  destruct Hp as [-> | Hp]; [vm_compute; discriminate |].
  rewrite (EdvsDeviceFacts.I32T_high param Hp). lia.
Qed.

Lemma size_threshold_beyond_int32_is_off_witness :
  let s' := EdvsDevice.decoder
              (fst (fst (EdvsDevice.edvsConfigSet
                           (EdvsDevice.set_decoder Examples.edvsFullPacket Examples.edvsOpened)
                           (-3) 0 4294963200))) in
  commitDue s' false false = false.
Proof.
  intros s'.
  assert (L : @EdvsDevice.labelsDistinct Examples.smallConfig).
  { unfold EdvsDevice.labelsDistinct. repeat split;
      repeat (constructor; [cbn; lia |]); constructor. }
  assert (Hp : 4294963200 = 0 \/ 2 ^ 31 <= 4294963200 < 2 ^ 32) by (right; lia).
  destruct (@size_threshold_beyond_int32_is_off Examples.smallConfig
              (EdvsDevice.set_decoder Examples.edvsFullPacket Examples.edvsOpened)
              4294963200 false false L Hp) as (_ & E).
  subst s'. refine (eq_trans E _). reflexivity.
Defined.

(** X29.  edvsConfigSet accepts a container interval of 0, and with it
    the first commit whose time trigger fires never ends: the call
    returns true, and in every state with this interval whose full
    timestamp is past the commit deadline the commit stays in the loop
    that re-arms the deadline, which adds the interval until the deadline
    is no longer behind. *)
Theorem zero_interval_accepted_then_commit_hangs `{edvs_h} `{EdvsDevice.edvs_config_h}
    (d : EdvsDevice.edvs_device) (s : edvs_state) (tsReset tsBigWrap : bool) :
  let r := EdvsDevice.edvsConfigSet d EdvsDevice.CAER_HOST_CONFIG_PACKETS
             EdvsDevice.CAER_HOST_CONFIG_PACKETS_MAX_CONTAINER_INTERVAL 0 in
  EdvsDevice.labelsDistinct ->
  maxPacketContainerInterval s
  = maxPacketContainerInterval (EdvsDevice.decoder (fst (fst r))) ->
  containerTimeCommit s = true ->
  INT64_MIN <= currentPacketContainerCommitTimestamp s <= INT64_MAX ->
  snd r = true
  /\ maxPacketContainerInterval (EdvsDevice.decoder (fst (fst r))) = 0
  /\ ends (commit s tsReset tsBigWrap) = Diverges.
Proof.
  intros r L Ei T Rg. subst r.
  assert (E : EdvsDevice.edvsConfigSet d EdvsDevice.CAER_HOST_CONFIG_PACKETS
                EdvsDevice.CAER_HOST_CONFIG_PACKETS_MAX_CONTAINER_INTERVAL 0
              = (EdvsDevice.set_decoder
                   (EdvsDevice.set_maxPacketContainerInterval 0
                      (EdvsDevice.decoder d)) d, [], true)).
  { destruct (EdvsDeviceFacts.labels_apart L)
      as ((_ & N1 & _) & (N2 & _) & _ & _ & _ & N3 & _).
    unfold EdvsDevice.edvsConfigSet.
    destruct (Z.eqb_spec EdvsDevice.CAER_HOST_CONFIG_PACKETS
                EdvsDevice.CAER_HOST_CONFIG_SERIAL); [congruence |].
    destruct (Z.eqb_spec EdvsDevice.CAER_HOST_CONFIG_PACKETS
                EdvsDevice.CAER_HOST_CONFIG_DATAEXCHANGE); [congruence |].
    destruct (Z.eqb_spec EdvsDevice.CAER_HOST_CONFIG_PACKETS_MAX_CONTAINER_INTERVAL
                EdvsDevice.CAER_HOST_CONFIG_PACKETS_MAX_CONTAINER_PACKET_SIZE);
      [congruence |].
    rewrite !Z.eqb_refl. reflexivity. }
  rewrite E in *. cbn [fst snd] in *.
  cbn [EdvsDevice.decoder EdvsDevice.set_decoder maxPacketContainerInterval
       EdvsDevice.set_maxPacketContainerInterval] in *.
  split; [reflexivity |]. split; [reflexivity |].
  apply EdvsDeviceFacts.zero_interval_hangs; [rewrite Ei; reflexivity | exact T | exact Rg].
Qed.

Lemma zero_interval_accepted_then_commit_hangs_witness :
  let d' := fst (fst (EdvsDevice.edvsConfigSet
                        (EdvsDevice.set_decoder Examples.edvsPastDeadline Examples.edvsOpened)
                        (-3) 1 0)) in
  ends (commit (EdvsDevice.decoder d') false false) = Diverges.
Proof.
  intros d'.
  assert (L : @EdvsDevice.labelsDistinct Examples.smallConfig).
  { unfold EdvsDevice.labelsDistinct. repeat split;
      repeat (constructor; [cbn; lia |]); constructor. }
  assert (T : containerTimeCommit (EdvsDevice.decoder d') = true) by reflexivity.
  assert (Rg : INT64_MIN
               <= currentPacketContainerCommitTimestamp (EdvsDevice.decoder d')
               <= INT64_MAX) by (vm_compute; split; discriminate).
  exact (proj2 (proj2 (@zero_interval_accepted_then_commit_hangs Examples.smallEdvs
                         Examples.smallConfig
                         (EdvsDevice.set_decoder Examples.edvsPastDeadline Examples.edvsOpened)
                         (EdvsDevice.decoder d') false false L eq_refl T Rg))).
Defined.

(** X30.  What the translators hand over holds events, as far as the
    commit and the headers of the polarity and special packets go.  eDVS:
    from a state whose packets are consistent and whose headers count the
    events written, every container handed over holds a packet with an
    event written to it and reports at least one event in its headers.
    DV-Explorer: every container handed over holds a packet with an event
    written to it, its polarity and special packets report exactly the
    events written to them, and so the container reports an event in one
    of them or holds a sample in its IMU packet, whose header is another
    matter.  On both devices, when a commit is due while the position of
    every packet in progress is zero (and no timestamp reset adds its
    own container), the container is freed and nothing is handed over;
    with a positive interval and the clock in its range the commit
    ends. *)
Theorem containers_handed_over_hold_events `{edvs_h} `{DvExplorer.dv_explorer_h}
    `{DvExplorer.timestamps_h} (s : edvs_state) (d : DvExplorer.dv_state)
    (buffer : list Z) (tsBigWrap : bool) :
  (consistent s ->
   counted (currentPolarityPacket s) -> counted (currentSpecialPacket s) ->
   Forall (fun c => nonEmpty c = true /\ 0 < eventsNumber c)
     (handed (outs (edvsEventTranslator s buffer))))
  /\ (consistent s -> ready s -> commitDue s false tsBigWrap = true ->
      pending s = false ->
      0 < I32T (maxPacketContainerInterval s) -> clockInRange (timestamps s) ->
      INT64_MIN <= currentPacketContainerCommitTimestamp s ->
      outs (commit s false tsBigWrap) = [ContainerFree emptyContainer]
      /\ ends (commit s false tsBigWrap) = Continue)
  /\ (DvExplorer.consistent d ->
      counted (DvExplorer.polarity (DvExplorer.currentPackets d)) ->
      counted (DvExplorer.special (DvExplorer.currentPackets d)) ->
      Forall (fun c => nonEmpty c = true
                       /\ counted (polaritySlot c) /\ counted (specialSlot c)
                       /\ (0 < slotNumber (polaritySlot c) + slotNumber (specialSlot c)
                           \/ slotEvents (imu6Slot c) <> []))
        (handed (DvExplorer.outs (DvExplorer.dvExplorerEventTranslator d buffer))))
  /\ (DvExplorer.consistent d -> DvExplorer.ready d ->
      DvExplorer.commitDue d false tsBigWrap = true ->
      DvExplorer.pending d = false ->
      0 < I32T (DvExplorer.maxPacketContainerInterval (DvExplorer.container d)) ->
      0 <= DvExplorer.wrapOverflow (DvExplorer.timestamps d) <= INT32_MAX ->
      0 <= DvExplorer.current (DvExplorer.timestamps d) <= INT32_MAX ->
      INT64_MIN
      <= DvExplorer.currentPacketContainerCommitTimestamp (DvExplorer.container d) ->
      DvExplorer.outs (DvExplorer.commit d false tsBigWrap)
      = [ContainerFree emptyContainer]
      /\ DvExplorer.ends (DvExplorer.commit d false tsBigWrap) = Continue).
Proof.
  assert (Ne : forall c,
             nonEmpty c = true ->
             slotEvents (polaritySlot c) <> [] \/ slotEvents (specialSlot c) <> []
             \/ slotEvents (imu6Slot c) <> []).
  { intros c. unfold nonEmpty, slotNonEmpty, slotEvents.
    destruct (polaritySlot c) as [[? ? ? [|]] |], (specialSlot c) as [[? ? ? [|]] |],
             (imu6Slot c) as [[? ? ? [|]] |];
      cbn; intros X; try discriminate X;
        try (left; discriminate); try (right; left; discriminate);
          right; right; discriminate. }
  assert (Pos : forall E (p : option (packet E)),
             counted p -> slotEvents p <> [] -> 0 < slotNumber p).
  { intros E p Cn Nn. unfold counted in Cn. rewrite Cn.
    destruct (slotEvents p); [congruence | simpl; lia]. }
  assert (Nn : forall E (p : option (packet E)), counted p -> 0 <= slotNumber p).
  { intros E p Cn. unfold counted in Cn. rewrite Cn. lia. }
  split; [| split; [| split]].
  - intros C Cp Cs.
    pose proof (translator_handed_nonEmpty s buffer C) as F1.
    destruct (EdvsHeaders.edvs_translator_counted s buffer C Cp Cs) as (F2 & _).
    apply Forall_forall. intros c Ic. rewrite Forall_forall in F1, F2.
    specialize (F1 c Ic). destruct (F2 c Ic) as (X1 & X2 & X3).
    split; [exact F1 |]. unfold eventsNumber. rewrite X3. cbn [slotNumber].
    pose proof (Nn _ _ X1). pose proof (Nn _ _ X2).
    destruct (Ne c F1) as [N1 | [N2 | N3]].
    + pose proof (Pos _ _ X1 N1). lia.
    + pose proof (Pos _ _ X2 N2). lia.
    + rewrite X3 in N3. cbn in N3. congruence.
  - intros C R Due P I Cl Dl.
    apply (commit_nothing_pending s tsBigWrap C R Due P I Cl Dl).
  - intros C Cp Cs.
    pose proof (DvFacts.dv_translator_handed_nonEmpty d buffer C) as F1.
    destruct (DvHeaders.dv_translator_counted d buffer C Cp Cs) as (F2 & _).
    apply Forall_forall. intros c Ic. rewrite Forall_forall in F1, F2.
    specialize (F1 c Ic). destruct (F2 c Ic) as (X1 & X2).
    split; [exact F1 |]. split; [exact X1 |]. split; [exact X2 |].
    pose proof (Nn _ _ X1). pose proof (Nn _ _ X2).
    destruct (Ne c F1) as [N1 | [N2 | N3]].
    + left. pose proof (Pos _ _ X1 N1). lia.
    + left. pose proof (Pos _ _ X2 N2). lia.
    + right. exact N3.
  - intros C R Due P I O Cu Dl.
    destruct (DvHeaders.dv_rearmed_total d I O Cu Dl) as (deadline & Rk).
    apply (DvFacts.dv_commit_nothing_pending d tsBigWrap deadline C R Due P Rk).
Qed.

Lemma containers_handed_over_hold_events_witness :
  Forall (fun c => nonEmpty c = true /\ 0 < eventsNumber c)
    (handed (outs (@edvsEventTranslator Examples.smallEdvs
                     Examples.edvsResetPending Examples.twoTokens)))
  /\ outs (commit Examples.edvsPastDeadline false false)
     = [ContainerFree emptyContainer]
  /\ Forall (fun c => nonEmpty c = true
                      /\ counted (polaritySlot c) /\ counted (specialSlot c)
                      /\ (0 < slotNumber (polaritySlot c) + slotNumber (specialSlot c)
                          \/ slotEvents (imu6Slot c) <> []))
       (handed (DvExplorer.outs
                  (@DvExplorer.dvExplorerEventTranslator Examples.smallDv
                     DvExplorer.specTimestamps Examples.dvSizeOne
                     Examples.doubleEnd)))
  /\ DvExplorer.outs (DvExplorer.commit Examples.dvPastDeadline false false)
     = [ContainerFree emptyContainer].
Proof.
  destruct (@containers_handed_over_hold_events Examples.smallEdvs Examples.smallDv
              DvExplorer.specTimestamps Examples.edvsResetPending
              Examples.dvSizeOne Examples.twoTokens false)
    as (E1 & _).
  destruct (@containers_handed_over_hold_events Examples.smallEdvs Examples.smallDv
              DvExplorer.specTimestamps Examples.edvsResetPending
              Examples.dvSizeOne Examples.doubleEnd false)
    as (_ & _ & D1 & _).
  destruct (@containers_handed_over_hold_events Examples.smallEdvs Examples.smallDv
              DvExplorer.specTimestamps Examples.edvsPastDeadline
              Examples.dvPastDeadline Examples.twoTokens false)
    as (_ & E2 & _ & D2).
  split; [| split; [| split]].
  - apply E1.
    + unfold consistent. simpl. repeat split. right. reflexivity.
    + reflexivity.
    + reflexivity.
  - destruct E2 as (E2 & _); [| | | | | | | exact E2].
    + unfold consistent. simpl. repeat split. right. reflexivity.
    + unfold ready. simpl. repeat split; discriminate.
    + reflexivity.
    + reflexivity.
    + reflexivity.
    + unfold clockInRange, INT32_MAX. simpl. lia.
    + unfold INT64_MIN. simpl. lia.
  - apply D1.
    + unfold DvExplorer.consistent. simpl. repeat split. right. reflexivity.
    + reflexivity.
    + reflexivity.
  - destruct D2 as (D2 & _); [| | | | | | | | exact D2].
    + unfold DvExplorer.consistent. simpl. repeat split. right. reflexivity.
    + unfold DvExplorer.ready. simpl. repeat split; discriminate.
    + reflexivity.
    + reflexivity.
    + reflexivity.
    + unfold INT32_MAX. simpl. lia.
    + unfold INT32_MAX. simpl. lia.
    + unfold INT64_MIN. simpl. lia.
Defined.
